(** * The execution core of the aiflow workflow orchestrator

  A shallow embedding of the step executor (retry wrapper, error
  classification, condition evaluator), of the template engine and of the
  session state manager, together with the properties their specification
  states about them.

  Sources embedded here:
  - the step executor, [src/unnamed/part_006]: modules [StepExecutor] and
    [Expr].  This is the revision with the hand-written condition
    evaluator, the one the unit tests exercise;
    [src/src/engine/step-executor.ts] holds an earlier prototype whose
    [evaluateCondition] is a placeholder, and is not embedded;
  - the template engine, [src/unnamed/part_008]: module [Template];
  - the state manager, [src/src/state/state-manager.ts]: module [State];
  - the workflow engine, [src/unnamed/part_007]: module [Engine];
  - the schema of retry policies, [src/src/core/workflow-loader.ts].

  Conventions.  Strings are byte strings; the JavaScript string primitives
  are modelled on their ASCII fragment.  Integers that the code counts with
  (retry counters, delays, indices) are [Z].  Everything the host decides
  (IEEE-754 numbers and their printing, locale collation, object identity)
  is gathered in the class [Host]; every theorem holds for every host, and
  the examples run on the reference host [RefHost].  The file system is a
  finite map from paths to contents, with an oracle that decides which
  calls fail. *)

From Stdlib Require Import ZArith Lia Bool List Ascii String.
From stdpp Require Import base option gmap strings.
Import ListNotations.

Set Warnings "-register-all".

Local Open Scope string_scope.
Local Open Scope Z_scope.

(* ===================================================================== *)
(** * JavaScript string primitives *)
(* ===================================================================== *)

Module JsString.

(** [s.startsWith(p)] *)
Fixpoint startsWith (p s : string) : bool :=
  match p, s with
  | EmptyString, _ => true
  | String a p', String b s' => Ascii.eqb a b && startsWith p' s'
  | String _ _, EmptyString => false
  end.

(** [s.includes(p)] *)
Fixpoint includes (p s : string) : bool :=
  startsWith p s ||
  match s with
  | EmptyString => false
  | String _ s' => includes p s'
  end.

(** The string with its characters in reverse order. *)
Fixpoint rev (s : string) : string :=
  match s with
  | EmptyString => EmptyString
  | String c s' => rev s' ++ String c EmptyString
  end.

(** [s.endsWith(p)] *)
Definition endsWith (p s : string) : bool := startsWith (rev p) (rev s).

(** White space of [String.prototype.trim] and of the regular expression
    class [\s], on the ASCII fragment: TAB, LF, VT, FF, CR and SPACE. *)
Definition is_space (c : ascii) : bool :=
  let n := nat_of_ascii c in
  ((9 <=? n) && (n <=? 13))%nat || (n =? 32)%nat.

(** Line terminators, the characters the regular expression [.] refuses. *)
Definition is_newline (c : ascii) : bool :=
  let n := nat_of_ascii c in (n =? 10)%nat || (n =? 13)%nat.

Fixpoint trimStart (s : string) : string :=
  match s with
  | EmptyString => EmptyString
  | String c s' => if is_space c then trimStart s' else s
  end.

Definition trimEnd (s : string) : string := rev (trimStart (rev s)).

(** [s.trim()] *)
Definition trim (s : string) : string := trimEnd (trimStart s).

(** [s.substring(n)] for [0 <= n] *)
Fixpoint drop (n : nat) (s : string) : string :=
  match n, s with
  | O, _ => s
  | S n', String _ s' => drop n' s'
  | S _, EmptyString => EmptyString
  end.

(** [s.substring(0, n)] for [0 <= n] *)
Fixpoint take (n : nat) (s : string) : string :=
  match n, s with
  | O, _ => EmptyString
  | S n', String c s' => String c (take n' s')
  | S _, EmptyString => EmptyString
  end.

(** [s.slice(1, -1)] *)
Definition slice_1_m1 (s : string) : string :=
  take (String.length s - 2) (drop 1 s).

(** [s.split(sep)] for a non-empty separator.  [skip] counts the
    characters of a separator occurrence that are still to be passed over,
    [cur] is the piece being collected. *)
Fixpoint split_aux (sep : string) (skip : nat) (cur : string) (s : string)
  : list string :=
  match s with
  | EmptyString => [cur]
  | String c s' =>
      match skip with
      | S k => split_aux sep k cur s'
      | O =>
          if startsWith sep s
          then cur :: split_aux sep (String.length sep - 1) EmptyString s'
          else split_aux sep O (cur ++ String c EmptyString) s'
      end
  end.

Definition split (sep s : string) : list string := split_aux sep O EmptyString s.

(** [parts.join(sep)] *)
Fixpoint join (sep : string) (parts : list string) : string :=
  match parts with
  | [] => EmptyString
  | [p] => p
  | p :: ps => p ++ sep ++ join sep ps
  end.

Definition lower_char (c : ascii) : ascii :=
  let n := nat_of_ascii c in
  if ((65 <=? n) && (n <=? 90))%nat then ascii_of_nat (n + 32) else c.

Definition upper_char (c : ascii) : ascii :=
  let n := nat_of_ascii c in
  if ((97 <=? n) && (n <=? 122))%nat then ascii_of_nat (n - 32) else c.

Fixpoint map_chars (f : ascii -> ascii) (s : string) : string :=
  match s with
  | EmptyString => EmptyString
  | String c s' => String (f c) (map_chars f s')
  end.

(** [s.toLowerCase()] and [s.toUpperCase()] *)
Definition toLowerCase : string -> string := map_chars lower_char.
Definition toUpperCase : string -> string := map_chars upper_char.

Fixpoint forallb_chars (f : ascii -> bool) (s : string) : bool :=
  match s with
  | EmptyString => true
  | String c s' => f c && forallb_chars f s'
  end.

Definition is_digit (c : ascii) : bool :=
  let n := nat_of_ascii c in ((48 <=? n) && (n <=? 57))%nat.

Definition is_alpha (c : ascii) : bool :=
  let n := nat_of_ascii c in
  ((65 <=? n) && (n <=? 90))%nat || ((97 <=? n) && (n <=? 122))%nat.

(** The class [\w]: letters, digits and the underscore. *)
Definition is_word (c : ascii) : bool :=
  is_alpha c || is_digit c || (nat_of_ascii c =? 95)%nat.

(** Decimal numeral of an integer, as [String(n)] prints a safe integer. *)
Definition digit_char (d : Z) : ascii := ascii_of_nat (48 + Z.to_nat d).

Fixpoint Z_digits (fuel : nat) (n : Z) (acc : string) : string :=
  match fuel with
  | O => acc
  | S f =>
      let acc' := String (digit_char (n mod 10)) acc in
      if n <? 10 then acc' else Z_digits f (n / 10) acc'
  end.

Definition of_Z (z : Z) : string :=
  let n := Z.abs z in
  let ds := Z_digits (S (Z.to_nat (Z.log2 n))) n EmptyString in
  if z <? 0 then String "-" ds else ds.

Definition of_nat (n : nat) : string := of_Z (Z.of_nat n).

(** The last character of a string, when there is one. *)
Fixpoint last_char (s : string) : option ascii :=
  match s with
  | EmptyString => None
  | String c EmptyString => Some c
  | String _ s' => last_char s'
  end.

(** The double quote, as a character and as a string. *)
Definition dquote_char : ascii := ascii_of_nat 34.
Definition dquote : string := String dquote_char EmptyString.

End JsString.

(* ===================================================================== *)
(** * JavaScript values *)
(* ===================================================================== *)

(** The dynamically typed data that contexts, step outputs and thrown
    values hold: the JSON tree extended with [undefined].  The number type
    is left to the host. *)
Inductive value (num : Type) : Type :=
| VUndefined
| VNull
| VBool (b : bool)
| VNum (n : num)
| VStr (s : string)
| VArr (elems : list (value num))
| VObj (fields : list (string * value num)).

Arguments VUndefined {num}.
Arguments VNull {num}.
Arguments VBool {num} b.
Arguments VNum {num} n.
Arguments VStr {num} s.
Arguments VArr {num} elems.
Arguments VObj {num} fields.

(** What the JavaScript host decides.  [number] stands for the IEEE-754
    doubles; [num_of_literal] is [Number(s)] on a decimal literal,
    [num_is_zero n] is [n === 0] (true of both zeros), [num_to_string] is
    [String(n)], [localeCompare] is [String.prototype.localeCompare] in the
    host's locale, and [same_object] is reference identity of two arrays or
    objects, which the value tree does not record. *)
Class Host := {
  number : Type;
  num_of_Z : Z -> number;
  num_of_literal : string -> number;
  num_is_zero : number -> bool;
  num_is_nan : number -> bool;
  num_eqb : number -> number -> bool;
  num_sub : number -> number -> number;
  num_ltb : number -> number -> bool;
  num_leb : number -> number -> bool;
  num_to_string : number -> string;
  localeCompare : string -> string -> number;
  same_object : value number -> value number -> bool
}.

Module Js.

(** Objects as lists of fields, in insertion order. *)
Section Fields.
Context {A : Type}.

(** [fields[k]], when [k] is an own property. *)
Fixpoint assoc (k : string) (fields : list (string * A)) : option A :=
  match fields with
  | [] => None
  | (k', v) :: rest => if String.eqb k k' then Some v else assoc k rest
  end.

(** [{ ...fields, [k]: v }] keeps the position of an existing key. *)
Fixpoint assign (k : string) (v : A) (fields : list (string * A))
  : list (string * A) :=
  match fields with
  | [] => [(k, v)]
  | (k', v') :: rest =>
      if String.eqb k k' then (k, v) :: rest else (k', v') :: assign k v rest
  end.

(** [Object.assign(target, source)], and [{ ...target, ...source }], on
    the field lists. *)
Definition assign_all (target source : list (string * A))
  : list (string * A) :=
  fold_left (fun acc kv => assign (fst kv) (snd kv) acc) source target.

End Fields.

Section WithHost.
Context {host : Host}.

Local Abbreviation val := (value number).

(** [v === null || v === undefined], also written [v == null]. *)
Definition is_nullish (v : val) : bool :=
  match v with
  | VUndefined | VNull => true
  | _ => false
  end.

(** [typeof v === 'object'] *)
Definition typeof_object (v : val) : bool :=
  match v with
  | VNull | VArr _ | VObj _ => true
  | _ => false
  end.

(** [typeof v] *)
Definition typeof (v : val) : string :=
  match v with
  | VUndefined => "undefined"
  | VBool _ => "boolean"
  | VNum _ => "number"
  | VStr _ => "string"
  | VNull | VArr _ | VObj _ => "object"
  end.

(** [Array.isArray(v)] *)
Definition isArray (v : val) : bool :=
  match v with
  | VArr _ => true
  | _ => false
  end.

(** The value is the number [NaN]. *)
Definition is_nan_value (v : val) : bool :=
  match v with
  | VNum n => num_is_nan n
  | _ => false
  end.

(** The value is an array without elements. *)
Definition is_empty_array (v : val) : bool :=
  match v with
  | VArr [] => true
  | _ => false
  end.

(** [Boolean(v)]: [false], [0], [-0], [NaN], [''], [null] and [undefined]
    are falsy, every other value (all arrays and objects) is truthy. *)
Definition toBoolean (v : val) : bool :=
  match v with
  | VUndefined | VNull => false
  | VBool b => b
  | VNum n => negb (num_is_zero n || num_is_nan n)
  | VStr s => negb (String.eqb s EmptyString)
  | VArr _ | VObj _ => true
  end.

(** [String(v)].  An array prints its elements separated by commas, with
    [null] and [undefined] elements printed as the empty string; a plain
    object prints as [[object Object]]. *)
Fixpoint toString (v : val) : string :=
  match v with
  | VUndefined => "undefined"
  | VNull => "null"
  | VBool true => "true"
  | VBool false => "false"
  | VNum n => num_to_string n
  | VStr s => s
  | VArr xs =>
      JsString.join ","
        (List.map (fun x => if is_nullish x then EmptyString else toString x) xs)
  | VObj _ => "[object Object]"
  end.

(** [a === b] *)
Definition strict_eq (a b : val) : bool :=
  match a, b with
  | VUndefined, VUndefined => true
  | VNull, VNull => true
  | VBool x, VBool y => Bool.eqb x y
  | VNum x, VNum y => num_eqb x y
  | VStr x, VStr y => String.eqb x y
  | VArr _, VArr _ | VObj _, VObj _ => same_object a b
  | _, _ => false
  end.

(** The index an array property name denotes: a canonical decimal numeral
    below the length. *)
Definition array_index (k : string) (len : nat) : option nat :=
  let candidates := seq 0 len in
  List.find (fun i => String.eqb (JsString.of_nat i) k) candidates.

(** Own properties of a value: the fields of an object, and [length] and
    the indices of an array. *)
Definition own_property (v : val) (k : string) : option val :=
  match v with
  | VObj fields => assoc k fields
  | VArr xs =>
      if String.eqb k "length" then Some (VNum (num_of_Z (Z.of_nat (List.length xs))))
      else match array_index k (List.length xs) with
           | Some i => nth_error xs i
           | None => None
           end
  | _ => None
  end.

End WithHost.
End Js.

(* ===================================================================== *)
(** * Errors *)
(* ===================================================================== *)

Inductive operation := op_read | op_write.

(** The error classes of [src/core/errors.ts] that the execution core
    throws, next to the plain [Error] and to the errors of the [fs] module,
    which carry a [code] such as [ENOENT]. *)
Inductive error :=
| Error (message : string)
| TemplateError (message : string)
| ValidationError (message : string)
| StepExecutionError (message workflowId stepId : string)
| StateError (message : string) (sessionId : option string)
    (op : option operation)
| SystemError (code message : string).

Definition error_message (e : error) : string :=
  match e with
  | Error m | TemplateError m | ValidationError m
  | StepExecutionError m _ _ | StateError m _ _ | SystemError _ m => m
  end.

(** The outcome of a call that returns or throws. *)
Inductive result (A : Type) :=
| Ok (a : A)
| Throw (e : error).

Arguments Ok {A} a.
Arguments Throw {A} e.

Definition is_ok {A} (r : result A) : bool :=
  match r with
  | Ok _ => true
  | Throw _ => false
  end.

(* ===================================================================== *)
(** * The template engine ([src/unnamed/part_008]) *)
(* ===================================================================== *)

Module Template.

Inductive TokenType :=
| TEXT | VARIABLE | IF_START | IF_END | FOREACH_START | FOREACH_END | ESCAPE.

Record Token := mkToken {
  tok_type : TokenType;
  tok_value : string;
  tok_position : nat
}.

Inductive ASTNode :=
| TextNode (value : string)
| VariableNode (path : string) (filters : list string)
| ConditionalNode (condition : string) (trueBranch : list ASTNode)
    (falseBranch : option (list ASTNode))
| LoopNode (itemName collectionPath : string) (body : list ASTNode).

Definition TokenType_name (t : TokenType) : string :=
  match t with
  | TEXT => "TEXT"
  | VARIABLE => "VARIABLE"
  | IF_START => "IF_START"
  | IF_END => "IF_END"
  | FOREACH_START => "FOREACH_START"
  | FOREACH_END => "FOREACH_END"
  | ESCAPE => "ESCAPE"
  end.

(** ** Tokenizer *)

(** [s.indexOf(c)] *)
Fixpoint indexOf_char (c : ascii) (s : string) : option nat :=
  match s with
  | EmptyString => None
  | String a s' =>
      if Ascii.eqb a c then Some O
      else match indexOf_char c s' with
           | Some i => Some (S i)
           | None => None
           end
  end.

(** The token an expression between the delimiters stands for. *)
Definition expression_token (expression : string) (position : nat) : Token :=
  if JsString.startsWith "if " expression then
    mkToken IF_START (JsString.trim (JsString.drop 3 expression)) position
  else if String.eqb expression "endif" then
    mkToken IF_END EmptyString position
  else if JsString.startsWith "foreach " expression then
    mkToken FOREACH_START (JsString.trim (JsString.drop 8 expression)) position
  else if String.eqb expression "endforeach" then
    mkToken FOREACH_END EmptyString position
  else
    mkToken VARIABLE expression position.

(** [if (textBuffer) tokens.push(TEXT)] *)
Definition flush_text (textBuffer : string) (position : nat) : list Token :=
  if String.eqb textBuffer EmptyString then [] else [mkToken TEXT textBuffer position].

(** The [while (position < template.length)] loop of [tokenize].  [rest]
    is [template.substring(position)]; [fuel] bounds the iterations. *)
Fixpoint tokenize_loop (fuel : nat) (rest : string) (position : nat)
    (textBuffer : string) : option (result (list Token)) :=
  match fuel with
  | O => None
  | S fuel' =>
      match rest with
      | EmptyString => Some (Ok (flush_text textBuffer position))
      | String c rest1 =>
          if JsString.startsWith "\${" rest then
            tokenize_loop fuel' (JsString.drop 3 rest) (position + 3)
              (textBuffer ++ "${")
          else if JsString.startsWith "${" rest then
            let after := JsString.drop 2 rest in
            match indexOf_char "}" after with
            | None =>
                Some (Throw (TemplateError
                  ("Unclosed template expression at position "
                     ++ JsString.of_nat position)))
            | Some k =>
                let expression := JsString.trim (JsString.take k after) in
                match tokenize_loop fuel' (JsString.drop (S k) after)
                        (position + 2 + k + 1) EmptyString with
                | Some (Ok tokens) =>
                    Some (Ok (flush_text textBuffer position
                                ++ expression_token expression position
                                :: tokens)%list)
                | other => other
                end
            end
          else
            tokenize_loop fuel' rest1 (position + 1)
              (textBuffer ++ String c EmptyString)
      end
  end.

(** [tokenize(template)].  The loop consumes a character at every turn, so
    the fuel never runs out ([tokenize_loop_total]). *)
Definition tokenize (template : string) : result (list Token) :=
  match tokenize_loop (S (String.length template)) template 0 EmptyString with
  | Some r => r
  | None => Throw (Error "unreachable")
  end.

(** ** Parser *)

(** The names [FILTERS] defines. *)
Definition is_filter_name (name : string) : bool :=
  existsb (String.eqb name)
    ["uppercase"; "lowercase"; "truncate"; "capitalize"; "trim"; "default"].

(** [parseVariable(expression)] *)
Definition parseVariable (expression : string) : result ASTNode :=
  let parts := List.map JsString.trim (JsString.split "|" expression) in
  let path := hd EmptyString parts in
  let filters := tl parts in
  let filterName f := JsString.trim (hd EmptyString (JsString.split "(" f)) in
  match List.find (fun f => negb (is_filter_name (filterName f))) filters with
  | Some bad => Throw (TemplateError ("Unknown filter: " ++ filterName bad))
  | None => Ok (VariableNode path filters)
  end.

Fixpoint span_chars (p : ascii -> bool) (s : string) : string * string :=
  match s with
  | EmptyString => (EmptyString, EmptyString)
  | String c s' =>
      if p c then let '(a, b) := span_chars p s' in (String c a, b)
      else (EmptyString, s)
  end.

(** The tail [\s+(.+)$] of the [foreach] pattern on [s]: the white space is
    matched greedily and given back one character at a time until what
    follows is non-empty and free of line terminators.  [k] is the number
    of leading white-space characters still to try. *)
Fixpoint ws_then_rest (k : nat) (s : string) : option string :=
  match k with
  | O => None
  | S k' =>
      let rest := JsString.drop k s in
      if negb (String.eqb rest EmptyString)
         && JsString.forallb_chars (fun c => negb (JsString.is_newline c)) rest
      then Some rest
      else ws_then_rest k' s
  end.

(** [loopExpr.match(/^(\w+)\s+in\s+(.+)$/)] *)
Definition loop_header (loopExpr : string) : option (string * string) :=
  let '(itemName, r1) := span_chars JsString.is_word loopExpr in
  let '(ws1, r2) := span_chars JsString.is_space r1 in
  if String.eqb itemName EmptyString || String.eqb ws1 EmptyString then None
  else if JsString.startsWith "in" r2 then
    let r3 := JsString.drop 2 r2 in
    let '(ws2, _) := span_chars JsString.is_space r3 in
    match ws_then_rest (String.length ws2) r3 with
    | Some collectionPath => Some (itemName, collectionPath)
    | None => None
    end
  else None.

Definition invalid_foreach (loopExpr : string) : error :=
  TemplateError ("Invalid foreach syntax: " ++ loopExpr
                   ++ ". Expected: " ++ JsString.dquote ++ "item in collection" ++ JsString.dquote).

(** [parseLoop(tokens, startIndex)]: the header is matched first, then the
    body is read by [body], the loop of [parseLoop]. *)
Definition parseLoopWith
    (body : string -> string -> list ASTNode -> list Token ->
            option (result (ASTNode * list Token)))
    (loopExpr : string) (rest : list Token)
  : option (result (ASTNode * list Token)) :=
  match loop_header loopExpr with
  | None => Some (Throw (invalid_foreach loopExpr))
  | Some (itemName, collectionPath) => body itemName collectionPath [] rest
  end.

(** The [while (index < tokens.length)] loops of [parseConditional] and of
    [parseLoop].  [tokens] is the token array from [index] on; the result
    carries what follows the block, which stands for [nextIndex]. *)
Fixpoint parseConditionalBody (fuel : nat) (condition : string)
    (trueBranch : list ASTNode) (tokens : list Token)
  : option (result (ASTNode * list Token)) :=
  match fuel with
  | O => None
  | S fuel' =>
      match tokens with
      | [] => Some (Throw (TemplateError "Unclosed conditional block"))
      | token :: rest =>
          match tok_type token with
          | IF_END => Some (Ok (ConditionalNode condition trueBranch None, rest))
          | IF_START =>
              match parseConditionalBody fuel' (tok_value token) [] rest with
              | Some (Ok (node, rest')) =>
                  parseConditionalBody fuel' condition (trueBranch ++ [node]) rest'
              | other => other
              end
          | FOREACH_START =>
              match parseLoopWith (parseLoopBody fuel') (tok_value token) rest with
              | Some (Ok (node, rest')) =>
                  parseConditionalBody fuel' condition (trueBranch ++ [node]) rest'
              | other => other
              end
          | TEXT =>
              parseConditionalBody fuel' condition
                (trueBranch ++ [TextNode (tok_value token)]) rest
          | VARIABLE =>
              match parseVariable (tok_value token) with
              | Ok node =>
                  parseConditionalBody fuel' condition (trueBranch ++ [node]) rest
              | Throw e => Some (Throw e)
              end
          | _ =>
              Some (Throw (TemplateError
                ("Unexpected token in conditional at position "
                   ++ JsString.of_nat (tok_position token))))
          end
      end
  end
with parseLoopBody (fuel : nat) (itemName collectionPath : string)
    (body : list ASTNode) (tokens : list Token)
  : option (result (ASTNode * list Token)) :=
  match fuel with
  | O => None
  | S fuel' =>
      match tokens with
      | [] => Some (Throw (TemplateError "Unclosed foreach block"))
      | token :: rest =>
          match tok_type token with
          | FOREACH_END => Some (Ok (LoopNode itemName collectionPath body, rest))
          | IF_START =>
              match parseConditionalBody fuel' (tok_value token) [] rest with
              | Some (Ok (node, rest')) =>
                  parseLoopBody fuel' itemName collectionPath (body ++ [node]) rest'
              | other => other
              end
          | FOREACH_START =>
              match parseLoopWith (parseLoopBody fuel') (tok_value token) rest with
              | Some (Ok (node, rest')) =>
                  parseLoopBody fuel' itemName collectionPath (body ++ [node]) rest'
              | other => other
              end
          | TEXT =>
              parseLoopBody fuel' itemName collectionPath
                (body ++ [TextNode (tok_value token)]) rest
          | VARIABLE =>
              match parseVariable (tok_value token) with
              | Ok node =>
                  parseLoopBody fuel' itemName collectionPath (body ++ [node]) rest
              | Throw e => Some (Throw e)
              end
          | _ =>
              Some (Throw (TemplateError
                ("Unexpected token in loop at position "
                   ++ JsString.of_nat (tok_position token))))
          end
      end
  end.

(** The outcome of parsing a conditional block, with [condition] put in
    the place of the condition of the block. *)
Definition with_condition (condition : string)
    (r : option (result (ASTNode * list Token)))
  : option (result (ASTNode * list Token)) :=
  match r with
  | Some (Ok (ConditionalNode _ trueBranch falseBranch, rest)) =>
      Some (Ok (ConditionalNode condition trueBranch falseBranch, rest))
  | other => other
  end.

(** A block parser, given enough fuel for the tokens, comes to an end, and
    what it leaves is shorter than what it was given. *)
Definition block_parser_ok (fuel : nat)
    (parser : list ASTNode -> list Token -> option (result (ASTNode * list Token)))
  : Prop :=
  forall acc tokens,
    (List.length tokens < fuel)%nat ->
    exists r, parser acc tokens = Some r
              /\ (forall node rest, r = Ok (node, rest) ->
                                    (List.length rest < List.length tokens)%nat).

(** [parseConditional(tokens, startIndex)] and [parseLoop(tokens,
    startIndex)], given the opening token and the tokens after it. *)
Definition parseConditional (fuel : nat) (start : Token) (rest : list Token)
  : option (result (ASTNode * list Token)) :=
  parseConditionalBody fuel (tok_value start) [] rest.

Definition parseLoop (fuel : nat) (start : Token) (rest : list Token)
  : option (result (ASTNode * list Token)) :=
  parseLoopWith (parseLoopBody fuel) (tok_value start) rest.

(** The loop of [buildAST]. *)
Fixpoint buildAST_loop (fuel : nat) (nodes : list ASTNode) (tokens : list Token)
  : option (result (list ASTNode)) :=
  match fuel with
  | O => None
  | S fuel' =>
      match tokens with
      | [] => Some (Ok nodes)
      | token :: rest =>
          match tok_type token with
          | TEXT => buildAST_loop fuel' (nodes ++ [TextNode (tok_value token)]) rest
          | VARIABLE =>
              match parseVariable (tok_value token) with
              | Ok node => buildAST_loop fuel' (nodes ++ [node]) rest
              | Throw e => Some (Throw e)
              end
          | IF_START =>
              match parseConditional fuel' token rest with
              | Some (Ok (node, rest')) => buildAST_loop fuel' (nodes ++ [node]) rest'
              | Some (Throw e) => Some (Throw e)
              | None => None
              end
          | FOREACH_START =>
              match parseLoop fuel' token rest with
              | Some (Ok (node, rest')) => buildAST_loop fuel' (nodes ++ [node]) rest'
              | Some (Throw e) => Some (Throw e)
              | None => None
              end
          | _ =>
              Some (Throw (TemplateError
                ("Unexpected token " ++ TokenType_name (tok_type token)
                   ++ " at position " ++ JsString.of_nat (tok_position token))))
          end
      end
  end.

(** [buildAST(tokens)].  Every turn of every loop consumes a token, so the
    fuel never runs out ([buildAST_loop_total]). *)
Definition buildAST (tokens : list Token) : result (list ASTNode) :=
  match buildAST_loop (S (List.length tokens)) [] tokens with
  | Some r => r
  | None => Throw (Error "unreachable")
  end.

(** [parse(template)].  The cache of compiled templates only saves work:
    tokenizing and building are functions of the template text. *)
Definition parse (template : string) : result (list ASTNode) :=
  match tokenize template with
  | Ok tokens => buildAST tokens
  | Throw e => Throw e
  end.

(** [validate(template)] *)
Definition validate (template : string) : bool * list string :=
  match parse template with
  | Ok _ => (true, [])
  | Throw e => (false, [error_message e])
  end.

(** ** Filters *)

(** The match of a filter expression in [evaluateVariable]: a name made of
    word characters, followed either by nothing or by one parenthesised
    argument text that holds no closing parenthesis.  The result is the
    name and the argument text when there is one. *)
Definition filter_match (filterExpr : string) : option (string * option string) :=
  let '(name, rest) := span_chars JsString.is_word filterExpr in
  if String.eqb name EmptyString then None
  else if String.eqb rest EmptyString then Some (name, None)
  else if JsString.startsWith "(" rest && JsString.endsWith ")" rest
          && (2 <=? String.length rest)%nat then
    let argsStr := JsString.slice_1_m1 rest in
    if JsString.includes ")" argsStr then None else Some (name, Some argsStr)
  else None.

Fixpoint digits_value (s : string) (acc : Z) (seen : bool) : option Z :=
  match s with
  | EmptyString => if seen then Some acc else None
  | String c s' =>
      if JsString.is_digit c
      then digits_value s' (10 * acc + Z.of_nat (nat_of_ascii c - 48)) true
      else if seen then Some acc else None
  end.

(** [parseInt(s, 10)]; [None] stands for [NaN]. *)
Definition parseInt10 (s : string) : option Z :=
  match JsString.trimStart s with
  | String "-" s' => option_map Z.opp (digits_value s' 0 false)
  | String "+" s' => digits_value s' 0 false
  | s' => digits_value s' 0 false
  end.

Section Evaluation.
Context {host : Host}.

Local Abbreviation val := (value number).

(** The functions of the [FILTERS] table, applied to the current value and
    the arguments written in the template.  Members that the table only
    inherits from [Object.prototype] are not filters of the model. *)
Definition apply_filter (name : string) (v : val) (args : list string)
  : option string :=
  if String.eqb name "uppercase" then Some (JsString.toUpperCase (Js.toString v))
  else if String.eqb name "lowercase" then Some (JsString.toLowerCase (Js.toString v))
  else if String.eqb name "truncate" then
    let str := Js.toString v in
    match parseInt10 (hd "50" args) with
    | Some len =>
        if len <? Z.of_nat (String.length str)
        then Some (JsString.take (Z.to_nat len) str ++ "...")
        else Some str
    | None => Some str
    end
  else if String.eqb name "capitalize" then
    let str := Js.toString v in
    Some (JsString.toUpperCase (JsString.take 1 str)
            ++ JsString.toLowerCase (JsString.drop 1 str))
  else if String.eqb name "trim" then Some (JsString.trim (Js.toString v))
  else if String.eqb name "default" then
    match v with
    | VNull | VUndefined => Some (hd EmptyString args)
    | VStr s => if String.eqb s EmptyString then Some (hd EmptyString args) else Some s
    | _ => Some (Js.toString v)
    end
  else None.

(** The loop of [resolvePath] over the parts of the path. *)
Fixpoint resolve_parts (parts : list string) (v : val) : val :=
  match parts with
  | [] => v
  | part :: parts' =>
      if Js.is_nullish v then VUndefined
      else if Js.typeof_object v then
        match Js.own_property v part with
        | Some v' => resolve_parts parts' v'
        | None => VUndefined
        end
      else VUndefined
  end.

(** [resolvePath(path, context)] *)
Definition resolvePath (path : string) (context : list (string * val)) : val :=
  if String.eqb path "." then VObj context
  else resolve_parts (JsString.split "." path) (VObj context).

(** [isTruthy(value)] *)
Definition isTruthy (v : val) : bool :=
  match v with
  | VNull | VUndefined => false
  | VBool false => false
  | VNum n => negb (num_is_zero n)
  | VStr s => negb (String.eqb s EmptyString)
  | VArr [] => false
  | _ => true
  end.

(** The loop of [evaluateVariable] over the filters of a variable. *)
Fixpoint apply_filters (filters : list string) (v : val) : result val :=
  match filters with
  | [] => Ok v
  | filterExpr :: rest =>
      match filter_match filterExpr with
      | None => Throw (TemplateError ("Invalid filter syntax: " ++ filterExpr))
      | Some (filterName, argsStr) =>
          let args :=
            match argsStr with
            | Some a =>
                if String.eqb a EmptyString then []
                else List.map JsString.trim (JsString.split "," a)
            | None => []
            end in
          match apply_filter filterName v args with
          | None => Throw (TemplateError ("Unknown filter: " ++ filterName))
          | Some s => apply_filters rest (VStr s)
          end
      end
  end.

(** [evaluateVariable(node, context)] *)
Definition evaluateVariable (path : string) (filters : list string)
    (context : list (string * val)) : result string :=
  let value := resolvePath path context in
  let value :=
    if negb (Nat.eqb (List.length filters) 0) && Js.is_nullish value
    then VStr EmptyString else value in
  match apply_filters filters value with
  | Ok v => Ok (if Js.is_nullish v then EmptyString else Js.toString v)
  | Throw e => Throw e
  end.

(** [evaluate(nodes, context)] over a list of nodes, given the evaluation
    of one node. *)
Definition evaluate_list (evalNode : ASTNode -> list (string * val) -> result string)
  : list ASTNode -> list (string * val) -> result string :=
  fix go (nodes : list ASTNode) (context : list (string * val)) : result string :=
    match nodes with
    | [] => Ok EmptyString
    | node :: nodes' =>
        match evalNode node context with
        | Ok s =>
            match go nodes' context with
            | Ok s' => Ok (s ++ s')
            | Throw e => Throw e
            end
        | Throw e => Throw e
        end
    end.

(** One turn of the [switch (node.type)] of [evaluate], with
    [evaluateVariable], [evaluateConditional] and [evaluateLoop] for the
    node kinds. *)
Fixpoint evaluate_node (node : ASTNode) (context : list (string * val))
  : result string :=
  match node with
  | TextNode value => Ok value
  | VariableNode path filters => evaluateVariable path filters context
  | ConditionalNode condition trueBranch falseBranch =>
      let conditionValue := resolvePath condition context in
      if isTruthy conditionValue then
        evaluate_list evaluate_node trueBranch context
      else
        match falseBranch with
        | Some nodes => evaluate_list evaluate_node nodes context
        | None => Ok EmptyString
        end
  | LoopNode itemName collectionPath body =>
      match resolvePath collectionPath context with
      | VArr collection =>
          (fix items (l : list val) : result string :=
             match l with
             | [] => Ok EmptyString
             | item :: l' =>
                 let loopContext := Js.assign itemName item context in
                 match evaluate_list evaluate_node body loopContext with
                 | Ok s =>
                     match items l' with
                     | Ok s' => Ok (s ++ s')
                     | Throw e => Throw e
                     end
                 | Throw e => Throw e
                 end
             end) collection
      | _ => Ok EmptyString
      end
  end.

(** [evaluate(nodes, context)] *)
Definition evaluate : list ASTNode -> list (string * val) -> result string :=
  evaluate_list evaluate_node.

(** [evaluateConditional(node, context)] *)
Definition evaluateConditional (condition : string) (trueBranch : list ASTNode)
    (falseBranch : option (list ASTNode)) (context : list (string * val))
  : result string :=
  evaluate_node (ConditionalNode condition trueBranch falseBranch) context.

(** [render(template, context)] *)
Definition render (template : string) (context : list (string * val))
  : result string :=
  match parse template with
  | Ok ast => evaluate ast context
  | Throw e => Throw e
  end.

End Evaluation.
End Template.

(* ===================================================================== *)
(** * The condition evaluator ([src/unnamed/part_006]) *)
(* ===================================================================== *)

Module Expr.

Inductive operator :=
| OpSEq    (* === *)
| OpEq     (* == *)
| OpSNe    (* !== *)
| OpNe     (* != *)
| OpLe     (* <= *)
| OpGe     (* >= *)
| OpLt     (* < *)
| OpGt     (* > *).

Definition operator_text (o : operator) : string :=
  match o with
  | OpSEq => "===" | OpEq => "==" | OpSNe => "!==" | OpNe => "!="
  | OpLe => "<=" | OpGe => ">=" | OpLt => "<" | OpGt => ">"
  end.

(** The alternatives of the operator group, in the order the pattern
    tries them. *)
Definition operators : list operator :=
  [OpSEq; OpEq; OpSNe; OpNe; OpLe; OpGe; OpLt; OpGt].

Definition no_newline (s : string) : bool :=
  JsString.forallb_chars (fun c => negb (JsString.is_newline c)) s.

(** A greedy [\s*] followed by [k]: the continuation is tried after [n]
    white-space characters, then after [n - 1], down to none. *)
Fixpoint spaces_then {A} (n : nat) (s : string) (k : string -> option A)
  : option A :=
  match k (JsString.drop n s) with
  | Some a => Some a
  | None =>
      match n with
      | O => None
      | S n' => spaces_then n' s k
      end
  end.

Definition leading_spaces (s : string) : nat :=
  String.length (fst (Template.span_chars JsString.is_space s)).

(** [(.+)$]: what remains, non-empty and free of line terminators. *)
Definition rest_of_line (s : string) : option string :=
  if negb (String.eqb s EmptyString) && no_newline s then Some s else None.

(** [(===|==|!==|!=|<=|>=|<|>)\s*(.+)$] at the start of [s]. *)
Definition operator_then_right (s : string) : option (operator * string) :=
  let try_op o :=
    if JsString.startsWith (operator_text o) s then
      let t := JsString.drop (String.length (operator_text o)) s in
      match spaces_then (leading_spaces t) t rest_of_line with
      | Some rhs => Some (o, rhs)
      | None => None
      end
    else None in
  fold_right (fun o later => match try_op o with Some r => Some r | None => later end)
    None operators.

(** The lazy [(.+?)]: [lhs] is the text taken so far, [s] what follows;
    a longer first operand is tried only when the rest of the pattern
    fails after the present one. *)
Fixpoint comparison_scan (lhs s : string) : option (string * operator * string) :=
  let here :=
    if String.eqb lhs EmptyString then None
    else spaces_then (leading_spaces s) s operator_then_right in
  match here with
  | Some (o, rhs) => Some (lhs, o, rhs)
  | None =>
      match s with
      | EmptyString => None
      | String c s' =>
          if JsString.is_newline c then None
          else comparison_scan (lhs ++ String c EmptyString) s'
      end
  end.

(** [expr.match(/^(.+?)\s*(===|==|!==|!=|<=|>=|<|>)\s*(.+)$/)] *)
Definition comparisonMatch (expr : string) : option (string * operator * string) :=
  comparison_scan EmptyString expr.

(** [expr.match(/^\((.+)\)$/)]: the text between the first and the last
    character, when these are the two parentheses and the text is not
    empty and holds no line terminator. *)
Definition parenMatch (expr : string) : option string :=
  if JsString.startsWith "(" expr && JsString.endsWith ")" expr
     && (3 <=? String.length expr)%nat
     && no_newline (JsString.slice_1_m1 expr)
  then Some (JsString.slice_1_m1 expr) else None.

(** The pattern of a number literal: an optional minus sign, digits, and
    optionally a point followed by digits. *)
Definition is_number_literal (s : string) : bool :=
  let body := match s with String "-" s' => s' | _ => s end in
  let '(int_part, rest) := Template.span_chars JsString.is_digit body in
  negb (String.eqb int_part EmptyString)
  && match rest with
     | EmptyString => true
     | String "." frac =>
         negb (String.eqb frac EmptyString)
         && JsString.forallb_chars JsString.is_digit frac
     | _ => false
     end.

Definition is_ident_start (c : ascii) : bool :=
  JsString.is_alpha c || Ascii.eqb c "_" || Ascii.eqb c "$".

Definition is_ident_char (c : ascii) : bool :=
  is_ident_start c || JsString.is_digit c.

Definition is_identifier (s : string) : bool :=
  match s with
  | EmptyString => false
  | String c s' => is_ident_start c && JsString.forallb_chars is_ident_char s'
  end.

(** The pattern of a variable: identifiers separated by points. *)
Definition is_variable_path (s : string) : bool :=
  forallb is_identifier (JsString.split "." s).

(** ** The documented grammar of conditions

    The shapes of a value, as the description of [resolveExpressionValue]
    lists them: the literals [true], [false], [null] and [undefined], a
    number literal, a quoted string, a dotted path of identifiers. *)
Definition is_value_shape (expr : string) : bool :=
  let trimmed := JsString.trim expr in
  String.eqb trimmed "true" || String.eqb trimmed "false"
  || String.eqb trimmed "null" || String.eqb trimmed "undefined"
  || is_number_literal trimmed
  || (JsString.startsWith JsString.dquote trimmed
        && JsString.endsWith JsString.dquote trimmed)
  || (JsString.startsWith "'" trimmed && JsString.endsWith "'" trimmed)
  || is_variable_path trimmed.

(** The condition strings of the documented grammar, rule by rule: a
    conjunction or a disjunction all of whose parts are in the grammar, a
    negation or a parenthesised text of the grammar, a comparison of two
    values, a value.  [fuel] bounds the nesting. *)
Fixpoint in_grammar_fuel (fuel : nat) (expression : string) : bool :=
  match fuel with
  | O => false
  | S fuel' =>
      let expr := JsString.trim expression in
      if JsString.includes "&&" expr then
        forallb (in_grammar_fuel fuel') (List.map JsString.trim (JsString.split "&&" expr))
      else if JsString.includes "||" expr then
        forallb (in_grammar_fuel fuel') (List.map JsString.trim (JsString.split "||" expr))
      else if JsString.startsWith "!" expr then
        in_grammar_fuel fuel' (JsString.trim (JsString.drop 1 expr))
      else
        match parenMatch expr with
        | Some inner => in_grammar_fuel fuel' inner
        | None =>
            match comparisonMatch expr with
            | Some (lhs, _, rhs) =>
                is_value_shape (JsString.trim lhs) && is_value_shape (JsString.trim rhs)
            | None => is_value_shape expr
            end
        end
  end.

Definition in_grammar (expression : string) : bool :=
  in_grammar_fuel (S (String.length expression)) expression.

(** A condition without a conjunction and without a disjunction. *)
Definition no_logical_operator (expression : string) : bool :=
  negb (JsString.includes "&&" expression) && negb (JsString.includes "||" expression).

Section Evaluator.
Context {host : Host}.

Local Abbreviation val := (value number).

(** [current[key]] on an object or an array.  Members inherited from the
    prototypes are not part of the model. *)
Definition get (current : val) (key : string) : val :=
  match Js.own_property current key with
  | Some v => v
  | None => VUndefined
  end.

Fixpoint resolve_keys (keys : list string) (current : val) : val :=
  match keys with
  | [] => current
  | key :: keys' =>
      if Js.is_nullish current || negb (Js.typeof_object current)
      then VUndefined
      else resolve_keys keys' (get current key)
  end.

(** [resolveValue(path, variables)] *)
Definition resolveValue (path : string) (variables : list (string * val)) : val :=
  resolve_keys (JsString.split "." path) (VObj variables).

(** [resolveExpressionValue(expr, variables)] *)
Definition resolveExpressionValue (expr : string) (variables : list (string * val))
  : result val :=
  let trimmed := JsString.trim expr in
  if String.eqb trimmed "true" then Ok (VBool true)
  else if String.eqb trimmed "false" then Ok (VBool false)
  else if String.eqb trimmed "null" then Ok VNull
  else if String.eqb trimmed "undefined" then Ok VUndefined
  else if is_number_literal trimmed then Ok (VNum (num_of_literal trimmed))
  else if (JsString.startsWith JsString.dquote trimmed
             && JsString.endsWith JsString.dquote trimmed)
          || (JsString.startsWith "'" trimmed && JsString.endsWith "'" trimmed)
  then Ok (VStr (JsString.slice_1_m1 trimmed))
  else if is_variable_path trimmed then Ok (resolveValue trimmed variables)
  else Throw (Error ("Cannot resolve expression value: " ++ expr)).

(** [compareValues(left, right)] *)
Definition compareValues (left right : val) : number :=
  if Js.is_nullish left && Js.is_nullish right then num_of_Z 0
  else if Js.is_nullish left then num_of_Z (-1)
  else if Js.is_nullish right then num_of_Z 1
  else
    match left, right with
    | VNum l, VNum r => num_sub l r
    | VStr l, VStr r => localeCompare l r
    | _, _ => localeCompare (Js.toString left) (Js.toString right)
    end.

(** The [switch (operator)] of the comparison case. *)
Definition apply_operator (o : operator) (leftValue rightValue : val) : bool :=
  match o with
  | OpSEq | OpEq => Js.strict_eq leftValue rightValue
  | OpSNe | OpNe => negb (Js.strict_eq leftValue rightValue)
  | OpLt => num_ltb (compareValues leftValue rightValue) (num_of_Z 0)
  | OpLe => num_leb (compareValues leftValue rightValue) (num_of_Z 0)
  | OpGt => num_ltb (num_of_Z 0) (compareValues leftValue rightValue)
  | OpGe => num_leb (num_of_Z 0) (compareValues leftValue rightValue)
  end.

(** [parts.every(f)] and [parts.some(f)]: the parts are visited in
    order, the visit stops at the first part that decides the outcome, and
    an exception raised by [f] ends it. *)
Fixpoint every (f : string -> option (result bool)) (parts : list string)
  : option (result bool) :=
  match parts with
  | [] => Some (Ok true)
  | part :: parts' =>
      match f part with
      | Some (Ok true) => every f parts'
      | other => other
      end
  end.

Fixpoint some (f : string -> option (result bool)) (parts : list string)
  : option (result bool) :=
  match parts with
  | [] => Some (Ok false)
  | part :: parts' =>
      match f part with
      | Some (Ok false) => some f parts'
      | other => other
      end
  end.

(** [safeExpressionEvaluator(expression, variables)], with [fuel]
    bounding the depth of the recursion. *)
Fixpoint safeExpressionEvaluator_fuel (fuel : nat) (expression : string)
    (variables : list (string * val)) : option (result bool) :=
  match fuel with
  | O => None
  | S fuel' =>
      let expr := JsString.trim expression in
      if JsString.includes "&&" expr then
        let parts := List.map JsString.trim (JsString.split "&&" expr) in
        every (fun part => safeExpressionEvaluator_fuel fuel' part variables) parts
      else if JsString.includes "||" expr then
        let parts := List.map JsString.trim (JsString.split "||" expr) in
        some (fun part => safeExpressionEvaluator_fuel fuel' part variables) parts
      else if JsString.startsWith "!" expr then
        match safeExpressionEvaluator_fuel fuel'
                (JsString.trim (JsString.drop 1 expr)) variables with
        | Some (Ok b) => Some (Ok (negb b))
        | other => other
        end
      else
        match parenMatch expr with
        | Some inner => safeExpressionEvaluator_fuel fuel' inner variables
        | None =>
            match comparisonMatch expr with
            | Some (lhs, o, rhs) =>
                match resolveExpressionValue (JsString.trim lhs) variables with
                | Ok leftValue =>
                    match resolveExpressionValue (JsString.trim rhs) variables with
                    | Ok rightValue => Some (Ok (apply_operator o leftValue rightValue))
                    | Throw e => Some (Throw e)
                    end
                | Throw e => Some (Throw e)
                end
            | None =>
                match resolveExpressionValue expr variables with
                | Ok value => Some (Ok (Js.toBoolean value))
                | Throw e => Some (Throw e)
                end
            end
        end
  end.

(** [safeExpressionEvaluator(expression, variables)].  Every recursive
    call is on a strictly shorter string, so the fuel never runs out
    ([safeExpressionEvaluator_fuel_total]). *)
Definition safeExpressionEvaluator (expression : string)
    (variables : list (string * val)) : result bool :=
  match safeExpressionEvaluator_fuel (S (String.length expression))
          expression variables with
  | Some r => r
  | None => Throw (Error "unreachable")
  end.

(** [evaluateCondition(condition, variables)] *)
Definition evaluateCondition (condition : string) (variables : list (string * val))
  : result bool :=
  match safeExpressionEvaluator condition variables with
  | Ok b => Ok b
  | Throw _ => Throw (ValidationError ("Invalid condition: " ++ condition))
  end.

End Evaluator.
End Expr.

(* ===================================================================== *)
(** * The step executor ([src/unnamed/part_006]) *)
(* ===================================================================== *)

Module StepExecutor.

Inductive StepType :=
| ai_prompt | script | validation | loop | conditional
| other_type (name : string).

(** The error patterns, as [RetryErrorPatternSchema] of the workflow
    loader lists them. *)
Inductive RetryErrorPattern :=
| timeout | api_error | network_error | rate_limit | server_error
| authentication_error | validation_error | resource_unavailable
| temporary_failure.

Definition RetryErrorPattern_eqb (a b : RetryErrorPattern) : bool :=
  match a, b with
  | timeout, timeout | api_error, api_error | network_error, network_error
  | rate_limit, rate_limit | server_error, server_error
  | authentication_error, authentication_error
  | validation_error, validation_error
  | resource_unavailable, resource_unavailable
  | temporary_failure, temporary_failure => true
  | _, _ => false
  end.

(** [RetryPolicy].  [backoffMs] is optional here because
    [calculateRetryDelay] provides for a policy without it. *)
Record RetryPolicy := mkRetryPolicy {
  maxAttempts : Z;
  backoffMs : option Z;
  retryOn : option (list RetryErrorPattern)
}.

Inductive Step := mkStep {
  id : string;
  type : StepType;
  agent : option string;
  template : option string;
  command : option string;
  condition : option string;
  steps : option (list Step);
  items : option string;
  retryPolicy : option RetryPolicy;
  expectedExitCode : option Z
}.

(** What the operating system answers to a spawned command: the process
    closes with an exit code (or none) and its output, or it cannot be
    started. *)
Inductive ProcOutcome :=
| Closed (code : option Z) (stdout stderr : string)
| SpawnFailed (message : string).

(** The calls the executor makes that the properties count.
    [EvAttempt] is ghost: it marks a call of [executeStepByType] made by
    the retry wrapper [executeStep]. *)
Inductive Event :=
| EvAttempt (stepId : string) (retryCount : Z)
| EvSleep (ms : Z)
| EvSpawn (command : string).

(** The world a step runs in: the outcome of the n-th spawned process,
    the number of processes spawned so far, and the calls made so far. *)
Record World := mkWorld {
  procs : nat -> ProcOutcome;
  spawned : nat;
  log : list Event
}.

Definition record (e : Event) (w : World) : World :=
  mkWorld (procs w) (spawned w) (log w ++ [e]).

(** [a || b] on an optional string: the first one that is present and
    not empty. *)
Definition truthy_string (o : option string) : bool :=
  match o with
  | Some s => negb (String.eqb s EmptyString)
  | None => false
  end.

Definition unknown_workflow : string := "unknown-workflow".

(** The delays of the [sleep] calls and the attempts of the retry wrapper
    that a log records, in order. *)
Definition sleeps_of (l : list Event) : list Z :=
  flat_map (fun e => match e with EvSleep ms => [ms] | _ => [] end) l.

Definition attempts_of (l : list Event) : list (string * Z) :=
  flat_map (fun e => match e with EvAttempt i rc => [(i, rc)] | _ => [] end) l.

(** No [sleep] and no attempt of the retry wrapper happened between the
    worlds [w] and [w']. *)
Definition same_retry_trace (w w' : World) : Prop :=
  sleeps_of (log w') = sleeps_of (log w)
  /\ attempts_of (log w') = attempts_of (log w).

(** The integers [start], [start + 1], ..., [n] of them. *)
Fixpoint Zrange (start : Z) (n : nat) : list Z :=
  match n with
  | O => []
  | S n' => start :: Zrange (start + 1) n'
  end.

(** The step with the retry policies of all the steps nested in it, and
    its own, removed. *)
Fixpoint strip_retry (step : Step) : Step :=
  match step with
  | mkStep i ty a t c cond children its _ code =>
      mkStep i ty a t c cond
        (match children with
         | Some l => Some (List.map strip_retry l)
         | None => None
         end)
        its None code
  end.

(** Induction on the tree of steps. *)
Fixpoint Step_nested_ind (P : Step -> Prop)
    (H : forall i ty a t c cond children its rp code,
        match children with
        | Some l => Forall P l
        | None => True
        end ->
        P (mkStep i ty a t c cond children its rp code))
    (step : Step) {struct step} : P step :=
  match step with
  | mkStep i ty a t c cond children its rp code =>
      H i ty a t c cond children its rp code
        (match children as o
               return (match o with Some l => Forall P l | None => True end) with
         | Some l0 =>
             (fix all (l : list Step) : Forall P l :=
                match l with
                | [] => @List.Forall_nil Step P
                | x :: l' =>
                    @List.Forall_cons Step P x l' (Step_nested_ind P H x) (all l')
                end) l0
         | None => I
         end)
  end.

Section Executor.
Context {host : Host}.

Local Abbreviation val := (value number).

Record StepResult := mkStepResult {
  outputs : list (string * val);
  shouldContinue : bool;
  nextStepIndex : option Z
}.

(** [Context], extended to [StepContext] by the three optional fields. *)
Record Context := mkContext {
  ctx_inputs : list (string * val);
  variables : list (string * val);
  ctx_outputs : list (string * val);
  ctx_sessionId : option string;
  ctx_stepId : option string;
  ctx_retryCount : option Z
}.

(** Anything a [catch] clause may receive: an error object or any other
    value. *)
Inductive thrown :=
| ThrownError (e : error)
| ThrownValue (v : val).

(** Computations that read and change the world and return or throw. *)
Definition M (A : Type) : Type := World -> result A * World.

(** [sleep(ms)] *)
Definition sleep (ms : Z) : M unit := fun w => (Ok tt, record (EvSleep ms) w).

(** [runCommand(command, expectedExitCode)] *)
Definition runCommand (command : string) (expected : Z)
  : M (string * string * Z) :=
  fun w =>
    let w' := mkWorld (procs w) (S (spawned w)) (log w ++ [EvSpawn command]) in
    match procs w (spawned w) with
    | Closed code stdout stderr =>
        let exitCode := match code with Some c => c | None => -1 end in
        if exitCode =? expected
        then (Ok (JsString.trim stdout, JsString.trim stderr, exitCode), w')
        else (Throw (Error ("Command failed with exit code "
                              ++ JsString.of_Z exitCode ++ ". stderr: " ++ stderr)), w')
    | SpawnFailed message =>
        (Throw (Error ("Failed to execute command: " ++ message)), w')
    end.

(** [executeAIPrompt(step, context)] *)
Definition executeAIPrompt (step : Step) (context : Context) : M StepResult :=
  fun w =>
    if negb (truthy_string (template step)) && negb (truthy_string (agent step))
    then (Throw (StepExecutionError
                   "AI prompt step requires either template or agent configuration"
                   unknown_workflow (id step)), w)
    else
      let rendered :=
        match template step with
        | Some t =>
            if truthy_string (template step)
            then Template.render t (variables context) else Ok EmptyString
        | None => Ok EmptyString
        end in
      match rendered with
      | Throw e => (Throw e, w)
      | Ok _ =>
          let prompt_used :=
            match template step with
            | Some t => if truthy_string (template step) then t
                        else "Agent-specific prompt"
            | None => "Agent-specific prompt"
            end in
          (Ok (mkStepResult
                 [("ai_response",
                   VStr "Placeholder AI response - AI Interface not yet implemented");
                  ("prompt_used", VStr prompt_used)]
                 true None), w)
      end.

(** [executeScript(step, context)] *)
Definition executeScript (step : Step) (context : Context) : M StepResult :=
  fun w =>
    match command step with
    | Some c =>
        if String.eqb c EmptyString
        then (Throw (StepExecutionError "Script step requires command configuration"
                       unknown_workflow (id step)), w)
        else
          match Template.render c (variables context) with
          | Throw e => (Throw e, w)
          | Ok cmd =>
              let expected :=
                match expectedExitCode step with Some z => z | None => 0 end in
              match runCommand cmd expected w with
              | (Ok (stdout, stderr, exitCode), w') =>
                  (Ok (mkStepResult
                         [("stdout", VStr stdout); ("stderr", VStr stderr);
                          ("exitCode", VNum (num_of_Z exitCode));
                          ("command", VStr cmd)]
                         true None), w')
              | (Throw e, w') =>
                  (Throw (StepExecutionError
                            ("Script execution failed: " ++ error_message e)
                            unknown_workflow (id step)), w')
              end
          end
    | None =>
        (Throw (StepExecutionError "Script step requires command configuration"
                  unknown_workflow (id step)), w)
    end.

(** [executeValidation(step, context)] *)
Definition executeValidation (step : Step) (context : Context) : M StepResult :=
  fun w =>
    if negb (truthy_string (condition step))
    then (Throw (StepExecutionError "Validation step requires condition configuration"
                   unknown_workflow (id step)), w)
    else
      match Template.render (default EmptyString (condition step)) (variables context) with
      | Throw e => (Throw e, w)
      | Ok cond =>
          match Expr.evaluateCondition cond (variables context) with
          | Throw e => (Throw e, w)
          | Ok false => (Throw (ValidationError ("Validation failed: " ++ cond)), w)
          | Ok true =>
              (Ok (mkStepResult
                     [("validated", VBool true); ("condition", VStr cond)]
                     true None), w)
          end
      end.

(** The [for (const subStep of step.steps)] loops of [executeLoop] and of
    [executeConditional]: every child is run by [exec], its outputs are
    merged into the accumulator, and a child that asks not to continue
    ends the loop.  An exception of a child ends it as well. *)
Fixpoint run_substeps (exec : Step -> Context -> M StepResult)
    (subSteps : list Step) (context : Context)
    (acc : list (string * val)) : M (list (string * val)) :=
  fun w =>
    match subSteps with
    | [] => (Ok acc, w)
    | subStep :: rest =>
        match exec subStep context w with
        | (Ok stepResult, w') =>
            let acc' := Js.assign_all acc (outputs stepResult) in
            if shouldContinue stepResult
            then run_substeps exec rest context acc' w'
            else (Ok acc', w')
        | (Throw e, w') => (Throw e, w')
        end
    end.

(** The variables of one iteration of a loop step. *)
Definition iteration_variables (vars : list (string * val)) (item : val)
    (i : nat) (n : nat) : list (string * val) :=
  Js.assign "last" (VBool (Z.of_nat i =? Z.of_nat n - 1))
    (Js.assign "first" (VBool (Nat.eqb i 0))
       (Js.assign "index" (VNum (num_of_Z (Z.of_nat i)))
          (Js.assign "item" item vars))).

Definition with_variables (context : Context) (vars : list (string * val))
  : Context :=
  mkContext (ctx_inputs context) vars (ctx_outputs context)
    (ctx_sessionId context) (ctx_stepId context) (ctx_retryCount context).

(** The [for (let i = 0; i < items.length; i++)] loop of [executeLoop];
    [todo] holds the items from index [i] on, [n] is [items.length]. *)
Fixpoint run_iterations (exec : Step -> Context -> M StepResult)
    (subSteps : list Step) (context : Context) (todo : list val) (i n : nat)
    (iterations : list val) : M (list val) :=
  fun w =>
    match todo with
    | [] => (Ok iterations, w)
    | item :: todo' =>
        let iterationContext :=
          with_variables context
            (iteration_variables (variables context) item i n) in
        match run_substeps exec subSteps iterationContext [] w with
        | (Ok iterationOutputs, w') =>
            let entry :=
              VObj [("index", VNum (num_of_Z (Z.of_nat i)));
                    ("item", item);
                    ("outputs", VObj iterationOutputs)] in
            run_iterations exec subSteps context todo' (S i) n
              (iterations ++ [entry]) w'
        | (Throw e, w') => (Throw e, w')
        end
    end.

(** [executeLoop(step, context)], given the dispatch for the children. *)
Definition executeLoopWith (exec : Step -> Context -> M StepResult)
    (stepId : string) (itemsPath : option string) (subSteps : option (list Step))
    (context : Context) : M StepResult :=
  fun w =>
    match subSteps with
    | Some children =>
        if negb (truthy_string itemsPath)
        then (Throw (StepExecutionError
                       "Loop step requires items and steps configuration"
                       unknown_workflow stepId), w)
        else
          match Expr.resolveValue (default EmptyString itemsPath) (variables context) with
          | VArr elems =>
              let n := List.length elems in
              match run_iterations exec children context elems 0 n [] w with
              | (Ok iterations, w') =>
                  (Ok (mkStepResult
                         [("iterations", VArr iterations);
                          ("total_count", VNum (num_of_Z (Z.of_nat n)))]
                         true None), w')
              | (Throw e, w') => (Throw e, w')
              end
          | v =>
              (Throw (StepExecutionError
                        ("Loop items must be an array, got " ++ Js.typeof v)
                        unknown_workflow stepId), w)
          end
    | None =>
        (Throw (StepExecutionError
                  "Loop step requires items and steps configuration"
                  unknown_workflow stepId), w)
    end.

(** [executeConditional(step, context)], given the dispatch for the
    children. *)
Definition executeConditionalWith (exec : Step -> Context -> M StepResult)
    (stepId : string) (cond : option string) (subSteps : option (list Step))
    (context : Context) : M StepResult :=
  fun w =>
    match subSteps with
    | Some children =>
        if negb (truthy_string cond)
        then (Throw (StepExecutionError
                       "Conditional step requires condition and steps configuration"
                       unknown_workflow stepId), w)
        else
          match Template.render (default EmptyString cond) (variables context) with
          | Throw e => (Throw e, w)
          | Ok rendered =>
              match Expr.evaluateCondition rendered (variables context) with
              | Throw e => (Throw e, w)
              | Ok shouldExecute =>
                  let base := [("condition", VStr rendered);
                               ("executed", VBool shouldExecute)] in
                  if shouldExecute then
                    match run_substeps exec children context [] w with
                    | (Ok stepOutputs, w') =>
                        (Ok (mkStepResult
                               (base ++ [("outputs", VObj stepOutputs)])
                               true None), w')
                    | (Throw e, w') => (Throw e, w')
                    end
                  else (Ok (mkStepResult base true None), w)
              end
          end
    | None =>
        (Throw (StepExecutionError
                  "Conditional step requires condition and steps configuration"
                  unknown_workflow stepId), w)
    end.

Definition type_name (t : StepType) : string :=
  match t with
  | ai_prompt => "ai-prompt"
  | script => "script"
  | validation => "validation"
  | loop => "loop"
  | conditional => "conditional"
  | other_type name => name
  end.

(** [executeStepByType(step, context)]: the dispatch on the step type.
    Loop and conditional steps run their children through this same
    dispatch. *)
Fixpoint executeStepByType (step : Step) (context : Context) {struct step}
  : M StepResult :=
  match step with
  | mkStep sid ty _ _ _ cond children itemsPath _ _ =>
      match ty with
      | ai_prompt => executeAIPrompt step context
      | script => executeScript step context
      | validation => executeValidation step context
      | loop => executeLoopWith executeStepByType sid itemsPath children context
      | conditional =>
          executeConditionalWith executeStepByType sid cond children context
      | other_type name =>
          fun w =>
            (Throw (StepExecutionError ("Unknown step type: " ++ name)
                      unknown_workflow sid), w)
      end
  end.

Definition executeLoop : Step -> Context -> M StepResult :=
  fun step => executeLoopWith executeStepByType (id step) (items step) (steps step).

Definition executeConditional : Step -> Context -> M StepResult :=
  fun step =>
    executeConditionalWith executeStepByType (id step) (condition step) (steps step).

(** ** Retry policy *)

(** The chain of tests of [classifyError] on the lower-cased message. *)
Definition classify_message (message : string) : RetryErrorPattern :=
  if JsString.includes "timeout" message then timeout
  else if JsString.includes "network" message
          || JsString.includes "connection" message then network_error
  else if JsString.includes "rate limit" message then rate_limit
  else if JsString.includes "server error" message
          || JsString.includes "500" message then server_error
  else if JsString.includes "auth" message then authentication_error
  else if JsString.includes "validation" message then validation_error
  else if JsString.includes "unavailable" message
          || JsString.includes "busy" message then resource_unavailable
  else temporary_failure.

(** [classifyError(error)] *)
Definition classifyError (error : thrown) : RetryErrorPattern :=
  match error with
  | ThrownError e => classify_message (JsString.toLowerCase (error_message e))
  | ThrownValue v =>
      if negb (Js.toBoolean v) then temporary_failure
      else classify_message (JsString.toLowerCase (Js.toString v))
  end.

(** [shouldRetry(step, error, retryCount)] *)
Definition shouldRetry (step : Step) (error : thrown) (retryCount : Z) : bool :=
  match retryPolicy step with
  | None => false
  | Some policy =>
      if maxAttempts policy <=? retryCount then false
      else
        match retryOn policy with
        | Some patterns =>
            existsb (RetryErrorPattern_eqb (classifyError error)) patterns
        | None => true
        end
  end.

(** [calculateRetryDelay(retryPolicy, retryCount)], for [0 <= retryCount].
    [backoffMs || 1000] takes the default when the field is missing and
    when it is [0]. *)
Definition calculateRetryDelay (policy : option RetryPolicy) (retryCount : Z) : Z :=
  match policy with
  | None => 1000
  | Some p =>
      let baseDelay :=
        match backoffMs p with
        | Some b => if b =? 0 then 1000 else b
        | None => 1000
        end in
      baseDelay * 2 ^ retryCount
  end.

(** The [StepContext] that [executeStep] builds. *)
Definition stepContextOf (step : Step) (context : Context)
    (sessionId : string) (retryCount : Z) : Context :=
  mkContext (ctx_inputs context) (variables context) (ctx_outputs context)
    (Some sessionId) (Some (id step)) (Some retryCount).

(** [executeStep(step, context, sessionId, retryCount)], with [fuel]
    bounding the number of attempts. *)
Fixpoint executeStep_fuel (fuel : nat) (step : Step) (context : Context)
    (sessionId : string) (retryCount : Z) (w : World)
  : option (result StepResult * World) :=
  match fuel with
  | O => None
  | S fuel' =>
      let stepContext := stepContextOf step context sessionId retryCount in
      match executeStepByType step stepContext
              (record (EvAttempt (id step) retryCount) w) with
      | (Ok r, w1) => Some (Ok r, w1)
      | (Throw error, w1) =>
          if shouldRetry step (ThrownError error) retryCount then
            let delay := calculateRetryDelay (retryPolicy step) retryCount in
            let '(_, w2) := sleep delay w1 in
            executeStep_fuel fuel' step context sessionId (retryCount + 1) w2
          else Some (Throw error, w1)
      end
  end.

(** The number of attempts that [executeStep] can make from [retryCount]
    on: one without a policy, and one more than the retries the policy
    still allows with one. *)
Definition attempts_bound (step : Step) (retryCount : Z) : nat :=
  match retryPolicy step with
  | None => 1
  | Some policy => S (Z.to_nat (maxAttempts policy - retryCount))
  end.

(** [executeStep(step, context, sessionId, retryCount)].  The fuel never
    runs out ([executeStep_fuel_total]). *)
Definition executeStep (step : Step) (context : Context) (sessionId : string)
    (retryCount : Z) : M StepResult :=
  fun w =>
    match executeStep_fuel (attempts_bound step retryCount) step context
            sessionId retryCount w with
    | Some r => r
    | None => (Throw (Error "unreachable"), w)
    end.

End Executor.

(** ** Notions the properties of script steps are stated with *)

(** The process closed with the exit code [expected]. *)
Definition exits_with (expected : Z) (p : ProcOutcome) : bool :=
  match p with
  | Closed code _ _ => (match code with Some c => c | None => -1 end) =? expected
  | SpawnFailed _ => false
  end.

(** [step.expectedExitCode || 0] *)
Definition expected_code (step : Step) : Z :=
  match expectedExitCode step with Some z => z | None => 0 end.

(** ** Notions the properties of the children of a step are stated with *)

Section Children.
Context {host : Host}.

(** The children [cs] of a step run one after the other from the world
    [w], each from the world the one before it left: they return the
    results [rs] and leave the world [w']. *)
Inductive children_run (context : Context)
  : list Step -> World -> list StepResult -> World -> Prop :=
| children_run_nil (w : World) : children_run context [] w [] w
| children_run_cons (c : Step) (cs : list Step) (w w1 w' : World)
    (r : StepResult) (rs : list StepResult) :
    executeStepByType c context w = (Ok r, w1) ->
    children_run context cs w1 rs w' ->
    children_run context (c :: cs) w (r :: rs) w'.

(** The output fields of the results [rs], in the order they are
    written. *)
Definition outputs_written (rs : list StepResult) : list (string * value number) :=
  List.concat (List.map outputs rs).

End Children.

End StepExecutor.

(* ===================================================================== *)
(** * The state manager ([src/src/state/state-manager.ts]) *)
(* ===================================================================== *)

Module State.

Inductive WorkflowStatus := running | paused | completed | failed.

Definition WorkflowStatus_eqb (a b : WorkflowStatus) : bool :=
  match a, b with
  | running, running | paused, paused | completed, completed
  | failed, failed => true
  | _, _ => false
  end.

Definition status_name (s : WorkflowStatus) : string :=
  match s with
  | running => "running"
  | paused => "paused"
  | completed => "completed"
  | failed => "failed"
  end.

(** [Object.keys(this.statusDirs)], in the order the constructor sets
    them. *)
Definition all_statuses : list WorkflowStatus :=
  [running; paused; completed; failed].

Inductive StepStatus := success | step_failed | skipped | pending.

(** The calls of the [fs] module. *)
Inductive FsCall :=
| Mkdir (path : string)
| WriteFile (path : string)
| Rename (oldPath newPath : string)
| Unlink (path : string)
| Access (path : string)
| ReadFile (path : string).

(** An injected failure of an [fs] call: the error code, and for a write
    whether it leaves a torn file behind. *)
Record Fault := mkFault {
  fault_code : string;
  torn : bool
}.

Definition ENOENT : string := "ENOENT".

(** The calls that only make directories, and those that only read. *)
Definition is_mkdir (c : FsCall * bool) : Prop := exists p ok, c = (Mkdir p, ok).

Definition is_read_call (c : FsCall * bool) : Prop :=
  exists p ok, c = (Access p, ok) \/ c = (ReadFile p, ok).

#[export] Instance WorkflowStatus_eq_dec : EqDecision WorkflowStatus.
Proof. solve_decision. Defined.

(** The state manager stores the values of a session without looking
    into them: [num] is the type of their numbers. *)
Section Manager.
Context {num : Type}.

Local Abbreviation val := (value num).

Record StepExecution := mkStepExecution {
  stepId : string;
  startedAt : Z;
  completedAt : option Z;
  se_status : StepStatus;
  se_inputs : val;
  se_outputs : val;
  se_error : option string;
  se_retryCount : option Z
}.

Record WorkflowSessionState := mkSession {
  sessionId : string;
  workflowId : string;
  status : WorkflowStatus;
  inputs : list (string * val);
  context : list (string * val);
  outputs : list (string * val);
  stepExecutions : list StepExecution;
  currentStepIndex : Z;
  createdAt : Z;
  updatedAt : Z;
  metadata : list (string * val)
}.

(** What a file holds: the JSON text of a session state, which
    [JSON.parse] and [deserializeState] read back as that state, or text
    that does not parse. *)
Inductive FileContent :=
| SessionFile (state : WorkflowSessionState)
| Garbage (text : string).

(** The disk and the rest of the environment of the state manager: the
    files by path, the failure (if any) that the n-th [fs] call meets, the
    calls made so far with their success, the readings of the clock and
    the identifiers [uuidv4] hands out. *)
Record Disk := mkDisk {
  files : gmap string FileContent;
  faults : nat -> option Fault;
  calls : list (FsCall * bool);
  time_at : nat -> Z;
  clock_reads : nat;
  uuids : nat -> string;
  issued : nat
}.

Definition M (A : Type) : Type := Disk -> result A * Disk.

Definition ret {A} (a : A) : M A := fun d => (Ok a, d).

Definition throw {A} (e : error) : M A := fun d => (Throw e, d).

Definition bind {A B} (m : M A) (k : A -> M B) : M B :=
  fun d =>
    match m d with
    | (Ok a, d') => k a d'
    | (Throw e, d') => (Throw e, d')
    end.

(** [try { m } catch (error) { handler(error) }] *)
Definition try_catch {A} (m : M A) (handler : error -> M A) : M A :=
  fun d =>
    match m d with
    | (Ok a, d') => (Ok a, d')
    | (Throw e, d') => handler e d'
    end.

Notation "x <- m ;; k" := (bind m (fun x => k))
  (at level 100, m at next level, right associativity).
Notation "m ;;; k" := (bind m (fun _ => k))
  (at level 100, right associativity).

Definition with_files (d : Disk) (fs : gmap string FileContent)
    (c : FsCall) (ok : bool) : Disk :=
  mkDisk fs (faults d) (calls d ++ [(c, ok)]) (time_at d) (clock_reads d)
    (uuids d) (issued d).

(** The failure the next [fs] call meets. *)
Definition next_fault (d : Disk) : option Fault :=
  faults d (List.length (calls d)).

Definition fs_error (f : Fault) (c : string) : error :=
  SystemError (fault_code f) (fault_code f ++ ": " ++ c).

Definition no_entry (c : string) : error :=
  SystemError ENOENT ("ENOENT: no such file or directory, " ++ c).

(** [fs.mkdir(path, { recursive: true })] *)
Definition fs_mkdir (path : string) : M unit :=
  fun d =>
    match next_fault d with
    | Some f => (Throw (fs_error f "mkdir"), with_files d (files d) (Mkdir path) false)
    | None => (Ok tt, with_files d (files d) (Mkdir path) true)
    end.

(** [fs.writeFile(path, content)].  A failed write leaves the other
    files alone; at [path] it leaves what was there, or a torn file. *)
Definition fs_writeFile (path : string) (content : FileContent) : M unit :=
  fun d =>
    match next_fault d with
    | Some f =>
        let fs := if torn f then <[path := Garbage EmptyString]> (files d)
                  else files d in
        (Throw (fs_error f "write"), with_files d fs (WriteFile path) false)
    | None => (Ok tt, with_files d (<[path := content]> (files d)) (WriteFile path) true)
    end.

(** [fs.rename(oldPath, newPath)]: all or nothing. *)
Definition fs_rename (oldPath newPath : string) : M unit :=
  fun d =>
    match next_fault d with
    | Some f =>
        (Throw (fs_error f "rename"), with_files d (files d) (Rename oldPath newPath) false)
    | None =>
        match files d !! oldPath with
        | Some content =>
            (Ok tt, with_files d (<[newPath := content]> (delete oldPath (files d)))
                      (Rename oldPath newPath) true)
        | None =>
            (Throw (no_entry "rename"),
             with_files d (files d) (Rename oldPath newPath) false)
        end
    end.

(** [fs.unlink(path)] *)
Definition fs_unlink (path : string) : M unit :=
  fun d =>
    match next_fault d with
    | Some f => (Throw (fs_error f "unlink"), with_files d (files d) (Unlink path) false)
    | None =>
        match files d !! path with
        | Some _ => (Ok tt, with_files d (delete path (files d)) (Unlink path) true)
        | None => (Throw (no_entry "unlink"), with_files d (files d) (Unlink path) false)
        end
    end.

(** [fs.access(path)] *)
Definition fs_access (path : string) : M unit :=
  fun d =>
    match next_fault d with
    | Some f => (Throw (fs_error f "access"), with_files d (files d) (Access path) false)
    | None =>
        match files d !! path with
        | Some _ => (Ok tt, with_files d (files d) (Access path) true)
        | None => (Throw (no_entry "access"), with_files d (files d) (Access path) false)
        end
    end.

(** [fs.readFile(path, 'utf-8')] *)
Definition fs_readFile (path : string) : M FileContent :=
  fun d =>
    match next_fault d with
    | Some f => (Throw (fs_error f "open"), with_files d (files d) (ReadFile path) false)
    | None =>
        match files d !! path with
        | Some content => (Ok content, with_files d (files d) (ReadFile path) true)
        | None => (Throw (no_entry "open"), with_files d (files d) (ReadFile path) false)
        end
    end.

(** [new Date()] *)
Definition new_Date : M Z :=
  fun d =>
    (Ok (time_at d (clock_reads d)),
     mkDisk (files d) (faults d) (calls d) (time_at d) (S (clock_reads d))
       (uuids d) (issued d)).

(** [uuidv4()] *)
Definition uuidv4 : M string :=
  fun d =>
    (Ok (uuids d (issued d)),
     mkDisk (files d) (faults d) (calls d) (time_at d) (clock_reads d)
       (uuids d) (S (issued d))).

(** [isFileNotFoundError(error)] *)
Definition isFileNotFoundError (e : error) : bool :=
  match e with
  | SystemError code _ => String.eqb code ENOENT
  | _ => false
  end.

(** [getErrorMessage(error)] *)
Definition getErrorMessage (e : error) : string := error_message e.

Variable stateDir : string.

(** [this.statusDirs[status]] *)
Definition statusDir (s : WorkflowStatus) : string :=
  stateDir ++ "/" ++ status_name s.

(** [getSessionFilePath(sessionId, status)], for a session identifier
    that is a plain file name, as those of [uuidv4] are. *)
Definition getSessionFilePath (sessionId : string) (s : WorkflowStatus) : string :=
  statusDir s ++ "/" ++ sessionId ++ ".json".

(** [initialize()] *)
Definition initialize : M unit :=
  try_catch
    (fs_mkdir stateDir ;;;
     fs_mkdir (statusDir running) ;;;
     fs_mkdir (statusDir paused) ;;;
     fs_mkdir (statusDir completed) ;;;
     fs_mkdir (statusDir failed))
    (fun e =>
       throw (StateError
                ("Failed to initialize state directories: " ++ getErrorMessage e)
                None (Some op_write))).

Definition with_updatedAt (state : WorkflowSessionState) (t : Z)
  : WorkflowSessionState :=
  mkSession (sessionId state) (workflowId state) (status state) (inputs state)
    (context state) (outputs state) (stepExecutions state)
    (currentStepIndex state) (createdAt state) t (metadata state).

(** [saveSession(state)] *)
Definition saveSession (state : WorkflowSessionState) : M unit :=
  initialize ;;;
  let sessionFile := getSessionFilePath (sessionId state) (status state) in
  let tempFile := sessionFile ++ ".tmp" in
  try_catch
    (now <- new_Date ;;
     let stateToSave := with_updatedAt state now in
     fs_writeFile tempFile (SessionFile stateToSave) ;;;
     fs_rename tempFile sessionFile)
    (fun e =>
       try_catch (fs_unlink tempFile) (fun _ => ret tt) ;;;
       throw (StateError
                ("Failed to save session " ++ sessionId state ++ ": "
                   ++ getErrorMessage e)
                (Some (sessionId state)) (Some op_write))).

(** [createSession(workflowId, inputs)] *)
Definition createSession (workflowId : string) (inputs : list (string * val))
  : M string :=
  sessionId <- uuidv4 ;;
  now <- new_Date ;;
  let context := [("inputs", VObj inputs); ("variables", VObj []);
                  ("outputs", VObj [])] in
  let workflowState :=
    mkSession sessionId workflowId running inputs context [] [] 0 now now [] in
  saveSession workflowState ;;;
  ret sessionId.

(** The loop of [findSessionFile] over the status directories. *)
Fixpoint find_in (sessionId : string) (statuses : list WorkflowStatus) : M string :=
  match statuses with
  | [] =>
      throw (StateError ("Session " ++ sessionId ++ " not found in any directory")
               (Some sessionId) (Some op_read))
  | s :: rest =>
      let filePath := getSessionFilePath sessionId s in
      try_catch (fs_access filePath ;;; ret filePath)
                (fun _ => find_in sessionId rest)
  end.

(** [findSessionFile(sessionId)] *)
Definition findSessionFile (sessionId : string) : M string :=
  find_in sessionId all_statuses.

(** [loadSession(sessionId, expectedStatus)] *)
Definition loadSession (sessionId : string) (expectedStatus : option WorkflowStatus)
  : M WorkflowSessionState :=
  sessionFile <-
    match expectedStatus with
    | Some s => ret (getSessionFilePath sessionId s)
    | None => findSessionFile sessionId
    end ;;
  try_catch
    (content <- fs_readFile sessionFile ;;
     match content with
     | SessionFile state => ret state
     | Garbage _ => throw (Error "Unexpected end of JSON input")
     end)
    (fun e =>
       if isFileNotFoundError e
       then throw (StateError ("Session " ++ sessionId ++ " not found")
                     (Some sessionId) (Some op_read))
       else throw (StateError
                     ("Failed to load session " ++ sessionId ++ ": "
                        ++ getErrorMessage e)
                     (Some sessionId) (Some op_read))).

(** [updateSessionStatus(sessionId, newStatus)] *)
Definition updateSessionStatus (sid : string) (newStatus : WorkflowStatus)
  : M unit :=
  currentState <- loadSession sid None ;;
  let currentFile := getSessionFilePath sid (status currentState) in
  now <- new_Date ;;
  let updatedState :=
    mkSession (sessionId currentState) (workflowId currentState) newStatus
      (inputs currentState) (context currentState) (outputs currentState)
      (stepExecutions currentState) (currentStepIndex currentState)
      (createdAt currentState) now (metadata currentState) in
  saveSession updatedState ;;;
  if negb (WorkflowStatus_eqb (status currentState) newStatus)
  then try_catch (fs_unlink currentFile) (fun _ => ret tt)
  else ret tt.

(** [updateContext(sessionId, contextUpdates)] *)
Definition updateContext (sid : string) (contextUpdates : list (string * val))
  : M unit :=
  state <- loadSession sid None ;;
  now <- new_Date ;;
  let updatedState :=
    mkSession (sessionId state) (workflowId state) (status state)
      (inputs state) (Js.assign_all (context state) contextUpdates)
      (outputs state) (stepExecutions state) (currentStepIndex state)
      (createdAt state) now (metadata state) in
  saveSession updatedState.

(** [addStepExecution(sessionId, execution)] *)
Definition addStepExecution (sid : string) (execution : StepExecution)
  : M unit :=
  state <- loadSession sid None ;;
  now <- new_Date ;;
  let updatedState :=
    mkSession (sessionId state) (workflowId state) (status state)
      (inputs state) (context state) (outputs state)
      (stepExecutions state ++ [execution]) (currentStepIndex state + 1)
      (createdAt state) now (metadata state) in
  saveSession updatedState.

(** [deleteSession(sessionId)] *)
Definition deleteSession (sessionId : string) : M unit :=
  try_catch
    (sessionFile <- findSessionFile sessionId ;;
     fs_unlink sessionFile)
    (fun e =>
       if isFileNotFoundError e
       then throw (StateError ("Session " ++ sessionId ++ " not found")
                     (Some sessionId) (Some op_read))
       else throw (StateError
                     ("Failed to delete session " ++ sessionId ++ ": "
                        ++ getErrorMessage e)
                     (Some sessionId) (Some op_write))).

(** ** Notions the properties are stated with *)

(** [d'] comes after [d]: the calls [cs] were added to the log, and the
    oracles of the environment are the same. *)
Definition extends (d d' : Disk) (cs : list (FsCall * bool)) : Prop :=
  calls d' = (calls d ++ cs)%list
  /\ faults d' = faults d
  /\ time_at d' = time_at d
  /\ uuids d' = uuids d.

(** The step index of a session state counts its step executions. *)
Definition counted (state : WorkflowSessionState) : Prop :=
  currentStepIndex state = Z.of_nat (List.length (stepExecutions state)).

(** Every session state that a file of the disk holds is [counted]. *)
Definition all_counted (d : Disk) : Prop :=
  forall path state, files d !! path = Some (SessionFile state) -> counted state.

(** The session [sid] is stored once, in the partition [s], as [state]. *)
Definition stored_only_in (d : Disk) (sid : string) (s : WorkflowStatus)
    (state : WorkflowSessionState) : Prop :=
  files d !! getSessionFilePath sid s = Some (SessionFile state)
  /\ sessionId state = sid
  /\ status state = s
  /\ forall s', s' <> s -> files d !! getSessionFilePath sid s' = None.

(** The disks that the state manager produces from an empty disk by
    creating sessions, recording step executions, merging context
    updates, changing statuses and deleting sessions, whatever failures
    and clock readings the environment chooses in between. *)
Inductive reachable : Disk -> Prop :=
| reach_empty (d : Disk) :
    files d = ∅ -> reachable d
| reach_environment (d d' : Disk) :
    reachable d -> files d' = files d -> reachable d'
| reach_createSession (d : Disk) (workflowId : string)
    (inputs : list (string * val)) :
    reachable d -> reachable (snd (createSession workflowId inputs d))
| reach_addStepExecution (d : Disk) (sid : string) (execution : StepExecution) :
    reachable d -> reachable (snd (addStepExecution sid execution d))
| reach_updateContext (d : Disk) (sid : string)
    (contextUpdates : list (string * val)) :
    reachable d -> reachable (snd (updateContext sid contextUpdates d))
| reach_updateSessionStatus (d : Disk) (sid : string) (newStatus : WorkflowStatus) :
    reachable d -> reachable (snd (updateSessionStatus sid newStatus d))
| reach_deleteSession (d : Disk) (sid : string) :
    reachable d -> reachable (snd (deleteSession sid d)).

End Manager.
End State.

(* ===================================================================== *)
(** * The workflow engine ([src/unnamed/part_007]) *)
(* ===================================================================== *)

Module Engine.

Section WithHost.
Context {host : Host}.
Variable stateDir : string.

Local Abbreviation val := (value number).
Local Abbreviation Session := (@State.WorkflowSessionState number).

(** The parts of a [Workflow] that the engine reads. *)
Record Workflow := mkWorkflow {
  wf_id : string;
  wf_steps : list StepExecutor.Step
}.

(** [WorkflowState], the view of a session that the engine hands out. *)
Record WorkflowState := mkWorkflowState {
  ws_sessionId : string;
  ws_workflowId : string;
  ws_startedAt : Z;
  ws_updatedAt : Z;
  ws_currentStepIndex : Z;
  ws_status : State.WorkflowStatus;
  ws_context : list (string * val);
  ws_stepHistory : list (@State.StepExecution number);
  ws_outputs : list (string * val)
}.

(** The events of [WorkflowEvents], with their payloads. *)
Inductive EngineEvent :=
| EvStarted (sessionId workflowId : string)
| EvStepStarted (sessionId stepId : string)
| EvStepCompleted (sessionId stepId : string) (outputs : list (string * val))
| EvStepFailed (sessionId stepId error : string)
| EvPaused (sessionId stepId : string)
| EvResumed (sessionId stepId : string)
| EvCompleted (sessionId : string) (outputs : list (string * val))
| EvFailed (sessionId error : string).

(** What the engine throws: a [WorkflowError] of its own, or an error of
    the state manager or of the step executor that it lets through. *)
Inductive failure :=
| WorkflowError (message : string) (workflowId : option string)
| Raised (e : error).

Definition failure_message (f : failure) : string :=
  match f with
  | WorkflowError m _ => m
  | Raised e => error_message e
  end.

Inductive outcome (A : Type) :=
| Done (a : A)
| Failed (f : failure).

Arguments Done {A} a.
Arguments Failed {A} f.

(** The environment of the engine: the world of the step executor, the
    disk of the state manager, and the events emitted so far.  Listeners
    are taken not to throw. *)
Record Env := mkEnv {
  world : StepExecutor.World;
  disk : @State.Disk number;
  emitted : list EngineEvent
}.

Definition E (A : Type) : Type := Env -> outcome A * Env.

Definition ret {A} (a : A) : E A := fun env => (Done a, env).

Definition throw {A} (f : failure) : E A := fun env => (Failed f, env).

Definition bind {A B} (m : E A) (k : A -> E B) : E B :=
  fun env =>
    match m env with
    | (Done a, env') => k a env'
    | (Failed f, env') => (Failed f, env')
    end.

(** [try { m } catch (error) { handler(error) }] *)
Definition try_catch {A} (m : E A) (handler : failure -> E A) : E A :=
  fun env =>
    match m env with
    | (Done a, env') => (Done a, env')
    | (Failed f, env') => handler f env'
    end.

Notation "x <- m ;; k" := (bind m (fun x => k))
  (at level 100, m at next level, right associativity).
Notation "m ;;; k" := (bind m (fun _ => k))
  (at level 100, right associativity).

(** A call of the state manager. *)
Definition on_disk {A} (m : @State.M number A) : E A :=
  fun env =>
    match m (disk env) with
    | (Ok a, d) => (Done a, mkEnv (world env) d (emitted env))
    | (Throw e, d) => (Failed (Raised e), mkEnv (world env) d (emitted env))
    end.

(** A call of the step executor. *)
Definition in_world {A} (m : StepExecutor.M A) : E A :=
  fun env =>
    match m (world env) with
    | (Ok a, w) => (Done a, mkEnv w (disk env) (emitted env))
    | (Throw e, w) => (Failed (Raised e), mkEnv w (disk env) (emitted env))
    end.

(** [this.emit(event, payload)] *)
Definition emit (ev : EngineEvent) : E unit :=
  fun env => (Done tt, mkEnv (world env) (disk env) (emitted env ++ [ev])).

(** The field [name] of a context, which the type [Context] declares an
    object; a context without such an object reads as one without
    fields.  The session states that [execute] runs on are those of
    [createSession], whose context holds the three objects. *)
Definition context_object (name : string) (context : list (string * val))
  : list (string * val) :=
  match Js.assoc name context with
  | Some (VObj fields) => fields
  | _ => []
  end.

(** [currentState.context.variables] *)
Definition session_variables (st : Session) : list (string * val) :=
  context_object "variables" (State.context st).

(** [currentState.context], as the step executor reads it. *)
Definition context_of (st : Session) : StepExecutor.Context :=
  StepExecutor.mkContext
    (context_object "inputs" (State.context st))
    (session_variables st)
    (context_object "outputs" (State.context st))
    None None None.

(** The session object after
    [Object.assign(currentState.context.variables, outputs)]. *)
Definition assign_variables (st : Session) (outputs : list (string * val))
  : Session :=
  State.mkSession (State.sessionId st) (State.workflowId st) (State.status st)
    (State.inputs st)
    (Js.assign "variables"
       (VObj (Js.assign_all (session_variables st) outputs))
       (State.context st))
    (State.outputs st) (State.stepExecutions st) (State.currentStepIndex st)
    (State.createdAt st) (State.updatedAt st) (State.metadata st).

(** The session object after [currentState.currentStepIndex = i]. *)
Definition set_currentStepIndex (st : Session) (i : Z) : Session :=
  State.mkSession (State.sessionId st) (State.workflowId st) (State.status st)
    (State.inputs st) (State.context st) (State.outputs st)
    (State.stepExecutions st) i
    (State.createdAt st) (State.updatedAt st) (State.metadata st).

(** The [catch] clause of the loop of [executeSteps]: the failure is
    recorded with the variables as they are at that moment, and a
    [StepExecutionError] that names the step is thrown. *)
Definition record_failure {A} (step : StepExecutor.Step) (st : Session)
    (f : failure) : E A :=
  let errorMessage := failure_message f in
  startedAt <- on_disk State.new_Date ;;
  completedAt <- on_disk State.new_Date ;;
  let execution :=
    State.mkStepExecution (StepExecutor.id step) startedAt (Some completedAt)
      State.step_failed (VObj (session_variables st)) (VObj [])
      (Some errorMessage) None in
  on_disk (State.addStepExecution stateDir (State.sessionId st) execution) ;;;
  emit (EvStepFailed (State.sessionId st) (StepExecutor.id step) errorMessage) ;;;
  throw (Raised (StepExecutionError
                   ("Step " ++ StepExecutor.id step ++ " failed: " ++ errorMessage)
                   "unknown-workflow" (StepExecutor.id step))).

(** One turn of the loop of [executeSteps], for the step of index [i].
    The two calls of the [try] block that can throw are the step itself
    and [addStepExecution]; the [catch] clause sees the session object as
    it is when they do.  The execution record holds a reference to the
    variables, so the inputs that [addStepExecution] writes are the
    variables after the outputs of the step were merged into them. *)
Definition run_step (step : StepExecutor.Step) (i : Z) (st : Session) : E Session :=
  emit (EvStepStarted (State.sessionId st) (StepExecutor.id step)) ;;;
  stepResult <-
    try_catch
      (in_world (StepExecutor.executeStep step (context_of st) (State.sessionId st) 0))
      (record_failure step st) ;;
  startedAt <- on_disk State.new_Date ;;
  completedAt <- on_disk State.new_Date ;;
  let st1 := assign_variables st (StepExecutor.outputs stepResult) in
  let execution :=
    State.mkStepExecution (StepExecutor.id step) startedAt (Some completedAt)
      State.success (VObj (session_variables st1))
      (VObj (StepExecutor.outputs stepResult)) None None in
  try_catch
    (on_disk (State.addStepExecution stateDir (State.sessionId st) execution))
    (record_failure step st1) ;;;
  let st2 := set_currentStepIndex st1 (i + 1) in
  emit (EvStepCompleted (State.sessionId st) (StepExecutor.id step)
          (StepExecutor.outputs stepResult)) ;;;
  ret st2.

(** The loop of [executeSteps] over the steps from index [i] on. *)
Fixpoint run_steps (steps : list StepExecutor.Step) (i : Z) (st : Session)
  : E Session :=
  match steps with
  | [] => ret st
  | step :: rest =>
      st' <- run_step step i st ;;
      run_steps rest (i + 1) st'
  end.

(** [executeSteps(workflow, sessionState)], for a step index that is a
    natural number. *)
Definition executeSteps (workflow : Workflow) (sessionState : Session) : E Session :=
  run_steps
    (skipn (Z.to_nat (State.currentStepIndex sessionState)) (wf_steps workflow))
    (State.currentStepIndex sessionState) sessionState.

(** [mapToWorkflowState(sessionState)] *)
Definition mapToWorkflowState (st : Session) : WorkflowState :=
  mkWorkflowState (State.sessionId st) (State.workflowId st) (State.createdAt st)
    (State.updatedAt st) (State.currentStepIndex st) (State.status st)
    (State.context st) (State.stepExecutions st) (State.outputs st).

(** [execute(workflow, inputs)].  [loadSession] returns a state or
    throws, so the test of its result never fails. *)
Definition execute (workflow : Workflow) (inputs : list (string * val))
  : E WorkflowState :=
  on_disk (State.initialize stateDir) ;;;
  sessionId <- on_disk (State.createSession stateDir (wf_id workflow) inputs) ;;
  emit (EvStarted sessionId (wf_id workflow)) ;;;
  try_catch
    (initialState <- on_disk (State.loadSession stateDir sessionId None) ;;
     finalState <- executeSteps workflow initialState ;;
     on_disk (State.updateSessionStatus stateDir sessionId State.completed) ;;;
     emit (EvCompleted sessionId (State.outputs finalState)) ;;;
     ret (mapToWorkflowState finalState))
    (fun f =>
       on_disk (State.updateSessionStatus stateDir sessionId State.failed) ;;;
       let errorMessage := failure_message f in
       emit (EvFailed sessionId errorMessage) ;;;
       throw (WorkflowError ("Workflow execution failed: " ++ errorMessage)
                (Some (wf_id workflow)))).

(** The identifier [step-<currentStepIndex>] of the pause and resume
    events. *)
Definition step_label (st : Session) : string :=
  "step-" ++ JsString.of_Z (State.currentStepIndex st).

Definition not_implemented : string :=
  "Resume functionality requires workflow definition loading - not yet implemented".

(** [resume(sessionId)]: the [try] block throws at once, so every
    resumption of a paused session goes through the [catch] clause. *)
Definition resume (sessionId : string) : E WorkflowState :=
  on_disk (State.initialize stateDir) ;;;
  sessionState <-
    try_catch (on_disk (State.loadSession stateDir sessionId None))
      (fun _ => throw (WorkflowError ("Session " ++ sessionId ++ " not found") None)) ;;
  if negb (State.WorkflowStatus_eqb (State.status sessionState) State.paused) then
    throw (WorkflowError
             ("Cannot resume session " ++ sessionId ++ " with status "
                ++ State.status_name (State.status sessionState)) None)
  else
    emit (EvResumed sessionId (step_label sessionState)) ;;;
    on_disk (State.updateSessionStatus stateDir sessionId State.failed) ;;;
    emit (EvFailed sessionId not_implemented) ;;;
    throw (WorkflowError ("Resume failed: " ++ not_implemented)
             (Some (State.workflowId sessionState))).

(** [pause(sessionId)] *)
Definition pause (sessionId : string) : E unit :=
  sessionState <-
    try_catch (on_disk (State.loadSession stateDir sessionId None))
      (fun _ => throw (WorkflowError ("Session " ++ sessionId ++ " not found") None)) ;;
  if negb (State.WorkflowStatus_eqb (State.status sessionState) State.running) then
    throw (WorkflowError
             ("Cannot pause session " ++ sessionId ++ " with status "
                ++ State.status_name (State.status sessionState)) None)
  else
    on_disk (State.updateSessionStatus stateDir sessionId State.paused) ;;;
    emit (EvPaused sessionId (step_label sessionState)).

(** [getStatus(sessionId)] *)
Definition getStatus (sessionId : string) : E (option WorkflowState) :=
  try_catch
    (sessionState <- on_disk (State.loadSession stateDir sessionId None) ;;
     ret (Some (mapToWorkflowState sessionState)))
    (fun _ => ret None).

(** ** Notions the properties are stated with *)

(** The session record [b] is [a] after the executions [recs] were
    added to it: nothing else but the time of the update differs. *)
Definition progressed (a b : Session) (recs : list (@State.StepExecution number))
  : Prop :=
  State.sessionId b = State.sessionId a
  /\ State.workflowId b = State.workflowId a
  /\ State.status b = State.status a
  /\ State.inputs b = State.inputs a
  /\ State.context b = State.context a
  /\ State.outputs b = State.outputs a
  /\ State.createdAt b = State.createdAt a
  /\ State.metadata b = State.metadata a
  /\ State.stepExecutions b = (State.stepExecutions a ++ recs)%list
  /\ State.currentStepIndex b
     = State.currentStepIndex a + Z.of_nat (List.length recs).

(** What the loop of [executeSteps] keeps of the session object: all but
    the variables of the context and the step index. *)
Definition same_session (a b : Session) : Prop :=
  State.sessionId b = State.sessionId a
  /\ State.workflowId b = State.workflowId a
  /\ State.status b = State.status a
  /\ State.inputs b = State.inputs a
  /\ State.outputs b = State.outputs a
  /\ State.stepExecutions b = State.stepExecutions a
  /\ State.createdAt b = State.createdAt a
  /\ State.updatedAt b = State.updatedAt a
  /\ State.metadata b = State.metadata a.

(** No call of the file system fails. *)
Definition quiet (env : Env) : Prop :=
  forall n, State.faults (disk env) n = None.

End WithHost.

Arguments Done {A} a.
Arguments Failed {A} f.

End Engine.

(* ===================================================================== *)
(** * A reference host *)
(* ===================================================================== *)

(** A host on which the definitions run: numbers are [NaN] or the decimal
    fraction [mantissa / 10^scale] kept without trailing zeros, strings
    are collated by code unit, and two arrays or objects are taken to be
    the same object when their trees are equal.  It serves the worked
    examples only; no theorem depends on it. *)
Module RefHost.

Inductive rnum :=
| RNaN
| RDec (mantissa : Z) (scale : nat).

Fixpoint normalise (fuel : nat) (m : Z) (scale : nat) : rnum :=
  match fuel, scale with
  | S fuel', S scale' =>
      if m mod 10 =? 0 then normalise fuel' (m / 10) scale' else RDec m scale
  | _, _ => RDec m scale
  end.

Definition dec (m : Z) (scale : nat) : rnum := normalise scale m scale.

Fixpoint digits_to_Z (s : string) (acc : Z) : Z :=
  match s with
  | EmptyString => acc
  | String c s' => digits_to_Z s' (10 * acc + Z.of_nat (nat_of_ascii c - 48))
  end.

Definition of_literal (s : string) : rnum :=
  let '(neg, body) :=
    match s with
    | String "-" s' => (true, s')
    | _ => (false, s)
    end in
  let '(int_part, rest) := Template.span_chars JsString.is_digit body in
  let frac := JsString.drop 1 rest in
  let m := digits_to_Z (int_part ++ frac) 0 in
  dec (if neg then - m else m) (String.length frac).

Definition scaled (a : rnum) (scale : nat) : option Z :=
  match a with
  | RNaN => None
  | RDec m s => Some (m * 10 ^ Z.of_nat (scale - s))
  end.

Definition sub (a b : rnum) : rnum :=
  match a, b with
  | RDec _ sa, RDec _ sb =>
      let s := Nat.max sa sb in
      match scaled a s, scaled b s with
      | Some x, Some y => dec (x - y) s
      | _, _ => RNaN
      end
  | _, _ => RNaN
  end.

Definition sign (a : rnum) : option comparison :=
  match a with
  | RNaN => None
  | RDec m _ => Some (m ?= 0)
  end.

Definition eqb (a b : rnum) : bool :=
  match sign (sub a b) with
  | Some Eq => true
  | _ => false
  end.

Definition ltb (a b : rnum) : bool :=
  match sign (sub a b) with
  | Some Lt => true
  | _ => false
  end.

Definition leb (a b : rnum) : bool :=
  match sign (sub a b) with
  | Some Lt | Some Eq => true
  | _ => false
  end.

Fixpoint pad_zeros (n : nat) (s : string) : string :=
  match n with
  | O => s
  | S n' => pad_zeros n' (String "0" s)
  end.

Definition to_string (a : rnum) : string :=
  match a with
  | RNaN => "NaN"
  | RDec m O => JsString.of_Z m
  | RDec m scale =>
      let p := 10 ^ Z.of_nat scale in
      let n := Z.abs m in
      let frac := JsString.of_Z (n mod p) in
      (if m <? 0 then "-" else EmptyString)
        ++ JsString.of_Z (n / p) ++ "."
        ++ pad_zeros (scale - String.length frac) frac
  end.

Fixpoint string_compare (a b : string) : comparison :=
  match a, b with
  | EmptyString, EmptyString => Eq
  | EmptyString, String _ _ => Lt
  | String _ _, EmptyString => Gt
  | String x a', String y b' =>
      match Nat.compare (nat_of_ascii x) (nat_of_ascii y) with
      | Eq => string_compare a' b'
      | c => c
      end
  end.

Definition collate (a b : string) : rnum :=
  match string_compare a b with
  | Lt => RDec (-1) 0
  | Eq => RDec 0 0
  | Gt => RDec 1 0
  end.

Definition rnum_same (a b : rnum) : bool :=
  match a, b with
  | RNaN, RNaN => true
  | RDec m s, RDec m' s' => (m =? m') && Nat.eqb s s'
  | _, _ => false
  end.

Fixpoint tree_eqb (a b : value rnum) : bool :=
  match a, b with
  | VUndefined, VUndefined => true
  | VNull, VNull => true
  | VBool x, VBool y => Bool.eqb x y
  | VNum x, VNum y => rnum_same x y
  | VStr x, VStr y => String.eqb x y
  | VArr xs, VArr ys =>
      (fix go (xs ys : list (value rnum)) : bool :=
         match xs, ys with
         | [], [] => true
         | x :: xs', y :: ys' => tree_eqb x y && go xs' ys'
         | _, _ => false
         end) xs ys
  | VObj fs, VObj gs =>
      (fix go (fs gs : list (string * value rnum)) : bool :=
         match fs, gs with
         | [], [] => true
         | (k, x) :: fs', (k', y) :: gs' =>
             String.eqb k k' && tree_eqb x y && go fs' gs'
         | _, _ => false
         end) fs gs
  | _, _ => false
  end.

#[export] Instance ref_host : Host := {|
  number := rnum;
  num_of_Z := fun z => RDec z 0;
  num_of_literal := of_literal;
  num_is_zero := fun a => match a with RDec 0 _ => true | _ => false end;
  num_is_nan := fun a => match a with RNaN => true | _ => false end;
  num_eqb := eqb;
  num_sub := sub;
  num_ltb := ltb;
  num_leb := leb;
  num_to_string := to_string;
  localeCompare := collate;
  same_object := tree_eqb
|}.

End RefHost.

(* ===================================================================== *)
(** * Sample inputs *)
(* ===================================================================== *)

(** Steps, contexts and worlds on which the examples below run. *)
Module Samples.
Import StepExecutor RefHost.

Definition policy (m : Z) (b : option Z) : RetryPolicy := mkRetryPolicy m b None.

(** A validation step whose condition is [false]: it always fails. *)
Definition failing_validation (rp : option RetryPolicy) : Step :=
  mkStep "retry-step" validation None None None (Some "false") None None rp None.

(** A conditional step whose condition holds, around the given children. *)
Definition conditional_around (children : list Step) : Step :=
  mkStep "conditional-step" conditional None None None (Some "true")
    (Some children) None None None.

(** A loop step over the variable [items], around the given children. *)
Definition loop_around (children : list Step) : Step :=
  mkStep "loop-step" loop None None None None (Some children) (Some "items")
    None None.

Definition baseContext : Context :=
  mkContext [] [("items", VArr [VStr "a"; VStr "b"])] [] None None None.

(** A world in which no process can be started and nothing has happened
    yet. *)
Definition quiet_world : World :=
  mkWorld (fun _ => SpawnFailed "ENOENT") 0 [].

(** ** Disks *)

(** No call of the [fs] module fails. *)
Definition no_faults : nat -> option State.Fault := fun _ => None.

(** Only the call number [k] fails, with an input/output error. *)
Definition fault_at (k : nat) : nat -> option State.Fault :=
  fun n => if Nat.eqb n k then Some (State.mkFault "EIO" false) else None.

(** An empty disk, with a clock that advances by one at every reading and
    identifiers numbered from zero. *)
Definition fresh_disk (faults : nat -> option State.Fault) : @State.Disk rnum :=
  State.mkDisk ∅ faults [] (fun n => 1000 + Z.of_nat n) 0
    (fun n => "session-" ++ JsString.of_nat n) 0.

Definition stateDir : string := "/state".

(** The disk after one session was created on the empty disk. *)
Definition one_session (faults : nat -> option State.Fault) : @State.Disk rnum :=
  snd (State.createSession stateDir "wf" [] (fresh_disk faults)).

Definition first_execution : @State.StepExecution rnum :=
  State.mkStepExecution "step1" 2000 (Some 2001) State.success (VObj [])
    (VObj [("result", VStr "success")]) None None.

(** The state on which the tests of [saveSession] run. *)
Definition test_session : @State.WorkflowSessionState rnum :=
  State.mkSession "test-session" "test-workflow" State.running [] [] [] [] 0
    500 500 [].

(** ** Script steps and the processes they start *)

(** A script step that runs [make]. *)
Definition build_step (rp : option RetryPolicy) : Step :=
  mkStep "build" script None None (Some "make") None None None rp None.

(** A world whose first [k] processes exit with code 1 and whose later
    ones exit with code 0. *)
Definition flaky_world (k : nat) : World :=
  mkWorld (fun n => if (n <? k)%nat then Closed (Some 1) "" "boom"
                    else Closed (Some 0) " done " "")
    0 [].

(** A validation step whose condition holds. *)
Definition passing_validation (name : string) : Step :=
  mkStep name validation None None None (Some "true") None None None None.

(** ** Workflows and the environments they run in *)

Definition two_checks : Engine.Workflow :=
  Engine.mkWorkflow "wf" [passing_validation "first"; passing_validation "second"].

Definition broken_second : Engine.Workflow :=
  Engine.mkWorkflow "wf"
    [passing_validation "first"; failing_validation None;
     passing_validation "third"].

(** Nothing has been emitted, no process can be started, and the disk is
    the given one. *)
Definition env_on (d : @State.Disk rnum) : Engine.Env :=
  Engine.mkEnv quiet_world d [].

End Samples.

(* ===================================================================== *)
(** * Worked examples *)
(* ===================================================================== *)

Section Examples.
Import RefHost.

Let num (z : Z) : value rnum := VNum (RDec z 0).

Example split_on_and : JsString.split "&&" "a && b&&c" = ["a "; " b"; "c"].
Proof. reflexivity. Qed.

Example trim_both_ends : JsString.trim "  hi  " = "hi".
Proof. reflexivity. Qed.

Example escape_fidelity :
  Template.render "\${x}" [("x", num 1)] = Ok "${x}".
Proof. reflexivity. Qed.

Example filter_chain_order :
  Template.render "${t | trim | uppercase}" [("t", VStr "  hi  ")] = Ok "HI".
Proof. reflexivity. Qed.

Example loop_over_empty :
  Template.render "${foreach x in a}${x}${endforeach}" [("a", VArr [])]
  = Ok EmptyString.
Proof. reflexivity. Qed.

Example loop_over_non_array :
  Template.render "${foreach x in a}${x}${endforeach}" [("a", VStr "not-array")]
  = Ok EmptyString.
Proof. reflexivity. Qed.

Example unknown_filter_is_refused :
  Template.render "${x | nope}" [] = Throw (TemplateError "Unknown filter: nope").
Proof. reflexivity. Qed.

Example comparison_operands :
  Expr.comparisonMatch "a  <=  b" = Some ("a", Expr.OpLe, "b").
Proof. reflexivity. Qed.

Example condition_on_stdout :
  Expr.evaluateCondition "stdout == 'hi'" [("stdout", VStr "hi")] = Ok true.
Proof. reflexivity. Qed.

Example split_ignores_parentheses :
  Expr.evaluateCondition "a && (b || c)"
    [("a", VBool true); ("b", VBool true); ("c", VBool false)]
  = Throw (ValidationError "Invalid condition: a && (b || c)").
Proof. reflexivity. Qed.

End Examples.

(* ===================================================================== *)
(** * Retry delay and error classification *)
(* ===================================================================== *)

Section RetryPolicyFacts.
Import StepExecutor.




End RetryPolicyFacts.

Section ClassifyError.
Import StepExecutor.
Context {host : Host}.

Local Abbreviation lower e := (JsString.toLowerCase (error_message e)).
Local Abbreviation has p e := (JsString.includes p (lower e)).

(** C7, amended: [classifyError] matches substrings of the lower-cased
    message of an error, the first match in this order winning: timeout;
    network or connection; rate limit; server error or 500; auth;
    validation; unavailable or busy; otherwise [temporary_failure].  Two
    errors whose messages differ only in case are classified alike.  A
    falsy input ([null], [undefined]) is [temporary_failure]; any other
    input that is not an error is classified, by the same chain, on its
    string conversion. *)
Theorem classifyError_priority :
  forall e : error,
    (has "timeout" e = true -> classifyError (ThrownError e) = timeout)
    /\ (has "timeout" e = false ->
        has "network" e = true \/ has "connection" e = true ->
        classifyError (ThrownError e) = network_error)
    /\ (has "timeout" e = false -> has "network" e = false ->
        has "connection" e = false -> has "rate limit" e = true ->
        classifyError (ThrownError e) = rate_limit)
    /\ (has "timeout" e = false -> has "network" e = false ->
        has "connection" e = false -> has "rate limit" e = false ->
        has "server error" e = true \/ has "500" e = true ->
        classifyError (ThrownError e) = server_error)
    /\ (has "timeout" e = false -> has "network" e = false ->
        has "connection" e = false -> has "rate limit" e = false ->
        has "server error" e = false -> has "500" e = false ->
        has "auth" e = true ->
        classifyError (ThrownError e) = authentication_error)
    /\ (has "timeout" e = false -> has "network" e = false ->
        has "connection" e = false -> has "rate limit" e = false ->
        has "server error" e = false -> has "500" e = false ->
        has "auth" e = false -> has "validation" e = true ->
        classifyError (ThrownError e) = validation_error)
    /\ (has "timeout" e = false -> has "network" e = false ->
        has "connection" e = false -> has "rate limit" e = false ->
        has "server error" e = false -> has "500" e = false ->
        has "auth" e = false -> has "validation" e = false ->
        has "unavailable" e = true \/ has "busy" e = true ->
        classifyError (ThrownError e) = resource_unavailable)
    /\ (has "timeout" e = false -> has "network" e = false ->
        has "connection" e = false -> has "rate limit" e = false ->
        has "server error" e = false -> has "500" e = false ->
        has "auth" e = false -> has "validation" e = false ->
        has "unavailable" e = false -> has "busy" e = false ->
        classifyError (ThrownError e) = temporary_failure)
    /\ (forall e' : error,
          lower e' = lower e ->
          classifyError (ThrownError e') = classifyError (ThrownError e))
    /\ classifyError (ThrownValue VNull) = temporary_failure
    /\ classifyError (ThrownValue VUndefined) = temporary_failure
    /\ (forall v : value number,
          Js.toBoolean v = false ->
          classifyError (ThrownValue v) = temporary_failure)
    /\ (forall v : value number,
          Js.toBoolean v = true ->
          classifyError (ThrownValue v)
          = classifyError (ThrownError (Error (Js.toString v))))
    /\ classifyError (ThrownError (Error "Connection timeout")) = timeout.
Proof.
  intros e. unfold classifyError, classify_message.
  repeat match goal with |- _ /\ _ => split end.
  - intros ->. reflexivity.
  - intros -> [-> | ->]; simpl; rewrite ?orb_true_r; reflexivity.
  - intros -> -> -> ->. reflexivity.
  - intros -> -> -> -> [-> | ->]; simpl; rewrite ?orb_true_r; reflexivity.
  - intros -> -> -> -> -> -> ->. reflexivity.
  - intros -> -> -> -> -> -> -> ->. reflexivity.
  - intros -> -> -> -> -> -> -> -> [-> | ->]; simpl; rewrite ?orb_true_r; reflexivity.
  - intros -> -> -> -> -> -> -> -> -> ->. reflexivity.
  - intros e' ->. reflexivity.
  - reflexivity.
  - reflexivity.
  - intros v ->. reflexivity.
  - intros v ->. reflexivity.
  - reflexivity.
Qed.

End ClassifyError.

Section ClassifyErrorExamples.
Import StepExecutor RefHost.

(** C7, as stated, fails on an input that is not an error: the thrown
    string [timeout] is not classified [temporary_failure]. *)
Lemma classifyError_thrown_string :
  classifyError (ThrownValue (VStr "timeout")) <> temporary_failure
  /\ classifyError (ThrownValue (VStr "timeout")) = timeout.
Proof. split; [discriminate | reflexivity]. Qed.

Lemma classifyError_priority_witness :
  classifyError (ThrownError (Error "Operation TIMEOUT")) = timeout
  /\ classifyError (ThrownError (Error "Network connection failed")) = network_error
  /\ classifyError (ThrownError (Error "Rate limit exceeded")) = rate_limit
  /\ classifyError (ThrownError (Error "HTTP 500")) = server_error
  /\ classifyError (ThrownError (Error "Something odd")) = temporary_failure
  /\ classifyError (ThrownValue (VStr "string error")) = temporary_failure.
Proof.
  pose proof (classifyError_priority (Error "Operation TIMEOUT")) as (T & _).
  pose proof (classifyError_priority (Error "Network connection failed"))
    as (_ & N & _).
  pose proof (classifyError_priority (Error "Rate limit exceeded"))
    as (_ & _ & R & _).
  pose proof (classifyError_priority (Error "HTTP 500")) as (_ & _ & _ & S & _).
  pose proof (classifyError_priority (Error "Something odd"))
    as (_ & _ & _ & _ & _ & _ & _ & O & _).
  pose proof (classifyError_priority (Error "string error"))
    as (_ & _ & _ & _ & _ & _ & _ & O' & _ & _ & _ & _ & V & _).
  split; [apply T; reflexivity |].
  split; [apply N; [reflexivity | left; reflexivity] |].
  split; [apply R; reflexivity |].
  split; [apply S; [reflexivity | reflexivity | reflexivity | reflexivity
                   | right; reflexivity] |].
  split; [apply O; reflexivity |].
  rewrite (V (VStr "string error") eq_refl).
  apply O'; reflexivity.
Defined.

End ClassifyErrorExamples.

(* ===================================================================== *)
(** * Truthiness in templates and in conditions *)
(* ===================================================================== *)

Section Truthiness.
Context {host : Host}.

(** The template conditional on a variable prints its body exactly when
    [isTruthy] holds of the variable. *)
Lemma render_if_isTruthy (v : value number) :
  Template.render "${if x}T${endif}" [("x", v)]
  = Ok (if Template.isTruthy v then "T" else EmptyString).
Proof.
  unfold Template.render. 
  change (Template.parse "${if x}T${endif}")
    with (Ok [Template.ConditionalNode "x" [Template.TextNode "T"] None]).
  unfold Template.evaluate. simpl.
  change (Template.resolvePath "x" [("x", v)]) with v.
  destruct (Template.isTruthy v); reflexivity.
Qed.

(** A condition that is a single variable evaluates to [Boolean] of the
    variable. *)
Lemma condition_variable_toBoolean (v : value number) :
  Expr.evaluateCondition "x" [("x", v)] = Ok (Js.toBoolean v).
Proof. reflexivity. Qed.

(** C6, amended: on every value that is neither an empty array nor
    [NaN], the truthiness of a template conditional ([isTruthy]) and that
    of a single-value condition ([Boolean]) agree: [false], [0], [''],
    [null] and [undefined] are falsy in both and everything else is truthy
    in both.  On the empty array they differ: the template engine takes it
    for falsy, the condition evaluator for truthy; on [NaN] they differ the
    other way round ([NaN === 0] is false, [Boolean(NaN)] is false). *)
Theorem truthiness_agrees_off_empty_array :
  forall v : value number,
    Js.is_empty_array v = false ->
    Js.is_nan_value v = false ->
    Template.isTruthy v = Js.toBoolean v
    /\ (Template.render "${if x}T${endif}" [("x", v)] = Ok "T"
        <-> Expr.evaluateCondition "x" [("x", v)] = Ok true).
Proof.
  intros v Hne Hnan.
  assert (E : Template.isTruthy v = Js.toBoolean v).
  { destruct v as [ | | [] | n | s | [ | x xs] | fs ]; simpl in *;
      try reflexivity; try discriminate.
    rewrite Hnan, orb_false_r. reflexivity. }
  split; [exact E |].
  rewrite render_if_isTruthy, condition_variable_toBoolean, E.
  destruct (Js.toBoolean v); split; intros H; try reflexivity; discriminate H.
Qed.

End Truthiness.

Section TruthinessExamples.
Import RefHost.

(** C6, as stated, fails on the empty array: the template engine takes it
    for falsy and the condition evaluator for truthy. *)
Lemma empty_array_truthiness_differs :
  Template.isTruthy (VArr []) <> Js.toBoolean (VArr [])
  /\ Template.render "${if x}T${endif}" [("x", VArr [])] = Ok EmptyString
  /\ Expr.evaluateCondition "x" [("x", VArr [])] = Ok true.
Proof. split; [discriminate | split; reflexivity]. Qed.

(** [NaN] is the other value on which the two differ: truthy for the
    template engine, falsy for the condition evaluator. *)
Example nan_truthiness_differs :
  Template.isTruthy (VNum RNaN) = true
  /\ Js.toBoolean (VNum RNaN) = false
  /\ Template.render "${if x}T${endif}" [("x", VNum RNaN)] = Ok "T"
  /\ Expr.evaluateCondition "x" [("x", VNum RNaN)] = Ok false.
Proof. repeat split; reflexivity. Qed.

Lemma truthiness_agrees_off_empty_array_witness :
  Template.isTruthy (VStr "0") = Js.toBoolean (VStr "0")
  /\ (Template.render "${if x}T${endif}" [("x", VStr "0")] = Ok "T"
      <-> Expr.evaluateCondition "x" [("x", VStr "0")] = Ok true).
Proof.
  apply (truthiness_agrees_off_empty_array (VStr "0")); reflexivity.
Defined.

End TruthinessExamples.

(* ===================================================================== *)
(** * The dispatch on the step type and the retry wrapper *)
(* ===================================================================== *)

Section DispatchFacts.
Import StepExecutor.
Context {host : Host}.

Local Abbreviation exec_t := (Step -> Context -> M StepResult).

Lemma same_retry_trace_refl (w : World) : same_retry_trace w w.
Proof. split; reflexivity. Qed.

Lemma same_retry_trace_trans (w1 w2 w3 : World) :
  same_retry_trace w1 w2 -> same_retry_trace w2 w3 -> same_retry_trace w1 w3.
Proof. intros [A B] [C D]. split; congruence. Qed.

Lemma runCommand_trace (c : string) (x : Z) (w : World) :
  same_retry_trace w (snd (runCommand c x w)).
Proof.
  unfold runCommand, same_retry_trace, sleeps_of, attempts_of.
  destruct (procs w (spawned w)) as [code out err | msg]; simpl;
    [destruct (_ =? _); simpl |];
    rewrite !flat_map_app; simpl; rewrite !app_nil_r; split; reflexivity.
Qed.

Lemma executeAIPrompt_trace (s : Step) (ctx : Context) (w : World) :
  same_retry_trace w (snd (executeAIPrompt s ctx w)).
Proof.
  unfold executeAIPrompt.
  destruct (_ && _); simpl; [apply same_retry_trace_refl |].
  destruct (match template s with Some _ => _ | None => _ end);
    simpl; apply same_retry_trace_refl.
Qed.

Lemma executeScript_trace (s : Step) (ctx : Context) (w : World) :
  same_retry_trace w (snd (executeScript s ctx w)).
Proof.
  unfold executeScript.
  destruct (command s) as [c |]; [| apply same_retry_trace_refl].
  destruct (String.eqb c EmptyString); [apply same_retry_trace_refl |].
  destruct (Template.render c (variables ctx)) as [cmd | e];
    [| apply same_retry_trace_refl].
  pose proof (runCommand_trace cmd
                (match expectedExitCode s with Some z => z | None => 0 end) w) as H.
  destruct (runCommand cmd _ w) as [[[[out err] code] | e] w']; exact H.
Qed.

Lemma executeValidation_trace (s : Step) (ctx : Context) (w : World) :
  same_retry_trace w (snd (executeValidation s ctx w)).
Proof.
  unfold executeValidation.
  destruct (negb _); [apply same_retry_trace_refl |].
  destruct (Template.render _ _) as [c | e]; [| apply same_retry_trace_refl].
  destruct (Expr.evaluateCondition _ _) as [[|] | e]; apply same_retry_trace_refl.
Qed.

Lemma run_substeps_trace (exec : exec_t) (cs : list Step) :
  Forall (fun c => forall ctx w, same_retry_trace w (snd (exec c ctx w))) cs ->
  forall ctx acc w, same_retry_trace w (snd (run_substeps exec cs ctx acc w)).
Proof.
  induction 1 as [| c cs Hc _ IH]; intros ctx acc w; simpl.
  - apply same_retry_trace_refl.
  - specialize (Hc ctx w).
    destruct (exec c ctx w) as [[r | e] w1]; simpl in *; [| exact Hc].
    destruct (shouldContinue r); [| exact Hc].
    eapply same_retry_trace_trans; [exact Hc | apply IH].
Qed.

Lemma run_iterations_trace (exec : exec_t) (cs : list Step) :
  Forall (fun c => forall ctx w, same_retry_trace w (snd (exec c ctx w))) cs ->
  forall todo ctx i n its w,
    same_retry_trace w (snd (run_iterations exec cs ctx todo i n its w)).
Proof.
  intros Hcs todo. induction todo as [| item todo IH]; intros ctx i n its w; simpl.
  - apply same_retry_trace_refl.
  - pose proof (run_substeps_trace exec cs Hcs
                  (with_variables ctx (iteration_variables (variables ctx) item i n))
                  [] w) as H.
    destruct (run_substeps exec cs _ [] w) as [[o | e] w1]; simpl in *; [| exact H].
    eapply same_retry_trace_trans; [exact H | apply IH].
Qed.

(** The dispatch never sleeps and never goes through the retry wrapper,
    whatever the step and the steps nested in it. *)
Lemma executeStepByType_trace (s : Step) :
  forall ctx w, same_retry_trace w (snd (executeStepByType s ctx w)).
Proof.
  induction s as [i ty a t c cond children its rp code IH] using Step_nested_ind.
  intros ctx w. destruct ty; simpl.
  - apply executeAIPrompt_trace.
  - apply executeScript_trace.
  - apply executeValidation_trace.
  - unfold executeLoopWith.
    destruct children as [cs |]; [| apply same_retry_trace_refl].
    destruct (negb _); [apply same_retry_trace_refl |].
    destruct (Expr.resolveValue _ _); try apply same_retry_trace_refl.
    pose proof (run_iterations_trace executeStepByType cs IH elems ctx 0%nat
                  (List.length elems) [] w) as H.
    destruct (run_iterations _ _ _ _ _ _ _ w) as [[o | e] w1]; exact H.
  - unfold executeConditionalWith.
    destruct children as [cs |]; [| apply same_retry_trace_refl].
    destruct (negb _); [apply same_retry_trace_refl |].
    destruct (Template.render _ _) as [r | e]; [| apply same_retry_trace_refl].
    destruct (Expr.evaluateCondition _ _) as [[|] | e];
      try apply same_retry_trace_refl.
    pose proof (run_substeps_trace executeStepByType cs IH ctx [] w) as H.
    destruct (run_substeps _ _ _ _ w) as [[o | e] w1]; exact H.
  - apply same_retry_trace_refl.
Qed.

Lemma run_substeps_ext (exec : exec_t) (f : Step -> Step) (cs : list Step) :
  Forall (fun c => forall ctx w, exec (f c) ctx w = exec c ctx w) cs ->
  forall ctx acc w,
    run_substeps exec (List.map f cs) ctx acc w = run_substeps exec cs ctx acc w.
Proof.
  induction 1 as [| c cs Hc _ IH]; intros ctx acc w; simpl; [reflexivity |].
  rewrite Hc. destruct (exec c ctx w) as [[r | e] w1]; [| reflexivity].
  destruct (shouldContinue r); [apply IH | reflexivity].
Qed.

Lemma run_iterations_ext (exec : exec_t) (f : Step -> Step) (cs : list Step) :
  Forall (fun c => forall ctx w, exec (f c) ctx w = exec c ctx w) cs ->
  forall todo ctx i n its w,
    run_iterations exec (List.map f cs) ctx todo i n its w
    = run_iterations exec cs ctx todo i n its w.
Proof.
  intros Hcs todo. induction todo as [| item todo IH]; intros ctx i n its w; simpl;
    [reflexivity |].
  rewrite (run_substeps_ext exec f cs Hcs).
  destruct (run_substeps exec cs _ [] w) as [[o | e] w1]; [apply IH | reflexivity].
Qed.

(** The dispatch reads no retry policy: removing all of them from a step
    and from the steps nested in it changes nothing. *)
Lemma executeStepByType_strip (s : Step) :
  forall ctx w, executeStepByType (strip_retry s) ctx w = executeStepByType s ctx w.
Proof.
  induction s as [i ty a t c cond children its rp code IH] using Step_nested_ind.
  intros ctx w. destruct ty; simpl; try reflexivity.
  - unfold executeLoopWith.
    destruct children as [cs |]; [| reflexivity].
    destruct (negb _); [reflexivity |].
    destruct (Expr.resolveValue _ _); try reflexivity.
    rewrite (run_iterations_ext executeStepByType strip_retry cs IH). reflexivity.
  - unfold executeConditionalWith.
    destruct children as [cs |]; [| reflexivity].
    destruct (negb _); [reflexivity |].
    destruct (Template.render _ _) as [r | e]; [| reflexivity].
    destruct (Expr.evaluateCondition _ _) as [[|] | e]; try reflexivity.
    rewrite (run_substeps_ext executeStepByType strip_retry cs IH). reflexivity.
Qed.

(** An exception that leaves the loop over the children is the exception
    of one child, and the world is left as that child left it. *)
Lemma run_substeps_throw (exec : exec_t) (cs : list Step) :
  forall ctx acc w e w',
    run_substeps exec cs ctx acc w = (Throw e, w') ->
    exists c wc, In c cs /\ exec c ctx wc = (Throw e, w').
Proof.
  induction cs as [| c cs IH]; intros ctx acc w e w' H; simpl in H; [discriminate |].
  destruct (exec c ctx w) as [[r | e0] w1] eqn:E.
  - destruct (shouldContinue r); [| discriminate].
    destruct (IH _ _ _ _ _ H) as (c' & wc & Hin & Hc').
    exists c', wc. split; [right; exact Hin | exact Hc'].
  - inversion H; subst. exists c, w. split; [left; reflexivity | exact E].
Qed.

End DispatchFacts.

Section RetryWrapper.
Import StepExecutor.
Context {host : Host}.
Local Open Scope list_scope.

Lemma shouldRetry_without_patterns (s : Step) (m : Z) (b : option Z)
    (err : thrown) (rc : Z) :
  retryPolicy s = Some (mkRetryPolicy m b None) ->
  shouldRetry s err rc = negb (m <=? rc).
Proof.
  intros Hp. unfold shouldRetry. rewrite Hp. simpl.
  destruct (m <=? rc); reflexivity.
Qed.

Lemma shouldRetry_below_ceiling (s : Step) (p : RetryPolicy) (err : thrown) (rc : Z) :
  retryPolicy s = Some p -> shouldRetry s err rc = true -> rc < maxAttempts p.
Proof.
  intros Hp. unfold shouldRetry. rewrite Hp.
  destruct (Z.leb_spec (maxAttempts p) rc); [discriminate | intros _; assumption].
Qed.

(** The retry wrapper always comes to an end within the attempts that the
    policy allows: its fuel never runs out. *)
Lemma executeStep_fuel_total (s : Step) (ctx : Context) (sid : string) :
  forall (n : nat) (rc : Z) (w : World),
    (attempts_bound s rc <= n)%nat ->
    exists r, executeStep_fuel n s ctx sid rc w = Some r.
Proof.
  induction n as [| n IH]; intros rc w Hn.
  - unfold attempts_bound in Hn. destruct (retryPolicy s); lia.
  - simpl.
    destruct (executeStepByType s _ _) as [[r | e] w1]; [eexists; reflexivity |].
    destruct (shouldRetry s (ThrownError e) rc) eqn:Hr; [| eexists; reflexivity].
    apply IH. unfold attempts_bound in *.
    destruct (retryPolicy s) as [p |] eqn:Hp.
    + pose proof (shouldRetry_below_ceiling s p _ _ Hp Hr). lia.
    + unfold shouldRetry in Hr. rewrite Hp in Hr. discriminate.
Qed.

Lemma Zrange_snoc (start : Z) (n : nat) :
  Zrange start (S n) = Zrange start n ++ [start + Z.of_nat n].
Proof.
  revert start. induction n as [| n IH]; intros start.
  - simpl. rewrite Z.add_0_r. reflexivity.
  - change (Zrange start (S (S n))) with (start :: Zrange (start + 1) (S n)).
    rewrite IH. simpl. do 3 f_equal. lia.
Qed.

Lemma length_Zrange (start : Z) (n : nat) : List.length (Zrange start n) = n.
Proof. revert start. induction n; intros; simpl; [| rewrite IHn]; reflexivity. Qed.

Lemma attempts_of_record (ev : Event) (w : World) :
  attempts_of (log (record ev w))
  = attempts_of (log w)
      ++ match ev with EvAttempt i rc => [(i, rc)] | _ => [] end.
Proof.
  unfold record, attempts_of. simpl. rewrite flat_map_app. simpl.
  rewrite app_nil_r. reflexivity.
Qed.

Lemma sleeps_of_record (ev : Event) (w : World) :
  sleeps_of (log (record ev w))
  = sleeps_of (log w) ++ match ev with EvSleep ms => [ms] | _ => [] end.
Proof.
  unfold record, sleeps_of. simpl. rewrite flat_map_app. simpl.
  rewrite app_nil_r. reflexivity.
Qed.

(** A step that fails at every attempt, run from the retry count [rc]
    under a policy of [m] attempts without patterns: the attempts
    [rc, ..., m] are made, each but the last followed by its sleep, and the
    error of the last attempt is rethrown. *)
Lemma executeStep_fuel_always_failing (s : Step) (ctx : Context) (sid : string)
    (m : Z) (b : option Z) :
  retryPolicy s = Some (mkRetryPolicy m b None) ->
  (forall rc w0, exists e w1,
      executeStepByType s (stepContextOf s ctx sid rc) w0 = (Throw e, w1)) ->
  forall (k : nat) (rc : Z) (w : World),
    rc <= m -> Z.to_nat (m - rc) = k ->
    exists e w' w_last,
      executeStep_fuel (S k) s ctx sid rc w = Some (Throw e, w')
      /\ executeStepByType s (stepContextOf s ctx sid m) w_last = (Throw e, w')
      /\ attempts_of (log w')
         = attempts_of (log w) ++ List.map (fun j => (id s, j)) (Zrange rc (S k))
      /\ sleeps_of (log w')
         = sleeps_of (log w)
             ++ List.map (calculateRetryDelay (retryPolicy s)) (Zrange rc k).
Proof.
  intros Hp Hfail. induction k as [| k IH]; intros rc w Hle Hk.
  - assert (rc = m) by lia. subst rc.
    destruct (Hfail m (record (EvAttempt (id s) m) w)) as (e & w1 & E).
    exists e, w1, (record (EvAttempt (id s) m) w).
    pose proof (executeStepByType_trace s (stepContextOf s ctx sid m)
                  (record (EvAttempt (id s) m) w)) as [Hs Ha].
    rewrite E in Hs, Ha. simpl snd in Hs, Ha.
    rewrite sleeps_of_record in Hs. rewrite attempts_of_record in Ha.
    rewrite app_nil_r in Hs.
    cbn [executeStep_fuel]. rewrite E.
    rewrite (shouldRetry_without_patterns s m b _ _ Hp), Z.leb_refl.
    simpl. rewrite app_nil_r.
    split; [reflexivity |]. split; [reflexivity |]. split; [exact Ha | exact Hs].
  - destruct (Hfail rc (record (EvAttempt (id s) rc) w)) as (e & w1 & E).
    pose proof (executeStepByType_trace s (stepContextOf s ctx sid rc)
                  (record (EvAttempt (id s) rc) w)) as [Hs Ha].
    rewrite E in Hs, Ha. simpl snd in Hs, Ha.
    rewrite sleeps_of_record in Hs. rewrite attempts_of_record in Ha.
    rewrite app_nil_r in Hs.
    destruct (IH (rc + 1) (record (EvSleep (calculateRetryDelay (retryPolicy s) rc)) w1))
      as (e' & w' & wl & R & L & A & S); [lia | lia |].
    rewrite attempts_of_record, app_nil_r, Ha in A.
    rewrite sleeps_of_record, Hs in S.
    exists e', w', wl.
    cbn [executeStep_fuel]. rewrite E.
    rewrite (shouldRetry_without_patterns s m b _ _ Hp).
    destruct (Z.leb_spec m rc) as [? | _]; [lia |]. simpl negb. cbv iota.
    unfold sleep. cbv beta iota.
    split; [exact R |]. split; [exact L |]. split.
    + rewrite A, <- app_assoc. reflexivity.
    + rewrite S, <- app_assoc. reflexivity.
Qed.



End RetryWrapper.

Section RetryWrapperExamples.
Import StepExecutor RefHost Samples.
Local Open Scope list_scope.


(** The retry ceiling on the step of the test suite: three attempts, two
    sleeps of 100 ms and 200 ms, then the validation error. *)
Example retry_ceiling_run :
  let r := executeStep (failing_validation (Some (policy 2 (Some 100))))
             baseContext "session-123" 0 quiet_world in
  fst r = Throw (ValidationError "Validation failed: false")
  /\ log (snd r)
     = [EvAttempt "retry-step" 0; EvSleep 100;
        EvAttempt "retry-step" 1; EvSleep 200;
        EvAttempt "retry-step" 2].
Proof. split; reflexivity. Qed.


(** A failing child with a generous policy of its own, inside a
    conditional without one: one attempt, no sleep. *)
Example child_policy_is_ignored :
  let r := executeStep
             (conditional_around [failing_validation (Some (policy 3 (Some 100)))])
             baseContext "session-123" 0 quiet_world in
  fst r = Throw (ValidationError "Validation failed: false")
  /\ log (snd r) = [EvAttempt "conditional-step" 0].
Proof. split; reflexivity. Qed.

End RetryWrapperExamples.

(* ===================================================================== *)
(** * The template engine: termination and conditionals *)
(* ===================================================================== *)

Section TemplateFacts.
Import Template.
Local Open Scope list_scope.

Lemma length_drop (n : nat) (s : string) :
  String.length (JsString.drop n s) = (String.length s - n)%nat.
Proof.
  revert s. induction n as [| n IH]; intros s; simpl.
  - lia.
  - destruct s as [| c s]; simpl; [reflexivity | apply IH].
Qed.

(** The tokenizer consumes at least one character at every turn of its
    loop: a fuel above the length of the text is never used up. *)
Lemma tokenize_loop_total :
  forall (fuel : nat) (rest : string) (position : nat) (textBuffer : string),
    (String.length rest < fuel)%nat ->
    exists r, tokenize_loop fuel rest position textBuffer = Some r.
Proof.
  induction fuel as [| fuel IH]; intros rest position textBuffer Hlen; [lia |].
  destruct rest as [| c rest1]; [eexists; reflexivity |].
  cbn [tokenize_loop].
  destruct (JsString.startsWith "\${" (String c rest1)).
  { apply IH. rewrite length_drop. simpl in *. lia. }
  destruct (JsString.startsWith "${" (String c rest1)).
  - destruct (indexOf_char "}" _) as [k |]; [| eexists; reflexivity].
    destruct (IH (JsString.drop (S k) (JsString.drop 2 (String c rest1)))
                (position + 2 + k + 1)%nat EmptyString) as [r Hr].
    { rewrite !length_drop. simpl in *. lia. }
    rewrite Hr. destruct r; eexists; reflexivity.
  - apply IH. simpl in *. lia.
Qed.

(** [tokenize] is the loop itself: its default branch is dead. *)
Lemma tokenize_eq (template : string) :
  tokenize_loop (S (String.length template)) template 0 EmptyString
  = Some (tokenize template).
Proof.
  unfold tokenize.
  destruct (tokenize_loop_total (S (String.length template)) template 0 EmptyString)
    as [r Hr]; [lia |].
  rewrite Hr. reflexivity.
Qed.

Lemma parse_bodies_total (fuel : nat) :
  (forall condition, block_parser_ok fuel (parseConditionalBody fuel condition))
  /\ (forall itemName collectionPath,
        block_parser_ok fuel (parseLoopBody fuel itemName collectionPath)).
Proof.
  induction fuel as [| fuel [IHc IHl]]; [split; intros; intros acc tokens H; lia |].
  assert (Hloop : forall loopExpr rest,
             (List.length rest < fuel)%nat ->
             exists r, parseLoopWith (parseLoopBody fuel) loopExpr rest = Some r
                       /\ (forall node rest', r = Ok (node, rest') ->
                             (List.length rest' < List.length rest)%nat)).
  { intros loopExpr rest Hlen. unfold parseLoopWith.
    destruct (loop_header loopExpr) as [[i c] |].
    - apply IHl. exact Hlen.
    - eexists. split; [reflexivity | discriminate]. }
  split.
  - intros condition acc tokens Hlen.
    destruct tokens as [| token rest].
    { eexists. split; [reflexivity | discriminate]. }
    simpl in Hlen. cbn [parseConditionalBody].
    destruct (tok_type token).
    + destruct (IHc condition (acc ++ [TextNode (tok_value token)]) rest)
        as (r & Hr & Hs); [lia |].
      exists r. split; [exact Hr |]. intros node rest' E.
      specialize (Hs _ _ E). simpl. lia.
    + destruct (parseVariable (tok_value token)) as [node | e].
      * destruct (IHc condition (acc ++ [node]) rest) as (r & Hr & Hs); [lia |].
        exists r. split; [exact Hr |]. intros node' rest' E.
        specialize (Hs _ _ E). simpl. lia.
      * eexists. split; [reflexivity | discriminate].
    + destruct (IHc (tok_value token) [] rest) as (r & Hr & Hs); [lia |].
      rewrite Hr. destruct r as [[node rest'] | e].
      * specialize (Hs _ _ eq_refl).
        destruct (IHc condition (acc ++ [node]) rest') as (r2 & Hr2 & Hs2); [lia |].
        exists r2. split; [exact Hr2 |]. intros node' rest'' E.
        specialize (Hs2 _ _ E). simpl. lia.
      * eexists. split; [reflexivity | discriminate].
    + eexists. split; [reflexivity |]. intros node rest' E.
      inversion E; subst. simpl. lia.
    + destruct (Hloop (tok_value token) rest) as (r & Hr & Hs); [lia |].
      rewrite Hr. destruct r as [[node rest'] | e].
      * specialize (Hs _ _ eq_refl).
        destruct (IHc condition (acc ++ [node]) rest') as (r2 & Hr2 & Hs2); [lia |].
        exists r2. split; [exact Hr2 |]. intros node' rest'' E.
        specialize (Hs2 _ _ E). simpl. lia.
      * eexists. split; [reflexivity | discriminate].
    + eexists. split; [reflexivity | discriminate].
    + eexists. split; [reflexivity | discriminate].
  - intros itemName collectionPath acc tokens Hlen.
    destruct tokens as [| token rest].
    { eexists. split; [reflexivity | discriminate]. }
    simpl in Hlen. cbn [parseLoopBody].
    destruct (tok_type token).
    + destruct (IHl itemName collectionPath (acc ++ [TextNode (tok_value token)]) rest)
        as (r & Hr & Hs); [lia |].
      exists r. split; [exact Hr |]. intros node rest' E.
      specialize (Hs _ _ E). simpl. lia.
    + destruct (parseVariable (tok_value token)) as [node | e].
      * destruct (IHl itemName collectionPath (acc ++ [node]) rest)
          as (r & Hr & Hs); [lia |].
        exists r. split; [exact Hr |]. intros node' rest' E.
        specialize (Hs _ _ E). simpl. lia.
      * eexists. split; [reflexivity | discriminate].
    + destruct (IHc (tok_value token) [] rest) as (r & Hr & Hs); [lia |].
      rewrite Hr. destruct r as [[node rest'] | e].
      * specialize (Hs _ _ eq_refl).
        destruct (IHl itemName collectionPath (acc ++ [node]) rest')
          as (r2 & Hr2 & Hs2); [lia |].
        exists r2. split; [exact Hr2 |]. intros node' rest'' E.
        specialize (Hs2 _ _ E). simpl. lia.
      * eexists. split; [reflexivity | discriminate].
    + eexists. split; [reflexivity | discriminate].
    + destruct (Hloop (tok_value token) rest) as (r & Hr & Hs); [lia |].
      rewrite Hr. destruct r as [[node rest'] | e].
      * specialize (Hs _ _ eq_refl).
        destruct (IHl itemName collectionPath (acc ++ [node]) rest')
          as (r2 & Hr2 & Hs2); [lia |].
        exists r2. split; [exact Hr2 |]. intros node' rest'' E.
        specialize (Hs2 _ _ E). simpl. lia.
      * eexists. split; [reflexivity | discriminate].
    + eexists. split; [reflexivity |]. intros node rest' E.
      inversion E; subst. simpl. lia.
    + eexists. split; [reflexivity | discriminate].
Qed.

Lemma buildAST_loop_total :
  forall (fuel : nat) (nodes : list ASTNode) (tokens : list Token),
    (List.length tokens < fuel)%nat ->
    exists r, buildAST_loop fuel nodes tokens = Some r.
Proof.
  induction fuel as [| fuel IH]; intros nodes tokens Hlen; [lia |].
  destruct tokens as [| token rest]; [eexists; reflexivity |].
  simpl in Hlen. cbn [buildAST_loop].
  destruct (parse_bodies_total fuel) as [Hc Hl].
  destruct (tok_type token); try (eexists; reflexivity).
  - apply IH. lia.
  - destruct (parseVariable (tok_value token)); [apply IH; lia | eexists; reflexivity].
  - unfold parseConditional.
    destruct (Hc (tok_value token) [] rest) as (r & Hr & Hs); [lia |].
    rewrite Hr. destruct r as [[node rest'] | e]; [| eexists; reflexivity].
    specialize (Hs _ _ eq_refl). apply IH. lia.
  - unfold parseLoop, parseLoopWith.
    destruct (loop_header (tok_value token)) as [[i c] |]; [| eexists; reflexivity].
    destruct (Hl i c [] rest) as (r & Hr & Hs); [lia |].
    rewrite Hr. destruct r as [[node rest'] | e]; [| eexists; reflexivity].
    specialize (Hs _ _ eq_refl). apply IH. lia.
Qed.

(** [buildAST] is the loop itself: its default branch is dead. *)
Lemma buildAST_eq (tokens : list Token) :
  buildAST_loop (S (List.length tokens)) [] tokens = Some (buildAST tokens).
Proof.
  unfold buildAST.
  destruct (buildAST_loop_total (S (List.length tokens)) [] tokens) as [r Hr]; [lia |].
  rewrite Hr. reflexivity.
Qed.

(** The parser of a conditional block never looks at the condition: it
    only stores it in the node it returns. *)
Lemma parseConditionalBody_condition (fuel : nat) :
  forall (c c' : string) (acc : list ASTNode) (tokens : list Token),
    parseConditionalBody fuel c acc tokens
    = with_condition c (parseConditionalBody fuel c' acc tokens).
Proof.
  induction fuel as [| fuel IH]; intros c c' acc tokens; [reflexivity |].
  destruct tokens as [| token rest]; [reflexivity |].
  cbn [parseConditionalBody].
  destruct (tok_type token); try reflexivity.
  - apply IH.
  - destruct (parseVariable (tok_value token)); [apply IH | reflexivity].
  - destruct (parseConditionalBody fuel (tok_value token) [] rest)
      as [[[node rest'] | e] |]; [apply IH | reflexivity | reflexivity].
  - destruct (parseLoopWith (parseLoopBody fuel) (tok_value token) rest)
      as [[[node rest'] | e] |]; [apply IH | reflexivity | reflexivity].
Qed.

Lemma split_aux_nonempty (sep : string) (s : string) :
  forall skip cur, JsString.split_aux sep skip cur s <> [].
Proof.
  induction s as [| c s IH]; intros skip cur; simpl; [discriminate |].
  destruct skip; [| apply IH].
  destruct (JsString.startsWith sep (String c s)); [discriminate | apply IH].
Qed.

End TemplateFacts.

Section TemplateConditionals.
Import Template.
Context {host : Host}.
Local Open Scope list_scope.

Lemma resolvePath_unknown_head (path : string) (context : list (string * value number)) :
  path <> "." ->
  Js.assoc (hd EmptyString (JsString.split "." path)) context = None ->
  resolvePath path context = VUndefined.
Proof.
  intros Hdot Hhead. unfold resolvePath.
  destruct (String.eqb_spec path "."); [contradiction |].
  pose proof (split_aux_nonempty "." path 0 EmptyString) as Hne.
  unfold JsString.split in *.
  destruct (JsString.split_aux "." 0 EmptyString path) as [| part parts];
    [contradiction |].
  simpl in *. rewrite Hhead. reflexivity.
Qed.


End TemplateConditionals.

Section TemplateConditionalExamples.
Import Template RefHost.


End TemplateConditionalExamples.

(* ===================================================================== *)
(** * The state manager: saving, counting and moving sessions *)
(* ===================================================================== *)

Section StateFacts.
Import State.
Context {num : Type}.
Variable stateDir : string.
Local Open Scope list_scope.

Implicit Types d : @Disk num.
Implicit Types state st old : @WorkflowSessionState num.

Lemma bind_inv {A B} (m : @M num A) (k : A -> @M num B) d r d' :
  bind m k d = (r, d') ->
  (exists a d1, m d = (Ok a, d1) /\ k a d1 = (r, d'))
  \/ (exists e, m d = (Throw e, d') /\ r = Throw e).
Proof.
  unfold bind. destruct (m d) as [[a | e] d1]; intros H.
  - left. eauto.
  - right. inversion H; subst. eauto.
Qed.

Lemma try_catch_inv {A} (m : @M num A) (h : error -> @M num A) d r d' :
  try_catch m h d = (r, d') ->
  (exists a, m d = (Ok a, d') /\ r = Ok a)
  \/ (exists e d1, m d = (Throw e, d1) /\ h e d1 = (r, d')).
Proof.
  unfold try_catch. destruct (m d) as [[a | e] d1]; intros H.
  - left. inversion H; subst. eauto.
  - right. eauto.
Qed.

Lemma extends_refl d : extends d d [].
Proof. unfold extends. rewrite app_nil_r. auto. Qed.

Lemma extends_trans d1 d2 d3 cs1 cs2 :
  extends d1 d2 cs1 -> extends d2 d3 cs2 -> extends d1 d3 (cs1 ++ cs2).
Proof.
  unfold extends. intros (A & B & C & D) (A' & B' & C' & D').
  rewrite A', A, app_assoc. repeat split; congruence.
Qed.

Lemma extends_with_files d fs c ok : extends d (with_files d fs c ok) [(c, ok)].
Proof. unfold extends, with_files. simpl. auto. Qed.

(** Each call of the [fs] module adds itself to the log and, when it
    succeeds, has its effect on the files. *)
Lemma fs_mkdir_inv p d r d' :
  fs_mkdir p d = (r, d') ->
  exists ok, d' = with_files d (files d) (Mkdir p) ok
             /\ (ok = true -> r = Ok tt)
             /\ (ok = false -> exists e, r = Throw e).
Proof.
  unfold fs_mkdir. destruct (next_fault d); intros H; inversion H; subst;
    eexists; split; try reflexivity; split; intros; try discriminate; eauto.
Qed.

Lemma fs_access_inv p d r d' :
  fs_access p d = (r, d') ->
  exists ok, d' = with_files d (files d) (Access p) ok
             /\ (ok = true -> r = Ok tt /\ is_Some (files d !! p))
             /\ (ok = false -> exists e, r = Throw e).
Proof.
  unfold fs_access. destruct (next_fault d); [| destruct (files d !! p) eqn:E];
    intros H; inversion H; subst;
    eexists; split; try reflexivity; split; intros; try discriminate; eauto.
Qed.

Lemma fs_readFile_inv p d r d' :
  fs_readFile p d = (r, d') ->
  exists ok, d' = with_files d (files d) (ReadFile p) ok
             /\ (ok = true -> exists c, r = Ok c /\ files d !! p = Some c)
             /\ (ok = false -> exists e, r = Throw e).
Proof.
  unfold fs_readFile. destruct (next_fault d); [| destruct (files d !! p) eqn:E];
    intros H; inversion H; subst;
    eexists; split; try reflexivity; split; intros; try discriminate; eauto.
Qed.

Lemma fs_unlink_inv p d r d' :
  fs_unlink p d = (r, d') ->
  exists ok fs, d' = with_files d fs (Unlink p) ok
             /\ (ok = true -> r = Ok tt /\ fs = delete p (files d))
             /\ (ok = false -> fs = files d /\ exists e, r = Throw e).
Proof.
  unfold fs_unlink. destruct (next_fault d); [| destruct (files d !! p) eqn:E];
    intros H; inversion H; subst;
    eexists; eexists; split; try reflexivity; split; intros; try discriminate; eauto.
Qed.

Lemma fs_writeFile_inv p c d r d' :
  fs_writeFile p c d = (r, d') ->
  exists ok fs, d' = with_files d fs (WriteFile p) ok
             /\ (ok = true -> r = Ok tt /\ fs = <[p := c]> (files d))
             /\ (ok = false ->
                 (exists e, r = Throw e)
                 /\ (forall q, q <> p -> fs !! q = files d !! q)
                 /\ (forall st, fs !! p = Some (SessionFile st) ->
                                files d !! p = Some (SessionFile st))).
Proof.
  unfold fs_writeFile. destruct (next_fault d) as [f |]; intros H; inversion H; subst;
    eexists; eexists; split; try reflexivity; split; intros; try discriminate; eauto.
  split; [eauto |]. split.
  - intros q Hq. destruct (torn f); [| reflexivity].
    rewrite lookup_insert_ne; [reflexivity | congruence].
  - intros st. destruct (torn f); [| tauto].
    rewrite lookup_insert_eq. discriminate.
Qed.

Lemma fs_rename_inv a b d r d' :
  fs_rename a b d = (r, d') ->
  exists ok fs, d' = with_files d fs (Rename a b) ok
             /\ (ok = true ->
                 exists c, r = Ok tt /\ files d !! a = Some c
                           /\ fs = <[b := c]> (delete a (files d)))
             /\ (ok = false -> fs = files d /\ exists e, r = Throw e).
Proof.
  unfold fs_rename. destruct (next_fault d); [| destruct (files d !! a) eqn:E];
    intros H; inversion H; subst;
    eexists; eexists; split; try reflexivity; split; intros; try discriminate; eauto.
Qed.

Lemma initialize_spec (d : @Disk num) r d' :
  initialize stateDir d = (r, d') ->
  files d' = files d
  /\ exists cs, extends d d' cs /\ Forall is_mkdir cs
     /\ (r = Ok tt \/ exists msg, r = Throw (StateError msg None (Some op_write))).
Proof.
  unfold initialize, try_catch, bind, fs_mkdir, throw.
  repeat match goal with
  | |- context [match next_fault ?x with _ => _ end] =>
      destruct (next_fault x); cbn [fst snd]
  end;
  intros H; inversion H; subst; clear H;
  (split; [reflexivity |]);
  eexists; (split; [unfold extends; simpl; rewrite <- ?app_assoc; simpl;
                    repeat split; reflexivity |]);
  (split; [repeat constructor; unfold is_mkdir; eauto | eauto]).
Qed.

Lemma new_Date_inv d r d' :
  new_Date d = (r, d') ->
  r = Ok (time_at d (clock_reads d)) /\ files d' = files d /\ extends d d' [].
Proof.
  unfold new_Date. intros H. inversion H; subst. simpl.
  repeat split. unfold extends. simpl. rewrite app_nil_r. auto.
Qed.

Lemma uuidv4_inv d r d' :
  uuidv4 d = (r, d') ->
  r = Ok (uuids d (issued d)) /\ files d' = files d /\ extends d d' [].
Proof.
  unfold uuidv4. intros H. inversion H; subst. simpl.
  repeat split. unfold extends. simpl. rewrite app_nil_r. auto.
Qed.

Lemma Forall_mkdir_no_other (cs : list (FsCall * bool)) (c : FsCall) (ok : bool) :
  Forall is_mkdir cs -> In (c, ok) cs -> exists p, c = Mkdir p.
Proof.
  intros HF Hin. rewrite Forall_forall in HF.
  destruct (HF (c, ok)) as (p & ok' & E).
  - apply list_elem_of_In. exact Hin.
  - inversion E. eauto.
Qed.

(** What [saveSession] does, in each of its three outcomes: it succeeds
    and the final file holds the state; the directories could not be
    made and nothing changed; or the write or the rename failed. *)
Lemma saveSession_spec (state : @WorkflowSessionState num) (d : @Disk num) r d' :
  saveSession stateDir state d = (r, d') ->
  let sessionFile := getSessionFilePath stateDir (sessionId state) (status state) in
  let tempFile := (sessionFile ++ ".tmp")%string in
  exists cs, extends d d' cs /\
    ((r = Ok tt
      /\ (exists t, files d' = <[sessionFile := SessionFile (with_updatedAt state t)]>
                                (delete tempFile (files d)))
      /\ (forall c ok, In (c, ok) cs ->
            (exists p, c = Mkdir p)
            \/ ((c = WriteFile tempFile \/ c = Rename tempFile sessionFile)
                /\ ok = true)))
     \/ ((exists msg, r = Throw (StateError msg None (Some op_write)))
         /\ files d' = files d
         /\ Forall is_mkdir cs)
     \/ ((exists msg, r = Throw (StateError msg (Some (sessionId state)) (Some op_write)))
         /\ (forall p, p <> tempFile -> files d' !! p = files d !! p)
         /\ (forall st, files d' !! tempFile = Some (SessionFile st) ->
               files d !! tempFile = Some (SessionFile st)
               \/ exists t, st = with_updatedAt state t)
         /\ (In (WriteFile tempFile, false) cs
             \/ In (Rename tempFile sessionFile, false) cs)
         /\ (exists ok, In (Unlink tempFile, ok) cs)
         /\ (forall p ok, In (Unlink p, ok) cs -> p = tempFile)
         /\ (In (Unlink tempFile, true) cs -> files d' !! tempFile = None))).
Proof.
  intros H sessionFile tempFile. unfold saveSession in H.
  fold sessionFile in H. fold tempFile in H.
  apply bind_inv in H as [(a & d1 & Hi & H) | (e & Hi & ->)].
  2:{ destruct (initialize_spec _ _ _ Hi) as (Hf & cs & Hext & Hmk & [Hr | [msg Hr]]);
        [discriminate |].
      exists cs. split; [exact Hext |]. right. left. eauto. }
  destruct (initialize_spec _ _ _ Hi) as (Hf1 & cs1 & Hext1 & Hmk & _).
  apply try_catch_inv in H as [(a' & H & ->) | (e & d2 & H & Hh)].
  - (* the write and the rename succeed *)
    apply bind_inv in H as [(t & d2 & Hd & H) | (e & Hd & ?)];
      [| apply new_Date_inv in Hd as [? _]; congruence].
    apply new_Date_inv in Hd as (_ & Hf2 & Hext2).
    apply bind_inv in H as [(u & d3 & Hw & H) | (e & Hw & ?)]; [| discriminate].
    apply fs_writeFile_inv in Hw as (okw & fs3 & -> & Hwt & Hwf).
    destruct okw; [| destruct (Hwf eq_refl) as [[e E] _]; discriminate ].
    destruct (Hwt eq_refl) as [_ ->].
    apply fs_rename_inv in H as (okr & fs4 & -> & Hrt & Hrf).
    destruct okr; [| destruct (Hrf eq_refl) as [_ [e E]]; discriminate ].
    destruct (Hrt eq_refl) as (c & _ & Hc & ->).
    simpl in Hc. rewrite lookup_insert_eq in Hc. inversion Hc; subst c. clear Hc.
    eexists. split.
    { eapply extends_trans; [exact Hext1 |].
      eapply extends_trans; [exact Hext2 |].
      eapply extends_trans; apply extends_with_files. }
    left. split; [destruct a'; reflexivity |]. split.
    + eexists. simpl. rewrite delete_insert_eq, Hf2, Hf1. reflexivity.
    + intros c ok Hin. rewrite !in_app_iff in Hin. simpl in Hin.
      destruct Hin as [Hin | [Hin | [[Hin | []] | [Hin | []]]]];
        try contradiction.
      * left. eapply Forall_mkdir_no_other; eauto.
      * inversion Hin; subst. right. auto.
      * inversion Hin; subst. right. auto.
  - (* the write or the rename fails *)
    apply bind_inv in Hh as [(u & d3 & Hu & Hh) | (e' & Hu & ?)].
    2:{ apply try_catch_inv in Hu as [(? & ? & ?) | (e2 & d4 & Hu & Hr)];
          [discriminate | inversion Hr]. }
    unfold throw in Hh. inversion Hh; subst r d3. clear Hh.
    apply bind_inv in H as [(t & d3 & Hd & H) | (e0 & Hd & ?)];
      [| apply new_Date_inv in Hd as [? _]; congruence].
    apply new_Date_inv in Hd as (_ & Hf2 & Hext2).
    assert (Hbody : exists cs2,
               extends d3 d2 cs2
               /\ (forall p, p <> tempFile -> files d2 !! p = files d3 !! p)
               /\ (forall st, files d2 !! tempFile = Some (SessionFile st) ->
                     files d3 !! tempFile = Some (SessionFile st)
                     \/ exists t, st = with_updatedAt state t)
               /\ (In (WriteFile tempFile, false) cs2
                   \/ In (Rename tempFile sessionFile, false) cs2)
               /\ (forall p ok, In (Unlink p, ok) cs2 -> False)).
    { apply bind_inv in H as [(u0 & d4 & Hw & H) | (e0 & Hw & _)].
      - apply fs_writeFile_inv in Hw as (okw & fs3 & -> & Hwt & Hwf).
        destruct okw; [| destruct (Hwf eq_refl) as [[e0 E] _]; discriminate ].
        destruct (Hwt eq_refl) as [_ ->].
        apply fs_rename_inv in H as (okr & fs4 & -> & Hrt & Hrf).
        destruct okr; [destruct (Hrt eq_refl) as (c & ? & _); discriminate |].
        destruct (Hrf eq_refl) as [-> _].
        eexists. split; [eapply extends_trans; apply extends_with_files |].
        split; [| split; [| split]].
        + intros p Hp. simpl. rewrite lookup_insert_ne; [reflexivity | congruence].
        + intros st. simpl. rewrite lookup_insert_eq. intros E. inversion E. eauto.
        + right. simpl. auto.
        + intros p ok Hin. simpl in Hin.
          destruct Hin as [Hin | [Hin | []]]; discriminate.
      - apply fs_writeFile_inv in Hw as (okw & fs3 & -> & Hwt & Hwf).
        destruct okw; [destruct (Hwt eq_refl); discriminate |].
        destruct (Hwf eq_refl) as (_ & Hq & Hst).
        eexists. split; [apply extends_with_files |].
        split; [| split; [| split]].
        + intros p Hp. simpl. apply Hq. exact Hp.
        + intros st E. left. apply Hst. exact E.
        + left. simpl. auto.
        + intros p ok Hin. simpl in Hin. destruct Hin as [Hin | []]; discriminate. }
    destruct Hbody as (cs2 & Hext3 & Hfiles & Htmp & Hfail & Hnou).
    assert (Hclean : exists ok fs, d' = with_files d2 fs (Unlink tempFile) ok
                                   /\ (forall p, p <> tempFile -> fs !! p = files d2 !! p)
                                   /\ (forall c, fs !! tempFile = Some c ->
                                                 files d2 !! tempFile = Some c)
                                   /\ (ok = true -> fs !! tempFile = None)).
    { assert (Hun : forall ru du, fs_unlink tempFile d2 = (ru, du) ->
                 exists ok fs, du = with_files d2 fs (Unlink tempFile) ok
                       /\ (forall p, p <> tempFile -> fs !! p = files d2 !! p)
                       /\ (forall c, fs !! tempFile = Some c ->
                                     files d2 !! tempFile = Some c)
                       /\ (ok = true -> fs !! tempFile = None)).
      { intros ru du Hun.
        apply fs_unlink_inv in Hun as (ok & fs & -> & Ht & Hf).
        exists ok, fs. split; [reflexivity |].
        destruct ok; [destruct (Ht eq_refl) as [_ ->] | destruct (Hf eq_refl) as [-> _]].
        - split; [intros p Hp; rewrite lookup_delete_ne; [reflexivity | congruence] |].
          split; [intros c; rewrite lookup_delete_eq; discriminate |].
          intros _. apply lookup_delete_eq.
        - split; [reflexivity |]. split; [tauto | discriminate]. }
      apply try_catch_inv in Hu as [(? & Hu & _) | (e2 & d4 & Hu & Hr)].
      - eapply Hun; eauto.
      - unfold ret in Hr. inversion Hr; subst d4. eapply Hun; eauto. }
    destruct Hclean as (oku & fsu & -> & Hfsu & Hfst & Hgone).
    eexists. split.
    { eapply extends_trans; [exact Hext1 |].
      eapply extends_trans; [exact Hext2 |].
      eapply extends_trans; [exact Hext3 | apply extends_with_files]. }
    right. right. split; [eauto |]. split; [| split; [| split; [| split; [| split]]]].
    + intros p Hp. simpl. rewrite (Hfsu p Hp), (Hfiles p Hp), Hf2, Hf1. reflexivity.
    + intros st E. simpl in E. apply Hfst in E. apply Htmp in E.
      rewrite Hf2, Hf1 in E. exact E.
    + destruct Hfail as [Hin | Hin]; [left | right];
        rewrite !in_app_iff; auto.
    + exists oku. rewrite !in_app_iff. simpl. auto.
    + intros p ok Hin. rewrite !in_app_iff in Hin. simpl in Hin.
      destruct Hin as [Hin | [Hin | [Hin | [Hin | []]]]].
      * destruct (Forall_mkdir_no_other _ _ _ Hmk Hin). discriminate.
      * contradiction.
      * destruct (Hnou _ _ Hin).
      * inversion Hin. reflexivity.
    + intros Hin. rewrite !in_app_iff in Hin. simpl in Hin. simpl.
      destruct Hin as [Hin | [Hin | [Hin | [Hin | []]]]].
      * destruct (Forall_mkdir_no_other _ _ _ Hmk Hin). discriminate.
      * contradiction.
      * destruct (Hnou _ _ Hin).
      * inversion Hin; subst. apply Hgone. reflexivity.
Qed.

Lemma find_in_spec (sid : string) (statuses : list WorkflowStatus) :
  forall d r d',
    find_in stateDir sid statuses d = (r, d') ->
    files d' = files d
    /\ exists cs, extends d d' cs /\ Forall is_read_call cs
       /\ (forall p, r = Ok p ->
             exists s, In s statuses /\ p = getSessionFilePath stateDir sid s
                       /\ is_Some (files d !! p))
       /\ (forall e, r = Throw e ->
             exists msg, e = StateError msg (Some sid) (Some op_read)).
Proof.
  induction statuses as [| s rest IH]; intros d r d' H; simpl in H.
  - unfold throw in H. inversion H; subst.
    split; [reflexivity |]. exists []. split; [apply extends_refl |].
    split; [constructor |]. split; [discriminate |].
    intros e E. inversion E. eauto.
  - apply try_catch_inv in H as [(p & H & ->) | (e & d1 & H & Hrest)].
    + apply bind_inv in H as [(u & d1 & Ha & H) | (e & Ha & ?)]; [| discriminate].
      unfold ret in H. inversion H; subst p d1. clear H.
      apply fs_access_inv in Ha as (ok & -> & Ht & Hf).
      destruct ok; [| destruct (Hf eq_refl); discriminate].
      destruct (Ht eq_refl) as [_ Hsome].
      split; [reflexivity |]. eexists. split; [apply extends_with_files |].
      split; [repeat constructor; unfold is_read_call; eauto |].
      split; [| discriminate].
      intros p E. inversion E; subst. exists s. simpl. auto.
    + assert (Hd1 : files d1 = files d /\ exists c, extends d d1 [c] /\ is_read_call c).
      { apply bind_inv in H as [(u & d2 & Ha & H) | (e0 & Ha & _)];
          [unfold ret in H; discriminate |].
        apply fs_access_inv in Ha as (ok & -> & _ & _).
        split; [reflexivity |]. eexists. split; [apply extends_with_files |].
        unfold is_read_call; eauto. }
      destruct Hd1 as (Hf1 & c & Hext1 & Hc).
      destruct (IH _ _ _ Hrest) as (Hf & cs & Hext & Hrd & Hok & Herr).
      split; [congruence |]. exists ([c] ++ cs).
      split; [eapply extends_trans; eauto |].
      split; [constructor; assumption |].
      split; [| exact Herr].
      intros p E. destruct (Hok p E) as (s' & Hin & -> & Hsome).
      exists s'. rewrite <- Hf1. simpl. auto.
Qed.

Lemma loadSession_spec (sid : string) (d : @Disk num) r d' :
  loadSession stateDir sid None d = (r, d') ->
  files d' = files d
  /\ exists cs, extends d d' cs /\ Forall is_read_call cs
     /\ (forall st, r = Ok st ->
           exists s, files d !! getSessionFilePath stateDir sid s = Some (SessionFile st))
     /\ (forall e, r = Throw e ->
           exists msg, e = StateError msg (Some sid) (Some op_read)).
Proof.
  unfold loadSession, findSessionFile. intros H.
  apply bind_inv in H as [(p & d1 & Hfind & H) | (e & Hfind & ->)].
  2:{ destruct (find_in_spec _ _ _ _ _ Hfind) as (Hf & cs & Hext & Hrd & _ & Herr).
      split; [exact Hf |]. exists cs. split; [exact Hext |]. split; [exact Hrd |].
      split; [discriminate |]. intros e' E. inversion E; subst. apply Herr. reflexivity. }
  destruct (find_in_spec _ _ _ _ _ Hfind) as (Hf1 & cs1 & Hext1 & Hrd1 & Hok & _).
  destruct (Hok p eq_refl) as (s & _ & -> & _).
  apply try_catch_inv in H as [(st & H & ->) | (e & d2 & H & Hh)].
  - apply bind_inv in H as [(c & d2 & Hr & H) | (e & Hr & ?)]; [| discriminate].
    apply fs_readFile_inv in Hr as (ok & -> & Ht & Hf).
    destruct ok; [| destruct (Hf eq_refl); discriminate].
    destruct (Ht eq_refl) as (c' & E & Hc). inversion E; subst c'. clear E.
    destruct c as [st' | txt]; [| unfold throw in H; discriminate].
    unfold ret in H. inversion H; subst st' d'. clear H.
    split; [exact Hf1 |]. eexists.
    split; [eapply extends_trans; [exact Hext1 | apply extends_with_files] |].
    split. { apply Forall_app. split; [exact Hrd1 |].
             repeat constructor. unfold is_read_call. eauto. }
    split; [| discriminate].
    intros st' E. inversion E; subst. exists s. rewrite <- Hf1. exact Hc.
  - assert (Hd2 : files d2 = files d1 /\ exists cs2, extends d1 d2 cs2 /\ Forall is_read_call cs2).
    { apply bind_inv in H as [(c & d3 & Hr & H) | (e0 & Hr & _)].
      - apply fs_readFile_inv in Hr as (ok & -> & _ & _).
        destruct c; unfold ret, throw in H; inversion H; subst.
        split; [reflexivity |]. eexists. split; [apply extends_with_files |].
        repeat constructor. unfold is_read_call. eauto.
      - apply fs_readFile_inv in Hr as (ok & -> & _ & _).
        split; [reflexivity |]. eexists. split; [apply extends_with_files |].
        repeat constructor. unfold is_read_call. eauto. }
    destruct Hd2 as (Hf2 & cs2 & Hext2 & Hrd2).
    assert (Hr : d' = d2 /\ exists msg, r = Throw (StateError msg (Some sid) (Some op_read))).
    { destruct (isFileNotFoundError e); unfold throw in Hh; inversion Hh; eauto. }
    destruct Hr as (-> & msg & ->).
    split; [congruence |]. exists (cs1 ++ cs2).
    split; [eapply extends_trans; eauto |].
    split; [apply Forall_app; auto |].
    split; [discriminate |]. intros e' E. inversion E. eauto.
Qed.

(** ** Paths *)

Lemma string_app_assoc (a b c : string) :
  ((a ++ b) ++ c = a ++ (b ++ c))%string.
Proof.
  induction a as [| x a IH]; [reflexivity |].
  change (String x ((a ++ b) ++ c) = String x (a ++ (b ++ c)))%string.
  rewrite IH. reflexivity.
Qed.

Lemma last_char_app (a b : string) (x : ascii) :
  JsString.last_char b = Some x -> JsString.last_char (a ++ b)%string = Some x.
Proof.
  intros Hb. induction a as [| c a IH]; [exact Hb |].
  change (JsString.last_char (String c (a ++ b)%string) = Some x).
  destruct (a ++ b)%string eqn:E; [| exact IH].
  simpl in IH. discriminate.
Qed.

Lemma session_path_last_char (sid : string) (s : WorkflowStatus) :
  JsString.last_char (getSessionFilePath stateDir sid s) = Some "n"%char.
Proof.
  unfold getSessionFilePath. repeat apply last_char_app. reflexivity.
Qed.

Lemma temp_path_last_char (p : string) : JsString.last_char (p ++ ".tmp")%string = Some "p"%char.
Proof. apply last_char_app. reflexivity. Qed.

(** A session file is never a temporary file. *)
Lemma session_path_not_temp (sid sid' : string) (s s' : WorkflowStatus) :
  getSessionFilePath stateDir sid s
  <> (getSessionFilePath stateDir sid' s' ++ ".tmp")%string.
Proof.
  intros E. pose proof (session_path_last_char sid s) as H.
  rewrite E, temp_path_last_char in H. discriminate.
Qed.

(** The partitions are disjoint: a path lies in one of them only. *)
Lemma session_path_status_inj (sid sid' : string) (s s' : WorkflowStatus) :
  getSessionFilePath stateDir sid s = getSessionFilePath stateDir sid' s' -> s = s'.
Proof.
  unfold getSessionFilePath, statusDir. rewrite !string_app_assoc.
  intros E. apply String.app_inj in E. apply (String.app_inj "/") in E.
  destruct s, s'; try reflexivity; vm_compute in E; discriminate.
Qed.

(** C4: when the write of the temporary file or its rename fails
    during [saveSession], the call raises a [StateError] that carries the
    session identifier and the operation [write]; the removal of the
    temporary file was attempted, and whether it succeeded does not change
    the error; every file other than the temporary one, the session file
    of the target partition among them, is as it was before the call, so
    no session file appeared; and when the removal succeeded the temporary
    file is gone. *)
Theorem saveSession_failure_is_atomic :
  forall (state : @WorkflowSessionState num) (d d' : @Disk num) (r : result unit)
         (cs : list (FsCall * bool)),
    let sessionFile := getSessionFilePath stateDir (sessionId state) (status state) in
    let tempFile := (sessionFile ++ ".tmp")%string in
    saveSession stateDir state d = (r, d') ->
    calls d' = calls d ++ cs ->
    In (WriteFile tempFile, false) cs \/ In (Rename tempFile sessionFile, false) cs ->
    (exists msg, r = Throw (StateError msg (Some (sessionId state)) (Some op_write)))
    /\ (exists ok, In (Unlink tempFile, ok) cs)
    /\ (forall p, p <> tempFile -> files d' !! p = files d !! p)
    /\ files d' !! sessionFile = files d !! sessionFile
    /\ (In (Unlink tempFile, true) cs -> files d' !! tempFile = None).
Proof.
  intros state d d' r cs sessionFile tempFile Hrun Hcalls Hfail.
  subst sessionFile tempFile.
  destruct (saveSession_spec state d r d' Hrun) as (cs' & (Hc & _) & Hcases).
  cbv zeta in Hcases.
  assert (cs' = cs) by (rewrite Hc in Hcalls; eapply app_inv_head; eauto). subst cs'.
  destruct Hcases as [(_ & _ & Hall) | [(_ & _ & Hmk) | (Hr & Hfiles & _ & _ & Hun & _ & Hgone)]].
  - exfalso. destruct Hfail as [Hin | Hin];
      destruct (Hall _ _ Hin) as [[p E] | [_ E]]; discriminate.
  - exfalso. destruct Hfail as [Hin | Hin];
      destruct (Forall_mkdir_no_other _ _ _ Hmk Hin); discriminate.
  - split; [exact Hr |]. split; [exact Hun |]. split; [exact Hfiles |].
    split; [| exact Hgone].
    apply Hfiles. apply session_path_not_temp.
Qed.

(** ** The step index counts the step executions *)

Lemma counted_with_updatedAt (state : @WorkflowSessionState num) (t : Z) :
  counted state -> counted (with_updatedAt state t).
Proof. intros H. exact H. Qed.

Lemma saveSession_counted (state : @WorkflowSessionState num) (d : @Disk num) r d' :
  counted state -> all_counted d ->
  saveSession stateDir state d = (r, d') -> all_counted d'.
Proof.
  intros Hst Hd Hrun p st Hp.
  destruct (saveSession_spec state d r d' Hrun) as (cs & _ & Hcases).
  destruct Hcases as [(_ & [t Hf] & _) | [(_ & Hf & _) | (_ & Hfiles & Htmp & _)]].
  - rewrite Hf in Hp.
    cbv zeta in Hp.
    destruct (decide (getSessionFilePath stateDir (sessionId state) (status state) = p))
      as [E | Hne].
    + subst p. rewrite lookup_insert_eq in Hp. inversion Hp; subst. exact Hst.
    + rewrite lookup_insert_ne in Hp by exact Hne.
      apply lookup_delete_Some in Hp as [_ Hp]. eapply Hd; eauto.
  - rewrite Hf in Hp. eapply Hd; eauto.
  - cbv zeta in Hfiles, Htmp.
    destruct (decide
      (p = (getSessionFilePath stateDir (sessionId state) (status state) ++ ".tmp")%string))
      as [E | Hne].
    + subst p. destruct (Htmp _ Hp) as [Hold | [t ->]]; [eapply Hd; eauto | exact Hst].
    + rewrite (Hfiles p Hne) in Hp. eapply Hd; eauto.
Qed.

Lemma loadSession_counted (sid : string) (d : @Disk num) st d' :
  all_counted d ->
  loadSession stateDir sid None d = (Ok st, d') -> counted st /\ all_counted d'.
Proof.
  intros Hd Hrun.
  destruct (loadSession_spec sid d _ _ Hrun) as (Hf & cs & _ & _ & Hok & _).
  destruct (Hok st eq_refl) as [s Hs].
  split; [eapply Hd; eauto |]. intros p st' Hp. rewrite Hf in Hp. eapply Hd; eauto.
Qed.

Lemma loadSession_files (sid : string) (d : @Disk num) r d' :
  loadSession stateDir sid None d = (r, d') -> files d' = files d.
Proof. intros H. apply (loadSession_spec sid d r d' H). Qed.

Lemma all_counted_files (d d' : @Disk num) :
  files d' = files d -> all_counted d -> all_counted d'.
Proof. intros E H p st Hp. rewrite E in Hp. eapply H; eauto. Qed.

(** An operation that loads a session, derives a state from it at the
    time of a clock reading and saves that state keeps the files
    [counted], provided the derived state is. *)
Lemma load_update_save_counted (sid : string)
    (update : @WorkflowSessionState num -> Z -> @WorkflowSessionState num) (d : @Disk num) :
  (forall st t, counted st -> counted (update st t)) ->
  all_counted d ->
  all_counted
    (snd (bind (loadSession stateDir sid None)
            (fun st => bind new_Date
                         (fun now => saveSession stateDir (update st now))) d)).
Proof.
  intros Hupd Hd.
  destruct (bind _ _ d) as [r d'] eqn:Hrun. simpl.
  apply bind_inv in Hrun as [(st & d1 & Hl & H) | (e & Hl & _)].
  - destruct (loadSession_counted _ _ _ _ Hd Hl) as [Hst Hd1].
    apply bind_inv in H as [(t & d2 & Hn & H) | (e & Hn & _)];
      [| apply new_Date_inv in Hn as [? _]; discriminate].
    apply new_Date_inv in Hn as (_ & Hf2 & _).
    eapply saveSession_counted; [apply Hupd; exact Hst | | exact H].
    eapply all_counted_files; eauto.
  - eapply all_counted_files; [eapply loadSession_files; eauto | exact Hd].
Qed.

Lemma createSession_counted (wf : string) (ins : list (string * value num))
    (d : @Disk num) :
  all_counted d -> all_counted (snd (createSession stateDir wf ins d)).
Proof.
  intros Hd. destruct (createSession stateDir wf ins d) as [r d'] eqn:Hrun. simpl.
  unfold createSession in Hrun.
  apply bind_inv in Hrun as [(sid & d1 & Hu & H) | (e & Hu & _)];
    [| apply uuidv4_inv in Hu as [? _]; discriminate].
  apply uuidv4_inv in Hu as (_ & Hf1 & _).
  apply bind_inv in H as [(t & d2 & Hn & H) | (e & Hn & _)];
    [| apply new_Date_inv in Hn as [? _]; discriminate].
  apply new_Date_inv in Hn as (_ & Hf2 & _).
  assert (Hd2 : all_counted d2).
  { eapply all_counted_files; [| exact Hd]. congruence. }
  apply bind_inv in H as [(u & d3 & Hs & H) | (e & Hs & _)].
  - unfold ret in H. inversion H; subst.
    eapply saveSession_counted; [| exact Hd2 | exact Hs]. reflexivity.
  - eapply saveSession_counted; [| exact Hd2 | exact Hs]. reflexivity.
Qed.

Lemma updateSessionStatus_counted (sid : string) (new : WorkflowStatus) (d : @Disk num) :
  all_counted d -> all_counted (snd (updateSessionStatus stateDir sid new d)).
Proof.
  intros Hd. destruct (updateSessionStatus stateDir sid new d) as [r d'] eqn:Hrun. simpl.
  unfold updateSessionStatus in Hrun.
  apply bind_inv in Hrun as [(st & d1 & Hl & H) | (e & Hl & _)].
  2:{ eapply all_counted_files; [eapply loadSession_files; eauto | exact Hd]. }
  destruct (loadSession_counted _ _ _ _ Hd Hl) as [Hst Hd1].
  apply bind_inv in H as [(t & d2 & Hn & H) | (e & Hn & _)];
    [| apply new_Date_inv in Hn as [? _]; discriminate].
  apply new_Date_inv in Hn as (_ & Hf2 & _).
  assert (Hd2 : all_counted d2) by (eapply all_counted_files; eauto).
  apply bind_inv in H as [(u & d3 & Hs & H) | (e & Hs & _)].
  2:{ eapply saveSession_counted; [| exact Hd2 | exact Hs]. exact Hst. }
  assert (Hd3 : all_counted d3).
  { eapply saveSession_counted; [| exact Hd2 | exact Hs]. exact Hst. }
  destruct (negb _).
  - assert (Hun : forall ru du, fs_unlink (getSessionFilePath stateDir sid (status st)) d3
                                = (ru, du) -> all_counted du).
    { intros ru du Hu. apply fs_unlink_inv in Hu as (ok & fs & -> & Ht & Hf).
      intros p st' Hp. simpl in Hp.
      destruct ok; [destruct (Ht eq_refl) as [_ ->] | destruct (Hf eq_refl) as [-> _]].
      - apply lookup_delete_Some in Hp as [_ Hp]. eapply Hd3; eauto.
      - eapply Hd3; eauto. }
    apply try_catch_inv in H as [(? & Hu & _) | (e & d4 & Hu & Hr)].
    + eapply Hun; eauto.
    + unfold ret in Hr. inversion Hr; subst. eapply Hun; eauto.
  - unfold ret in H. inversion H; subst. exact Hd3.
Qed.

Lemma deleteSession_counted (sid : string) (d : @Disk num) :
  all_counted d -> all_counted (snd (deleteSession stateDir sid d)).
Proof.
  intros Hd. destruct (deleteSession stateDir sid d) as [r d'] eqn:Hrun. simpl.
  unfold deleteSession in Hrun.
  assert (Hbody : forall rb db,
             bind (findSessionFile stateDir sid) (fun f => fs_unlink f) d = (rb, db) ->
             all_counted db).
  { intros rb db Hb.
    apply bind_inv in Hb as [(f & d1 & Hfind & Hu) | (e & Hfind & _)].
    - destruct (find_in_spec _ _ _ _ _ Hfind) as (Hf1 & _).
      apply fs_unlink_inv in Hu as (ok & fs & -> & Ht & Hf).
      intros p st' Hp. simpl in Hp.
      destruct ok; [destruct (Ht eq_refl) as [_ ->] | destruct (Hf eq_refl) as [-> _]].
      + apply lookup_delete_Some in Hp as [_ Hp]. rewrite Hf1 in Hp. eapply Hd; eauto.
      + rewrite Hf1 in Hp. eapply Hd; eauto.
    - destruct (find_in_spec _ _ _ _ _ Hfind) as (Hf1 & _).
      eapply all_counted_files; eauto. }
  apply try_catch_inv in Hrun as [(? & Hb & _) | (e & d1 & Hb & Hh)].
  - eapply Hbody; eauto.
  - assert (d' = d1) by (destruct (isFileNotFoundError e); unfold throw in Hh;
                         inversion Hh; reflexivity).
    subst. eapply Hbody; eauto.
Qed.

(** Every disk that the state manager can produce holds only session
    states whose step index counts their step executions. *)
Lemma reachable_all_counted (d : @Disk num) :
  reachable stateDir d -> all_counted d.
Proof.
  induction 1 as [d He | d d' _ IH Hf | d wf ins _ IH | d sid ex _ IH
                  | d sid upd _ IH | d sid new _ IH | d sid _ IH].
  - intros p st Hp. rewrite He, lookup_empty in Hp. discriminate.
  - eapply all_counted_files; eauto.
  - apply createSession_counted. exact IH.
  - unfold addStepExecution.
    apply (load_update_save_counted sid
             (fun state now =>
                mkSession (sessionId state) (workflowId state) (status state)
                  (inputs state) (context state) (outputs state)
                  (stepExecutions state ++ [ex]) (currentStepIndex state + 1)
                  (createdAt state) now (metadata state))); [| exact IH].
    intros st t Hst. unfold counted in *. simpl.
    rewrite length_app. simpl. lia.
  - unfold updateContext.
    apply (load_update_save_counted sid
             (fun state now =>
                mkSession (sessionId state) (workflowId state) (status state)
                  (inputs state) (Js.assign_all (context state) upd)
                  (outputs state) (stepExecutions state) (currentStepIndex state)
                  (createdAt state) now (metadata state))); [| exact IH].
    intros st t Hst. exact Hst.
  - apply updateSessionStatus_counted. exact IH.
  - apply deleteSession_counted. exact IH.
Qed.

Lemma WorkflowStatus_eqb_eq (a b : WorkflowStatus) :
  WorkflowStatus_eqb a b = true <-> a = b.
Proof. destruct a, b; simpl; split; intros H; try reflexivity; discriminate. Qed.

(** A successful operation that loads a session, derives a state from it
    and saves it leaves the derived state in its session file. *)
Lemma load_update_save_ok (sid : string)
    (update : @WorkflowSessionState num -> Z -> @WorkflowSessionState num) (d d' : @Disk num) :
  bind (loadSession stateDir sid None)
    (fun st => bind new_Date (fun now => saveSession stateDir (update st now))) d
  = (Ok tt, d') ->
  exists old d0 now t,
    loadSession stateDir sid None d = (Ok old, d0)
    /\ files d' !! getSessionFilePath stateDir (sessionId (update old now))
                     (status (update old now))
       = Some (SessionFile (with_updatedAt (update old now) t)).
Proof.
  intros Hrun.
  apply bind_inv in Hrun as [(old & d0 & Hl & H) | (e & _ & ?)]; [| discriminate].
  apply bind_inv in H as [(now & d1 & Hn & H) | (e & _ & ?)]; [| discriminate].
  destruct (saveSession_spec _ _ _ _ H) as (cs & _ & Hcases). cbv zeta in Hcases.
  destruct Hcases as [(_ & [t Hf] & _) | [([msg E] & _) | ([msg E] & _)]];
    try discriminate.
  exists old, d0, now, t. split; [exact Hl |].
  rewrite Hf. apply lookup_insert_eq.
Qed.

(** C2: a session state made by [createSession] has the step index [0]
    and no step executions; [addStepExecution] appends one record and
    adds one to the index; [updateContext] and [updateSessionStatus]
    leave both as they were; so on every disk that these operations
    produce from an empty one, whatever fails on the way, every stored
    session state has a step index equal to the number of its step
    executions, the state left by a successful [addStepExecution] among
    them. *)
Theorem step_index_counts_executions :
  (forall wf ins d sid d',
      createSession stateDir wf ins d = (Ok sid, d') ->
      exists st,
        files d' !! getSessionFilePath stateDir sid running = Some (SessionFile st)
        /\ currentStepIndex st = 0 /\ stepExecutions st = [])
  /\ (forall sid ex d d',
        addStepExecution stateDir sid ex d = (Ok tt, d') ->
        exists old d0 new,
          loadSession stateDir sid None d = (Ok old, d0)
          /\ files d' !! getSessionFilePath stateDir (sessionId old) (status old)
             = Some (SessionFile new)
          /\ stepExecutions new = stepExecutions old ++ [ex]
          /\ currentStepIndex new = currentStepIndex old + 1)
  /\ (forall sid upd d d',
        updateContext stateDir sid upd d = (Ok tt, d') ->
        exists old d0 new,
          loadSession stateDir sid None d = (Ok old, d0)
          /\ files d' !! getSessionFilePath stateDir (sessionId old) (status old)
             = Some (SessionFile new)
          /\ stepExecutions new = stepExecutions old
          /\ currentStepIndex new = currentStepIndex old)
  /\ (forall sid s d d',
        updateSessionStatus stateDir sid s d = (Ok tt, d') ->
        exists old d0 new,
          loadSession stateDir sid None d = (Ok old, d0)
          /\ files d' !! getSessionFilePath stateDir (sessionId old) s
             = Some (SessionFile new)
          /\ stepExecutions new = stepExecutions old
          /\ currentStepIndex new = currentStepIndex old)
  /\ (forall d, reachable stateDir d -> all_counted d)
  /\ (forall d sid ex d',
        reachable stateDir d ->
        addStepExecution stateDir sid ex d = (Ok tt, d') ->
        exists path new,
          files d' !! path = Some (SessionFile new)
          /\ (exists before, stepExecutions new = before ++ [ex])
          /\ currentStepIndex new = Z.of_nat (List.length (stepExecutions new))).
Proof.
  assert (Hadd : forall sid ex d d',
        addStepExecution stateDir sid ex d = (Ok tt, d') ->
        exists old d0 new,
          loadSession stateDir sid None d = (Ok old, d0)
          /\ files d' !! getSessionFilePath stateDir (sessionId old) (status old)
             = Some (SessionFile new)
          /\ stepExecutions new = stepExecutions old ++ [ex]
          /\ currentStepIndex new = currentStepIndex old + 1).
  { intros sid ex d d' Hrun. unfold addStepExecution in Hrun.
    apply (load_update_save_ok sid
             (fun state now =>
                mkSession (sessionId state) (workflowId state) (status state)
                  (inputs state) (context state) (outputs state)
                  (stepExecutions state ++ [ex]) (currentStepIndex state + 1)
                  (createdAt state) now (metadata state))) in Hrun
      as (old & d0 & now & t & Hl & Hf).
    simpl in Hf. eexists old, d0, _. split; [exact Hl |]. split; [exact Hf |].
    split; reflexivity. }
  split; [| split; [exact Hadd | split; [| split; [| split]]]].
  - intros wf ins d sid d' Hrun. unfold createSession in Hrun.
    apply bind_inv in Hrun as [(sid0 & d1 & Hu & H) | (e & _ & ?)]; [| discriminate].
    apply bind_inv in H as [(t & d2 & Hn & H) | (e & _ & ?)]; [| discriminate].
    apply bind_inv in H as [(u & d3 & Hs & H) | (e & _ & ?)]; [| discriminate].
    unfold ret in H. inversion H; subst sid0 d3. clear H.
    destruct (saveSession_spec _ _ _ _ Hs) as (cs & _ & Hcases). cbv zeta in Hcases.
    destruct Hcases as [(_ & [t' Hf] & _) | [([msg E] & _) | ([msg E] & _)]];
      try discriminate.
    simpl in Hf. eexists. split; [rewrite Hf; apply lookup_insert_eq |].
    split; reflexivity.
  - intros sid upd d d' Hrun. unfold updateContext in Hrun.
    apply (load_update_save_ok sid
             (fun state now =>
                mkSession (sessionId state) (workflowId state) (status state)
                  (inputs state) (Js.assign_all (context state) upd)
                  (outputs state) (stepExecutions state) (currentStepIndex state)
                  (createdAt state) now (metadata state))) in Hrun
      as (old & d0 & now & t & Hl & Hf).
    simpl in Hf. eexists old, d0, _. split; [exact Hl |]. split; [exact Hf |].
    split; reflexivity.
  - intros sid s d d' Hrun. unfold updateSessionStatus in Hrun.
    apply bind_inv in Hrun as [(old & d0 & Hl & H) | (e & _ & ?)]; [| discriminate].
    apply bind_inv in H as [(now & d1 & Hn & H) | (e & _ & ?)]; [| discriminate].
    apply bind_inv in H as [(u & d2 & Hs & H) | (e & _ & ?)]; [| discriminate].
    destruct (saveSession_spec _ _ _ _ Hs) as (cs & _ & Hcases). cbv zeta in Hcases.
    destruct Hcases as [(_ & [t' Hf] & _) | [([msg E] & _) | ([msg E] & _)]];
      try discriminate.
    simpl in Hf.
    assert (Hnew : files d' !! getSessionFilePath stateDir (sessionId old) s
                   = files d2 !! getSessionFilePath stateDir (sessionId old) s).
    { destruct (WorkflowStatus_eqb (status old) s) eqn:He; simpl in H.
      - unfold ret in H. inversion H; subst d'. reflexivity.
      - assert (Hne : getSessionFilePath stateDir sid (status old)
                      <> getSessionFilePath stateDir (sessionId old) s).
        { intros E. apply session_path_status_inj in E.
          apply WorkflowStatus_eqb_eq in E. congruence. }
        assert (Hun : forall ru du,
                   fs_unlink (getSessionFilePath stateDir sid (status old)) d2 = (ru, du) ->
                   files du !! getSessionFilePath stateDir (sessionId old) s
                   = files d2 !! getSessionFilePath stateDir (sessionId old) s).
        { intros ru du Hu. apply fs_unlink_inv in Hu as (ok & fs & -> & Ht & Hff).
          simpl.
          destruct ok; [destruct (Ht eq_refl) as [_ ->] | destruct (Hff eq_refl) as [-> _]].
          - apply lookup_delete_ne. exact Hne.
          - reflexivity. }
        apply try_catch_inv in H as [(? & Hu & _) | (e & d4 & Hu & Hr)].
        + exact (Hun _ _ Hu).
        + unfold ret in Hr. inversion Hr; subst d4. exact (Hun _ _ Hu). }
    rewrite Hf, lookup_insert_eq in Hnew.
    eexists old, d0, _. split; [exact Hl |].
    split; [exact Hnew |]. split; reflexivity.
  - exact reachable_all_counted.
  - intros d sid ex d' Hreach Hrun.
    destruct (Hadd _ _ _ _ Hrun) as (old & d0 & new & Hl & Hf & Hex & Hidx).
    exists (getSessionFilePath stateDir (sessionId old) (status old)), new.
    split; [exact Hf |]. split; [eauto |].
    pose proof (reachable_all_counted d Hreach) as Hd.
    destruct (loadSession_counted _ _ _ _ Hd Hl) as [Hold _].
    unfold counted in Hold. rewrite Hidx, Hex, Hold, length_app. simpl. lia.
Qed.

(** ** Moving a session between partitions *)

(** Without failures, the search for a session file stops at the first
    partition that holds one. *)
Lemma find_in_first_hit (sid : string) (pre : list WorkflowStatus) :
  forall (s : WorkflowStatus) (post : list WorkflowStatus) (d : @Disk num) (c : @FileContent num),
    (forall n, faults d n = None) ->
    Forall (fun s' => files d !! getSessionFilePath stateDir sid s' = None) pre ->
    files d !! getSessionFilePath stateDir sid s = Some c ->
    exists d', find_in stateDir sid (pre ++ s :: post) d
               = (Ok (getSessionFilePath stateDir sid s), d')
               /\ files d' = files d /\ faults d' = faults d.
Proof.
  induction pre as [| s0 pre IH]; intros s post d c Hnf Hpre Hs; simpl.
  - unfold try_catch, bind, fs_access, next_fault, ret.
    rewrite Hnf, Hs. eexists. split; [reflexivity |]. split; reflexivity.
  - inversion Hpre as [| ? ? H0 Hrest]; subst.
    unfold try_catch at 1. unfold bind, fs_access, next_fault.
    rewrite Hnf, H0.
    destruct (IH s post
                (with_files d (files d)
                   (Access (getSessionFilePath stateDir sid s0)) false) c)
      as (d' & Hrun & Hf & Hfa); [exact Hnf | exact Hrest | exact Hs |].
    exists d'. split; [exact Hrun |]. split; [exact Hf | exact Hfa].
Qed.

Lemma loadSession_first_hit (sid : string) (pre : list WorkflowStatus)
    (s : WorkflowStatus) (post : list WorkflowStatus) (d : @Disk num)
    (st : @WorkflowSessionState num) :
  all_statuses = pre ++ s :: post ->
  (forall n, faults d n = None) ->
  Forall (fun s' => files d !! getSessionFilePath stateDir sid s' = None) pre ->
  files d !! getSessionFilePath stateDir sid s = Some (SessionFile st) ->
  exists d', loadSession stateDir sid None d = (Ok st, d').
Proof.
  intros Hall Hnf Hpre Hs.
  destruct (find_in_first_hit sid pre s post d _ Hnf Hpre Hs) as (d1 & Hfind & Hf & Hfa).
  unfold loadSession, findSessionFile. rewrite Hall.
  unfold bind at 1. rewrite Hfind.
  unfold try_catch, bind, fs_readFile, next_fault, ret.
  rewrite Hfa, Hnf, Hf, Hs. eexists. reflexivity.
Qed.

Lemma all_statuses_split (s : WorkflowStatus) :
  exists pre post, all_statuses = pre ++ s :: post /\ ~ In s pre.
Proof.
  destruct s.
  - exists [], [paused; completed; failed]. split; [reflexivity | intros []].
  - exists [running], [completed; failed].
    split; [reflexivity | intros [H | []]; discriminate].
  - exists [running; paused], [failed].
    split; [reflexivity | intros [H | [H | []]]; discriminate].
  - exists [running; paused; completed], [].
    split; [reflexivity | intros [H | [H | [H | []]]]; discriminate].
Qed.

(** A session stored once is what [loadSession] returns, when it returns
    a session, and it does return it when nothing fails. *)
Lemma loadSession_stored_only_in (sid : string) (s : WorkflowStatus)
    (st : @WorkflowSessionState num) (d : @Disk num) :
  stored_only_in stateDir d sid s st ->
  (forall r d', loadSession stateDir sid None d = (r, d') ->
                forall st', r = Ok st' -> st' = st)
  /\ ((forall n, faults d n = None) ->
      exists d', loadSession stateDir sid None d = (Ok st, d')).
Proof.
  intros (Hs & _ & _ & Hothers). split.
  - intros r d' Hrun st' ->.
    destruct (loadSession_spec sid d _ _ Hrun) as (_ & cs & _ & _ & Hok & _).
    destruct (Hok st' eq_refl) as [s' Hs'].
    destruct (decide (s' = s)) as [-> | Hne].
    + rewrite Hs in Hs'. inversion Hs'. reflexivity.
    + rewrite (Hothers s' Hne) in Hs'. discriminate.
  - intros Hnf. destruct (all_statuses_split s) as (pre & post & Hall & Hnotin).
    apply (loadSession_first_hit sid pre s post d st Hall Hnf); [| exact Hs].
    apply Forall_forall. intros s' Hin. apply Hothers.
    intros ->. apply Hnotin. apply list_elem_of_In. exact Hin.
Qed.


End StateFacts.

Section StateExamples.
Import State RefHost Samples.
Local Open Scope list_scope.


Lemma saveSession_failure_is_atomic_witness :
  let run := saveSession stateDir test_session (one_session (fault_at 12)) in
  let sessionFile := getSessionFilePath stateDir "test-session" running in
  let tempFile := (sessionFile ++ ".tmp")%string in
  (exists msg, fst run = Throw (StateError msg (Some "test-session") (Some op_write)))
  /\ (exists ok, In (Unlink tempFile, ok)
                   [(Mkdir "/state", true); (Mkdir "/state/running", true);
                    (Mkdir "/state/paused", true); (Mkdir "/state/completed", true);
                    (Mkdir "/state/failed", true);
                    (WriteFile tempFile, false); (Unlink tempFile, false)])
  /\ (forall p, p <> tempFile ->
        files (snd run) !! p = files (one_session (fault_at 12)) !! p)
  /\ files (snd run) !! sessionFile = files (one_session (fault_at 12)) !! sessionFile
  /\ (In (Unlink tempFile, true)
        [(Mkdir "/state", true); (Mkdir "/state/running", true);
         (Mkdir "/state/paused", true); (Mkdir "/state/completed", true);
         (Mkdir "/state/failed", true);
         (WriteFile tempFile, false); (Unlink tempFile, false)]
      -> files (snd run) !! tempFile = None).
Proof.
  apply (saveSession_failure_is_atomic stateDir test_session
           (one_session (fault_at 12))
           (snd (saveSession stateDir test_session (one_session (fault_at 12))))
           (fst (saveSession stateDir test_session (one_session (fault_at 12))))).
  - (vm_compute; reflexivity).
  - (vm_compute; reflexivity).
  - left. (vm_compute; auto 10).
Defined.

Lemma step_index_counts_executions_witness :
  let d' := snd (addStepExecution stateDir "session-0" first_execution
                   (one_session no_faults)) in
  all_counted d'
  /\ exists path new,
       files d' !! path = Some (SessionFile new)
       /\ (exists before, stepExecutions new = before ++ [first_execution])
       /\ currentStepIndex new = Z.of_nat (List.length (stepExecutions new)).
Proof.
  pose proof (@step_index_counts_executions rnum stateDir)
    as (_ & _ & _ & _ & Hreach & Hadd).
  assert (R : reachable stateDir (one_session no_faults)).
  { apply reach_createSession. apply reach_empty. reflexivity. }
  split.
  - apply Hreach. apply reach_addStepExecution. exact R.
  - apply (Hadd (one_session no_faults) "session-0" first_execution).
    + exact R.
    + vm_compute. reflexivity.
Defined.


End StateExamples.

(* ===================================================================== *)
(** * The evaluator of conditions *)
(* ===================================================================== *)

Section StringFacts.
Import JsString.

Lemma string_length_append (a b : string) :
  String.length (a ++ b) = (String.length a + String.length b)%nat.
Proof.
  induction a as [| x a IH]; [reflexivity |].
  change (S (String.length (a ++ b)) = S (String.length a + String.length b)).
  rewrite IH. reflexivity.
Qed.

Lemma string_append_empty_r (a : string) : a ++ EmptyString = a.
Proof.
  induction a as [| x a IH]; [reflexivity |].
  change (String x (a ++ EmptyString) = String x a). rewrite IH. reflexivity.
Qed.

Lemma string_length_rev (s : string) : String.length (rev s) = String.length s.
Proof.
  induction s as [| c s IH]; [reflexivity |].
  simpl. rewrite string_length_append, IH. simpl. lia.
Qed.

Lemma string_rev_append (a b : string) : rev (a ++ b) = rev b ++ rev a.
Proof.
  induction a as [| x a IH].
  - change (rev b = rev b ++ EmptyString). rewrite string_append_empty_r. reflexivity.
  - change (rev (a ++ b) ++ String x EmptyString = rev b ++ (rev a ++ String x EmptyString)).
    rewrite IH. apply string_app_assoc.
Qed.

Lemma string_rev_involutive (s : string) : rev (rev s) = s.
Proof.
  induction s as [| c s IH]; [reflexivity |].
  simpl. rewrite string_rev_append, IH. reflexivity.
Qed.

(** What [trimStart] leaves is the end of the string, what [trimEnd]
    leaves is its beginning. *)
Lemma trimStart_suffix (s : string) : exists a, s = a ++ trimStart s.
Proof.
  induction s as [| c s [a IH]]; [exists EmptyString; reflexivity |].
  simpl. destruct (is_space c).
  - exists (String c a). change (String c s = String c (a ++ trimStart s)).
    rewrite <- IH. reflexivity.
  - exists EmptyString. reflexivity.
Qed.

Lemma trimEnd_prefix (s : string) : exists b, s = trimEnd s ++ b.
Proof.
  destruct (trimStart_suffix (rev s)) as [a E].
  exists (rev a). unfold trimEnd.
  rewrite <- string_rev_append, <- E, string_rev_involutive. reflexivity.
Qed.

Lemma length_trim (s : string) : (String.length (trim s) <= String.length s)%nat.
Proof.
  unfold trim.
  destruct (trimEnd_prefix (trimStart s)) as [b Eb].
  destruct (trimStart_suffix s) as [a Ea].
  apply (f_equal String.length) in Eb, Ea. rewrite string_length_append in Eb, Ea. lia.
Qed.

Lemma string_take_drop (n : nat) (s : string) : s = take n s ++ drop n s.
Proof.
  revert s. induction n as [| n IH]; intros s; [reflexivity |].
  destruct s as [| c s]; [reflexivity |].
  simpl. change (String c s = String c (take n s ++ drop n s)).
  rewrite <- IH. reflexivity.
Qed.

Lemma string_length_take (n : nat) (s : string) : (String.length (take n s) <= n)%nat.
Proof.
  revert s. induction n as [| n IH]; intros s; [simpl; lia |].
  destruct s as [| c s]; simpl; [lia |]. specialize (IH s). lia.
Qed.

Lemma length_slice_1_m1 (s : string) :
  (String.length (slice_1_m1 s) <= String.length s - 2)%nat.
Proof. unfold slice_1_m1. apply string_length_take. Qed.

(** ** Occurrences of a text within a part of a string *)

Lemma startsWith_append (p s u : string) :
  startsWith p s = true -> startsWith p (s ++ u) = true.
Proof.
  revert s. induction p as [| a p IH]; intros s H; [reflexivity |].
  destruct s as [| b s]; [discriminate |].
  simpl in H. apply andb_prop in H as [H1 H2].
  change (Ascii.eqb a b && startsWith p (s ++ u) = true).
  rewrite H1, (IH _ H2). reflexivity.
Qed.

Lemma includes_cons (p : string) (c : ascii) (s : string) :
  includes p (String c s) = false -> includes p s = false.
Proof. simpl. intros H. apply orb_false_elim in H as [_ H]. exact H. Qed.

Lemma includes_empty (s : string) : includes EmptyString s = true.
Proof. destruct s; reflexivity. Qed.

Lemma includes_append_r (p a s : string) :
  includes p (a ++ s) = false -> includes p s = false.
Proof.
  induction a as [| x a IH]; intros H; [exact H |].
  apply IH. apply (includes_cons p x). exact H.
Qed.

Lemma includes_append_l (p s u : string) :
  includes p (s ++ u) = false -> includes p s = false.
Proof.
  induction s as [| c s IH]; intros H.
  - destruct p as [| a p]; [| reflexivity].
    rewrite includes_empty in H. discriminate.
  - change (includes p (String c (s ++ u)) = false) in H.
    simpl in H. apply orb_false_elim in H as [H1 H2].
    simpl. rewrite (IH H2), orb_false_r.
    destruct (startsWith p (String c s)) eqn:E; [| reflexivity].
    apply (startsWith_append _ _ u) in E.
    change (startsWith p (String c (s ++ u)) = true) in E. congruence.
Qed.

Lemma includes_trim (p s : string) :
  includes p s = false -> includes p (trim s) = false.
Proof.
  intros H. unfold trim.
  destruct (trimStart_suffix s) as [a Ea]. rewrite Ea in H.
  apply includes_append_r in H.
  destruct (trimEnd_prefix (trimStart s)) as [b Eb]. rewrite Eb in H.
  apply includes_append_l in H. exact H.
Qed.

Lemma includes_drop (p : string) (n : nat) (s : string) :
  includes p s = false -> includes p (drop n s) = false.
Proof.
  intros H. rewrite (string_take_drop n s) in H. apply includes_append_r in H. exact H.
Qed.

Lemma includes_slice_1_m1 (p s : string) :
  includes p s = false -> includes p (slice_1_m1 s) = false.
Proof.
  intros H. unfold slice_1_m1.
  apply (includes_drop p 1) in H.
  rewrite (string_take_drop (String.length s - 2) (drop 1 s)) in H.
  apply includes_append_l in H. exact H.
Qed.

(** ** The pieces of a split *)

Lemma split_aux_length_le (sep s : string) :
  forall (skip : nat) (cur p : string),
    In p (split_aux sep skip cur s) ->
    (String.length p <= String.length cur + String.length s)%nat.
Proof.
  induction s as [| c s IH]; intros skip cur p Hin.
  - simpl in Hin. destruct Hin as [<- | []]. lia.
  - simpl in Hin. destruct skip as [| k].
    + destruct (startsWith sep (String c s)).
      * destruct Hin as [<- | Hin]; [simpl; lia |].
        apply IH in Hin. simpl in *. lia.
      * apply IH in Hin. rewrite string_length_append in Hin. simpl in *. lia.
    + apply IH in Hin. simpl. lia.
Qed.

Lemma split_aux_length_lt (a : ascii) (sep s : string) :
  forall (cur p : string),
    includes (String a sep) s = true ->
    In p (split_aux (String a sep) 0 cur s) ->
    (String.length p < String.length cur + String.length s)%nat.
Proof.
  induction s as [| c s IH]; intros cur p Hinc Hin.
  - discriminate.
  - cbn [split_aux] in Hin. cbn [includes] in Hinc.
    destruct (startsWith (String a sep) (String c s)) eqn:E.
    + destruct Hin as [<- | Hin]; [simpl; lia |].
      apply split_aux_length_le in Hin. simpl in *. lia.
    + simpl in Hinc. apply IH in Hin; [| exact Hinc].
      rewrite string_length_append in Hin. simpl in *. lia.
Qed.

(** Every piece of a split at a separator that occurs is shorter than
    the string. *)
Lemma split_length_lt (a : ascii) (sep s p : string) :
  includes (String a sep) s = true ->
  In p (split (String a sep) s) ->
  (String.length p < String.length s)%nat.
Proof.
  intros Hinc Hin. apply (split_aux_length_lt a sep s EmptyString p Hinc) in Hin.
  simpl in Hin. exact Hin.
Qed.

End StringFacts.

Section ConditionFacts.
Import JsString Expr.
Context {host : Host}.

Local Abbreviation val := (value number).

Lemma every_total (f : string -> option (result bool)) (parts : list string) :
  (forall p, In p parts -> exists r, f p = Some r) ->
  exists r, every f parts = Some r.
Proof.
  induction parts as [| part parts IH]; intros H; [eexists; reflexivity |].
  simpl. destruct (H part (or_introl eq_refl)) as [r ->].
  destruct r as [[|] | e]; try (eexists; reflexivity).
  apply IH. intros p Hp. apply H. right. exact Hp.
Qed.

Lemma some_total (f : string -> option (result bool)) (parts : list string) :
  (forall p, In p parts -> exists r, f p = Some r) ->
  exists r, some f parts = Some r.
Proof.
  induction parts as [| part parts IH]; intros H; [eexists; reflexivity |].
  simpl. destruct (H part (or_introl eq_refl)) as [r ->].
  destruct r as [[|] | e]; try (eexists; reflexivity).
  apply IH. intros p Hp. apply H. right. exact Hp.
Qed.

Lemma every_ok (f : string -> option (result bool)) (parts : list string) :
  (forall p, In p parts -> exists b, f p = Some (Ok b)) ->
  exists b, every f parts = Some (Ok b).
Proof.
  induction parts as [| part parts IH]; intros H; [eexists; reflexivity |].
  simpl. destruct (H part (or_introl eq_refl)) as [b ->].
  destruct b; [| eexists; reflexivity].
  apply IH. intros p Hp. apply H. right. exact Hp.
Qed.

Lemma some_ok (f : string -> option (result bool)) (parts : list string) :
  (forall p, In p parts -> exists b, f p = Some (Ok b)) ->
  exists b, some f parts = Some (Ok b).
Proof.
  induction parts as [| part parts IH]; intros H; [eexists; reflexivity |].
  simpl. destruct (H part (or_introl eq_refl)) as [b ->].
  destruct b; [eexists; reflexivity |].
  apply IH. intros p Hp. apply H. right. exact Hp.
Qed.

Lemma every_ext (f g : string -> option (result bool)) (parts : list string) r :
  (forall p r', In p parts -> f p = Some r' -> g p = Some r') ->
  every f parts = Some r -> every g parts = Some r.
Proof.
  induction parts as [| part parts IH]; intros H E; [exact E |].
  simpl in *. destruct (f part) as [r' |] eqn:Ef; [| discriminate].
  rewrite (H part r' (or_introl eq_refl) Ef).
  destruct r' as [[|] | e]; try exact E.
  apply IH; [| exact E]. intros p r' Hp. apply H. right. exact Hp.
Qed.

Lemma some_ext (f g : string -> option (result bool)) (parts : list string) r :
  (forall p r', In p parts -> f p = Some r' -> g p = Some r') ->
  some f parts = Some r -> some g parts = Some r.
Proof.
  induction parts as [| part parts IH]; intros H E; [exact E |].
  simpl in *. destruct (f part) as [r' |] eqn:Ef; [| discriminate].
  rewrite (H part r' (or_introl eq_refl) Ef).
  destruct r' as [[|] | e]; try exact E.
  apply IH; [| exact E]. intros p r' Hp. apply H. right. exact Hp.
Qed.

(** The pieces of a conjunction or of a disjunction, trimmed, are shorter
    than the text they come from. *)
Lemma part_shorter (a : ascii) (sep expr p : string) :
  includes (String a sep) expr = true ->
  In p (List.map trim (split (String a sep) expr)) ->
  (String.length p < String.length expr)%nat.
Proof.
  intros Hinc Hin. apply in_map_iff in Hin as (q & <- & Hq).
  pose proof (split_length_lt a sep expr q Hinc Hq).
  pose proof (length_trim q). lia.
Qed.

Lemma negation_shorter (expr : string) :
  startsWith "!" expr = true ->
  (String.length (trim (drop 1 expr)) < String.length expr)%nat.
Proof.
  intros H. destruct expr as [| c expr]; [discriminate |].
  pose proof (length_trim (drop 1 (String c expr))). simpl in *. lia.
Qed.

Lemma paren_shorter (expr inner : string) :
  parenMatch expr = Some inner ->
  inner = slice_1_m1 expr /\ (String.length inner < String.length expr)%nat.
Proof.
  unfold parenMatch. intros H.
  destruct (startsWith "(" expr && endsWith ")" expr
            && (3 <=? String.length expr)%nat
            && no_newline (slice_1_m1 expr)) eqn:E; [| discriminate].
  injection H as <-. split; [reflexivity |].
  apply andb_prop in E as [E _]. apply andb_prop in E as [_ E].
  apply Nat.leb_le in E. pose proof (length_slice_1_m1 expr). lia.
Qed.

(** Every recursive call of the evaluator is on a shorter text: a fuel
    above the length of the expression is never used up. *)
Lemma safeExpressionEvaluator_fuel_total :
  forall (fuel : nat) (expression : string) (variables : list (string * val)),
    (String.length expression < fuel)%nat ->
    exists r, safeExpressionEvaluator_fuel fuel expression variables = Some r.
Proof.
  induction fuel as [| fuel IH]; intros expression variables Hlen; [lia |].
  cbn [safeExpressionEvaluator_fuel]. cbv zeta.
  pose proof (length_trim expression) as Ht.
  set (expr := trim expression) in *.
  destruct (includes "&&" expr) eqn:Hand.
  { apply every_total. intros p Hp. apply IH.
    pose proof (part_shorter _ _ _ _ Hand Hp). lia. }
  destruct (includes "||" expr) eqn:Hor.
  { apply some_total. intros p Hp. apply IH.
    pose proof (part_shorter _ _ _ _ Hor Hp). lia. }
  destruct (startsWith "!" expr) eqn:Hnot.
  { destruct (IH (trim (drop 1 expr)) variables) as [r ->].
    - pose proof (negation_shorter expr Hnot). lia.
    - destruct r; eexists; reflexivity. }
  destruct (parenMatch expr) as [inner |] eqn:Hparen.
  { apply IH. apply paren_shorter in Hparen as [_ ?]. lia. }
  destruct (comparisonMatch expr) as [[[lhs o] rhs] |].
  - destruct (resolveExpressionValue (trim lhs) variables);
      [destruct (resolveExpressionValue (trim rhs) variables) |];
      eexists; reflexivity.
  - destruct (resolveExpressionValue expr variables); eexists; reflexivity.
Qed.

(** The result does not depend on the fuel, once there is enough. *)
Lemma safeExpressionEvaluator_fuel_mono :
  forall (fuel fuel' : nat) (expression : string) (variables : list (string * val)) r,
    (fuel <= fuel')%nat ->
    safeExpressionEvaluator_fuel fuel expression variables = Some r ->
    safeExpressionEvaluator_fuel fuel' expression variables = Some r.
Proof.
  induction fuel as [| fuel IH]; intros fuel' expression variables r Hle E;
    [discriminate |].
  destruct fuel' as [| fuel']; [lia |].
  cbn [safeExpressionEvaluator_fuel] in *. cbv zeta in *.
  set (expr := trim expression) in *.
  destruct (includes "&&" expr).
  { revert E. apply every_ext. intros p r' _. apply IH. lia. }
  destruct (includes "||" expr).
  { revert E. apply some_ext. intros p r' _. apply IH. lia. }
  destruct (startsWith "!" expr).
  { destruct (safeExpressionEvaluator_fuel fuel (trim (drop 1 expr)) variables)
      as [r' |] eqn:E'; [| discriminate].
    rewrite (IH fuel' _ _ r' ltac:(lia) E'). exact E. }
  destruct (parenMatch expr) as [inner |]; [| exact E].
  apply (IH fuel'); [lia | exact E].
Qed.

(** A value of one of the documented shapes is resolved; anything else
    is refused. *)
Lemma resolveExpressionValue_shape (expr : string) (variables : list (string * val)) :
  (is_value_shape expr = true -> exists v, resolveExpressionValue expr variables = Ok v)
  /\ (is_value_shape expr = false ->
      resolveExpressionValue expr variables
      = Throw (Error ("Cannot resolve expression value: " ++ expr))).
Proof.
  unfold is_value_shape, resolveExpressionValue. cbv zeta.
  repeat match goal with
         | |- context [String.eqb ?a ?b] => destruct (String.eqb a b)
         end;
    try (split; [intros _; eexists; reflexivity | discriminate]).
  destruct (is_number_literal (trim expr));
    try (split; [intros _; eexists; reflexivity | discriminate]).
  destruct (startsWith dquote (trim expr) && endsWith dquote (trim expr));
    try (split; [intros _; eexists; reflexivity | discriminate]).
  destruct (startsWith "'" (trim expr) && endsWith "'" (trim expr));
    try (split; [intros _; eexists; reflexivity | discriminate]).
  destruct (is_variable_path (trim expr));
    try (split; [intros _; eexists; reflexivity | discriminate]).
  split; [discriminate | reflexivity].
Qed.

(** A condition of the documented grammar evaluates to a boolean. *)
Lemma in_grammar_evaluates :
  forall (fuel : nat) (expression : string) (variables : list (string * val)),
    in_grammar_fuel fuel expression = true ->
    exists b, safeExpressionEvaluator_fuel fuel expression variables = Some (Ok b).
Proof.
  induction fuel as [| fuel IH]; intros expression variables H; [discriminate |].
  cbn [safeExpressionEvaluator_fuel in_grammar_fuel] in *. cbv zeta in *.
  set (expr := trim expression) in *.
  destruct (includes "&&" expr).
  { apply every_ok. intros p Hp. apply IH.
    rewrite forallb_forall in H. apply H. exact Hp. }
  destruct (includes "||" expr).
  { apply some_ok. intros p Hp. apply IH.
    rewrite forallb_forall in H. apply H. exact Hp. }
  destruct (startsWith "!" expr).
  { destruct (IH _ variables H) as [b ->]. eexists; reflexivity. }
  destruct (parenMatch expr) as [inner |]; [apply IH; exact H |].
  destruct (comparisonMatch expr) as [[[lhs o] rhs] |].
  - apply andb_prop in H as [Hl Hr].
    destruct (proj1 (resolveExpressionValue_shape (trim lhs) variables) Hl) as [l ->].
    destruct (proj1 (resolveExpressionValue_shape (trim rhs) variables) Hr) as [r ->].
    eexists; reflexivity.
  - destruct (proj1 (resolveExpressionValue_shape expr variables) H) as [v ->].
    eexists; reflexivity.
Qed.

(** A condition outside the documented grammar, without a conjunction
    and without a disjunction, is refused. *)
Lemma outside_grammar_refused :
  forall (fuel : nat) (expression : string) (variables : list (string * val)),
    (String.length expression < fuel)%nat ->
    no_logical_operator expression = true ->
    in_grammar_fuel fuel expression = false ->
    exists e, safeExpressionEvaluator_fuel fuel expression variables = Some (Throw e).
Proof.
  induction fuel as [| fuel IH]; intros expression variables Hlen Hno H; [lia |].
  cbn [safeExpressionEvaluator_fuel in_grammar_fuel] in *. cbv zeta in *.
  pose proof (length_trim expression) as Ht.
  unfold no_logical_operator in Hno.
  apply andb_prop in Hno as [Hand Hor].
  apply negb_true_iff in Hand, Hor.
  apply includes_trim in Hand, Hor.
  set (expr := trim expression) in *.
  rewrite Hand, Hor in *.
  destruct (startsWith "!" expr) eqn:Hnot.
  { destruct (IH (trim (drop 1 expr)) variables) as [e ->].
    - pose proof (negation_shorter expr Hnot). lia.
    - unfold no_logical_operator.
      rewrite (includes_trim _ _ (includes_drop _ 1 _ Hand)),
              (includes_trim _ _ (includes_drop _ 1 _ Hor)). reflexivity.
    - exact H.
    - eexists; reflexivity. }
  destruct (parenMatch expr) as [inner |] eqn:Hparen.
  { apply paren_shorter in Hparen as [-> Hshort].
    apply IH; [lia | | exact H].
    unfold no_logical_operator.
    rewrite (includes_slice_1_m1 _ _ Hand), (includes_slice_1_m1 _ _ Hor).
    reflexivity. }
  destruct (comparisonMatch expr) as [[[lhs o] rhs] |].
  - destruct (is_value_shape (trim lhs)) eqn:Hl.
    + destruct (proj1 (resolveExpressionValue_shape (trim lhs) variables) Hl) as [l ->].
      simpl in H.
      rewrite (proj2 (resolveExpressionValue_shape (trim rhs) variables) H).
      eexists; reflexivity.
    + rewrite (proj2 (resolveExpressionValue_shape (trim lhs) variables) Hl).
      eexists; reflexivity.
  - rewrite (proj2 (resolveExpressionValue_shape expr variables) H).
    eexists; reflexivity.
Qed.

End ConditionFacts.

Section ConditionSafety.
Import JsString Expr.
Context {host : Host}.


End ConditionSafety.

Section ConditionExamples.
Import JsString Expr RefHost.



End ConditionExamples.

(* ===================================================================== *)
(** * More on the state manager *)
(* ===================================================================== *)

Section ObjectFacts.
Context {A : Type}.
Implicit Types (k : string) (v : A) (fields : list (string * A)).

Lemma assoc_assign_eq k v fields : Js.assoc k (Js.assign k v fields) = Some v.
Proof.
  induction fields as [| [k' v'] rest IH]; simpl.
  - rewrite String.eqb_refl. reflexivity.
  - destruct (String.eqb k k') eqn:E; simpl; rewrite ?String.eqb_refl, ?E; auto.
Qed.

Lemma assoc_assign_ne k k' v fields :
  k' <> k -> Js.assoc k' (Js.assign k v fields) = Js.assoc k' fields.
Proof.
  intros Hne. induction fields as [| [k0 v0] rest IH]; simpl.
  - destruct (String.eqb_spec k' k); [contradiction | reflexivity].
  - destruct (String.eqb_spec k k0) as [-> | Hk]; simpl.
    + destruct (String.eqb_spec k' k0); [contradiction | reflexivity].
    + destruct (String.eqb k' k0); [reflexivity | exact IH].
Qed.

(** After [Object.assign(target, source)] a key holds the value of its
    last binding in [source], and without one the value it has in
    [target]. *)
Lemma assoc_assign_all k (target source : list (string * A)) :
  Js.assoc k (Js.assign_all target source)
  = match Js.assoc k (List.rev source) with
    | Some v => Some v
    | None => Js.assoc k target
    end.
Proof.
  unfold Js.assign_all. revert target.
  induction source as [| [k' v'] rest IH]; intros target; simpl; [reflexivity |].
  rewrite IH.
  assert (Happ : forall (l1 l2 : list (string * A)),
             Js.assoc k (l1 ++ l2)%list
             = match Js.assoc k l1 with Some v => Some v | None => Js.assoc k l2 end).
  { induction l1 as [| [a b] l1 IH1]; intros l2; simpl; [reflexivity |].
    destruct (String.eqb k a); [reflexivity | apply IH1]. }
  rewrite Happ. destruct (Js.assoc k (List.rev rest)); [reflexivity |].
  simpl. destruct (String.eqb_spec k k') as [-> | Hne].
  - apply assoc_assign_eq.
  - apply assoc_assign_ne. exact Hne.
Qed.

End ObjectFacts.

Section StateRoundTrips.
Import State.
Context {num : Type}.
Variable stateDir : string.
Local Open Scope list_scope.
Implicit Types d : @Disk num.
Implicit Types state st old : @WorkflowSessionState num.

Local Abbreviation path_of := (getSessionFilePath stateDir).

Lemma initialize_no_fault d :
  (forall n, faults d n = None) ->
  initialize stateDir d
  = (Ok tt, mkDisk (files d) (faults d)
              (calls d ++ [(Mkdir stateDir, true);
                           (Mkdir (statusDir stateDir running), true);
                           (Mkdir (statusDir stateDir paused), true);
                           (Mkdir (statusDir stateDir completed), true);
                           (Mkdir (statusDir stateDir failed), true)])
              (time_at d) (clock_reads d) (uuids d) (issued d)).
Proof.
  intros Hnf.
  unfold initialize, try_catch, bind, fs_mkdir, next_fault, with_files. simpl.
  repeat (rewrite Hnf; simpl). rewrite <- !app_assoc. reflexivity.
Qed.

(** A save that meets no failure. *)
Lemma saveSession_no_fault state d :
  (forall n, faults d n = None) ->
  exists d',
    saveSession stateDir state d = (Ok tt, d')
    /\ files d'
       = <[path_of (sessionId state) (status state)
           := SessionFile (with_updatedAt state (time_at d (clock_reads d)))]>
           (delete (path_of (sessionId state) (status state) ++ ".tmp")%string (files d))
    /\ faults d' = faults d /\ time_at d' = time_at d /\ uuids d' = uuids d
    /\ clock_reads d' = S (clock_reads d) /\ issued d' = issued d.
Proof.
  intros Hnf. unfold saveSession, bind. rewrite (initialize_no_fault d Hnf).
  unfold try_catch, bind, new_Date, fs_writeFile, fs_rename, next_fault, with_files.
  simpl. repeat (rewrite Hnf; simpl).
  rewrite lookup_insert_eq. eexists. split; [reflexivity |]. simpl.
  rewrite delete_insert_eq. repeat split; reflexivity.
Qed.

(** A load with a status hint that meets no failure. *)
Lemma loadSession_hint_no_fault (sid : string) (s : WorkflowStatus) st d :
  faults d (List.length (calls d)) = None ->
  files d !! path_of sid s = Some (SessionFile st) ->
  loadSession stateDir sid (Some s) d
  = (Ok st, with_files d (files d) (ReadFile (path_of sid s)) true).
Proof.
  intros Hnf Hf.
  unfold loadSession, bind, ret, try_catch, fs_readFile, next_fault.
  simpl. rewrite Hnf, Hf. reflexivity.
Qed.


(** ** Sessions that cannot be loaded *)

Lemma find_in_absent (sid : string) (statuses : list WorkflowStatus) :
  forall d r d',
    (forall s, In s statuses -> files d !! path_of sid s = None) ->
    find_in stateDir sid statuses d = (r, d') ->
    r = Throw (StateError ("Session " ++ sid ++ " not found in any directory")
                 (Some sid) (Some op_read))
    /\ files d' = files d.
Proof.
  induction statuses as [| s rest IH]; intros d r d' Habs H.
  - inversion H; subst. split; reflexivity.
  - cbn [find_in] in H.
    apply try_catch_inv in H as [(p & H & _) | (e & d1 & H & Hrest)].
    + apply bind_inv in H as [(u & d1 & Ha & _) | (e & _ & ?)]; [| discriminate].
      apply fs_access_inv in Ha as ([|] & _ & Hok & Hfail).
      * destruct (Hok eq_refl) as [_ [c Hc]].
        rewrite (Habs s (or_introl eq_refl)) in Hc. discriminate.
      * destruct (Hfail eq_refl) as [e He]. discriminate.
    + apply bind_inv in H as [(u & d2 & _ & Hret) | (e' & Ha & _)];
        [inversion Hret |].
      apply fs_access_inv in Ha as (ok & -> & _).
      apply IH in Hrest as [-> Hf]; [split; [reflexivity | exact Hf] |].
      intros s' Hs'. simpl. apply Habs. right. exact Hs'.
Qed.


(** ** Deleting a session *)

(** X3: [deleteSession] of a session with no file in any partition
    throws [Failed to delete session <id>: Session <id> not found in any
    directory] and changes no file.  When nothing fails it removes the
    first copy in the order running, paused, completed, failed, and only
    that one; a session stored once is then in no partition, and
    [loadSession] no longer finds it. *)
Theorem deleteSession_removes_first_copy :
  (forall (sid : string) d r d',
      (forall s, files d !! path_of sid s = None) ->
      deleteSession stateDir sid d = (r, d') ->
      r = Throw (StateError
                   ("Failed to delete session " ++ sid ++ ": Session " ++ sid
                      ++ " not found in any directory")
                   (Some sid) (Some op_write))
      /\ files d' = files d)
  /\ (forall (sid : string) (pre : list WorkflowStatus) (s : WorkflowStatus)
             (post : list WorkflowStatus) (c : @FileContent num) d,
        all_statuses = pre ++ s :: post ->
        (forall n, faults d n = None) ->
        Forall (fun s' => files d !! path_of sid s' = None) pre ->
        files d !! path_of sid s = Some c ->
        exists d',
          deleteSession stateDir sid d = (Ok tt, d')
          /\ files d' = delete (path_of sid s) (files d)
          /\ (forall s', s' <> s -> files d' !! path_of sid s' = files d !! path_of sid s'))
  /\ (forall (sid : string) (s : WorkflowStatus) st d,
        (forall n, faults d n = None) ->
        stored_only_in stateDir d sid s st ->
        exists d',
          deleteSession stateDir sid d = (Ok tt, d')
          /\ (forall s', files d' !! path_of sid s' = None)
          /\ forall r d'',
               loadSession stateDir sid None d' = (r, d'') ->
               r = Throw (StateError ("Session " ++ sid ++ " not found in any directory")
                            (Some sid) (Some op_read))).
Proof.
  assert (Hfirst : forall (sid : string) (pre : list WorkflowStatus) (s : WorkflowStatus)
             (post : list WorkflowStatus) (c : @FileContent num) d,
        all_statuses = pre ++ s :: post ->
        (forall n, faults d n = None) ->
        Forall (fun s' => files d !! path_of sid s' = None) pre ->
        files d !! path_of sid s = Some c ->
        exists d',
          deleteSession stateDir sid d = (Ok tt, d')
          /\ files d' = delete (path_of sid s) (files d)
          /\ (forall s', s' <> s -> files d' !! path_of sid s' = files d !! path_of sid s')).
  { intros sid pre s post c d Hall Hnf Hpre Hc.
    destruct (find_in_first_hit stateDir sid pre s post d c Hnf Hpre Hc)
      as (d1 & Hfind & Hf1 & Hfaults1).
    unfold deleteSession, try_catch, bind, findSessionFile.
    rewrite Hall, Hfind.
    unfold fs_unlink, next_fault. rewrite Hfaults1, Hnf, Hf1, Hc.
    eexists. split; [reflexivity |]. simpl. split; [reflexivity |].
    intros s' Hne. apply lookup_delete_ne.
    intros E. apply Hne. symmetry. exact (session_path_status_inj stateDir _ _ _ _ E). }
  split; [| split; [exact Hfirst |]].
  - intros sid d r d' Habs H. unfold deleteSession in H.
    apply try_catch_inv in H as [(u & H & _) | (e & d1 & H & Hh)].
    + apply bind_inv in H as [(p & d1 & Hfind & _) | (e & _ & ?)]; [| discriminate].
      apply find_in_absent in Hfind as [? _]; [discriminate | auto].
    + apply bind_inv in H as [(p & d2 & Hfind & _) | (e' & Hfind & E)].
      * apply find_in_absent in Hfind as [? _]; [discriminate | auto].
      * apply find_in_absent in Hfind as [E' Hf]; [| auto].
        inversion E; subst e'. inversion E'; subst e.
        simpl in Hh. inversion Hh; subst. split; [reflexivity | exact Hf].
  - intros sid s st d Hnf (Hs & _ & _ & Hothers).
    destruct (all_statuses_split s) as (pre & post & Hall & Hnotin).
    destruct (Hfirst sid pre s post (SessionFile st) d Hall Hnf) as (d' & Hdel & Hfiles & Hrest);
      [| exact Hs |].
    { apply Forall_forall. intros s' Hin. apply Hothers. intros ->.
      apply Hnotin. apply list_elem_of_In. exact Hin. }
    exists d'. split; [exact Hdel |].
    assert (Hgone : forall s', files d' !! path_of sid s' = None).
    { intros s'. destruct (decide (s' = s)) as [-> | Hne].
      - rewrite Hfiles. apply lookup_delete_eq.
      - rewrite (Hrest s' Hne). apply Hothers. exact Hne. }
    split; [exact Hgone |].
    intros r d'' Hload.
    unfold loadSession in Hload.
    apply bind_inv in Hload as [(p & d1 & Hfind & _) | (e & Hfind & ->)].
    + apply find_in_absent in Hfind as [? _]; [discriminate | auto].
    + apply find_in_absent in Hfind as [E _]; [| auto]. inversion E. reflexivity.
Qed.

(** ** What a successful save leaves *)


(** ** Merging context updates *)


(** ** The errors of the state manager *)

Lemma loadSession_throws_read (sid : string) (hint : option WorkflowStatus) d e d' :
  loadSession stateDir sid hint d = (Throw e, d') ->
  exists msg, e = StateError msg (Some sid) (Some op_read).
Proof.
  destruct hint as [s |]; intros H.
  - unfold loadSession in H.
    apply bind_inv in H as [(p & d1 & _ & H) | (e' & Hret & _)]; [| inversion Hret].
    apply try_catch_inv in H as [(a & _ & ?) | (e' & d2 & _ & H)]; [discriminate |].
    destruct (isFileNotFoundError e'); inversion H; eexists; reflexivity.
  - destruct (loadSession_spec stateDir sid d _ d' H) as (_ & cs & _ & _ & _ & Hthrow).
    exact (Hthrow e eq_refl).
Qed.

Lemma saveSession_throws_write state d e d' :
  saveSession stateDir state d = (Throw e, d') ->
  exists msg o, e = StateError msg o (Some op_write)
                /\ (o = None \/ o = Some (sessionId state)).
Proof.
  intros H.
  destruct (saveSession_spec stateDir state d _ d' H) as (cs & _ & Hcases).
  destruct Hcases as [(? & _) | [([msg E] & _) | ([msg E] & _)]];
    [discriminate | |]; inversion E; eauto.
Qed.

Lemma load_update_save_throws (sid : string)
    (update : @WorkflowSessionState num -> Z -> @WorkflowSessionState num) d e d' :
  (forall st t, sessionId (update st t) = sessionId st) ->
  bind (loadSession stateDir sid None)
    (fun st => bind new_Date (fun now => saveSession stateDir (update st now))) d
  = (Throw e, d') ->
  exists msg o op, e = StateError msg o op.
Proof.
  intros Hid H.
  apply bind_inv in H as [(st & d1 & _ & H) | (e' & Hl & E)].
  - apply bind_inv in H as [(now & d2 & _ & H) | (e' & Hn & _)]; [| inversion Hn].
    apply saveSession_throws_write in H as (msg & o & -> & _). eauto.
  - inversion E; subst e'.
    apply loadSession_throws_read in Hl as [msg ->]. eauto.
Qed.

Lemma updateSessionStatus_throws (sid : string) (s : WorkflowStatus) d e d' :
  updateSessionStatus stateDir sid s d = (Throw e, d') ->
  exists msg o op, e = StateError msg o op.
Proof.
  intros H. unfold updateSessionStatus in H.
  apply bind_inv in H as [(st & d1 & _ & H) | (e' & Hl & E)].
  - apply bind_inv in H as [(now & d2 & _ & H) | (e' & Hn & _)]; [| inversion Hn].
    apply bind_inv in H as [(u & d3 & _ & H) | (e' & Hs & E)].
    + destruct (negb _); [| inversion H].
      apply try_catch_inv in H as [(a & _ & ?) | (e' & d4 & _ & H)];
        [discriminate | inversion H].
    + inversion E; subst e'.
      apply saveSession_throws_write in Hs as (msg & o & -> & _). eauto.
  - inversion E; subst e'.
    apply loadSession_throws_read in Hl as [msg ->]. eauto.
Qed.


End StateRoundTrips.

Section QuietDisk.
Import State.
Context {num : Type}.
Variable stateDir : string.
Local Open Scope list_scope.
Implicit Types d : @Disk num.
Implicit Types state st old : @WorkflowSessionState num.

Local Abbreviation path_of := (getSessionFilePath stateDir).

(** On a disk where no call fails, a session stored in the running
    partition is the one [loadSession] finds. *)
Lemma loadSession_running_no_fault (sid : string) st d :
  (forall n, faults d n = None) ->
  files d !! path_of sid running = Some (SessionFile st) ->
  exists d',
    loadSession stateDir sid None d = (Ok st, d')
    /\ files d' = files d /\ faults d' = faults d.
Proof.
  intros Hnf Hf.
  destruct (loadSession_first_hit stateDir sid [] running [paused; completed; failed]
              d st eq_refl Hnf ltac:(constructor) Hf) as [d' Hl].
  exists d'. split; [exact Hl |].
  destruct (loadSession_spec stateDir sid d _ d' Hl) as (Hfiles & cs & (_ & Hfaults & _) & _).
  split; assumption.
Qed.

Lemma load_update_save_no_fault (sid : string) st d
    (update : @WorkflowSessionState num -> Z -> @WorkflowSessionState num) :
  (forall n, faults d n = None) ->
  files d !! path_of sid running = Some (SessionFile st) ->
  exists d' now t,
    bind (loadSession stateDir sid None)
      (fun st => bind new_Date (fun now => saveSession stateDir (update st now))) d
    = (Ok tt, d')
    /\ files d'
       = <[path_of (sessionId (update st now)) (status (update st now))
           := SessionFile (with_updatedAt (update st now) t)]>
           (delete (path_of (sessionId (update st now)) (status (update st now)) ++ ".tmp")%string
              (files d))
    /\ faults d' = faults d.
Proof.
  intros Hnf Hf.
  destruct (loadSession_running_no_fault sid st d Hnf Hf) as (d1 & Hl & Hf1 & Hq1).
  unfold bind at 1. rewrite Hl. unfold bind at 1. unfold new_Date at 1.
  set (d2 := mkDisk (files d1) (faults d1) (calls d1) (time_at d1)
               (S (clock_reads d1)) (uuids d1) (issued d1)).
  set (now := time_at d1 (clock_reads d1)).
  destruct (saveSession_no_fault stateDir (update st now) d2) as (d' & Hs & Hfiles & Hq & _).
  { intros n. simpl. rewrite Hq1. apply Hnf. }
  exists d', now, (time_at d2 (clock_reads d2)).
  split; [exact Hs |]. split.
  - rewrite Hfiles. simpl. rewrite Hf1. reflexivity.
  - rewrite Hq. simpl. exact Hq1.
Qed.

Lemma addStepExecution_no_fault (sid : string) st (ex : @StepExecution num) d :
  (forall n, faults d n = None) ->
  files d !! path_of sid running = Some (SessionFile st) ->
  exists d' t,
    addStepExecution stateDir sid ex d = (Ok tt, d')
    /\ files d'
       = <[path_of (sessionId st) (status st)
           := SessionFile
                (mkSession (sessionId st) (workflowId st) (status st) (inputs st)
                   (context st) (outputs st) (stepExecutions st ++ [ex])
                   (currentStepIndex st + 1) (createdAt st) t (metadata st))]>
           (delete (path_of (sessionId st) (status st) ++ ".tmp")%string (files d))
    /\ faults d' = faults d.
Proof.
  intros Hnf Hf.
  destruct (load_update_save_no_fault sid st d
              (fun st now =>
                 mkSession (sessionId st) (workflowId st) (status st) (inputs st)
                   (context st) (outputs st) (stepExecutions st ++ [ex])
                   (currentStepIndex st + 1) (createdAt st) now (metadata st))
              Hnf Hf) as (d' & now & t & Hrun & Hfiles & Hq).
  exists d', t. split; [exact Hrun |]. split; [exact Hfiles | exact Hq].
Qed.

(** A session that is stored in the running partition, with its own
    identifier and status, moves to the partition of another status. *)
Lemma updateSessionStatus_no_fault (sid : string) (new : WorkflowStatus) st d :
  (forall n, faults d n = None) ->
  files d !! path_of sid running = Some (SessionFile st) ->
  sessionId st = sid -> status st = running -> new <> running ->
  exists d' t,
    updateSessionStatus stateDir sid new d = (Ok tt, d')
    /\ files d' !! path_of sid new
       = Some (SessionFile
                 (mkSession (sessionId st) (workflowId st) new (inputs st)
                    (context st) (outputs st) (stepExecutions st)
                    (currentStepIndex st) (createdAt st) t (metadata st)))
    /\ files d' !! path_of sid running = None
    /\ faults d' = faults d.
Proof.
  intros Hnf Hf Hsid Hst Hnew.
  destruct (loadSession_running_no_fault sid st d Hnf Hf) as (d1 & Hl & Hf1 & Hq1).
  unfold updateSessionStatus, bind. rewrite Hl. unfold new_Date at 1.
  set (d2 := mkDisk (files d1) (faults d1) (calls d1) (time_at d1)
               (S (clock_reads d1)) (uuids d1) (issued d1)).
  set (now := time_at d1 (clock_reads d1)).
  destruct (saveSession_no_fault stateDir
              (mkSession (sessionId st) (workflowId st) new (inputs st) (context st)
                 (outputs st) (stepExecutions st) (currentStepIndex st)
                 (createdAt st) now (metadata st)) d2)
    as (d3 & Hs & Hfiles & Hq & _).
  { intros n. simpl. rewrite Hq1. apply Hnf. }
  rewrite Hs. rewrite Hst.
  assert (Hneb : WorkflowStatus_eqb running new = false).
  { destruct new; try reflexivity. contradiction. }
  rewrite Hneb. unfold try_catch, fs_unlink, next_fault.
  change (negb false) with true. cbv beta iota.
  rewrite Hq. simpl faults. rewrite Hq1, Hnf.
  assert (Hthere : files d3 !! path_of sid running = Some (SessionFile st)).
  { rewrite Hfiles. simpl sessionId. simpl status. rewrite Hsid.
    rewrite lookup_insert_ne.
    - rewrite lookup_delete_ne; [simpl; rewrite Hf1; exact Hf |].
      intros E. symmetry in E. exact (session_path_not_temp stateDir _ _ _ _ E).
    - intros E. apply session_path_status_inj in E. congruence. }
  rewrite Hthere.
  eexists. exists (time_at d2 (clock_reads d2)).
  split; [reflexivity |]. simpl.
  split; [| split].
  - rewrite lookup_delete_ne.
    + rewrite Hfiles. simpl. rewrite Hsid. apply lookup_insert_eq.
    + intros E. apply session_path_status_inj in E. congruence.
  - apply lookup_delete_eq.
  - rewrite Hq. exact Hq1.
Qed.

Lemma createSession_no_fault (workflowId : string) (inputs : list (string * value num)) d :
  (forall n, faults d n = None) ->
  let sid := uuids d (issued d) in
  exists d' t0 t1,
    createSession stateDir workflowId inputs d = (Ok sid, d')
    /\ files d'
       = <[path_of sid running
           := SessionFile
                (mkSession sid workflowId running inputs
                   [("inputs", VObj inputs); ("variables", VObj []);
                    ("outputs", VObj [])] [] [] 0 t0 t1 [])]>
           (delete (path_of sid running ++ ".tmp")%string (files d))
    /\ faults d' = faults d.
Proof.
  intros Hnf sid.
  unfold createSession, bind, uuidv4, new_Date. simpl.
  set (d0 := mkDisk (files d) (faults d) (calls d) (time_at d) (S (clock_reads d))
               (uuids d) (S (issued d))).
  destruct (saveSession_no_fault stateDir
              (mkSession sid workflowId running inputs
                 [("inputs", VObj inputs); ("variables", VObj []); ("outputs", VObj [])]
                 [] [] 0 (time_at d (clock_reads d)) (time_at d (clock_reads d)) [])
              d0 Hnf) as (d1 & Hsave & Hfiles & Hfaults & _).
  fold sid. rewrite Hsave. exists d1. do 2 eexists.
  split; [reflexivity |]. split; [exact Hfiles | exact Hfaults].
Qed.

End QuietDisk.

(* ===================================================================== *)
(** * More on the step executor *)
(* ===================================================================== *)

Section StepResults.
Import StepExecutor.
Context {host : Host}.
Local Open Scope list_scope.

Local Abbreviation val := (value number).

Lemma executeStepByType_continues (s : Step) (ctx : Context) (w : World) r w' :
  executeStepByType s ctx w = (Ok r, w') ->
  shouldContinue r = true /\ nextStepIndex r = None.
Proof.
  destruct s as [i ty a t c cond children its rp code].
  destruct ty; cbn [executeStepByType]; intros H.
  - unfold executeAIPrompt in H.
    repeat match type of H with
           | (if ?b then _ else _) = _ => destruct b
           | match ?x with _ => _ end = _ => destruct x
           end; inversion H; split; reflexivity.
  - unfold executeScript in H.
    repeat match type of H with
           | (if ?b then _ else _) = _ => destruct b
           | match ?x with _ => _ end = _ => destruct x
           | (let '(_, _) := ?x in _) = _ => destruct x
           end; inversion H; split; reflexivity.
  - unfold executeValidation in H.
    repeat match type of H with
           | (if ?b then _ else _) = _ => destruct b
           | match ?x with _ => _ end = _ => destruct x
           end; inversion H; split; reflexivity.
  - unfold executeLoopWith in H.
    repeat match type of H with
           | (if ?b then _ else _) = _ => destruct b
           | match ?x with _ => _ end = _ => destruct x
           end; inversion H; split; reflexivity.
  - unfold executeConditionalWith in H.
    repeat match type of H with
           | (if ?b then _ else _) = _ => destruct b
           | match ?x with _ => _ end = _ => destruct x
           end; inversion H; split; reflexivity.
  - inversion H.
Qed.

Lemma executeStep_fuel_result (s : Step) (ctx : Context) (sid : string) :
  forall (fuel : nat) (rc : Z) (w : World) r w',
    executeStep_fuel fuel s ctx sid rc w = Some (Ok r, w') ->
    exists rc' w0, executeStepByType s (stepContextOf s ctx sid rc') w0 = (Ok r, w').
Proof.
  induction fuel as [| fuel IH]; intros rc w r w' H; [discriminate |].
  cbn [executeStep_fuel] in H. cbv zeta in H.
  destruct (executeStepByType s (stepContextOf s ctx sid rc) _) as [[r0 | e] w1] eqn:E.
  - inversion H; subst. eauto.
  - destruct (shouldRetry s (ThrownError e) rc); [| discriminate].
    unfold sleep in H. eapply IH. exact H.
Qed.

(** X7: every result that a step returns, through
    [executeStepByType] or through the retry wrapper [executeStep], has
    [shouldContinue] set and no [nextStepIndex].  So the loops over the
    children of a loop or conditional step, which end at a child that
    asks not to continue, never end for that reason: after a child that
    returns, the children after it run, and only a child that throws
    stops them. *)
Theorem steps_never_stop_their_siblings :
  (forall (s : Step) (ctx : Context) (w : World) r w',
      executeStepByType s ctx w = (Ok r, w') ->
      shouldContinue r = true /\ nextStepIndex r = None)
  /\ (forall (s : Step) (ctx : Context) (sid : string) (rc : Z) (w : World) r w',
        executeStep s ctx sid rc w = (Ok r, w') ->
        shouldContinue r = true /\ nextStepIndex r = None)
  /\ (forall (c : Step) (rest : list Step) (ctx : Context)
             (acc : list (string * val)) (w : World),
        run_substeps executeStepByType (c :: rest) ctx acc w
        = match executeStepByType c ctx w with
          | (Ok r, w') =>
              run_substeps executeStepByType rest ctx
                (Js.assign_all acc (outputs r)) w'
          | (Throw e, w') => (Throw e, w')
          end).
Proof.
  split; [exact executeStepByType_continues |]. split.
  - intros s ctx sid rc w r w' H. unfold executeStep in H.
    destruct (executeStep_fuel _ s ctx sid rc w) as [[r0 w0] |] eqn:E;
      [| discriminate].
    inversion H; subst.
    destruct (executeStep_fuel_result s ctx sid _ _ _ _ _ E) as (rc' & w1 & E').
    exact (executeStepByType_continues _ _ _ _ _ E').
  - intros c rest ctx acc w. cbn [run_substeps].
    destruct (executeStepByType c ctx w) as [[r | e] w'] eqn:E; [| reflexivity].
    destruct (executeStepByType_continues _ _ _ _ _ E) as [-> _]. reflexivity.
Qed.

End StepResults.

Section LoopSteps.
Import StepExecutor.
Context {host : Host}.
Local Open Scope list_scope.

Local Abbreviation val := (value number).

(** The record that [executeLoop] keeps of one iteration. *)
Local Abbreviation iteration_entry :=
  (fun x : nat * val * list (string * val) =>
     VObj [("index", VNum (num_of_Z (Z.of_nat (fst (fst x)))));
           ("item", snd (fst x));
           ("outputs", VObj (snd x))]).

Lemma run_iterations_shape (exec : Step -> Context -> M StepResult)
    (cs : list Step) (ctx : Context) :
  forall (todo : list val) (i n : nat) (acc : list val) (w : World) its w',
    run_iterations exec cs ctx todo i n acc w = (Ok its, w') ->
    exists outs : list (list (string * val)),
      List.length outs = List.length todo
      /\ its = acc ++ List.map iteration_entry
                        (combine (combine (seq i (List.length todo)) todo) outs).
Proof.
  induction todo as [| item todo IH]; intros i n acc w its w' H.
  - inversion H; subst. exists []. rewrite app_nil_r. split; reflexivity.
  - cbn [run_iterations] in H. cbv zeta in H.
    destruct (run_substeps exec cs _ [] w) as [[o | e] w1]; [| discriminate].
    apply IH in H as (outs & Hlen & ->).
    exists (o :: outs). split; [simpl; rewrite Hlen; reflexivity |].
    rewrite <- app_assoc. reflexivity.
Qed.

(** X8: the outputs of a loop step that succeeds are [iterations],
    one entry per element of the array in the order of the array, each
    with the index, the element and the outputs of its children, and
    [total_count], the length of the array.  Over an empty array the step
    succeeds with no iterations and runs nothing; over a value that is
    not an array it throws [Loop items must be an array, got <type>]. *)
Theorem loop_step_records_every_item :
  (forall (s : Step) (ctx : Context) (w : World) r w',
      type s = loop ->
      executeStepByType s ctx w = (Ok r, w') ->
      exists (path : string) (elems : list val) (outs : list (list (string * val))),
        items s = Some path
        /\ Expr.resolveValue path (variables ctx) = VArr elems
        /\ List.length outs = List.length elems
        /\ outputs r
           = [("iterations",
               VArr (List.map iteration_entry
                       (combine (combine (seq 0 (List.length elems)) elems) outs)));
              ("total_count", VNum (num_of_Z (Z.of_nat (List.length elems))))])
  /\ (forall (s : Step) (children : list Step) (path : string) (ctx : Context)
             (w : World),
        type s = loop -> steps s = Some children -> items s = Some path ->
        path <> EmptyString ->
        Expr.resolveValue path (variables ctx) = VArr [] ->
        executeStepByType s ctx w
        = (Ok (mkStepResult [("iterations", VArr []);
                             ("total_count", VNum (num_of_Z 0))] true None), w))
  /\ (forall (s : Step) (children : list Step) (path : string) (ctx : Context)
             (w : World),
        type s = loop -> steps s = Some children -> items s = Some path ->
        path <> EmptyString ->
        Js.isArray (Expr.resolveValue path (variables ctx)) = false ->
        executeStepByType s ctx w
        = (Throw (StepExecutionError
                    ("Loop items must be an array, got "
                       ++ Js.typeof (Expr.resolveValue path (variables ctx)))
                    unknown_workflow (id s)), w)).
Proof.
  split; [| split].
  - intros s ctx w r w' Hty H.
    destruct s as [i ty a t c cond children its rp code]. simpl in Hty. subst ty.
    cbn [executeStepByType] in H. unfold executeLoopWith in H.
    destruct children as [children |]; [| discriminate].
    destruct its as [path |]; [| discriminate].
    destruct (negb (truthy_string (Some path))); [discriminate |].
    simpl default in H.
    destruct (Expr.resolveValue path (variables ctx)) as [| | | | | elems |] eqn:Ev;
      try discriminate.
    destruct (run_iterations _ children ctx elems 0 _ [] w) as [[its | e] w1] eqn:Er;
      [| discriminate].
    apply run_iterations_shape in Er as (outs & Hlen & ->).
    inversion H; subst. exists path, elems, outs. repeat split; auto.
  - intros s children path ctx w Hty Hs Hi Hne Hv.
    destruct s as [i ty a t c cond ch its rp code]. simpl in *. subst.
    unfold executeLoopWith. simpl.
    destruct (String.eqb_spec path EmptyString); [contradiction |]. simpl.
    rewrite Hv. reflexivity.
  - intros s children path ctx w Hty Hs Hi Hne Hv.
    destruct s as [i ty a t c cond ch its rp code]. simpl in *. subst.
    unfold executeLoopWith. simpl.
    destruct (String.eqb_spec path EmptyString); [contradiction |]. simpl.
    destruct (Expr.resolveValue path (variables ctx)); try reflexivity.
    discriminate.
Qed.

(** The names an iteration binds. *)
Lemma iteration_variables_other (vars : list (string * val)) (item : val)
    (i n : nat) (k : string) :
  ~ In k ["item"; "index"; "first"; "last"] ->
  Js.assoc k (iteration_variables vars item i n) = Js.assoc k vars.
Proof.
  intros Hk. unfold iteration_variables.
  rewrite !assoc_assign_ne; [reflexivity | | | |];
    intros ->; apply Hk; simpl; auto.
Qed.

(** X9: inside an iteration of a loop step, [item], [index], [first]
    and [last] are the element, its position, and whether it is the first
    and the last one; they hide variables of the same names, and every
    path that starts with another name resolves as it does outside the
    loop, in conditions and (but for the path [.]) in templates. *)
Theorem iteration_variables_shadow :
  forall (vars : list (string * val)) (item : val) (i n : nat),
    let vs := iteration_variables vars item i n in
    Expr.resolveValue "item" vs = item
    /\ Expr.resolveValue "index" vs = VNum (num_of_Z (Z.of_nat i))
    /\ Expr.resolveValue "first" vs = VBool (Nat.eqb i 0)
    /\ Expr.resolveValue "last" vs = VBool (Z.of_nat i =? Z.of_nat n - 1)
    /\ Template.resolvePath "item" vs = item
    /\ (forall path : string,
          ~ In (hd EmptyString (JsString.split "." path))
               ["item"; "index"; "first"; "last"] ->
          Expr.resolveValue path vs = Expr.resolveValue path vars
          /\ (path <> "." ->
              Template.resolvePath path vs = Template.resolvePath path vars)).
Proof.
  intros vars item i n vs. subst vs.
  assert (Hitem : Js.assoc "item" (iteration_variables vars item i n) = Some item).
  { unfold iteration_variables.
    rewrite !assoc_assign_ne by discriminate. apply assoc_assign_eq. }
  assert (Hindex : Js.assoc "index" (iteration_variables vars item i n)
                   = Some (VNum (num_of_Z (Z.of_nat i)))).
  { unfold iteration_variables.
    rewrite !assoc_assign_ne by discriminate. apply assoc_assign_eq. }
  assert (Hfirst : Js.assoc "first" (iteration_variables vars item i n)
                   = Some (VBool (Nat.eqb i 0))).
  { unfold iteration_variables.
    rewrite !assoc_assign_ne by discriminate. apply assoc_assign_eq. }
  assert (Hlast : Js.assoc "last" (iteration_variables vars item i n)
                  = Some (VBool (Z.of_nat i =? Z.of_nat n - 1))).
  { unfold iteration_variables. apply assoc_assign_eq. }
  repeat match goal with |- _ /\ _ => split | |- forall _, _ => intros path H end.
  - unfold Expr.resolveValue. change (JsString.split "." "item") with ["item"].
    simpl. unfold Expr.get. simpl. rewrite Hitem. reflexivity.
  - unfold Expr.resolveValue. change (JsString.split "." "index") with ["index"].
    simpl. unfold Expr.get. simpl. rewrite Hindex. reflexivity.
  - unfold Expr.resolveValue. change (JsString.split "." "first") with ["first"].
    simpl. unfold Expr.get. simpl. rewrite Hfirst. reflexivity.
  - unfold Expr.resolveValue. change (JsString.split "." "last") with ["last"].
    simpl. unfold Expr.get. simpl. rewrite Hlast. reflexivity.
  - unfold Template.resolvePath. change (JsString.split "." "item") with ["item"].
    simpl. rewrite Hitem. reflexivity.
  - unfold Expr.resolveValue.
    pose proof (split_aux_nonempty "." path 0 EmptyString) as Hne.
    unfold JsString.split in *.
    destruct (JsString.split_aux "." 0 EmptyString path) as [| h rest];
      [contradiction |].
    simpl in H. simpl. unfold Expr.get. simpl.
    rewrite (iteration_variables_other vars item i n h H). reflexivity.
  - intros Hdot. unfold Template.resolvePath.
    destruct (String.eqb_spec path "."); [contradiction |].
    pose proof (split_aux_nonempty "." path 0 EmptyString) as Hne.
    unfold JsString.split in *.
    destruct (JsString.split_aux "." 0 EmptyString path) as [| h rest];
      [contradiction |].
    simpl in H. simpl.
    rewrite (iteration_variables_other vars item i n h H). reflexivity.
Qed.

End LoopSteps.

Section ScriptRetries.
Import StepExecutor.
Context {host : Host}.
Local Open Scope list_scope.

Local Abbreviation val := (value number).

Lemma sleeps_of_app (l1 l2 : list Event) :
  sleeps_of (l1 ++ l2) = sleeps_of l1 ++ sleeps_of l2.
Proof. unfold sleeps_of. apply flat_map_app. Qed.

Lemma attempts_of_app (l1 l2 : list Event) :
  attempts_of (l1 ++ l2) = attempts_of l1 ++ attempts_of l2.
Proof. unfold attempts_of. apply flat_map_app. Qed.

(** One run of a script step whose command renders: one process is
    spawned, and the step succeeds exactly when the process closes with
    the expected exit code. *)
Lemma script_step_run (s : Step) (c cmd : string) (ctx : Context) (w : World) :
  type s = script -> command s = Some c -> c <> EmptyString ->
  Template.render c (variables ctx) = Ok cmd ->
  let w' := mkWorld (procs w) (S (spawned w)) (log w ++ [EvSpawn cmd]) in
  (exits_with (expected_code s) (procs w (spawned w)) = false ->
   exists msg,
     executeStepByType s ctx w
     = (Throw (StepExecutionError ("Script execution failed: " ++ msg)
                 unknown_workflow (id s)), w'))
  /\ (forall code out err,
        procs w (spawned w) = Closed code out err ->
        match code with Some z => z | None => -1 end = expected_code s ->
        executeStepByType s ctx w
        = (Ok (mkStepResult
                 [("stdout", VStr (JsString.trim out));
                  ("stderr", VStr (JsString.trim err));
                  ("exitCode", VNum (num_of_Z (expected_code s)));
                  ("command", VStr cmd)] true None), w')).
Proof.
  intros Hty Hc Hne Hr w'. subst w'.
  destruct s as [i ty a t c0 cond children its rp code0]. simpl in Hty, Hc. subst.
  cbn [executeStepByType]. unfold executeScript, runCommand, expected_code, exits_with.
  cbn [command expectedExitCode id].
  destruct (String.eqb_spec c EmptyString); [contradiction |].
  rewrite Hr. split.
  - intros Hfail.
    destruct (procs w (spawned w)) as [code out err | msg].
    + rewrite Hfail. eexists. reflexivity.
    + eexists. reflexivity.
  - intros code out err Hp Hcode. rewrite Hp, Hcode, Z.eqb_refl. reflexivity.
Qed.

Lemma script_retries_fuel (s : Step) (c cmd : string) (ctx : Context) (sid : string)
    (m : Z) (b : option Z) (code : option Z) (out err : string) :
  type s = script -> command s = Some c -> c <> EmptyString ->
  Template.render c (variables ctx) = Ok cmd ->
  retryPolicy s = Some (mkRetryPolicy m b None) ->
  match code with Some z => z | None => -1 end = expected_code s ->
  forall (k fuel : nat) (rc : Z) (w : World),
    (k < fuel)%nat -> rc + Z.of_nat k <= m ->
    (forall j, (j < k)%nat ->
               exits_with (expected_code s) (procs w (spawned w + j)%nat) = false) ->
    procs w (spawned w + k)%nat = Closed code out err ->
    exists w',
      executeStep_fuel fuel s ctx sid rc w
      = Some (Ok (mkStepResult
                    [("stdout", VStr (JsString.trim out));
                     ("stderr", VStr (JsString.trim err));
                     ("exitCode", VNum (num_of_Z (expected_code s)));
                     ("command", VStr cmd)] true None), w')
      /\ procs w' = procs w
      /\ spawned w' = (spawned w + S k)%nat
      /\ sleeps_of (log w')
         = sleeps_of (log w)
             ++ List.map (calculateRetryDelay (retryPolicy s)) (Zrange rc k)
      /\ attempts_of (log w')
         = attempts_of (log w) ++ List.map (fun j => (id s, j)) (Zrange rc (S k)).
Proof.
  intros Hty Hc Hne Hr Hp Hcode.
  induction k as [| k IH]; intros fuel rc w Hfuel Hrc Hfail Hok.
  - destruct fuel as [| fuel]; [lia |].
    cbn [executeStep_fuel]. cbv zeta.
    destruct (script_step_run s c cmd (stepContextOf s ctx sid rc)
                (record (EvAttempt (id s) rc) w) Hty Hc Hne Hr) as [_ Hrun].
    simpl in Hrun. rewrite Nat.add_0_r in Hok.
    rewrite (Hrun code out err Hok Hcode).
    eexists. split; [reflexivity |]. simpl.
    split; [reflexivity |]. split; [lia |].
    rewrite !sleeps_of_app, !attempts_of_app. simpl.
    rewrite !app_nil_r. split; reflexivity.
  - destruct fuel as [| fuel]; [lia |].
    cbn [executeStep_fuel]. cbv zeta.
    destruct (script_step_run s c cmd (stepContextOf s ctx sid rc)
                (record (EvAttempt (id s) rc) w) Hty Hc Hne Hr) as [Hrun _].
    simpl in Hrun.
    destruct Hrun as [msg Hrun].
    { specialize (Hfail 0%nat ltac:(lia)). rewrite Nat.add_0_r in Hfail. exact Hfail. }
    rewrite Hrun.
    rewrite (shouldRetry_without_patterns s m b _ rc Hp).
    destruct (Z.leb_spec m rc) as [? | _]; [lia |]. simpl negb. cbv iota.
    unfold sleep. cbv beta iota.
    match goal with
    | |- context [executeStep_fuel fuel s ctx sid (rc + 1) ?W] => set (w2 := W)
    end.
    destruct (IH fuel (rc + 1) w2) as (w' & Hrec & Hprocs & Hsp & Hsl & Hat).
    + lia.
    + lia.
    + intros j Hj. simpl. specialize (Hfail (S j) ltac:(lia)).
      rewrite <- Nat.add_succ_r. exact Hfail.
    + simpl. rewrite <- Nat.add_succ_r. exact Hok.
    + exists w'. split.
      { exact Hrec. }
      split; [rewrite Hprocs; reflexivity |].
      split; [rewrite Hsp; simpl; lia |].
      subst w2. unfold record in Hsl, Hat. simpl in Hsl, Hat.
      rewrite !sleeps_of_app in Hsl. rewrite !attempts_of_app in Hat.
      simpl in Hsl, Hat. rewrite !app_nil_r in *.
      split.
      * rewrite Hsl, <- app_assoc. reflexivity.
      * rewrite Hat, <- app_assoc. reflexivity.
Qed.

(** X10: a script step with a retry policy of [m] attempts and no
    [retryOn] list, whose first [k <= m] processes do not exit with the
    expected code and whose next one does, returns the outputs of that
    process (trimmed stdout and stderr, the exit code, the rendered
    command) after [k + 1] processes, having slept the delays of the
    retry counts 0 to [k - 1] in between. *)
Theorem script_retries_until_success :
  forall (s : Step) (c cmd : string) (ctx : Context) (sid : string)
         (m : Z) (b : option Z) (k : nat) (w : World)
         (code : option Z) (out err : string),
    type s = script -> command s = Some c -> c <> EmptyString ->
    Template.render c (variables ctx) = Ok cmd ->
    retryPolicy s = Some (mkRetryPolicy m b None) ->
    Z.of_nat k <= m ->
    (forall j, (j < k)%nat ->
               exits_with (expected_code s) (procs w (spawned w + j)%nat) = false) ->
    procs w (spawned w + k)%nat = Closed code out err ->
    match code with Some z => z | None => -1 end = expected_code s ->
    exists w',
      executeStep s ctx sid 0 w
      = (Ok (mkStepResult
               [("stdout", VStr (JsString.trim out));
                ("stderr", VStr (JsString.trim err));
                ("exitCode", VNum (num_of_Z (expected_code s)));
                ("command", VStr cmd)] true None), w')
      /\ spawned w' = (spawned w + S k)%nat
      /\ sleeps_of (log w')
         = sleeps_of (log w)
             ++ List.map (calculateRetryDelay (retryPolicy s)) (Zrange 0 k)
      /\ attempts_of (log w')
         = attempts_of (log w) ++ List.map (fun j => (id s, j)) (Zrange 0 (S k)).
Proof.
  intros s c cmd ctx sid m b k w code out err Hty Hc Hne Hr Hp Hk Hfail Hok Hcode.
  destruct (script_retries_fuel s c cmd ctx sid m b code out err Hty Hc Hne Hr Hp Hcode
              k (attempts_bound s 0) 0 w) as (w' & Hrun & _ & Hsp & Hsl & Hat).
  - unfold attempts_bound. rewrite Hp. simpl. lia.
  - lia.
  - exact Hfail.
  - exact Hok.
  - exists w'. unfold executeStep. rewrite Hrun. auto.
Qed.

End ScriptRetries.

Section RetryPatterns.
Import StepExecutor.
Context {host : Host}.
Local Open Scope list_scope.

Lemma classify_message_not_api_error (message : string) :
  classify_message message <> api_error.
Proof.
  unfold classify_message.
  repeat match goal with
         | |- (if ?b then _ else _) <> _ => destruct b
         end; discriminate.
Qed.

Lemma classifyError_not_api_error (err : thrown) : classifyError err <> api_error.
Proof.
  destruct err as [e | v]; simpl.
  - apply classify_message_not_api_error.
  - destruct (negb (Js.toBoolean v)); [discriminate |].
    apply classify_message_not_api_error.
Qed.

(** X11: [classifyError] never answers [api_error].  With a
    [retryOn] list, an error is retried only while attempts are left and
    its class is in the list; so a policy whose list is empty or is
    [api_error] alone never retries, and an error of a class that is not
    listed is thrown again after the first attempt. *)
Theorem retryOn_limits_retries :
  (forall err : thrown, classifyError err <> api_error)
  /\ (forall (s : Step) (p : RetryPolicy) (pats : list RetryErrorPattern)
             (err : thrown) (rc : Z),
        retryPolicy s = Some p -> retryOn p = Some pats ->
        shouldRetry s err rc
        = (rc <? maxAttempts p)
          && existsb (RetryErrorPattern_eqb (classifyError err)) pats)
  /\ (forall (s : Step) (m : Z) (b : option Z) (err : thrown) (rc : Z),
        retryPolicy s = Some (mkRetryPolicy m b (Some [])) ->
        shouldRetry s err rc = false)
  /\ (forall (s : Step) (m : Z) (b : option Z) (err : thrown) (rc : Z),
        retryPolicy s = Some (mkRetryPolicy m b (Some [api_error])) ->
        shouldRetry s err rc = false)
  /\ (forall (s : Step) (p : RetryPolicy) (pats : list RetryErrorPattern)
             (ctx : Context) (sid : string) (w : World) (e : error) (w1 : World),
        retryPolicy s = Some p -> retryOn p = Some pats ->
        executeStepByType s (stepContextOf s ctx sid 0)
          (record (EvAttempt (id s) 0) w) = (Throw e, w1) ->
        existsb (RetryErrorPattern_eqb (classifyError (ThrownError e))) pats = false ->
        executeStep s ctx sid 0 w = (Throw e, w1)).
Proof.
  assert (Hshould : forall (s : Step) (p : RetryPolicy) (pats : list RetryErrorPattern)
             (err : thrown) (rc : Z),
        retryPolicy s = Some p -> retryOn p = Some pats ->
        shouldRetry s err rc
        = (rc <? maxAttempts p)
          && existsb (RetryErrorPattern_eqb (classifyError err)) pats).
  { intros s p pats err rc Hp Hpats. unfold shouldRetry. rewrite Hp, Hpats.
    destruct (Z.leb_spec (maxAttempts p) rc), (Z.ltb_spec rc (maxAttempts p));
      try lia; reflexivity. }
  split; [exact classifyError_not_api_error |].
  split; [exact Hshould |]. split; [| split].
  - intros s m b err rc Hp. rewrite (Hshould s _ [] err rc Hp eq_refl).
    apply andb_false_r.
  - intros s m b err rc Hp. rewrite (Hshould s _ [api_error] err rc Hp eq_refl).
    simpl. pose proof (classifyError_not_api_error err) as Hne.
    destruct (classifyError err); try apply andb_false_r. contradiction.
  - intros s p pats ctx sid w e w1 Hp Hpats Hrun Hnot.
    unfold executeStep, attempts_bound. rewrite Hp.
    cbn [executeStep_fuel]. cbv zeta. rewrite Hrun.
    rewrite (Hshould s p pats _ 0 Hp Hpats), Hnot, andb_false_r. reflexivity.
Qed.

(** ** The time spent waiting *)

Lemma sum_of_delays (base : Z) (k : nat) (start : Z) :
  0 <= start ->
  fold_right Z.add 0 (List.map (fun rc => base * 2 ^ rc) (Zrange start k))
  = base * 2 ^ start * (2 ^ Z.of_nat k - 1).
Proof.
  revert start. induction k as [| k IH]; intros start Hs.
  - simpl. lia.
  - cbn [Zrange List.map fold_right]. rewrite IH by lia.
    rewrite Nat2Z.inj_succ, Z.pow_succ_r by lia.
    rewrite Z.pow_add_r by lia. change (2 ^ 1) with 2. ring.
Qed.


End RetryPatterns.

Section StepOutcomes.
Import StepExecutor.
Context {host : Host}.
Local Open Scope list_scope.

Local Abbreviation val := (value number).

Lemma truthy_string_false (o : option string) :
  truthy_string o = false -> o = None \/ o = Some EmptyString.
Proof.
  destruct o as [s |]; [| left; reflexivity].
  simpl. intros H. right. f_equal. apply String.eqb_eq.
  destruct (String.eqb s EmptyString); [reflexivity | discriminate H].
Qed.

(** A step that fails at once, whatever the context and the world,
    starts no process however often it is tried. *)
Lemma failing_attempts_spawn_nothing (s : Step) (err : error) (ctx : Context)
    (sid : string) :
  (forall ctx0 w0, executeStepByType s ctx0 w0 = (Throw err, w0)) ->
  forall (fuel : nat) (rc : Z) (w : World) r w',
    executeStep_fuel fuel s ctx sid rc w = Some (r, w') ->
    spawned w' = spawned w.
Proof.
  intros Hfail. induction fuel as [| fuel IH]; intros rc w r w' H; [discriminate H |].
  cbn [executeStep_fuel] in H. rewrite Hfail in H.
  destruct (shouldRetry s (ThrownError err) rc).
  - unfold sleep in H. apply IH in H. exact H.
  - injection H as _ <-. reflexivity.
Qed.

(** X13: a step that lacks what its type requires is refused with a
    [StepExecutionError] that says what is missing, before anything is
    rendered, evaluated or started; and since the error is retried like
    any other, a retry policy without [retryOn] makes the step fail
    [maxAttempts + 1] times, with the sleeps in between, before that
    same error comes out. *)
Theorem misconfigured_steps_fail_every_attempt :
  forall (s : Step) (msg : string),
    (type s = ai_prompt /\ truthy_string (template s) = false
     /\ truthy_string (agent s) = false
     /\ msg = "AI prompt step requires either template or agent configuration"%string)
    \/ (type s = script /\ truthy_string (command s) = false
        /\ msg = "Script step requires command configuration"%string)
    \/ (type s = validation /\ truthy_string (condition s) = false
        /\ msg = "Validation step requires condition configuration"%string)
    \/ (type s = loop /\ (truthy_string (items s) = false \/ steps s = None)
        /\ msg = "Loop step requires items and steps configuration"%string)
    \/ (type s = conditional
        /\ (truthy_string (condition s) = false \/ steps s = None)
        /\ msg = "Conditional step requires condition and steps configuration"%string)
    \/ (exists name, type s = other_type name
                     /\ msg = ("Unknown step type: " ++ name)%string) ->
    (forall (ctx : Context) (w : World),
        executeStepByType s ctx w
        = (Throw (StepExecutionError msg unknown_workflow (id s)), w))
    /\ (forall (ctx : Context) (sid : string) (w : World),
          retryPolicy s = None ->
          executeStep s ctx sid 0 w
          = (Throw (StepExecutionError msg unknown_workflow (id s)),
             record (EvAttempt (id s) 0) w))
    /\ (forall (ctx : Context) (sid : string) (m : Z) (b : option Z) (w : World),
          retryPolicy s = Some (mkRetryPolicy m b None) -> 0 <= m ->
          exists w',
            executeStep s ctx sid 0 w
            = (Throw (StepExecutionError msg unknown_workflow (id s)), w')
            /\ spawned w' = spawned w
            /\ attempts_of (log w')
               = attempts_of (log w)
                   ++ List.map (fun j => (id s, j)) (Zrange 0 (S (Z.to_nat m)))
            /\ sleeps_of (log w')
               = sleeps_of (log w)
                   ++ List.map (calculateRetryDelay (retryPolicy s))
                        (Zrange 0 (Z.to_nat m))).
Proof.
  intros s msg Hcase.
  assert (Hfail : forall ctx w,
             executeStepByType s ctx w
             = (Throw (StepExecutionError msg unknown_workflow (id s)), w)).
  { intros ctx w. destruct s as [i ty a t c cond children its rp code].
    cbn [type template agent command condition items steps id] in Hcase.
    destruct Hcase as [(-> & Ht & Ha & ->) | [(-> & Hc & ->) | [(-> & Hc & ->)
                     | [(-> & Hl & ->) | [(-> & Hl & ->) | (name & -> & ->)]]]]];
      cbn [executeStepByType].
    - unfold executeAIPrompt. cbn [template agent id]. rewrite Ht, Ha. reflexivity.
    - unfold executeScript. cbn [command id].
      destruct (truthy_string_false _ Hc) as [-> | ->]; reflexivity.
    - unfold executeValidation. cbn [condition id]. rewrite Hc. reflexivity.
    - unfold executeLoopWith.
      destruct Hl as [Hl | ->]; [| reflexivity].
      destruct children; [rewrite Hl |]; reflexivity.
    - unfold executeConditionalWith.
      destruct Hl as [Hl | ->]; [| reflexivity].
      destruct children; [rewrite Hl |]; reflexivity.
    - reflexivity. }
  split; [exact Hfail |]. split.
  - intros ctx sid w Hp.
    unfold executeStep, attempts_bound. rewrite Hp.
    cbn [executeStep_fuel]. rewrite Hfail.
    unfold shouldRetry. rewrite Hp. reflexivity.
  - intros ctx sid m b w Hp Hm.
    destruct (executeStep_fuel_always_failing s ctx sid m b Hp
                (fun rc w0 => ex_intro _ _ (ex_intro _ w0 (Hfail _ w0)))
                (Z.to_nat m) 0 w Hm)
      as (e & w' & wl & R & Hlast & Hatt & Hsl).
    { f_equal. lia. }
    rewrite Hfail in Hlast. injection Hlast as <- _.
    exists w'. split.
    { unfold executeStep, attempts_bound. rewrite Hp. simpl maxAttempts.
      rewrite Z.sub_0_r, R. reflexivity. }
    split; [| split; [exact Hatt | exact Hsl]].
    exact (failing_attempts_spawn_nothing s _ ctx sid Hfail _ _ _ _ _ R).
Qed.

Lemma assign_all_app {A : Type} (target s1 s2 : list (string * A)) :
  Js.assign_all (Js.assign_all target s1) s2 = Js.assign_all target (s1 ++ s2).
Proof. unfold Js.assign_all. rewrite fold_left_app. reflexivity. Qed.

(** The loop over the children of a step, when they all return. *)
Lemma run_substeps_of_children (ctx : Context) (cs : list Step) :
  forall (w : World) (rs : list StepResult) (w' : World) (acc : list (string * val)),
    children_run ctx cs w rs w' ->
    run_substeps executeStepByType cs ctx acc w
    = (Ok (Js.assign_all acc (outputs_written rs)), w').
Proof.
  intros w rs w' acc H. revert acc.
  induction H as [w | c cs w w1 w' r rs Hc Hrest IH]; intros acc; [reflexivity |].
  cbn [run_substeps]. rewrite Hc. cbv zeta.
  destruct (executeStepByType_continues c ctx w r w1 Hc) as [-> _].
  rewrite IH. unfold outputs_written. cbn [List.map List.concat].
  rewrite assign_all_app. reflexivity.
Qed.

Lemma children_of_run_substeps (ctx : Context) (cs : list Step) :
  forall (w : World) (acc outs : list (string * val)) (w' : World),
    run_substeps executeStepByType cs ctx acc w = (Ok outs, w') ->
    exists rs, children_run ctx cs w rs w'.
Proof.
  induction cs as [| c cs IH]; intros w acc outs w' H.
  - cbn [run_substeps] in H. injection H as _ <-. exists []. constructor.
  - cbn [run_substeps] in H.
    destruct (executeStepByType c ctx w) as [[r | e] w1] eqn:Hc; [| discriminate H].
    cbv zeta in H.
    destruct (executeStepByType_continues c ctx w r w1 Hc) as [Hcont _].
    rewrite Hcont in H.
    destruct (IH _ _ _ _ H) as [rs Hrs].
    exists (r :: rs). econstructor; eassumption.
Qed.

(** X14: a conditional step whose condition is false runs none of its
    children; one whose condition is true runs them in order, in its own
    context, and outputs their outputs merged into one object in which a
    key has the value that was written last. *)
Theorem conditional_step_merges_its_children :
  forall (s : Step) (c : string) (children : list Step) (ctx : Context)
         (rendered : string) (w : World),
    type s = conditional -> condition s = Some c -> c <> EmptyString ->
    steps s = Some children ->
    Template.render c (variables ctx) = Ok rendered ->
    (Expr.evaluateCondition rendered (variables ctx) = Ok false ->
     executeStepByType s ctx w
     = (Ok (mkStepResult [("condition", VStr rendered); ("executed", VBool false)]
              true None), w))
    /\ (Expr.evaluateCondition rendered (variables ctx) = Ok true ->
        (forall (rs : list StepResult) (w' : World),
            children_run ctx children w rs w' ->
            exists merged,
              executeStepByType s ctx w
              = (Ok (mkStepResult
                       [("condition", VStr rendered); ("executed", VBool true);
                        ("outputs", VObj merged)] true None), w')
              /\ forall k, Js.assoc k merged
                           = Js.assoc k (List.rev (outputs_written rs)))
        /\ (forall (r : StepResult) (w' : World),
              executeStepByType s ctx w = (Ok r, w') ->
              exists rs, children_run ctx children w rs w')).
Proof.
  intros s c children ctx rendered w Hty Hc Hne Hch Hrender.
  destruct s as [i ty a t cm cond chs its rp code].
  cbn [type condition steps] in Hty, Hc, Hch. subst ty cond chs.
  assert (Htruthy : truthy_string (Some c) = true).
  { simpl. destruct (String.eqb_spec c EmptyString); [contradiction | reflexivity]. }
  cbn [executeStepByType]. unfold executeConditionalWith.
  rewrite Htruthy. cbn [negb].
  change (default EmptyString (Some c)) with c. rewrite Hrender.
  split.
  - intros ->. reflexivity.
  - intros ->. cbv zeta iota. split.
    + intros rs w' Hrun.
      rewrite (run_substeps_of_children ctx children w rs w' [] Hrun).
      eexists. split; [reflexivity |].
      intros k. rewrite assoc_assign_all.
      destruct (Js.assoc k (List.rev (outputs_written rs))); reflexivity.
    + intros r w' H.
      destruct (run_substeps executeStepByType children ctx [] w)
        as [[outs | e] w1] eqn:Hsub; [| discriminate H].
      injection H as _ <-.
      exact (children_of_run_substeps ctx children w [] outs w1 Hsub).
Qed.

End StepOutcomes.

(* ===================================================================== *)
(** * The algebra of conditions *)
(* ===================================================================== *)

Section TrimFacts.
Import JsString.

Lemma trimStart_append (x y : string) :
  trimStart (x ++ y)
  = if String.eqb (trimStart x) EmptyString then trimStart y else trimStart x ++ y.
Proof.
  induction x as [| c x IH]; [reflexivity |].
  change (String c x ++ y) with (String c (x ++ y)). simpl.
  destruct (is_space c); [exact IH | reflexivity].
Qed.

Lemma rev_empty_iff (s : string) : rev s = EmptyString <-> s = EmptyString.
Proof.
  split; [| intros ->; reflexivity].
  intros H. apply (f_equal String.length) in H.
  rewrite string_length_rev in H. destruct s; [reflexivity | discriminate].
Qed.

Lemma trimEnd_empty_iff (s : string) :
  trimEnd s = EmptyString <-> trimStart (rev s) = EmptyString.
Proof. unfold trimEnd. apply rev_empty_iff. Qed.

(** [trimEnd] on a string given by its first character. *)
Lemma trimEnd_cons (c : ascii) (t : string) :
  trimEnd (String c t)
  = if is_space c && String.eqb (trimEnd t) EmptyString
    then EmptyString else String c (trimEnd t).
Proof.
  unfold trimEnd. cbn [rev]. rewrite trimStart_append.
  destruct (String.eqb_spec (trimStart (rev t)) EmptyString) as [E | Hne].
  - rewrite E. cbn [rev trimStart]. rewrite String.eqb_refl, andb_true_r.
    destruct (is_space c); reflexivity.
  - rewrite string_rev_append. cbn [rev].
    destruct (String.eqb_spec (rev (trimStart (rev t))) EmptyString) as [E |];
      [apply (proj1 (rev_empty_iff _)) in E; contradiction |].
    rewrite andb_false_r. reflexivity.
Qed.

Lemma trimStart_idempotent (s : string) : trimStart (trimStart s) = trimStart s.
Proof.
  induction s as [| c s IH]; [reflexivity |].
  simpl. destruct (is_space c) eqn:E; [exact IH |]. simpl. rewrite E. reflexivity.
Qed.

Lemma trimEnd_idempotent (s : string) : trimEnd (trimEnd s) = trimEnd s.
Proof.
  unfold trimEnd. rewrite string_rev_involutive, trimStart_idempotent. reflexivity.
Qed.

Lemma trimStart_trimEnd (s : string) : trimStart (trimEnd s) = trimEnd (trimStart s).
Proof.
  induction s as [| c s IH]; [reflexivity |].
  rewrite trimEnd_cons. cbn [trimStart].
  destruct (is_space c) eqn:Ec; simpl andb.
  - destruct (String.eqb_spec (trimEnd s) EmptyString) as [E | Hne].
    + rewrite <- IH, E. reflexivity.
    + cbn [trimStart]. rewrite Ec. exact IH.
  - cbn [trimStart]. rewrite Ec. rewrite trimEnd_cons, Ec. reflexivity.
Qed.

Lemma trim_idempotent (s : string) : trim (trim s) = trim s.
Proof.
  unfold trim. rewrite trimStart_trimEnd, trimStart_idempotent, trimEnd_idempotent.
  reflexivity.
Qed.

Lemma trim_trimStart (s : string) : trim (trimStart s) = trim s.
Proof. unfold trim. rewrite trimStart_idempotent. reflexivity. Qed.

Lemma trim_trimEnd (s : string) : trim (trimEnd s) = trim s.
Proof.
  unfold trim. rewrite trimStart_trimEnd, trimEnd_idempotent. reflexivity.
Qed.

(** Trimming stops at a character that is not white space. *)
Lemma trimEnd_append_cons (a : string) (c : ascii) (t : string) :
  is_space c = false ->
  trimEnd (a ++ String c t) = a ++ String c (trimEnd t).
Proof.
  intros Hc. induction a as [| x a IH].
  - change (trimEnd (String c t) = String c (trimEnd t)).
    rewrite trimEnd_cons, Hc. reflexivity.
  - change (trimEnd (String x (a ++ String c t)) = String x (a ++ String c (trimEnd t))).
    rewrite trimEnd_cons, IH.
    destruct (String.eqb_spec (a ++ String c (trimEnd t)) EmptyString) as [E |].
    + destruct a; discriminate E.
    + rewrite andb_false_r. reflexivity.
Qed.

Lemma trimStart_append_cons (a : string) (c : ascii) (t : string) :
  is_space c = false ->
  trimStart (a ++ String c t) = trimStart a ++ String c t.
Proof.
  intros Hc. rewrite trimStart_append.
  destruct (String.eqb_spec (trimStart a) EmptyString) as [-> |]; [| reflexivity].
  simpl. rewrite Hc. reflexivity.
Qed.

Lemma trim_around (a : string) (c : ascii) (t : string) :
  is_space c = false ->
  trim (a ++ String c t) = trimStart a ++ String c (trimEnd t).
Proof.
  intros Hc. unfold trim.
  rewrite trimStart_append_cons, trimEnd_append_cons; auto.
Qed.

End TrimFacts.

Section SplitFacts.
Import JsString.

Lemma startsWith_self_append (p b : string) : startsWith p (p ++ b) = true.
Proof.
  induction p as [| c p IH]; [reflexivity |].
  change (Ascii.eqb c c && startsWith p (p ++ b) = true).
  rewrite Ascii.eqb_refl, IH. reflexivity.
Qed.

Lemma includes_cons_true (p : string) (c : ascii) (s : string) :
  includes p s = true -> includes p (String c s) = true.
Proof. intros H. simpl. rewrite H. apply orb_true_r. Qed.

Lemma includes_occurrence (p a b : string) : includes p (a ++ p ++ b) = true.
Proof.
  induction a as [| c a IH].
  - change (includes p (p ++ b) = true).
    destruct (p ++ b) eqn:E; simpl; rewrite <- E, startsWith_self_append; reflexivity.
  - change (includes p (String c (a ++ p ++ b)) = true).
    apply includes_cons_true. exact IH.
Qed.

Lemma startsWith_cons_false (p : string) (c : ascii) (s : string) :
  includes p (String c s) = false -> startsWith p (String c s) = false.
Proof. simpl. intros H. apply orb_false_elim in H as [H _]. exact H. Qed.

(** A string without the separator is one piece. *)
Lemma split_aux_no_separator (sep s : string) :
  forall cur, includes sep s = false -> split_aux sep 0 cur s = [cur ++ s].
Proof.
  induction s as [| c s IH]; intros cur H.
  - simpl. rewrite string_append_empty_r. reflexivity.
  - cbn [split_aux]. rewrite (startsWith_cons_false _ _ _ H).
    rewrite IH by (eapply includes_cons; exact H).
    rewrite string_app_assoc. reflexivity.
Qed.

Lemma last_char_cons (c : ascii) (s : string) (x : ascii) :
  last_char (String c s) <> Some x ->
  s = EmptyString /\ c <> x \/ s <> EmptyString /\ last_char s <> Some x.
Proof.
  destruct s as [| d s]; simpl; intros H.
  - left. split; [reflexivity | congruence].
  - right. split; [discriminate | exact H].
Qed.

(** The first occurrence of a doubled character [xx] splits [a ++ xx ++ b]
    into [a] and [b], when [a] holds no [xx] and does not end in [x], and
    [b] holds no [xx]. *)
Lemma split_aux_two (x : ascii) (a b : string) :
  let sep := String x (String x EmptyString) in
  forall cur,
    includes sep a = false -> last_char a <> Some x -> includes sep b = false ->
    split_aux sep 0 cur (a ++ sep ++ b) = [cur ++ a; b].
Proof.
  intros sep. induction a as [| c a IH]; intros cur Ha Hlast Hb.
  - change (split_aux sep 0 cur (String x (String x b)) = [cur ++ EmptyString; b]).
    cbn [split_aux]. subst sep. cbn [startsWith]. rewrite !Ascii.eqb_refl.
    cbn [andb String.length Nat.sub split_aux].
    rewrite (split_aux_no_separator _ b EmptyString Hb), string_append_empty_r.
    reflexivity.
  - change (split_aux sep 0 cur (String c (a ++ sep ++ b)) = [cur ++ String c a; b]).
    cbn [split_aux].
    assert (Hstart : startsWith sep (String c (a ++ sep ++ b)) = false).
    { subst sep. cbn [startsWith].
      destruct (Ascii.eqb_spec x c) as [<- |]; [| reflexivity].
      destruct (last_char_cons _ _ _ Hlast) as [[-> Hc] | [Hne _]]; [congruence |].
      destruct a as [| d a]; [congruence |].
      change (true && (Ascii.eqb x d && true) = false).
      destruct (Ascii.eqb_spec x d) as [<- |]; [| reflexivity].
      simpl in Ha. rewrite !Ascii.eqb_refl in Ha. discriminate. }
    rewrite Hstart.
    destruct (last_char_cons _ _ _ Hlast) as [[-> Hc] | [Hne Hl]].
    + change (split_aux sep 0 (cur ++ String c EmptyString) (String x (String x b))
              = [cur ++ String c EmptyString; b]).
      cbn [split_aux]. subst sep. cbn [startsWith]. rewrite !Ascii.eqb_refl.
      cbn [andb String.length Nat.sub split_aux].
      rewrite (split_aux_no_separator _ b EmptyString Hb). reflexivity.
    + rewrite IH; [| eapply includes_cons; exact Ha | exact Hl | exact Hb].
      rewrite string_app_assoc. reflexivity.
Qed.

Lemma last_char_trimStart (s : string) (x : ascii) :
  last_char (trimStart s) = Some x -> last_char s = Some x.
Proof.
  induction s as [| c s IH]; [intros H; exact H |].
  cbn [trimStart]. destruct (is_space c); [| intros H; exact H].
  intros H. specialize (IH H). destruct s; [discriminate IH | exact IH].
Qed.

(** No [xx] lies across a character other than [x]. *)
Lemma includes_no_straddle (x y : ascii) (a b : string) :
  let sep := String x (String x EmptyString) in
  x <> y ->
  includes sep a = false -> includes sep b = false ->
  includes sep (a ++ String y b) = false.
Proof.
  intros sep Hxy Ha Hb. induction a as [| c a IH].
  - change (includes sep (String y b) = false). simpl.
    destruct (Ascii.eqb_spec x y); [contradiction |]. exact Hb.
  - change (includes sep (String c (a ++ String y b)) = false).
    cbn [includes]. rewrite IH by (eapply includes_cons; exact Ha).
    rewrite orb_false_r. subst sep. cbn [startsWith].
    destruct (Ascii.eqb_spec x c) as [<- |]; [| reflexivity].
    destruct a as [| d a].
    + change (true && (Ascii.eqb x y && true) = false).
      destruct (Ascii.eqb_spec x y); [contradiction | reflexivity].
    + change (true && (Ascii.eqb x d && true) = false).
      destruct (Ascii.eqb_spec x d) as [<- |]; [| reflexivity].
      simpl in Ha. rewrite !Ascii.eqb_refl in Ha. discriminate.
Qed.

End SplitFacts.

Section ConditionAlgebra.
Import JsString Expr.
Context {host : Host}.

Local Abbreviation val := (value number).

Lemma evaluator_trims (fuel : nat) (e : string) (vars : list (string * val)) :
  safeExpressionEvaluator_fuel fuel (trim e) vars
  = safeExpressionEvaluator_fuel fuel e vars.
Proof.
  destruct fuel as [| fuel]; [reflexivity |].
  cbn [safeExpressionEvaluator_fuel]. cbv zeta. rewrite trim_idempotent. reflexivity.
Qed.

Lemma evaluator_enough_fuel (fuel : nat) (e : string) (vars : list (string * val)) :
  (String.length e < fuel)%nat ->
  safeExpressionEvaluator_fuel fuel e vars = Some (safeExpressionEvaluator e vars).
Proof.
  intros Hlen.
  destruct (safeExpressionEvaluator_fuel_total (S (String.length e)) e vars) as [r E];
    [lia |].
  unfold safeExpressionEvaluator. rewrite E.
  apply (safeExpressionEvaluator_fuel_mono (S (String.length e))); [lia | exact E].
Qed.

(** X15: an expression without [&&] and [||] that starts with [!]
    is the negation of all that follows the [!]: it throws when the rest
    throws, and is otherwise the opposite truth value. *)
Theorem negation_covers_the_rest :
  forall (e : string) (vars : list (string * val)),
    no_logical_operator e = true ->
    safeExpressionEvaluator ("!" ++ e) vars
    = match safeExpressionEvaluator e vars with
      | Ok b => Ok (negb b)
      | Throw err => Throw err
      end.
Proof.
  intros e vars Hno.
  unfold no_logical_operator in Hno. apply andb_prop in Hno as [Hand Hor].
  apply negb_true_iff in Hand, Hor.
  unfold safeExpressionEvaluator at 1.
  change ("!" ++ e) with (String "!" e).
  change (String.length (String "!" e)) with (S (String.length e)).
  set (fuel := S (String.length e)).
  cbn [safeExpressionEvaluator_fuel]. cbv zeta.
  assert (Etrim : trim (String "!" e) = String "!" (trimEnd e)).
  { apply (trim_around EmptyString "!" e). reflexivity. }
  rewrite Etrim.
  assert (Hand' : includes "&&" (String "!" (trimEnd e)) = false).
  { simpl. destruct (trimEnd_prefix e) as [b Eb]. rewrite Eb in Hand.
    apply includes_append_l in Hand. exact Hand. }
  assert (Hor' : includes "||" (String "!" (trimEnd e)) = false).
  { simpl. destruct (trimEnd_prefix e) as [b Eb]. rewrite Eb in Hor.
    apply includes_append_l in Hor. exact Hor. }
  rewrite Hand', Hor'. cbn [startsWith Ascii.eqb Bool.eqb andb drop].
  rewrite trim_trimEnd, evaluator_trims.
  rewrite evaluator_enough_fuel by (subst fuel; lia).
  destruct (safeExpressionEvaluator e vars); reflexivity.
Qed.

Lemma length_sep_append (l sep r : string) :
  String.length (l ++ sep ++ r)
  = (String.length l + String.length sep + String.length r)%nat.
Proof. rewrite !string_length_append. lia. Qed.

Lemma evaluator_on_part (fuel : nat) (e : string) (vars : list (string * val)) :
  (String.length e < fuel)%nat ->
  safeExpressionEvaluator_fuel fuel (trim e) vars
  = Some (safeExpressionEvaluator e vars).
Proof. intros H. rewrite evaluator_trims. apply evaluator_enough_fuel. exact H. Qed.

(** The trimmed text of [l ++ sep ++ r] and its two pieces, for a
    separator [xx] that [l] and [r] do not hold. *)
Lemma trimmed_pieces (x : ascii) (l r : string) :
  let sep := String x (String x EmptyString) in
  is_space x = false ->
  includes sep l = false -> last_char l <> Some x -> includes sep r = false ->
  trim (l ++ sep ++ r) = trimStart l ++ sep ++ trimEnd r
  /\ split sep (trim (l ++ sep ++ r)) = [trimStart l; trimEnd r].
Proof.
  intros sep Hx Hl Hlast Hr. subst sep.
  assert (E : trim (l ++ String x (String x EmptyString) ++ r)
              = trimStart l ++ String x (String x EmptyString) ++ trimEnd r).
  { change (l ++ String x (String x EmptyString) ++ r)
      with (l ++ String x (String x r)).
    rewrite (trim_around l x (String x r) Hx).
    rewrite trimEnd_cons, Hx. reflexivity. }
  split; [exact E |]. rewrite E. unfold split.
  rewrite (split_aux_two x (trimStart l) (trimEnd r) EmptyString).
  - reflexivity.
  - destruct (trimStart_suffix l) as [a Ea]. rewrite Ea in Hl.
    apply includes_append_r in Hl. exact Hl.
  - intros H. apply Hlast. apply last_char_trimStart. exact H.
  - destruct (trimEnd_prefix r) as [b Eb]. rewrite Eb in Hr.
    apply includes_append_l in Hr. exact Hr.
Qed.

(** X16: the evaluator splits an expression at its first [&&]
    before it looks for [||]: when the right of that [&&] holds no other
    [&&], the expression is the left part if that throws or is false, and
    the right part otherwise.  The left part may hold [||], so
    [a || b && c] is read as [(a || b) && c]. *)
Theorem conjunction_splits_first :
  forall (l r : string) (vars : list (string * val)),
    includes "&&" l = false -> last_char l <> Some "&"%char ->
    includes "&&" r = false ->
    safeExpressionEvaluator (l ++ "&&" ++ r) vars
    = match safeExpressionEvaluator l vars with
      | Ok true => safeExpressionEvaluator r vars
      | other => other
      end.
Proof.
  intros l r vars Hl Hlast Hr.
  destruct (trimmed_pieces "&" l r eq_refl Hl Hlast Hr) as [Etrim Esplit].
  unfold safeExpressionEvaluator at 1.
  cbn [safeExpressionEvaluator_fuel]. cbv zeta.
  assert (Hinc : includes "&&" (trim (l ++ "&&" ++ r)) = true).
  { rewrite Etrim. apply includes_occurrence. }
  rewrite Hinc, Esplit. cbn [List.map every].
  rewrite trim_trimStart, trim_trimEnd.
  pose proof (length_sep_append l "&&" r) as Hlen. simpl in Hlen.
  rewrite !evaluator_on_part by lia.
  destruct (safeExpressionEvaluator l vars) as [[|] | e]; try reflexivity.
  destruct (safeExpressionEvaluator r vars) as [[|] | e]; reflexivity.
Qed.

(** X17: an expression [l || r] whose two sides hold no logical
    operator is [l] if that throws or is true, and [r] otherwise: the
    right side is not evaluated when the left one decides. *)
Theorem disjunction_splits_second :
  forall (l r : string) (vars : list (string * val)),
    no_logical_operator l = true -> last_char l <> Some "|"%char ->
    no_logical_operator r = true ->
    safeExpressionEvaluator (l ++ "||" ++ r) vars
    = match safeExpressionEvaluator l vars with
      | Ok false => safeExpressionEvaluator r vars
      | other => other
      end.
Proof.
  intros l r vars Hl Hlast Hr.
  unfold no_logical_operator in Hl, Hr.
  apply andb_prop in Hl as [Hl1 Hl2]. apply andb_prop in Hr as [Hr1 Hr2].
  apply negb_true_iff in Hl1, Hl2, Hr1, Hr2.
  destruct (trimmed_pieces "|" l r eq_refl Hl2 Hlast Hr2) as [Etrim Esplit].
  unfold safeExpressionEvaluator at 1.
  cbn [safeExpressionEvaluator_fuel]. cbv zeta.
  assert (Hand : includes "&&" (trim (l ++ "||" ++ r)) = false).
  { apply includes_trim.
    apply (includes_no_straddle "&" "|" l (String "|" r)); [discriminate | exact Hl1 |].
    simpl. exact Hr1. }
  assert (Hinc : includes "||" (trim (l ++ "||" ++ r)) = true).
  { rewrite Etrim. apply includes_occurrence. }
  rewrite Hand, Hinc, Esplit. cbn [List.map some].
  rewrite trim_trimStart, trim_trimEnd.
  pose proof (length_sep_append l "||" r) as Hlen. simpl in Hlen.
  rewrite !evaluator_on_part by lia.
  destruct (safeExpressionEvaluator l vars) as [[|] | e]; try reflexivity.
  destruct (safeExpressionEvaluator r vars) as [[|] | e]; reflexivity.
Qed.

End ConditionAlgebra.

(* ===================================================================== *)
(** * More on the template engine *)
(* ===================================================================== *)

Section TokenizerFacts.
Import JsString Template.

(** Text without the opening delimiter is neither an escape nor an
    expression at its first character. *)
Lemma plain_first_char (c : ascii) (s : string) :
  includes "${" (String c s) = false ->
  startsWith "\${" (String c s) = false /\ startsWith "${" (String c s) = false.
Proof.
  intros H. pose proof (startsWith_cons_false _ _ _ H) as H1.
  split; [| exact H1].
  apply includes_cons in H.
  destruct s as [| d s]; [simpl; apply andb_false_r |].
  apply startsWith_cons_false in H.
  cbn [startsWith]. cbn [startsWith] in H. rewrite H. apply andb_false_r.
Qed.

Lemma tokenize_loop_plain :
  forall (fuel : nat) (rest : string) (position : nat) (textBuffer : string),
    (String.length rest < fuel)%nat ->
    includes "${" rest = false ->
    tokenize_loop fuel rest position textBuffer
    = Some (Ok (flush_text (textBuffer ++ rest) (position + String.length rest))).
Proof.
  induction fuel as [| fuel IH]; intros rest position textBuffer Hlen Hplain; [lia |].
  destruct rest as [| c rest1].
  - simpl. rewrite string_append_empty_r, Nat.add_0_r. reflexivity.
  - cbn [tokenize_loop].
    destruct (plain_first_char c rest1 Hplain) as [-> ->].
    rewrite IH; [| simpl in Hlen; lia | eapply includes_cons; exact Hplain].
    rewrite string_app_assoc. simpl String.length.
    replace (position + 1 + String.length rest1)%nat
      with (position + S (String.length rest1))%nat by lia.
    reflexivity.
Qed.

Lemma evaluate_text {host : Host} (t : string) (ctx : list (string * value number)) :
  evaluate (List.map TextNode (List.map tok_value (flush_text t 0))) ctx = Ok t.
Proof.
  unfold flush_text. destruct (String.eqb_spec t EmptyString) as [-> |]; [reflexivity |].
  simpl. rewrite string_append_empty_r. reflexivity.
Qed.

Lemma buildAST_text (t : string) (position : nat) :
  buildAST (flush_text t position)
  = Ok (List.map TextNode (List.map tok_value (flush_text t 0))).
Proof.
  unfold flush_text. destruct (String.eqb t EmptyString); reflexivity.
Qed.

End TokenizerFacts.

Section PlainTemplates.
Import JsString Template.
Context {host : Host}.

(** X18: a template without the opening delimiter of an
    expression renders to itself, whatever the context. *)
Theorem plain_text_renders_unchanged :
  forall (template : string) (context : list (string * value number)),
    includes "${" template = false ->
    render template context = Ok template.
Proof.
  intros template context Hplain. unfold render, parse, tokenize.
  rewrite (tokenize_loop_plain _ template 0 EmptyString) by (auto; lia).
  change (EmptyString ++ template) with template.
  rewrite buildAST_text. apply evaluate_text.
Qed.

End PlainTemplates.

Section TokenizerPrefix.
Import JsString Template.

(** A plain text [a] in front of [t] is read character by character, when
    [t] starts with a character other than the opening brace and, in case
    [t] opens an expression, [a] does not end in a backslash. *)
Lemma tokenize_loop_skips_text (x : ascii) (t' : string) :
  x <> "{"%char ->
  forall (a : string) (fuel position : nat) (textBuffer : string),
    includes "${" a = false ->
    (startsWith "${" (String x t') = true -> last_char a <> Some "\"%char) ->
    tokenize_loop (String.length a + fuel) (a ++ String x t') position textBuffer
    = tokenize_loop fuel (String x t') (position + String.length a) (textBuffer ++ a).
Proof.
  intros Hx. induction a as [| c a IH]; intros fuel position textBuffer Hplain Hlast.
  - simpl. rewrite string_append_empty_r, Nat.add_0_r. reflexivity.
  - change (String c a ++ String x t') with (String c (a ++ String x t')).
    cbn [String.length Nat.add tokenize_loop].
    assert (Hesc : startsWith "\${" (String c (a ++ String x t')) = false).
    { cbn [startsWith].
      destruct (Ascii.eqb_spec "\"%char c) as [<- |]; [| reflexivity].
      destruct a as [| d a].
      - change (true && startsWith "${" (String x t') = false).
        destruct (startsWith "${" (String x t')) eqn:E; [| reflexivity].
        exfalso. apply (Hlast eq_refl). reflexivity.
      - change (true && (Ascii.eqb "$" d && startsWith "{" (a ++ String x t')) = false).
        destruct (Ascii.eqb_spec "$"%char d) as [<- |]; [| reflexivity].
        destruct a as [| e a].
        + change (true && (true && (Ascii.eqb "{" x && true)) = false).
          destruct (Ascii.eqb_spec "{"%char x); [congruence | reflexivity].
        + change (true && (true && (Ascii.eqb "{" e && true)) = false).
          destruct (Ascii.eqb_spec "{"%char e) as [<- |]; [| reflexivity].
          apply includes_cons in Hplain. simpl in Hplain. discriminate. }
    assert (Hexp : startsWith "${" (String c (a ++ String x t')) = false).
    { cbn [startsWith].
      destruct (Ascii.eqb_spec "$"%char c) as [<- |]; [| reflexivity].
      destruct a as [| d a].
      - change (true && (Ascii.eqb "{" x && true) = false).
        destruct (Ascii.eqb_spec "{"%char x); [congruence | reflexivity].
      - change (true && (Ascii.eqb "{" d && true) = false).
        destruct (Ascii.eqb_spec "{"%char d) as [<- |]; [| reflexivity].
        simpl in Hplain. discriminate. }
    rewrite Hesc, Hexp.
    rewrite IH.
    + rewrite string_app_assoc.
      replace (position + 1 + String.length a)%nat
        with (position + S (String.length a))%nat by lia.
      reflexivity.
    + eapply includes_cons. exact Hplain.
    + intros E. specialize (Hlast E). destruct a as [| d a]; [discriminate |].
      exact Hlast.
Qed.

Lemma indexOf_char_absent (c : ascii) (s : string) :
  includes (String c EmptyString) s = false -> indexOf_char c s = None.
Proof.
  induction s as [| a s IH]; [reflexivity |].
  intros H. pose proof (startsWith_cons_false _ _ _ H) as H1.
  cbn [startsWith] in H1. rewrite andb_true_r in H1.
  cbn [indexOf_char]. rewrite Ascii.eqb_sym, H1.
  rewrite IH by (eapply includes_cons; exact H). reflexivity.
Qed.

Lemma indexOf_char_first (c : ascii) (s t : string) :
  includes (String c EmptyString) s = false ->
  indexOf_char c (s ++ String c t) = Some (String.length s).
Proof.
  induction s as [| a s IH]; intros H.
  - simpl. rewrite Ascii.eqb_refl. reflexivity.
  - pose proof (startsWith_cons_false _ _ _ H) as H1.
    cbn [startsWith] in H1. rewrite andb_true_r in H1.
    change (indexOf_char c (String a (s ++ String c t)) = Some (S (String.length s))).
    cbn [indexOf_char]. rewrite Ascii.eqb_sym, H1.
    rewrite IH by (eapply includes_cons; exact H). reflexivity.
Qed.

Lemma take_append (s t : string) : take (String.length s) (s ++ t) = s.
Proof.
  induction s as [| c s IH]; [destruct t; reflexivity |].
  change (String c (take (String.length s) (s ++ t)) = String c s).
  rewrite IH. reflexivity.
Qed.

Lemma drop_append (s t : string) : drop (String.length s) (s ++ t) = t.
Proof. induction s as [| c s IH]; [reflexivity | exact IH]. Qed.

Lemma drop_past (s : string) (c : ascii) (t : string) :
  drop (S (String.length s)) (s ++ String c t) = t.
Proof. induction s as [| a s IH]; [reflexivity | exact IH]. Qed.

Lemma tokenize_loop_escape (fuel : nat) (b : string) (position : nat)
    (textBuffer : string) :
  tokenize_loop (S fuel) (String "\" (String "$" (String "{" b))) position textBuffer
  = tokenize_loop fuel b (position + 3) (textBuffer ++ "${").
Proof. reflexivity. Qed.

Lemma tokenize_loop_open (fuel : nat) (after : string) (position : nat)
    (textBuffer : string) :
  tokenize_loop (S fuel) (String "$" (String "{" after)) position textBuffer
  = match indexOf_char "}" after with
    | None =>
        Some (Throw (TemplateError
                ("Unclosed template expression at position " ++ of_nat position)))
    | Some k =>
        let expression := trim (take k after) in
        match tokenize_loop fuel (drop (S k) after) (position + 2 + k + 1)
                EmptyString with
        | Some (Ok tokens) =>
            Some (Ok (flush_text textBuffer position
                        ++ expression_token expression position :: tokens)%list)
        | other => other
        end
    end.
Proof. reflexivity. Qed.

End TokenizerPrefix.

Section EscapesAndErrors.
Import JsString Template.
Context {host : Host}.

(** X19: a backslash before the opening delimiter escapes it: the
    delimiter is printed as it is, without the backslash, and what
    follows it is text. *)
Theorem escaped_delimiter_is_literal :
  forall (a b : string) (context : list (string * value number)),
    includes "${" a = false -> includes "${" b = false ->
    render (a ++ "\${" ++ b) context = Ok (a ++ "${" ++ b).
Proof.
  intros a b context Ha Hb. unfold render, parse, tokenize.
  change (a ++ "\${" ++ b) with (a ++ String "\" (String "$" (String "{" b))).
  rewrite string_length_append.
  replace (S (String.length a + String.length (String "\" (String "$" (String "{" b)))))
    with (String.length a + S (S (S (S (String.length b)))))%nat by (simpl; lia).
  rewrite (tokenize_loop_skips_text "\" _ ltac:(discriminate) a); [| exact Ha |].
  2:{ intros E. discriminate E. }
  rewrite tokenize_loop_escape.
  rewrite tokenize_loop_plain by (auto; lia).
  rewrite buildAST_text, evaluate_text.
  rewrite string_app_assoc. reflexivity.
Qed.

(** X20: an expression that is opened and never closed makes
    [render] throw [Unclosed template expression at position <n>], [n]
    being the offset of the opening delimiter, and [validate] return that
    message as its only error. *)
Theorem unclosed_expression_is_reported :
  forall (a b : string) (context : list (string * value number)),
    includes "${" a = false -> last_char a <> Some "\"%char ->
    includes "}" b = false ->
    render (a ++ "${" ++ b) context
    = Throw (TemplateError ("Unclosed template expression at position "
                              ++ of_nat (String.length a)))
    /\ validate (a ++ "${" ++ b)
       = (false, ["Unclosed template expression at position "
                    ++ of_nat (String.length a)]).
Proof.
  intros a b context Ha Hlast Hb.
  assert (E : tokenize (a ++ "${" ++ b)
              = Throw (TemplateError ("Unclosed template expression at position "
                                        ++ of_nat (String.length a)))).
  { unfold tokenize.
    change (a ++ "${" ++ b) with (a ++ String "$" (String "{" b)).
    rewrite string_length_append.
    replace (S (String.length a + String.length (String "$" (String "{" b))))
      with (String.length a + S (S (S (String.length b))))%nat by (simpl; lia).
    rewrite (tokenize_loop_skips_text "$" _ ltac:(discriminate) a);
      [| exact Ha | intros _; exact Hlast].
    rewrite tokenize_loop_open.
    rewrite (indexOf_char_absent "}" b Hb). reflexivity. }
  unfold render, validate, parse. rewrite E. split; reflexivity.
Qed.

End EscapesAndErrors.

Section WordFacts.
Import JsString Template.

Lemma is_word_not_space (c : ascii) : is_word c = true -> is_space c = false.
Proof. destruct c as [[] [] [] [] [] [] [] []]; simpl; intros H; try reflexivity; discriminate H. Qed.

Lemma startsWith_forallb (f : ascii -> bool) (p s : string) :
  startsWith p s = true -> forallb_chars f s = true -> forallb_chars f p = true.
Proof.
  revert s. induction p as [| a p IH]; intros s Hs Hf; [reflexivity |].
  destruct s as [| b s]; [discriminate |].
  simpl in Hs, Hf. apply andb_prop in Hs as [Hab Hs]. apply andb_prop in Hf as [Hb Hf].
  apply Ascii.eqb_eq in Hab. subst b. simpl. rewrite Hb. exact (IH s Hs Hf).
Qed.

(** A text of word characters holds no text with another character. *)
Lemma word_excludes (p x : string) :
  forallb_chars is_word x = true -> forallb_chars is_word p = false ->
  includes p x = false.
Proof.
  intros Hx Hp. induction x as [| c x IH].
  - simpl. destruct p; [discriminate | reflexivity].
  - simpl in Hx. apply andb_prop in Hx as [Hc Hx'].
    cbn [includes]. rewrite (IH Hx'), orb_false_r.
    destruct (startsWith p (String c x)) eqn:E; [| reflexivity].
    apply (startsWith_forallb is_word) in E; [congruence |].
    simpl. rewrite Hc. exact Hx'.
Qed.

Lemma trimEnd_no_space (x : string) :
  forallb_chars (fun c => negb (is_space c)) x = true -> trimEnd x = x.
Proof.
  induction x as [| c x IH]; [reflexivity |].
  simpl. intros H. apply andb_prop in H as [Hc Hx].
  rewrite trimEnd_cons. apply negb_true_iff in Hc. rewrite Hc, (IH Hx). reflexivity.
Qed.

Lemma forallb_chars_impl (f g : ascii -> bool) (x : string) :
  (forall c, f c = true -> g c = true) ->
  forallb_chars f x = true -> forallb_chars g x = true.
Proof.
  intros Hfg. induction x as [| c x IH]; [reflexivity |].
  simpl. intros H. apply andb_prop in H as [Hc Hx].
  rewrite (Hfg c Hc), (IH Hx). reflexivity.
Qed.

Lemma trim_word (x : string) : forallb_chars is_word x = true -> trim x = x.
Proof.
  intros Hx. unfold trim.
  assert (Hs : trimStart x = x).
  { destruct x as [| c x]; [reflexivity |].
    simpl in Hx. apply andb_prop in Hx as [Hc _].
    simpl. rewrite (is_word_not_space c Hc). reflexivity. }
  rewrite Hs. apply trimEnd_no_space.
  apply (forallb_chars_impl is_word); [| exact Hx].
  intros c Hc. rewrite (is_word_not_space c Hc). reflexivity.
Qed.

Lemma split_word (sep x : string) :
  forallb_chars is_word x = true -> forallb_chars is_word sep = false ->
  split sep x = [x].
Proof.
  intros Hx Hsep. unfold split.
  rewrite split_aux_no_separator by (apply word_excludes; assumption). reflexivity.
Qed.

(** A name of word characters, other than the two closing keywords, is
    the expression of a variable. *)
Lemma expression_token_word (x : string) (position : nat) :
  forallb_chars is_word x = true ->
  x <> "endif" -> x <> "endforeach" ->
  expression_token x position = mkToken VARIABLE x position.
Proof.
  intros Hx H1 H2. unfold expression_token.
  destruct (startsWith "if " x) eqn:E1.
  { apply (startsWith_forallb is_word) in E1; [discriminate E1 | exact Hx]. }
  destruct (String.eqb_spec x "endif"); [contradiction |].
  destruct (startsWith "foreach " x) eqn:E2.
  { apply (startsWith_forallb is_word) in E2; [discriminate E2 | exact Hx]. }
  destruct (String.eqb_spec x "endforeach"); [contradiction |].
  reflexivity.
Qed.

Lemma parseVariable_word (x : string) :
  forallb_chars is_word x = true ->
  parseVariable x = Ok (VariableNode x []).
Proof.
  intros Hx. unfold parseVariable.
  rewrite (split_word "|" x Hx eq_refl). simpl. rewrite (trim_word x Hx). reflexivity.
Qed.

End WordFacts.

Section Interpolation.
Import JsString Template.
Context {host : Host}.

Local Abbreviation val := (value number).

(** What a variable without filters prints: [String(value ?? '')]. *)
Local Abbreviation printed := (fun o : option val =>
  match o with
  | Some v => if Js.is_nullish v then EmptyString else Js.toString v
  | None => EmptyString
  end).

Lemma evaluateVariable_word (x : string) (context : list (string * val)) :
  forallb_chars is_word x = true ->
  evaluateVariable x [] context = Ok (printed (Js.assoc x context)).
Proof.
  intros Hx. unfold evaluateVariable, resolvePath.
  destruct (String.eqb_spec x ".") as [-> |]; [discriminate Hx |].
  rewrite (split_word "." x Hx eq_refl). simpl.
  destruct (Js.assoc x context) as [v |]; reflexivity.
Qed.

Lemma buildAST_text_variable_text (a x b : string) (p1 p2 p3 : nat) :
  forallb_chars is_word x = true ->
  buildAST (flush_text a p1 ++ mkToken VARIABLE x p2 :: flush_text b p3)%list
  = Ok (List.map TextNode (List.map tok_value (flush_text a 0))
          ++ VariableNode x []
          :: List.map TextNode (List.map tok_value (flush_text b 0)))%list.
Proof.
  intros Hx. unfold flush_text, buildAST.
  destruct (String.eqb a EmptyString), (String.eqb b EmptyString);
    cbn [List.length app buildAST_loop tok_type tok_value];
    rewrite (parseVariable_word x Hx); reflexivity.
Qed.

Lemma evaluate_app (n1 n2 : list ASTNode) (context : list (string * val)) :
  evaluate (n1 ++ n2)%list context
  = match evaluate n1 context with
    | Ok s1 =>
        match evaluate n2 context with
        | Ok s2 => Ok (s1 ++ s2)
        | Throw e => Throw e
        end
    | Throw e => Throw e
    end.
Proof.
  unfold evaluate. induction n1 as [| n n1 IH]; simpl.
  - destruct (evaluate_list evaluate_node n2 context); reflexivity.
  - destruct (evaluate_node n context) as [s |]; [| reflexivity].
    rewrite IH.
    destruct (evaluate_list evaluate_node n1 context) as [s1 |]; [| reflexivity].
    destruct (evaluate_list evaluate_node n2 context) as [s2 |]; [| reflexivity].
    rewrite string_app_assoc. reflexivity.
Qed.

(** X21: a template [a ++ ${x} ++ b], where [x] is a name of
    letters, digits and underscores and [a] and [b] are plain text,
    renders to [a], the value of [x] in the context as a string, and
    [b]; a name that the context lacks, and a null value, print as the
    empty string. *)
Theorem variable_is_interpolated :
  forall (a x b : string) (context : list (string * val)),
    includes "${" a = false -> last_char a <> Some "\"%char ->
    forallb_chars is_word x = true -> x <> "endif" -> x <> "endforeach" ->
    includes "${" b = false ->
    render (a ++ "${" ++ x ++ "}" ++ b) context
    = Ok (a ++ printed (Js.assoc x context) ++ b).
Proof.
  intros a x b context Ha Hlast Hx Hendif Hendfor Hb.
  assert (Hbrace : includes "}" x = false) by (apply word_excludes; auto).
  assert (E : tokenize (a ++ "${" ++ x ++ "}" ++ b)
              = Ok (flush_text a (String.length a)
                      ++ mkToken VARIABLE x (String.length a)
                      :: flush_text b (String.length a + 2 + String.length x + 1
                                         + String.length b))%list).
  { unfold tokenize.
    change (a ++ "${" ++ x ++ "}" ++ b) with (a ++ String "$" (String "{" (x ++ String "}" b))).
    rewrite string_length_append.
    change (String.length (String "$" (String "{" (x ++ String "}" b))))
      with (S (S (String.length (x ++ String "}" b)))).
    rewrite string_length_append. cbn [String.length].
    replace (S (String.length a + S (S (String.length x + S (String.length b)))))
      with (String.length a + S (S (S (String.length x + S (String.length b)))))%nat
      by lia.
    rewrite (tokenize_loop_skips_text "$" _ ltac:(discriminate) a);
      [| exact Ha | intros _; exact Hlast].
    rewrite tokenize_loop_open.
    rewrite (indexOf_char_first "}" x b Hbrace). cbv zeta.
    rewrite take_append, (trim_word x Hx).
    rewrite drop_past.
    rewrite tokenize_loop_plain by (auto; lia).
    rewrite (expression_token_word x _ Hx Hendif Hendfor).
    change (EmptyString ++ a) with a. change (EmptyString ++ b) with b.
    rewrite Nat.add_0_l. reflexivity. }
  unfold render, parse. rewrite E.
  rewrite (buildAST_text_variable_text a x b _ _ _ Hx).
  rewrite evaluate_app, evaluate_text.
  change (evaluate (VariableNode x [] :: ?l) context)
    with (match evaluateVariable x [] context with
          | Ok s => match evaluate l context with
                    | Ok s' => Ok (s ++ s')
                    | Throw e => Throw e
                    end
          | Throw e => Throw e
          end).
  rewrite (evaluateVariable_word x context Hx), evaluate_text. reflexivity.
Qed.

End Interpolation.

Section TokenizerComposition.
Import JsString Template.

(** More fuel does not change what the tokenizer returns. *)
Lemma tokenize_loop_mono :
  forall (fuel : nat) (rest : string) (position : nat) (textBuffer : string) r,
    tokenize_loop fuel rest position textBuffer = Some r ->
    forall fuel', (fuel <= fuel')%nat ->
                  tokenize_loop fuel' rest position textBuffer = Some r.
Proof.
  induction fuel as [| fuel IH]; intros rest position textBuffer r H fuel' Hle;
    [discriminate H |].
  destruct fuel' as [| fuel']; [lia |].
  destruct rest as [| c rest1]; [exact H |].
  cbn [tokenize_loop] in *.
  destruct (startsWith "\${" (String c rest1)).
  - apply IH; [exact H | lia].
  - destruct (startsWith "${" (String c rest1)).
    + cbv zeta in *.
      destruct (indexOf_char "}" (drop 2 (String c rest1))) as [k |]; [| exact H].
      destruct (tokenize_loop fuel (drop (S k) (drop 2 (String c rest1)))
                  (position + 2 + k + 1) EmptyString) as [r1 |] eqn:E;
        [| discriminate H].
      rewrite (IH _ _ _ _ E fuel') by lia. exact H.
    + apply IH; [exact H | lia].
Qed.

(** What the loop returns with some fuel is what [tokenize] returns. *)
Lemma tokenize_by_fuel (fuel : nat) (template : string) r :
  tokenize_loop fuel template 0 EmptyString = Some r -> tokenize template = r.
Proof.
  intros H. pose proof (tokenize_eq template) as E.
  apply tokenize_loop_mono with (fuel' := Nat.max fuel (S (String.length template)))
    in H; [| lia].
  apply tokenize_loop_mono with (fuel' := Nat.max fuel (S (String.length template)))
    in E; [| lia].
  congruence.
Qed.

(** Text [a], then an expression [e] between the delimiters, then
    [rest]: the tokens are the text, the token of the expression, and the
    tokens of [rest]. *)
Lemma tokenize_loop_expression (a e rest : string) (fuel position : nat)
    (textBuffer : string) (tokens : list Token) :
  includes "${" a = false -> last_char a <> Some "\"%char ->
  includes "}" e = false ->
  tokenize_loop fuel rest (position + String.length a + 2 + String.length e + 1)
    EmptyString = Some (Ok tokens) ->
  tokenize_loop (String.length a + S fuel) (a ++ "${" ++ e ++ "}" ++ rest)
    position textBuffer
  = Some (Ok (flush_text (textBuffer ++ a) (position + String.length a)
                ++ expression_token (trim e) (position + String.length a)
                :: tokens)%list).
Proof.
  intros Ha Hlast He Hrest.
  change (a ++ "${" ++ e ++ "}" ++ rest)
    with (a ++ String "$" (String "{" (e ++ String "}" rest))).
  rewrite (tokenize_loop_skips_text "$" _ ltac:(discriminate) a);
    [| exact Ha | intros _; exact Hlast].
  rewrite tokenize_loop_open, (indexOf_char_first "}" e rest He). cbv zeta.
  rewrite take_append, drop_past, Hrest. reflexivity.
Qed.

(** The same, when the tokenizer throws on [rest]. *)
Lemma tokenize_loop_expression_throw (a e rest : string) (fuel position : nat)
    (textBuffer : string) (err : error) :
  includes "${" a = false -> last_char a <> Some "\"%char ->
  includes "}" e = false ->
  tokenize_loop fuel rest (position + String.length a + 2 + String.length e + 1)
    EmptyString = Some (Throw err) ->
  tokenize_loop (String.length a + S fuel) (a ++ "${" ++ e ++ "}" ++ rest)
    position textBuffer
  = Some (Throw err).
Proof.
  intros Ha Hlast He Hrest.
  change (a ++ "${" ++ e ++ "}" ++ rest)
    with (a ++ String "$" (String "{" (e ++ String "}" rest))).
  rewrite (tokenize_loop_skips_text "$" _ ltac:(discriminate) a);
    [| exact Ha | intros _; exact Hlast].
  rewrite tokenize_loop_open, (indexOf_char_first "}" e rest He). cbv zeta.
  rewrite take_append, drop_past, Hrest. reflexivity.
Qed.

(** Plain text at the end of a template. *)
Lemma tokenize_loop_tail (b : string) (position : nat) :
  includes "${" b = false ->
  tokenize_loop (S (String.length b)) b position EmptyString
  = Some (Ok (flush_text b (position + String.length b))).
Proof.
  intros Hb. rewrite tokenize_loop_plain by (auto; lia). reflexivity.
Qed.

End TokenizerComposition.

Section BlockTokens.
Import JsString Template.

Lemma word_not_empty_cons (x : string) :
  x <> EmptyString -> exists c x', x = String c x'.
Proof. destruct x as [| c x']; [contradiction | eauto]. Qed.

Lemma trimEnd_word (x : string) : forallb_chars is_word x = true -> trimEnd x = x.
Proof.
  intros Hx. apply trimEnd_no_space.
  apply (forallb_chars_impl is_word); [| exact Hx].
  intros c Hc. rewrite (is_word_not_space c Hc). reflexivity.
Qed.

(** A keyword, a space and a name: nothing to trim, and no closing
    brace. *)
Lemma trim_keyword_name (k : ascii) (kw x : string) :
  is_space k = false -> forallb_chars is_word x = true -> x <> EmptyString ->
  trim (String k kw ++ x) = String k kw ++ x.
Proof.
  intros Hk Hx Hne. destruct (word_not_empty_cons x Hne) as (c & x' & ->).
  change (String k kw ++ String c x') with (EmptyString ++ String k (kw ++ String c x')).
  rewrite (trim_around EmptyString k _ Hk).
  simpl in Hx. apply andb_true_iff in Hx as [Hc Hx'].
  rewrite (trimEnd_append_cons kw c x' (is_word_not_space c Hc)).
  rewrite (trimEnd_word x' Hx'). reflexivity.
Qed.

Lemma if_token (x : string) (position : nat) :
  forallb_chars is_word x = true -> x <> EmptyString ->
  expression_token (trim ("if " ++ x)) position = mkToken IF_START x position.
Proof.
  intros Hx Hne.
  rewrite (trim_keyword_name "i" "f " x eq_refl Hx Hne).
  unfold expression_token.
  change (startsWith "if " ("if " ++ x)) with true. cbv iota.
  change (drop 3 ("if " ++ x)) with x.
  rewrite (trim_word x Hx). reflexivity.
Qed.

Lemma if_expression_closed (x : string) :
  forallb_chars is_word x = true -> includes "}" ("if " ++ x) = false.
Proof.
  intros Hx.
  change (includes "}" ("if " ++ x)) with (false || (false || (false || includes "}" x))).
  simpl. apply word_excludes; [exact Hx | reflexivity].
Qed.

End BlockTokens.

Section Conditionals.
Import JsString Template.
Context {host : Host}.

Local Abbreviation val := (value number).

(** What a variable without filters prints: [String(value ?? '')]. *)
Local Abbreviation printed := (fun o : option val =>
  match o with
  | Some v => if Js.is_nullish v then EmptyString else Js.toString v
  | None => EmptyString
  end).

Lemma tokenize_if_text (x body : string) :
  forallb_chars is_word x = true -> x <> EmptyString ->
  includes "${" body = false -> last_char body <> Some "\"%char ->
  exists p1 p2,
    tokenize ("${if " ++ x ++ "}" ++ body ++ "${endif}")
    = Ok (mkToken IF_START x 0 :: flush_text body p1 ++ [mkToken IF_END EmptyString p2])%list.
Proof.
  intros Hx Hne Hbody Hlast.
  do 2 eexists. apply (tokenize_by_fuel (0 + S (String.length body + S 1))).
  change ("${if " ++ x ++ "}" ++ body ++ "${endif}")
    with (EmptyString ++ "${" ++ ("if " ++ x) ++ "}"
            ++ (body ++ "${" ++ "endif" ++ "}" ++ EmptyString)).
  erewrite (tokenize_loop_expression EmptyString ("if " ++ x));
    [ | reflexivity | discriminate | exact (if_expression_closed x Hx)
      | apply (tokenize_loop_expression body "endif" EmptyString 1 _ EmptyString []
                 Hbody Hlast eq_refl); reflexivity ].
  rewrite (if_token x _ Hx Hne). reflexivity.
Qed.

Lemma tokenize_if_variable (x a v b : string) :
  forallb_chars is_word x = true -> x <> EmptyString ->
  includes "${" a = false -> last_char a <> Some "\"%char ->
  forallb_chars is_word v = true -> v <> "endif" -> v <> "endforeach" ->
  includes "${" b = false -> last_char b <> Some "\"%char ->
  exists p1 p2 p3 p4,
    tokenize ("${if " ++ x ++ "}" ++ a ++ "${" ++ v ++ "}" ++ b ++ "${endif}")
    = Ok (mkToken IF_START x 0
            :: flush_text a p1 ++ mkToken VARIABLE v p2
            :: flush_text b p3 ++ [mkToken IF_END EmptyString p4])%list.
Proof.
  intros Hx Hne Ha Hla Hv Hv1 Hv2 Hb Hlb.
  assert (Hbrace : includes "}" v = false) by (apply word_excludes; auto).
  do 4 eexists.
  apply (tokenize_by_fuel
           (0 + S (String.length a + S (String.length b + S 1)))).
  change ("${if " ++ x ++ "}" ++ a ++ "${" ++ v ++ "}" ++ b ++ "${endif}")
    with (EmptyString ++ "${" ++ ("if " ++ x) ++ "}"
            ++ (a ++ "${" ++ v ++ "}"
                  ++ (b ++ "${" ++ "endif" ++ "}" ++ EmptyString))).
  erewrite (tokenize_loop_expression EmptyString ("if " ++ x));
    [ | reflexivity | discriminate | exact (if_expression_closed x Hx)
      | erewrite (tokenize_loop_expression a v);
        [ reflexivity | exact Ha | exact Hla | exact Hbrace
        | apply (tokenize_loop_expression b "endif" EmptyString 1 _ EmptyString []
                   Hb Hlb eq_refl); reflexivity ] ].
  rewrite (if_token x _ Hx Hne), (trim_word v Hv).
  rewrite (expression_token_word v _ Hv Hv1 Hv2). reflexivity.
Qed.

Local Abbreviation text_nodes := (fun t : string =>
  List.map TextNode (List.map tok_value (flush_text t 0))).

Lemma buildAST_if_text (x body : string) (p1 p2 : nat) :
  buildAST (mkToken IF_START x 0
              :: flush_text body p1 ++ [mkToken IF_END EmptyString p2])%list
  = Ok [ConditionalNode x (text_nodes body) None].
Proof.
  unfold flush_text, buildAST.
  destruct (String.eqb body EmptyString); reflexivity.
Qed.

Lemma buildAST_if_variable (x a v b : string) (p1 p2 p3 p4 : nat) :
  forallb_chars is_word v = true ->
  buildAST (mkToken IF_START x 0
              :: flush_text a p1 ++ mkToken VARIABLE v p2
              :: flush_text b p3 ++ [mkToken IF_END EmptyString p4])%list
  = Ok [ConditionalNode x (text_nodes a ++ VariableNode v [] :: text_nodes b)%list
          None].
Proof.
  intros Hv. unfold flush_text, buildAST.
  destruct (String.eqb a EmptyString), (String.eqb b EmptyString);
    cbn [List.length app buildAST_loop parseConditional parseConditionalBody
           tok_type tok_value List.map];
    rewrite (parseVariable_word v Hv); reflexivity.
Qed.

Lemma evaluate_conditional_alone (x : string) (nodes : list ASTNode)
    (context : list (string * val)) :
  evaluate [ConditionalNode x nodes None] context
  = if isTruthy (resolvePath x context) then evaluate nodes context
    else Ok EmptyString.
Proof.
  unfold evaluate. cbn [evaluate_list evaluate_node].
  destruct (isTruthy (resolvePath x context)); [| reflexivity].
  destruct (evaluate_list evaluate_node nodes context) as [s |]; [| reflexivity].
  rewrite string_append_empty_r. reflexivity.
Qed.

Lemma evaluate_text_variable_text (a v b : string) (context : list (string * val)) :
  forallb_chars is_word v = true ->
  evaluate (text_nodes a ++ VariableNode v [] :: text_nodes b)%list context
  = Ok (a ++ printed (Js.assoc v context) ++ b).
Proof.
  intros Hv. rewrite evaluate_app, evaluate_text.
  change (evaluate (VariableNode v [] :: ?l) context)
    with (match evaluateVariable v [] context with
          | Ok s => match evaluate l context with
                    | Ok s' => Ok (s ++ s')
                    | Throw e => Throw e
                    end
          | Throw e => Throw e
          end).
  rewrite (evaluateVariable_word v context Hv), evaluate_text. reflexivity.
Qed.

(** X22: a conditional block prints its body when the variable of its
    condition is truthy, and nothing otherwise; there is no else branch:
    [${else}] in the body is the variable [else]. *)
Theorem conditional_prints_body_iff_truthy :
  (forall (x body : string) (context : list (string * val)),
      forallb_chars is_word x = true -> x <> EmptyString ->
      includes "${" body = false -> last_char body <> Some "\"%char ->
      render ("${if " ++ x ++ "}" ++ body ++ "${endif}") context
      = Ok (if isTruthy (resolvePath x context) then body else EmptyString))
  /\ (forall (x a v b : string) (context : list (string * val)),
        forallb_chars is_word x = true -> x <> EmptyString ->
        includes "${" a = false -> last_char a <> Some "\"%char ->
        forallb_chars is_word v = true -> v <> "endif" -> v <> "endforeach" ->
        includes "${" b = false -> last_char b <> Some "\"%char ->
        render ("${if " ++ x ++ "}" ++ a ++ "${" ++ v ++ "}" ++ b ++ "${endif}")
          context
        = Ok (if isTruthy (resolvePath x context)
              then a ++ printed (Js.assoc v context) ++ b
              else EmptyString)).
Proof.
  split.
  - intros x body context Hx Hne Hbody Hlast.
    destruct (tokenize_if_text x body Hx Hne Hbody Hlast) as (p1 & p2 & E).
    unfold render, parse. rewrite E, buildAST_if_text, evaluate_conditional_alone.
    rewrite evaluate_text.
    destruct (isTruthy (resolvePath x context)); reflexivity.
  - intros x a v b context Hx Hne Ha Hla Hv Hv1 Hv2 Hb Hlb.
    destruct (tokenize_if_variable x a v b Hx Hne Ha Hla Hv Hv1 Hv2 Hb Hlb)
      as (p1 & p2 & p3 & p4 & E).
    unfold render, parse.
    rewrite E, (buildAST_if_variable x a v b _ _ _ _ Hv), evaluate_conditional_alone.
    rewrite (evaluate_text_variable_text a v b context Hv).
    destruct (isTruthy (resolvePath x context)); reflexivity.
Qed.

End Conditionals.

Section LoopHeaders.
Import JsString Template.

Lemma span_chars_until (p : ascii -> bool) (x : string) (c : ascii) (r : string) :
  forallb_chars p x = true -> p c = false ->
  span_chars p (x ++ String c r) = (x, String c r).
Proof.
  intros Hx Hc. induction x as [| d x IH].
  - change (span_chars p (String c r) = (EmptyString, String c r)).
    simpl. rewrite Hc. reflexivity.
  - simpl in Hx. apply andb_true_iff in Hx as [Hd Hx].
    change (span_chars p (String d (x ++ String c r)) = (String d x, String c r)).
    simpl. rewrite Hd, (IH Hx). reflexivity.
Qed.

Lemma is_word_not_newline (c : ascii) : is_word c = true -> is_newline c = false.
Proof.
  destruct c as [[] [] [] [] [] [] [] []]; simpl; intros H;
    try reflexivity; discriminate H.
Qed.

(** The header [x in p] of a loop, for two names. *)
Lemma loop_header_names (x p : string) :
  forallb_chars is_word x = true -> x <> EmptyString ->
  forallb_chars is_word p = true -> p <> EmptyString ->
  loop_header (x ++ " in " ++ p) = Some (x, p).
Proof.
  intros Hx Hxne Hp Hpne.
  destruct (word_not_empty_cons p Hpne) as (c & p' & ->).
  destruct (word_not_empty_cons x Hxne) as (d & x' & Ex).
  assert (Hc : is_word c = true)
    by (simpl in Hp; apply andb_true_iff in Hp as [Hc _]; exact Hc).
  unfold loop_header.
  change (x ++ " in " ++ String c p') with (x ++ String " " ("in " ++ String c p')).
  rewrite (span_chars_until is_word x " " _ Hx eq_refl).
  change (span_chars is_space (String " " ("in " ++ String c p')))
    with (" ", "in " ++ String c p').
  cbv iota beta.
  replace (String.eqb x EmptyString) with false
    by (subst x; reflexivity).
  change (String.eqb " " EmptyString) with false. cbn [orb].
  change (startsWith "in" ("in " ++ String c p')) with true. cbv iota.
  change (drop 2 ("in " ++ String c p')) with (String " " (String c p')).
  change (span_chars is_space (String " " (String c p')))
    with (let '(a, b) := span_chars is_space (String c p') in (String " " a, b)).
  change (span_chars is_space (String c p'))
    with (if is_space c
          then let '(a, b) := span_chars is_space p' in (String c a, b)
          else (EmptyString, String c p')).
  rewrite (is_word_not_space c Hc). cbv iota beta.
  cbn [String.length ws_then_rest drop].
  change (String.eqb (String c p') EmptyString) with false. cbn [negb andb].
  assert (Hnl : forallb_chars (fun c0 => negb (is_newline c0)) (String c p') = true).
  { apply (forallb_chars_impl is_word); [| exact Hp].
    intros c0 H0. rewrite (is_word_not_newline c0 H0). reflexivity. }
  rewrite Hnl. reflexivity.
Qed.

Lemma foreach_token (e : string) (position : nat) :
  forallb_chars is_word (take 1 e) = true -> e <> EmptyString ->
  trim e = e ->
  expression_token (trim ("foreach " ++ e)) position
  = mkToken FOREACH_START e position.
Proof.
  intros H1 Hne Htrim.
  destruct (word_not_empty_cons e Hne) as (c & e' & ->).
  assert (Hc : is_space c = false).
  { simpl in H1. rewrite andb_true_r in H1. exact (is_word_not_space c H1). }
  assert (E : trim ("foreach " ++ String c e') = "foreach " ++ String c e').
  { change ("foreach " ++ String c e')
      with (EmptyString ++ String "f" ("oreach " ++ String c e')).
    rewrite (trim_around EmptyString "f" _ eq_refl).
    rewrite (trimEnd_append_cons "oreach " c e' Hc).
    unfold trim in Htrim.
    change (trimStart (String c e')) with (if is_space c then trimStart e' else String c e')
      in Htrim.
    rewrite Hc in Htrim.
    rewrite (trimEnd_cons c e'), Hc in Htrim. cbn [andb] in Htrim.
    injection Htrim as Htrim. rewrite Htrim. reflexivity. }
  rewrite E. unfold expression_token.
  change (startsWith "if " ("foreach " ++ String c e')) with false. cbv iota.
  change (String.eqb ("foreach " ++ String c e') "endif") with false. cbv iota.
  change (startsWith "foreach " ("foreach " ++ String c e')) with true. cbv iota.
  change (drop 8 ("foreach " ++ String c e')) with (String c e').
  rewrite Htrim. reflexivity.
Qed.

Lemma trim_header (x p : string) :
  forallb_chars is_word x = true -> x <> EmptyString ->
  forallb_chars is_word p = true -> p <> EmptyString ->
  trim (x ++ " in " ++ p) = x ++ " in " ++ p.
Proof.
  intros Hx Hxne Hp Hpne.
  destruct (word_not_empty_cons p Hpne) as (c & p' & ->).
  destruct (word_not_empty_cons x Hxne) as (d & x' & ->).
  simpl in Hx, Hp.
  apply andb_true_iff in Hx as [Hd Hx]. apply andb_true_iff in Hp as [Hc Hp].
  change (String d x' ++ " in " ++ String c p')
    with (EmptyString ++ String d (x' ++ " in " ++ String c p')).
  rewrite (trim_around EmptyString d _ (is_word_not_space d Hd)).
  change (x' ++ " in " ++ String c p') with (x' ++ (" in " ++ String c p')).
  rewrite <- (string_app_assoc x' " in " (String c p')).
  rewrite (trimEnd_append_cons (x' ++ " in ") c p' (is_word_not_space c Hc)).
  rewrite (trimEnd_word p' Hp). rewrite string_app_assoc. reflexivity.
Qed.

Lemma header_closed (x p : string) :
  forallb_chars is_word x = true -> forallb_chars is_word p = true ->
  includes "}" ("foreach " ++ x ++ " in " ++ p) = false.
Proof.
  intros Hx Hp.
  assert (H1 : includes "}" (" in " ++ p) = false).
  { change (includes "}" (" in " ++ p))
      with (false || (false || (false || (false || includes "}" p)))).
    simpl. apply word_excludes; [exact Hp | reflexivity]. }
  assert (H2 : includes "}" (x ++ " in " ++ p) = false).
  { clear Hp. induction x as [| d x IH]; [exact H1 |].
    simpl in Hx. apply andb_true_iff in Hx as [Hd Hx].
    change (includes "}" (String d (x ++ " in " ++ p)) = false).
    cbn [includes startsWith]. rewrite (IH Hx), orb_false_r.
    destruct (Ascii.eqb_spec "}"%char d) as [<- |]; [discriminate Hd | reflexivity]. }
  change (includes "}" ("foreach " ++ x ++ " in " ++ p))
    with (false || (false || (false || (false || (false || (false || (false
            || (false || includes "}" (x ++ " in " ++ p))))))))).
  simpl. exact H2.
Qed.

End LoopHeaders.

Section Loops.
Import JsString Template.
Context {host : Host}.

Local Abbreviation val := (value number).

Local Abbreviation printed := (fun o : option val =>
  match o with
  | Some v => if Js.is_nullish v then EmptyString else Js.toString v
  | None => EmptyString
  end).

Local Abbreviation text_nodes := (fun t : string =>
  List.map TextNode (List.map tok_value (flush_text t 0))).

Lemma header_token (x p : string) (position : nat) :
  forallb_chars is_word x = true -> x <> EmptyString ->
  forallb_chars is_word p = true -> p <> EmptyString ->
  expression_token (trim ("foreach " ++ x ++ " in " ++ p)) position
  = mkToken FOREACH_START (x ++ " in " ++ p) position.
Proof.
  intros Hx Hxne Hp Hpne.
  destruct (word_not_empty_cons x Hxne) as (d & x' & Ex).
  apply foreach_token.
  - subst x. simpl in Hx. apply andb_true_iff in Hx as [Hd _].
    change (take 1 (String d x' ++ " in " ++ p)) with (String d EmptyString).
    simpl. rewrite Hd. reflexivity.
  - subst x. discriminate.
  - apply trim_header; assumption.
Qed.

Lemma tokenize_foreach_variable (x p a v b : string) :
  forallb_chars is_word x = true -> x <> EmptyString ->
  forallb_chars is_word p = true -> p <> EmptyString ->
  includes "${" a = false -> last_char a <> Some "\"%char ->
  forallb_chars is_word v = true -> v <> "endif" -> v <> "endforeach" ->
  includes "${" b = false -> last_char b <> Some "\"%char ->
  exists p1 p2 p3 p4,
    tokenize ("${foreach " ++ x ++ " in " ++ p ++ "}" ++ a ++ "${" ++ v ++ "}" ++ b
                ++ "${endforeach}")
    = Ok (mkToken FOREACH_START (x ++ " in " ++ p) 0
            :: flush_text a p1 ++ mkToken VARIABLE v p2
            :: flush_text b p3 ++ [mkToken FOREACH_END EmptyString p4])%list.
Proof.
  intros Hx Hxne Hp Hpne Ha Hla Hv Hv1 Hv2 Hb Hlb.
  assert (Hbrace : includes "}" v = false) by (apply word_excludes; auto).
  do 4 eexists.
  apply (tokenize_by_fuel
           (0 + S (String.length a + S (String.length b + S 1)))).
  replace ("${foreach " ++ x ++ " in " ++ p ++ "}" ++ a ++ "${" ++ v ++ "}" ++ b
             ++ "${endforeach}")
    with (EmptyString ++ "${" ++ ("foreach " ++ x ++ " in " ++ p) ++ "}"
            ++ (a ++ "${" ++ v ++ "}"
                  ++ (b ++ "${" ++ "endforeach" ++ "}" ++ EmptyString))).
  2:{ change (EmptyString ++ "${" ++ ("foreach " ++ x ++ " in " ++ p) ++ "}"
                ++ (a ++ "${" ++ v ++ "}"
                      ++ b ++ "${" ++ "endforeach" ++ "}" ++ EmptyString))
        with ("${foreach " ++ ((x ++ " in " ++ p) ++ "}" ++ a ++ "${" ++ v ++ "}" ++ b
                ++ "${endforeach}")).
      rewrite !string_app_assoc. reflexivity. }
  erewrite (tokenize_loop_expression EmptyString ("foreach " ++ x ++ " in " ++ p));
    [ | reflexivity | discriminate | exact (header_closed x p Hx Hp)
      | erewrite (tokenize_loop_expression a v);
        [ reflexivity | exact Ha | exact Hla | exact Hbrace
        | apply (tokenize_loop_expression b "endforeach" EmptyString 1 _ EmptyString []
                   Hb Hlb eq_refl); reflexivity ] ].
  rewrite (header_token x p _ Hx Hxne Hp Hpne), (trim_word v Hv).
  rewrite (expression_token_word v _ Hv Hv1 Hv2). reflexivity.
Qed.

Lemma buildAST_foreach_variable (x p a v b : string) (p1 p2 p3 p4 : nat) :
  forallb_chars is_word x = true -> x <> EmptyString ->
  forallb_chars is_word p = true -> p <> EmptyString ->
  forallb_chars is_word v = true ->
  buildAST (mkToken FOREACH_START (x ++ " in " ++ p) 0
              :: flush_text a p1 ++ mkToken VARIABLE v p2
              :: flush_text b p3 ++ [mkToken FOREACH_END EmptyString p4])%list
  = Ok [LoopNode x p (text_nodes a ++ VariableNode v [] :: text_nodes b)%list].
Proof.
  intros Hx Hxne Hp Hpne Hv. unfold flush_text, buildAST.
  destruct (String.eqb a EmptyString), (String.eqb b EmptyString);
    cbn [List.length app buildAST_loop tok_type tok_value];
    unfold parseLoop, parseLoopWith; cbn [tok_value];
    rewrite (loop_header_names x p Hx Hxne Hp Hpne);
    cbn [parseLoopBody tok_type tok_value app List.map];
    rewrite (parseVariable_word v Hv); reflexivity.
Qed.

(** The text that a loop prints, one body per element. *)
Lemma evaluate_loop_items (x : string) (body : list ASTNode)
    (context : list (string * val)) (f : val -> string) :
  (forall item, evaluate body (Js.assign x item context) = Ok (f item)) ->
  forall collection,
    (fix items (l : list val) : result string :=
       match l with
       | [] => Ok EmptyString
       | item :: l' =>
           match evaluate_list evaluate_node body (Js.assign x item context) with
           | Ok s => match items l' with
                     | Ok s' => Ok (s ++ s')
                     | Throw e => Throw e
                     end
           | Throw e => Throw e
           end
       end) collection
    = Ok (fold_right String.append EmptyString (List.map f collection)).
Proof.
  intros Hbody. induction collection as [| item l IH]; [reflexivity |].
  rewrite IH. change (evaluate_list evaluate_node body) with (evaluate body).
  rewrite Hbody. reflexivity.
Qed.

(** X23: a loop block prints its body once per element of the collection,
    in order, with the loop variable bound to the element; over a value
    that is not an array it prints nothing. *)
Theorem foreach_prints_body_per_element :
  forall (x p a b : string) (context : list (string * val)),
    forallb_chars is_word x = true -> x <> EmptyString ->
    x <> "endif" -> x <> "endforeach" ->
    forallb_chars is_word p = true -> p <> EmptyString ->
    includes "${" a = false -> last_char a <> Some "\"%char ->
    includes "${" b = false -> last_char b <> Some "\"%char ->
    render ("${foreach " ++ x ++ " in " ++ p ++ "}" ++ a ++ "${" ++ x ++ "}" ++ b
              ++ "${endforeach}") context
    = Ok (match resolvePath p context with
          | VArr elems =>
              fold_right String.append EmptyString
                (List.map (fun item => a ++ printed (Some item) ++ b) elems)
          | _ => EmptyString
          end).
Proof.
  intros x p a b context Hx Hxne Hx1 Hx2 Hp Hpne Ha Hla Hb Hlb.
  destruct (tokenize_foreach_variable x p a x b Hx Hxne Hp Hpne Ha Hla Hx Hx1 Hx2 Hb Hlb)
    as (p1 & p2 & p3 & p4 & E).
  unfold render, parse.
  rewrite E, (buildAST_foreach_variable x p a x b _ _ _ _ Hx Hxne Hp Hpne Hx).
  unfold evaluate. cbn [evaluate_list evaluate_node].
  destruct (resolvePath p context) as [| | | | | elems |]; try reflexivity.
  rewrite (evaluate_loop_items x _ context (fun item => a ++ printed (Some item) ++ b)).
  - rewrite string_append_empty_r. reflexivity.
  - intros item. rewrite (evaluate_text_variable_text a x b _ Hx).
    rewrite assoc_assign_eq. reflexivity.
Qed.

End Loops.

Section UnbalancedBlocks.
Import JsString Template.
Context {host : Host}.

Local Abbreviation val := (value number).

(** [render] throws the template error [msg] on the template, in every
    context, and [validate] reports it. *)
Local Abbreviation rejected := (fun template msg : string =>
  (forall context : list (string * val),
      render template context = Throw (TemplateError msg))
  /\ validate template = (false, [msg])).

Lemma parse_throw_rejected (template msg : string) :
  parse template = Throw (TemplateError msg) -> rejected template msg.
Proof.
  intros H. unfold render, validate. rewrite H. split; reflexivity.
Qed.

Lemma span_chars_all (p : ascii -> bool) (x : string) :
  forallb_chars p x = true -> span_chars p x = (x, EmptyString).
Proof.
  induction x as [| c x IH]; [reflexivity |].
  simpl. intros H. apply andb_true_iff in H as [Hc Hx].
  rewrite Hc, (IH Hx). reflexivity.
Qed.

Lemma tokenize_closing (a kw b : string) :
  includes "${" a = false -> last_char a <> Some "\"%char ->
  includes "}" kw = false -> includes "${" b = false ->
  exists p,
    tokenize (a ++ "${" ++ kw ++ "}" ++ b)
    = Ok (flush_text a (String.length a)
            ++ expression_token (trim kw) (String.length a) :: flush_text b p)%list.
Proof.
  intros Ha Hla Hkw Hb. eexists.
  apply (tokenize_by_fuel (String.length a + S (S (String.length b)))).
  erewrite (tokenize_loop_expression a kw b);
    [ reflexivity | exact Ha | exact Hla | exact Hkw
    | apply tokenize_loop_tail; exact Hb ].
Qed.

Lemma tokenize_opening (e b : string) :
  includes "}" e = false -> includes "${" b = false ->
  exists p,
    tokenize ("${" ++ e ++ "}" ++ b)
    = Ok (expression_token (trim e) 0 :: flush_text b p)%list.
Proof.
  intros He Hb.
  destruct (tokenize_closing EmptyString e b eq_refl ltac:(discriminate) He Hb)
    as [p E].
  exists p. exact E.
Qed.

Lemma buildAST_stray (a : string) (t : TokenType) (b : string) (p1 p2 p3 : nat) :
  t = IF_END \/ t = FOREACH_END ->
  buildAST (flush_text a p1 ++ mkToken t EmptyString p2 :: flush_text b p3)%list
  = Throw (TemplateError ("Unexpected token " ++ TokenType_name t
                            ++ " at position " ++ of_nat p2)).
Proof.
  intros [-> | ->]; unfold flush_text, buildAST;
    destruct (String.eqb a EmptyString), (String.eqb b EmptyString); reflexivity.
Qed.

Lemma buildAST_unclosed_if (x b : string) (p : nat) :
  buildAST (mkToken IF_START x 0 :: flush_text b p)
  = Throw (TemplateError "Unclosed conditional block").
Proof.
  unfold flush_text, buildAST. destruct (String.eqb b EmptyString); reflexivity.
Qed.

Lemma buildAST_unclosed_foreach (x c b : string) (p : nat) :
  loop_header (x ++ " in " ++ c) = Some (x, c) ->
  buildAST (mkToken FOREACH_START (x ++ " in " ++ c) 0 :: flush_text b p)
  = Throw (TemplateError "Unclosed foreach block").
Proof.
  intros H. unfold flush_text, buildAST.
  destruct (String.eqb b EmptyString);
    cbn [List.length app buildAST_loop tok_type tok_value];
    unfold parseLoop, parseLoopWith; cbn [tok_value]; rewrite H; reflexivity.
Qed.

Lemma buildAST_bad_header (x b : string) (p : nat) :
  loop_header x = None ->
  buildAST (mkToken FOREACH_START x 0 :: flush_text b p)
  = Throw (invalid_foreach x).
Proof.
  intros H. unfold flush_text, buildAST.
  destruct (String.eqb b EmptyString);
    cbn [List.length app buildAST_loop tok_type tok_value];
    unfold parseLoop, parseLoopWith; cbn [tok_value]; rewrite H; reflexivity.
Qed.

(** X24: blocks that do not match are refused when the template is parsed,
    by [render] in every context and by [validate]: a closing keyword
    without its block, a block that is not closed, and a loop header that
    is not of the form [item in collection]. *)
Theorem unbalanced_blocks_are_reported :
  (forall a b : string,
      includes "${" a = false -> last_char a <> Some "\"%char ->
      includes "${" b = false ->
      rejected (a ++ "${endif}" ++ b)
        ("Unexpected token IF_END at position " ++ of_nat (String.length a))
      /\ rejected (a ++ "${endforeach}" ++ b)
           ("Unexpected token FOREACH_END at position "
              ++ of_nat (String.length a)))
  /\ (forall x b : string,
        forallb_chars is_word x = true -> x <> EmptyString ->
        includes "${" b = false ->
        rejected ("${if " ++ x ++ "}" ++ b) "Unclosed conditional block"
        /\ rejected ("${foreach " ++ x ++ "}" ++ b)
             ("Invalid foreach syntax: " ++ x ++ ". Expected: " ++ dquote
                ++ "item in collection" ++ dquote))
  /\ (forall x c b : string,
        forallb_chars is_word x = true -> x <> EmptyString ->
        forallb_chars is_word c = true -> c <> EmptyString ->
        includes "${" b = false ->
        rejected ("${foreach " ++ x ++ " in " ++ c ++ "}" ++ b)
          "Unclosed foreach block").
Proof.
  split; [| split].
  - intros a b Ha Hla Hb. split; apply parse_throw_rejected; unfold parse.
    + destruct (tokenize_closing a "endif" b Ha Hla eq_refl Hb) as [p E].
      change (a ++ "${endif}" ++ b) with (a ++ "${" ++ "endif" ++ "}" ++ b).
      rewrite E.
      change (expression_token (trim "endif") (String.length a))
        with (mkToken IF_END EmptyString (String.length a)).
      apply (buildAST_stray a IF_END b). left. reflexivity.
    + destruct (tokenize_closing a "endforeach" b Ha Hla eq_refl Hb) as [p E].
      change (a ++ "${endforeach}" ++ b) with (a ++ "${" ++ "endforeach" ++ "}" ++ b).
      rewrite E.
      change (expression_token (trim "endforeach") (String.length a))
        with (mkToken FOREACH_END EmptyString (String.length a)).
      apply (buildAST_stray a FOREACH_END b). right. reflexivity.
  - intros x b Hx Hxne Hb. split; apply parse_throw_rejected; unfold parse.
    + destruct (tokenize_opening ("if " ++ x) b (if_expression_closed x Hx) Hb)
        as [p E].
      change ("${if " ++ x ++ "}" ++ b) with ("${" ++ ("if " ++ x) ++ "}" ++ b).
      rewrite E, (if_token x 0 Hx Hxne). apply buildAST_unclosed_if.
    + assert (Hclosed : includes "}" ("foreach " ++ x) = false).
      { change (includes "}" ("foreach " ++ x))
          with (false || (false || (false || (false || (false || (false || (false
                  || (false || includes "}" x)))))))).
        simpl. apply word_excludes; [exact Hx | reflexivity]. }
      destruct (tokenize_opening ("foreach " ++ x) b Hclosed Hb) as [p E].
      change ("${foreach " ++ x ++ "}" ++ b)
        with ("${" ++ ("foreach " ++ x) ++ "}" ++ b).
      rewrite E.
      destruct (word_not_empty_cons x Hxne) as (d & x' & Ex).
      rewrite (foreach_token x 0);
        [ | subst x; simpl in Hx |- *; apply andb_true_iff in Hx as [Hd _];
            rewrite Hd; reflexivity
          | exact Hxne | exact (trim_word x Hx) ].
      apply buildAST_bad_header. unfold loop_header.
      rewrite (span_chars_all is_word x Hx). cbn [span_chars].
      rewrite String.eqb_refl, orb_true_r. reflexivity.
  - intros x c b Hx Hxne Hc Hcne Hb. apply parse_throw_rejected. unfold parse.
    destruct (tokenize_opening ("foreach " ++ x ++ " in " ++ c) b
                (header_closed x c Hx Hc) Hb) as [p E].
    replace ("${foreach " ++ x ++ " in " ++ c ++ "}" ++ b)
      with ("${" ++ ("foreach " ++ x ++ " in " ++ c) ++ "}" ++ b).
    2:{ change ("${" ++ ("foreach " ++ x ++ " in " ++ c) ++ "}" ++ b)
          with ("${foreach " ++ ((x ++ " in " ++ c) ++ "}" ++ b)).
        rewrite !string_app_assoc. reflexivity. }
    rewrite E, (header_token x c 0 Hx Hxne Hc Hcne).
    apply buildAST_unclosed_foreach. apply loop_header_names; assumption.
Qed.

End UnbalancedBlocks.

Section FilterExpressions.
Import JsString Template.

(** The first occurrence of a one-character separator splits
    [a ++ sep ++ b] into [a] and what [b] splits into. *)
Lemma split_aux_char (x : ascii) (a b : string) :
  let sep := String x EmptyString in
  forall cur,
    includes sep a = false ->
    split_aux sep 0 cur (a ++ sep ++ b) = (cur ++ a) :: split_aux sep 0 EmptyString b.
Proof.
  intros sep. induction a as [| c a IH]; intros cur Ha.
  - change (split_aux sep 0 cur (String x b)
            = (cur ++ EmptyString) :: split_aux sep 0 EmptyString b).
    cbn [split_aux]. subst sep. cbn [startsWith]. rewrite Ascii.eqb_refl.
    cbn [andb String.length Nat.sub]. rewrite string_append_empty_r. reflexivity.
  - change (split_aux sep 0 cur (String c (a ++ sep ++ b))
            = (cur ++ String c a) :: split_aux sep 0 EmptyString b).
    cbn [split_aux].
    assert (Hc : startsWith sep (String c (a ++ sep ++ b)) = false).
    { subst sep. cbn [startsWith]. cbn [includes startsWith] in Ha.
      destruct (Ascii.eqb x c); [discriminate Ha | reflexivity]. }
    rewrite Hc, IH by (eapply includes_cons; exact Ha).
    rewrite string_app_assoc. reflexivity.
Qed.

Lemma split_char_once (x : ascii) (a b : string) :
  includes (String x EmptyString) a = false ->
  includes (String x EmptyString) b = false ->
  split (String x EmptyString) (a ++ String x b) = [a; b].
Proof.
  intros Ha Hb. unfold split.
  change (a ++ String x b) with (a ++ String x EmptyString ++ b).
  rewrite (split_aux_char x a b EmptyString Ha).
  rewrite (split_aux_no_separator _ b EmptyString Hb). reflexivity.
Qed.

Lemma trim_word_space (x : string) :
  forallb_chars is_word x = true -> trim (x ++ " ") = x.
Proof.
  intros Hx. destruct x as [| c x]; [reflexivity |].
  simpl in Hx. apply andb_true_iff in Hx as [Hc Hx].
  change (String c x ++ " ") with (EmptyString ++ String c (x ++ " ")).
  rewrite (trim_around EmptyString c _ (is_word_not_space c Hc)).
  assert (E : trimEnd (x ++ " ") = x).
  { clear Hc. induction x as [| d x IH]; [reflexivity |].
    simpl in Hx. apply andb_true_iff in Hx as [Hd Hx].
    change (String d x ++ " ") with (String d (x ++ " ")).
    rewrite trimEnd_cons, (is_word_not_space d Hd), (IH Hx). reflexivity. }
  rewrite E. reflexivity.
Qed.

(** An expression that starts with a keyword and a space, and whose
    first word is [x], has [x] for the keyword. *)
Lemma keyword_prefix (k x r : string) :
  forallb_chars is_word k = true -> forallb_chars is_word x = true ->
  startsWith (k ++ " ") (x ++ String " " r) = true -> x = k.
Proof.
  revert x. induction k as [| c k IH]; intros x Hk Hx H.
  - destruct x as [| d x]; [reflexivity |].
    simpl in Hx. apply andb_true_iff in Hx as [Hd _].
    change (startsWith " " (String d (x ++ String " " r)) = true) in H.
    cbn [startsWith] in H. rewrite andb_true_r in H.
    apply Ascii.eqb_eq in H. subst d. discriminate Hd.
  - simpl in Hk. apply andb_true_iff in Hk as [Hc Hk].
    destruct x as [| d x].
    + change (startsWith (String c (k ++ " ")) (String " " r) = true) in H.
      cbn [startsWith] in H. apply andb_true_iff in H as [H _].
      apply Ascii.eqb_eq in H. subst c. discriminate Hc.
    + simpl in Hx. apply andb_true_iff in Hx as [_ Hx].
      change (startsWith (String c (k ++ " ")) (String d (x ++ String " " r)) = true)
        in H.
      cbn [startsWith] in H. apply andb_true_iff in H as [E H].
      apply Ascii.eqb_eq in E. subst d. f_equal. exact (IH x Hk Hx H).
Qed.

Lemma includes_bar (x f : string) : includes "|" (x ++ " | " ++ f) = true.
Proof.
  change (x ++ " | " ++ f) with (x ++ " " ++ ("|" ++ (" " ++ f))).
  rewrite <- string_app_assoc. apply includes_occurrence.
Qed.

(** The token of [x | f], for a name [x] that is not a keyword. *)
Lemma filtered_token (x f : string) (position : nat) :
  forallb_chars is_word x = true -> x <> "if" -> x <> "foreach" ->
  expression_token (x ++ " | " ++ f) position
  = mkToken VARIABLE (x ++ " | " ++ f) position.
Proof.
  intros Hx Hif Hfor. unfold expression_token.
  destruct (startsWith "if " (x ++ " | " ++ f)) eqn:E1.
  { exfalso. apply Hif. exact (keyword_prefix "if" x _ eq_refl Hx E1). }
  destruct (String.eqb_spec (x ++ " | " ++ f) "endif") as [E2 |].
  { exfalso. apply (f_equal (includes "|")) in E2.
    rewrite includes_bar in E2. discriminate E2. }
  destruct (startsWith "foreach " (x ++ " | " ++ f)) eqn:E3.
  { exfalso. apply Hfor. exact (keyword_prefix "foreach" x _ eq_refl Hx E3). }
  destruct (String.eqb_spec (x ++ " | " ++ f) "endforeach") as [E4 |]; [| reflexivity].
  exfalso. apply (f_equal (includes "|")) in E4.
  rewrite includes_bar in E4. discriminate E4.
Qed.

End FilterExpressions.

Section Filters.
Import JsString Template.
Context {host : Host}.

Local Abbreviation val := (value number).

Local Abbreviation printed := (fun o : option val =>
  match o with
  | Some v => if Js.is_nullish v then EmptyString else Js.toString v
  | None => EmptyString
  end).

Local Abbreviation text_nodes := (fun t : string =>
  List.map TextNode (List.map tok_value (flush_text t 0))).

Lemma includes_char_append (x : ascii) (a b : string) :
  includes (String x EmptyString) a = false ->
  includes (String x EmptyString) b = false ->
  includes (String x EmptyString) (a ++ b) = false.
Proof.
  intros Ha Hb. induction a as [| c a IH]; [exact Hb |].
  change (includes (String x EmptyString) (String c (a ++ b)) = false).
  cbn [includes startsWith] in Ha |- *.
  apply orb_false_elim in Ha as [Hc Ha].
  rewrite Hc, (IH Ha). reflexivity.
Qed.

Lemma buildAST_text_node_text (a e b : string) (node : ASTNode) (p1 p2 p3 : nat) :
  parseVariable e = Ok node ->
  buildAST (flush_text a p1 ++ mkToken VARIABLE e p2 :: flush_text b p3)%list
  = Ok (text_nodes a ++ node :: text_nodes b)%list.
Proof.
  intros H. unfold flush_text, buildAST.
  destruct (String.eqb a EmptyString), (String.eqb b EmptyString);
    cbn [List.length app buildAST_loop tok_type tok_value];
    rewrite H; reflexivity.
Qed.

(** The value that the filters of a variable start from. *)
Local Abbreviation filtered_value := (fun o : option val =>
  match o with
  | Some v => if Js.is_nullish v then VStr EmptyString else v
  | None => VStr EmptyString
  end).

(** A variable with one filter, between two texts. *)
Lemma render_filtered (a x b : string) (c0 : ascii) (f' : string)
    (context : list (string * val)) :
  let f := String c0 f' in
  includes "${" a = false -> last_char a <> Some "\"%char ->
  forallb_chars is_word x = true -> x <> EmptyString ->
  x <> "if" -> x <> "foreach" ->
  includes "${" b = false ->
  is_space c0 = false -> trimEnd f' = f' ->
  includes "|" f = false -> includes "}" f = false ->
  is_filter_name (trim (hd EmptyString (split "(" f))) = true ->
  render (a ++ "${" ++ x ++ " | " ++ f ++ "}" ++ b) context
  = match apply_filters [f] (filtered_value (Js.assoc x context)) with
    | Ok v => Ok (a ++ (if Js.is_nullish v then EmptyString else Js.toString v) ++ b)
    | Throw e => Throw e
    end.
Proof.
  intros f Ha Hla Hx Hxne Hif Hfor Hb Hc0 Hf' Hbar Hbrace Hname.
  set (e := x ++ " | " ++ f).
  assert (Hxbar : includes "|" (x ++ " ") = false).
  { apply includes_char_append; [| reflexivity].
    apply word_excludes; [exact Hx | reflexivity]. }
  assert (Hclosed : includes "}" e = false).
  { subst e. apply includes_char_append.
    - apply word_excludes; [exact Hx | reflexivity].
    - change (" | " ++ f) with (String " " (String "|" (String " " f))).
      cbn [includes startsWith]. cbn [Ascii.eqb Bool.eqb andb orb].
      exact Hbrace. }
  assert (Htrimf : trimEnd f = f).
  { subst f. rewrite trimEnd_cons, Hc0, Hf'. reflexivity. }
  assert (Htrim : trim e = e).
  { subst e. destruct (word_not_empty_cons x Hxne) as (d & x' & ->).
    simpl in Hx. apply andb_true_iff in Hx as [Hd _].
    change (String d x' ++ " | " ++ f)
      with (EmptyString ++ String d (x' ++ " | " ++ f)).
    rewrite (trim_around EmptyString d _ (is_word_not_space d Hd)).
    change (x' ++ " | " ++ f) with (x' ++ (" | " ++ String c0 f')).
    rewrite <- (string_app_assoc x' " | " (String c0 f')).
    rewrite (trimEnd_append_cons (x' ++ " | ") c0 f' Hc0), Hf'.
    rewrite string_app_assoc. reflexivity. }
  assert (Hparse : parseVariable e = Ok (VariableNode x [f])).
  { unfold parseVariable. subst e.
    change (x ++ " | " ++ f) with (x ++ " " ++ String "|" (" " ++ f)).
    rewrite <- (string_app_assoc x " " (String "|" (" " ++ f))).
    rewrite (split_char_once "|" (x ++ " ") (" " ++ f) Hxbar);
      [| change (" " ++ f) with (String " " f); cbn [includes startsWith];
         cbn [Ascii.eqb Bool.eqb andb orb]; exact Hbar].
    cbn [List.map hd tl].
    rewrite (trim_word_space x Hx).
    assert (E : trim (" " ++ f) = f).
    { unfold trim. change (trimStart (" " ++ f)) with (trimStart f).
      subst f. cbn [trimStart]. rewrite Hc0. exact Htrimf. }
    rewrite E. cbn [List.find]. rewrite Hname. reflexivity. }
  destruct (tokenize_closing a e b Ha Hla Hclosed Hb) as [p E].
  unfold render, parse.
  change (a ++ "${" ++ x ++ " | " ++ f ++ "}" ++ b)
    with (a ++ "${" ++ (x ++ (" | " ++ (f ++ ("}" ++ b))))).
  replace (x ++ (" | " ++ (f ++ ("}" ++ b)))) with (e ++ "}" ++ b)
    by (subst e; rewrite !string_app_assoc; reflexivity).
  rewrite E, Htrim.
  subst e. rewrite (filtered_token x f _ Hx Hif Hfor).
  rewrite (buildAST_text_node_text a _ b _ _ _ _ Hparse).
  rewrite evaluate_app, evaluate_text.
  change (evaluate (VariableNode x [f] :: ?l) context)
    with (match evaluateVariable x [f] context with
          | Ok s => match evaluate l context with
                    | Ok s' => Ok (s ++ s')
                    | Throw e => Throw e
                    end
          | Throw e => Throw e
          end).
  rewrite evaluate_text.
  unfold evaluateVariable, resolvePath.
  destruct (String.eqb_spec x ".") as [-> |]; [discriminate Hx |].
  rewrite (split_word "." x Hx eq_refl).
  cbn [resolve_parts Js.is_nullish Js.typeof_object Js.own_property List.length
         Nat.eqb negb andb].
  destruct (Js.assoc x context) as [v |];
    [destruct (Js.is_nullish v) |];
    destruct (apply_filters [f] _) as [r |]; reflexivity.
Qed.

Lemma printed_filtered_value (o : option val) :
  Js.toString (filtered_value o) = printed o.
Proof. destruct o as [v |]; [destruct v |]; reflexivity. Qed.

Lemma default_filter_match (d : string) :
  forallb_chars is_word d = true ->
  filter_match ("default(" ++ d ++ ")") = Some ("default", Some d).
Proof.
  intros Hd. unfold filter_match.
  change ("default(" ++ d ++ ")") with ("default" ++ String "(" (d ++ ")")).
  rewrite (span_chars_until is_word "default" "(" (d ++ ")") eq_refl eq_refl).
  cbv iota beta.
  change (String.eqb "default" EmptyString) with false.
  change (String.eqb (String "(" (d ++ ")")) EmptyString) with false. cbv iota.
  change (startsWith "(" (String "(" (d ++ ")"))) with true.
  assert (Hends : endsWith ")" (String "(" (d ++ ")")) = true).
  { unfold endsWith.
    change (rev (String "(" (d ++ ")"))) with (rev (d ++ ")") ++ "(").
    rewrite string_rev_append.
    change (rev ")") with ")". reflexivity. }
  rewrite Hends.
  assert (Hlen : (2 <=? String.length (String "(" (d ++ ")")))%nat = true).
  { cbn [String.length]. rewrite string_length_append. cbn [String.length].
    apply Nat.leb_le. lia. }
  rewrite Hlen. cbn [andb].
  assert (Hslice : slice_1_m1 (String "(" (d ++ ")")) = d).
  { unfold slice_1_m1. cbn [String.length drop]. rewrite string_length_append.
    cbn [String.length].
    replace (S (String.length d + 1) - 2)%nat with (String.length d) by lia.
    apply take_append. }
  rewrite Hslice.
  rewrite (word_excludes ")" d Hd eq_refl). reflexivity.
Qed.

(** X25: a filter is applied to the value printed as a string, a missing
    or null value being the empty string; [default] replaces a missing,
    null or empty value by its argument. *)
Theorem filters_transform_the_printed_value :
  forall (a x b : string) (context : list (string * val)),
    includes "${" a = false -> last_char a <> Some "\"%char ->
    forallb_chars is_word x = true -> x <> EmptyString ->
    x <> "if" -> x <> "foreach" ->
    includes "${" b = false ->
    let s := printed (Js.assoc x context) in
    render (a ++ "${" ++ x ++ " | uppercase}" ++ b) context
    = Ok (a ++ toUpperCase s ++ b)
    /\ render (a ++ "${" ++ x ++ " | lowercase}" ++ b) context
       = Ok (a ++ toLowerCase s ++ b)
    /\ render (a ++ "${" ++ x ++ " | trim}" ++ b) context
       = Ok (a ++ trim s ++ b)
    /\ render (a ++ "${" ++ x ++ " | capitalize}" ++ b) context
       = Ok (a ++ (toUpperCase (take 1 s) ++ toLowerCase (drop 1 s)) ++ b)
    /\ (forall d : string,
          forallb_chars is_word d = true ->
          render (a ++ "${" ++ x ++ " | default(" ++ d ++ ")}" ++ b) context
          = Ok (a ++ match Js.assoc x context with
                     | None | Some VNull | Some VUndefined => d
                     | Some (VStr t) => if String.eqb t EmptyString then d else t
                     | Some v => Js.toString v
                     end ++ b)).
Proof.
  intros a x b context Ha Hla Hx Hxne Hif Hfor Hb s.
  pose proof (fun c0 f' =>
                render_filtered a x b c0 f' context Ha Hla Hx Hxne Hif Hfor Hb)
    as Hrender.
  cbv zeta in Hrender.
  repeat match goal with |- _ /\ _ => split end.
  - change (a ++ "${" ++ x ++ " | uppercase}" ++ b)
      with (a ++ "${" ++ x ++ " | " ++ "uppercase" ++ "}" ++ b).
    rewrite (Hrender "u"%char "ppercase" eq_refl eq_refl eq_refl eq_refl eq_refl).
    change (apply_filters ["uppercase"] ?v)
      with (Ok (VStr (toUpperCase (Js.toString v)) : val)).
    cbv iota beta. cbn [Js.is_nullish Js.toString].
    rewrite printed_filtered_value. reflexivity.
  - change (a ++ "${" ++ x ++ " | lowercase}" ++ b)
      with (a ++ "${" ++ x ++ " | " ++ "lowercase" ++ "}" ++ b).
    rewrite (Hrender "l"%char "owercase" eq_refl eq_refl eq_refl eq_refl eq_refl).
    change (apply_filters ["lowercase"] ?v)
      with (Ok (VStr (toLowerCase (Js.toString v)) : val)).
    cbv iota beta. cbn [Js.is_nullish Js.toString].
    rewrite printed_filtered_value. reflexivity.
  - change (a ++ "${" ++ x ++ " | trim}" ++ b)
      with (a ++ "${" ++ x ++ " | " ++ "trim" ++ "}" ++ b).
    rewrite (Hrender "t"%char "rim" eq_refl eq_refl eq_refl eq_refl eq_refl).
    change (apply_filters ["trim"] ?v) with (Ok (VStr (trim (Js.toString v)) : val)).
    cbv iota beta. cbn [Js.is_nullish Js.toString].
    rewrite printed_filtered_value. reflexivity.
  - change (a ++ "${" ++ x ++ " | capitalize}" ++ b)
      with (a ++ "${" ++ x ++ " | " ++ "capitalize" ++ "}" ++ b).
    rewrite (Hrender "c"%char "apitalize" eq_refl eq_refl eq_refl eq_refl eq_refl).
    change (apply_filters ["capitalize"] ?v)
      with (Ok (VStr (toUpperCase (take 1 (Js.toString v))
                        ++ toLowerCase (drop 1 (Js.toString v))) : val)).
    cbv iota beta. cbn [Js.is_nullish Js.toString].
    rewrite printed_filtered_value. reflexivity.
  - intros d Hd.
    assert (Hbar : includes "|" (d ++ ")") = false)
      by (apply includes_char_append;
          [apply word_excludes; [exact Hd | reflexivity] | reflexivity]).
    assert (Hbrace : includes "}" (d ++ ")") = false)
      by (apply includes_char_append;
          [apply word_excludes; [exact Hd | reflexivity] | reflexivity]).
    assert (Hparen : includes "(" (d ++ ")") = false)
      by (apply includes_char_append;
          [apply word_excludes; [exact Hd | reflexivity] | reflexivity]).
    replace (a ++ "${" ++ x ++ " | default(" ++ d ++ ")}" ++ b)
      with (a ++ "${" ++ x ++ " | " ++ ("default(" ++ d ++ ")") ++ "}" ++ b).
    2:{ change (a ++ "${" ++ x ++ " | " ++ ("default(" ++ d ++ ")") ++ "}" ++ b)
          with (a ++ "${" ++ x ++ " | default(" ++ ((d ++ ")") ++ ("}" ++ b))).
        rewrite (string_app_assoc d ")" ("}" ++ b)). reflexivity. }
    change ("default(" ++ d ++ ")") with (String "d" ("efault(" ++ d ++ ")")).
    rewrite (Hrender "d"%char ("efault(" ++ d ++ ")") eq_refl).
    + change (String "d" ("efault(" ++ d ++ ")")) with ("default(" ++ d ++ ")").
      cbn [apply_filters]. rewrite (default_filter_match d Hd). cbv iota beta.
      assert (Hargs : hd EmptyString
                        (if String.eqb d EmptyString then []
                         else List.map trim (split "," d)) = d).
      { destruct (String.eqb_spec d EmptyString) as [-> |]; [reflexivity |].
        rewrite (split_word "," d Hd eq_refl). cbn [List.map hd].
        apply trim_word. exact Hd. }
      unfold apply_filter.
      change (String.eqb "default" "uppercase") with false.
      change (String.eqb "default" "lowercase") with false.
      change (String.eqb "default" "truncate") with false.
      change (String.eqb "default" "capitalize") with false.
      change (String.eqb "default" "trim") with false.
      change (String.eqb "default" "default") with true. cbv iota.
      rewrite Hargs.
      destruct (Js.assoc x context) as [v |]; [destruct v as [| | | | t | |] |];
        cbn [Js.is_nullish Js.toString]; try reflexivity.
      destruct (String.eqb t EmptyString); reflexivity.
    + change ("efault(" ++ d ++ ")") with ("efault(" ++ d ++ String ")" EmptyString).
      rewrite <- (string_app_assoc "efault(" d (String ")" EmptyString)).
      rewrite (trimEnd_append_cons ("efault(" ++ d) ")" EmptyString eq_refl).
      reflexivity.
    + change (String "d" ("efault(" ++ d ++ ")")) with ("default(" ++ (d ++ ")")).
      apply includes_char_append; [reflexivity | exact Hbar].
    + change (String "d" ("efault(" ++ d ++ ")")) with ("default(" ++ (d ++ ")")).
      apply includes_char_append; [reflexivity | exact Hbrace].
    + change (String "d" ("efault(" ++ d ++ ")"))
        with ("default" ++ String "(" (d ++ ")")).
      rewrite (split_char_once "(" "default" (d ++ ")") eq_refl Hparen).
      reflexivity.
Qed.

End Filters.

(* ===================================================================== *)
(** * The workflow engine *)
(* ===================================================================== *)

Section EngineFacts.
Import Engine.
Context {host : Host}.
Variable stateDir : string.
Local Open Scope list_scope.

Local Abbreviation val := (value number).
Local Abbreviation Session := (@State.WorkflowSessionState number).
Local Abbreviation path_of := (State.getSessionFilePath stateDir).

Lemma on_disk_ok {A} (m : @State.M number A) (env : Env) (a : A) d :
  m (disk env) = (Ok a, d) ->
  on_disk m env = (Done a, mkEnv (world env) d (emitted env)).
Proof. intros H. unfold on_disk. rewrite H. reflexivity. Qed.

Lemma progressed_refl (a : Session) : progressed a a [].
Proof.
  unfold progressed. rewrite app_nil_r. simpl. rewrite Z.add_0_r.
  repeat split; reflexivity.
Qed.

Lemma progressed_trans (a b c : Session) recs1 recs2 :
  progressed a b recs1 -> progressed b c recs2 -> progressed a c (recs1 ++ recs2).
Proof.
  unfold progressed.
  intros (A1 & A2 & A3 & A4 & A5 & A6 & A7 & A8 & A9 & A10)
         (B1 & B2 & B3 & B4 & B5 & B6 & B7 & B8 & B9 & B10).
  rewrite length_app, Nat2Z.inj_add, app_assoc.
  repeat split; try congruence. rewrite B10, A10. lia.
Qed.

(** The running copy of a session on a quiet disk after one more
    execution was recorded. *)
Lemma record_on_quiet_disk (sid : string) (dst : Session)
    (ex : @State.StepExecution number) (env : Env) :
  quiet env ->
  State.files (disk env) !! path_of sid State.running = Some (State.SessionFile dst) ->
  State.sessionId dst = sid -> State.status dst = State.running ->
  exists d' dst',
    State.addStepExecution stateDir sid ex (disk env) = (Ok tt, d')
    /\ (forall n, State.faults d' n = None)
    /\ State.files d' !! path_of sid State.running = Some (State.SessionFile dst')
    /\ progressed dst dst' [ex]
    /\ (forall s, s <> State.running ->
                  State.files d' !! path_of sid s
                  = State.files (disk env) !! path_of sid s).
Proof.
  intros Hq Hf Hsid Hst.
  destruct (addStepExecution_no_fault stateDir sid dst ex (disk env) Hq Hf)
    as (d' & t & Hrun & Hfiles & Hfaults).
  exists d'. eexists. split; [exact Hrun |].
  split; [intros n; rewrite Hfaults; apply Hq |].
  rewrite Hsid, Hst in Hfiles.
  split; [rewrite Hfiles; apply lookup_insert_eq |].
  split.
  - unfold progressed. simpl.
    repeat split; try reflexivity; try assumption; symmetry; assumption.
  - intros s Hs. rewrite Hfiles.
    rewrite lookup_insert_ne.
    + apply lookup_delete_ne.
      intros E. symmetry in E. exact (session_path_not_temp stateDir _ _ _ _ E).
    + intros E. apply session_path_status_inj in E. congruence.
Qed.

(** One turn of the loop of [executeSteps] on a quiet disk: the step is
    recorded in the running copy of the session, as a success or as a
    failure. *)
Lemma run_step_on_quiet_disk (step : StepExecutor.Step) (i : Z) (st dst : Session)
    (env : Env) :
  quiet env ->
  State.files (disk env) !! path_of (State.sessionId st) State.running
  = Some (State.SessionFile dst) ->
  State.sessionId dst = State.sessionId st -> State.status dst = State.running ->
  exists env' dst' rec,
    quiet env'
    /\ State.files (disk env') !! path_of (State.sessionId st) State.running
       = Some (State.SessionFile dst')
    /\ progressed dst dst' [rec]
    /\ State.stepId rec = StepExecutor.id step
    /\ (forall s, s <> State.running ->
                  State.files (disk env') !! path_of (State.sessionId st) s
                  = State.files (disk env) !! path_of (State.sessionId st) s)
    /\ ((exists r,
           run_step stateDir step i st env
           = (Done (set_currentStepIndex
                      (assign_variables st (StepExecutor.outputs r)) (i + 1)), env')
           /\ State.se_status rec = State.success
           /\ State.se_inputs rec
              = VObj (Js.assign_all (session_variables st) (StepExecutor.outputs r))
           /\ State.se_outputs rec = VObj (StepExecutor.outputs r)
           /\ emitted env'
              = emitted env
                  ++ [EvStepStarted (State.sessionId st) (StepExecutor.id step);
                      EvStepCompleted (State.sessionId st) (StepExecutor.id step)
                        (StepExecutor.outputs r)])
        \/ (exists msg,
              run_step stateDir step i st env
              = (Failed (Raised (StepExecutionError
                                   ("Step " ++ StepExecutor.id step ++ " failed: " ++ msg)
                                   "unknown-workflow" (StepExecutor.id step))), env')
              /\ State.se_status rec = State.step_failed
              /\ State.se_error rec = Some msg
              /\ State.se_inputs rec = VObj (session_variables st)
              /\ emitted env'
                 = emitted env
                     ++ [EvStepStarted (State.sessionId st) (StepExecutor.id step);
                         EvStepFailed (State.sessionId st) (StepExecutor.id step)
                           msg])).
Proof.
  intros Hq Hf Hsid Hst.
  remember (run_step stateDir step i st env) as res eqn:Hres.
  unfold run_step, bind at 1, emit at 1 in Hres.
  unfold bind at 1, try_catch at 1, in_world in Hres.
  cbn [world disk emitted] in Hres.
  destruct (StepExecutor.executeStep step (context_of st) (State.sessionId st) 0
              (world env)) as [[r | e] w1].
  - (* the step succeeded *)
    unfold bind at 1, on_disk at 1, State.new_Date at 1 in Hres.
    cbn [world disk emitted] in Hres.
    unfold bind at 1, on_disk at 1, State.new_Date at 1 in Hres.
    cbn [world disk emitted] in Hres. cbv zeta in Hres.
    match type of Hres with
    | context [bind (try_catch (on_disk (State.addStepExecution _ _ ?ex)) _) _ ?e] =>
        set (execution := ex) in Hres; set (env2 := e) in Hres
    end.
    destruct (record_on_quiet_disk (State.sessionId st) dst execution env2)
      as (d' & dst' & Hadd & Hq' & Hf' & Hprog & Hframe);
      [intros n; apply Hq | exact Hf | exact Hsid | exact Hst |].
    unfold bind at 1, try_catch at 1 in Hres.
    rewrite (on_disk_ok _ env2 tt d' Hadd) in Hres.
    unfold bind, emit, ret in Hres. cbn [world disk emitted] in Hres.
    eexists (mkEnv _ d' _). exists dst', execution.
    split; [exact Hq' |]. split; [exact Hf' |]. split; [exact Hprog |].
    split; [reflexivity |]. split; [exact Hframe |].
    left. exists r. split; [exact Hres |].
    split; [reflexivity |]. split; [| split; [reflexivity |]].
    + subst execution. cbn [State.se_inputs]. f_equal.
      unfold session_variables at 1, assign_variables, context_object.
      cbn [State.context]. rewrite assoc_assign_eq. reflexivity.
    + cbn [emitted]. subst env2. cbn [emitted]. rewrite <- app_assoc. reflexivity.
  - (* the step failed *)
    unfold record_failure in Hres.
    unfold bind at 1, on_disk at 1, State.new_Date at 1 in Hres.
    cbn [world disk emitted] in Hres.
    unfold bind at 1, on_disk at 1, State.new_Date at 1 in Hres.
    cbn [world disk emitted] in Hres. cbv zeta in Hres.
    match type of Hres with
    | context [bind (on_disk (State.addStepExecution _ _ ?ex)) _ ?e] =>
        set (execution := ex) in Hres; set (env2 := e) in Hres
    end.
    destruct (record_on_quiet_disk (State.sessionId st) dst execution env2)
      as (d' & dst' & Hadd & Hq' & Hf' & Hprog & Hframe);
      [intros n; apply Hq | exact Hf | exact Hsid | exact Hst |].
    unfold bind at 1 in Hres.
    rewrite (on_disk_ok _ env2 tt d' Hadd) in Hres.
    unfold bind, emit, throw in Hres. cbn [world disk emitted] in Hres.
    eexists (mkEnv _ d' _). exists dst', execution.
    split; [exact Hq' |]. split; [exact Hf' |]. split; [exact Hprog |].
    split; [reflexivity |]. split; [exact Hframe |].
    right. exists (error_message e). split; [exact Hres |].
    split; [reflexivity |]. split; [reflexivity |]. split; [reflexivity |].
    cbn [emitted]. subst env2. cbn [emitted]. rewrite <- app_assoc. reflexivity.
Qed.

(** Rewriting lemmas for the monad of the engine. *)
Lemma bind_done {A B} (m : E A) (k : A -> E B) env a env' :
  m env = (Done a, env') -> bind m k env = k a env'.
Proof. intros H. unfold bind. rewrite H. reflexivity. Qed.

Lemma bind_failed {A B} (m : E A) (k : A -> E B) env f env' :
  m env = (Failed f, env') -> bind m k env = (Failed f, env').
Proof. intros H. unfold bind. rewrite H. reflexivity. Qed.

Lemma try_catch_done {A} (m : E A) handler env a env' :
  m env = (Done a, env') -> try_catch m handler env = (Done a, env').
Proof. intros H. unfold try_catch. rewrite H. reflexivity. Qed.

Lemma try_catch_failed {A} (m : E A) handler env f env' :
  m env = (Failed f, env') -> try_catch m handler env = handler f env'.
Proof. intros H. unfold try_catch. rewrite H. reflexivity. Qed.

(** The events of the steps that succeeded, with their results. *)
Local Abbreviation step_events := (fun (sid : string)
    (steps : list StepExecutor.Step) (rs : list StepExecutor.StepResult) =>
  List.concat
    (List.map (fun p : StepExecutor.Step * StepExecutor.StepResult =>
                 [EvStepStarted sid (StepExecutor.id (fst p));
                  EvStepCompleted sid (StepExecutor.id (fst p))
                    (StepExecutor.outputs (snd p))])
       (combine steps rs))).

(** The loop of [executeSteps] on a quiet disk: either every step is
    recorded as a success, or the steps before the first failing one
    are, followed by the record of the failure. *)
Lemma run_steps_on_quiet_disk (steps : list StepExecutor.Step) :
  forall (i : Z) (st dst : Session) (env : Env),
  quiet env ->
  State.files (disk env) !! path_of (State.sessionId st) State.running
  = Some (State.SessionFile dst) ->
  State.sessionId dst = State.sessionId st -> State.status dst = State.running ->
  State.currentStepIndex st = i ->
  exists env' dst' recs,
    quiet env'
    /\ State.files (disk env') !! path_of (State.sessionId st) State.running
       = Some (State.SessionFile dst')
    /\ progressed dst dst' recs
    /\ (forall s, s <> State.running ->
                  State.files (disk env') !! path_of (State.sessionId st) s
                  = State.files (disk env) !! path_of (State.sessionId st) s)
    /\ ((exists st' rs,
           run_steps stateDir steps i st env = (Done st', env')
           /\ same_session st st'
           /\ State.currentStepIndex st' = i + Z.of_nat (List.length steps)
           /\ List.map State.stepId recs = List.map StepExecutor.id steps
           /\ Forall (fun r => State.se_status r = State.success) recs
           /\ List.length rs = List.length steps
           /\ emitted env'
              = emitted env ++ step_events (State.sessionId st) steps rs)
        \/ (exists k step msg oks bad rs,
              nth_error steps k = Some step
              /\ run_steps stateDir steps i st env
                 = (Failed (Raised (StepExecutionError
                                      ("Step " ++ StepExecutor.id step ++ " failed: " ++ msg)
                                      "unknown-workflow" (StepExecutor.id step))), env')
              /\ recs = oks ++ [bad]
              /\ List.map State.stepId oks = List.map StepExecutor.id (firstn k steps)
              /\ Forall (fun r => State.se_status r = State.success) oks
              /\ State.stepId bad = StepExecutor.id step
              /\ State.se_status bad = State.step_failed
              /\ State.se_error bad = Some msg
              /\ List.length rs = k
              /\ emitted env'
                 = emitted env
                     ++ step_events (State.sessionId st) (firstn k steps) rs
                     ++ [EvStepStarted (State.sessionId st) (StepExecutor.id step);
                         EvStepFailed (State.sessionId st) (StepExecutor.id step)
                           msg])).
Proof.
  induction steps as [| step rest IH]; intros i st dst env Hq Hf Hsid Hst Hi.
  - exists env, dst, []. split; [exact Hq |]. split; [exact Hf |].
    split; [apply progressed_refl |]. split; [reflexivity |].
    left. exists st, []. split; [reflexivity |].
    split; [unfold same_session; repeat split; reflexivity |].
    split; [simpl; lia |]. split; [reflexivity |]. split; [constructor |].
    split; [reflexivity |]. cbn. rewrite app_nil_r. reflexivity.
  - destruct (run_step_on_quiet_disk step i st dst env Hq Hf Hsid Hst)
      as (env1 & dst1 & rec & Hq1 & Hf1 & Hp1 & Hid & Hfr1 & Hres).
    destruct Hres as [(r & Hrun & Hs & _ & _ & Hev) | (msg & Hrun & Hs & He & _ & Hev)].
    + set (st1 := set_currentStepIndex
                    (assign_variables st (StepExecutor.outputs r)) (i + 1)) in *.
      assert (Hsid1 : State.sessionId st1 = State.sessionId st) by reflexivity.
      destruct (IH (i + 1) st1 dst1 env1) as
        (env2 & dst2 & recs & Hq2 & Hf2 & Hp2 & Hfr2 & Hres2).
      * exact Hq1.
      * rewrite Hsid1. exact Hf1.
      * rewrite Hsid1. destruct Hp1 as (-> & _). exact Hsid.
      * destruct Hp1 as (_ & _ & -> & _). exact Hst.
      * reflexivity.
      * rewrite Hsid1 in Hf2, Hfr2, Hres2.
        exists env2, dst2, ([rec] ++ recs).
        split; [exact Hq2 |]. split; [exact Hf2 |].
        split; [exact (progressed_trans _ _ _ _ _ Hp1 Hp2) |].
        split; [intros s Hs'; rewrite (Hfr2 s Hs'); apply (Hfr1 s Hs') |].
        destruct Hres2 as [(st' & rs & Hrun2 & Hsame & Hidx & Hids & Hok & Hlen & Hev2)
                          | (k & step' & msg & oks & bad & rs & Hnth & Hrun2 & Hrecs
                             & Hids & Hok & Hbid & Hbst & Hberr & Hlen & Hev2)].
        -- left. exists st', (r :: rs).
           split; [cbn [run_steps]; rewrite (bind_done _ _ _ _ _ Hrun); exact Hrun2 |].
           split; [exact Hsame |].
           split; [rewrite Hidx; cbn [List.length]; lia |].
           split; [simpl; rewrite Hid, Hids; reflexivity |].
           split; [constructor; assumption |].
           split; [cbn [List.length]; rewrite Hlen; reflexivity |].
           rewrite Hev2, Hev. cbn [combine List.map List.concat fst snd].
           rewrite <- app_assoc. reflexivity.
        -- right. exists (S k), step', msg, (rec :: oks), bad, (r :: rs).
           split; [exact Hnth |].
           split; [cbn [run_steps]; rewrite (bind_done _ _ _ _ _ Hrun); exact Hrun2 |].
           split; [rewrite Hrecs; reflexivity |].
           split; [simpl; rewrite Hid, Hids; reflexivity |].
           split; [constructor; assumption |].
           split; [exact Hbid |]. split; [exact Hbst |]. split; [exact Hberr |].
           split; [cbn [List.length]; rewrite Hlen; reflexivity |].
           rewrite Hev2, Hev. cbn [firstn combine List.map List.concat fst snd].
           rewrite <- !app_assoc. reflexivity.
    + exists env1, dst1, [rec].
      split; [exact Hq1 |]. split; [exact Hf1 |]. split; [exact Hp1 |].
      split; [exact Hfr1 |].
      right. exists 0%nat, step, msg, [], rec, [].
      split; [reflexivity |].
      split; [cbn [run_steps]; rewrite (bind_failed _ _ _ _ _ Hrun); reflexivity |].
      split; [reflexivity |]. split; [reflexivity |]. split; [constructor |].
      split; [exact Hid |]. split; [exact Hs |]. split; [exact He |].
      split; [reflexivity |]. exact Hev.
Qed.

End EngineFacts.

Section EngineRuns.
Import Engine.
Context {host : Host}.
Variable stateDir : string.
Local Open Scope list_scope.

Local Abbreviation val := (value number).
Local Abbreviation Session := (@State.WorkflowSessionState number).
Local Abbreviation path_of := (State.getSessionFilePath stateDir).

(** The context that [createSession] stores. *)
Local Abbreviation initial_context inputs :=
  [("inputs"%string, VObj inputs); ("variables"%string, VObj []);
   ("outputs"%string, VObj [])].

Local Abbreviation all_success :=
  (Forall (fun r : @State.StepExecution number => State.se_status r = State.success)).

Lemma bind_emit {B} (ev : EngineEvent) (k : unit -> E B) env :
  bind (emit ev) k env
  = k tt (mkEnv (world env) (disk env) (emitted env ++ [ev])).
Proof. reflexivity. Qed.

(** The events of the steps that succeeded, with their results. *)
Local Abbreviation step_events := (fun (sid : string)
    (steps : list StepExecutor.Step) (rs : list StepExecutor.StepResult) =>
  List.concat
    (List.map (fun p : StepExecutor.Step * StepExecutor.StepResult =>
                 [EvStepStarted sid (StepExecutor.id (fst p));
                  EvStepCompleted sid (StepExecutor.id (fst p))
                    (StepExecutor.outputs (snd p))])
       (combine steps rs))).

(** A run of [execute] on a quiet disk. *)
Lemma execute_on_quiet_disk (workflow : Workflow) (inputs : list (string * val))
    (env : Env) :
  quiet env ->
  let sid := State.uuids (disk env) (State.issued (disk env)) in
  exists env' stored recs,
    State.files (disk env') !! path_of sid State.running = None
    /\ State.sessionId stored = sid
    /\ State.workflowId stored = wf_id workflow
    /\ State.inputs stored = inputs
    /\ State.context stored = initial_context inputs
    /\ State.outputs stored = []
    /\ State.stepExecutions stored = recs
    /\ State.currentStepIndex stored = Z.of_nat (List.length recs)
    /\ ((exists ws rs,
           execute stateDir workflow inputs env = (Done ws, env')
           /\ State.files (disk env') !! path_of sid State.completed
              = Some (State.SessionFile stored)
           /\ State.status stored = State.completed
           /\ List.map State.stepId recs = List.map StepExecutor.id (wf_steps workflow)
           /\ all_success recs
           /\ ws_sessionId ws = sid
           /\ ws_workflowId ws = wf_id workflow
           /\ ws_status ws = State.running
           /\ ws_stepHistory ws = []
           /\ ws_outputs ws = []
           /\ ws_currentStepIndex ws = Z.of_nat (List.length (wf_steps workflow))
           /\ List.length rs = List.length (wf_steps workflow)
           /\ emitted env'
              = emitted env
                  ++ [EvStarted sid (wf_id workflow)]
                  ++ step_events sid (wf_steps workflow) rs
                  ++ [EvCompleted sid []])
        \/ (exists k step msg oks bad rs,
              nth_error (wf_steps workflow) k = Some step
              /\ execute stateDir workflow inputs env
                 = (Failed (WorkflowError
                              ("Workflow execution failed: Step " ++ StepExecutor.id step
                                 ++ " failed: " ++ msg)
                              (Some (wf_id workflow))), env')
              /\ State.files (disk env') !! path_of sid State.failed
                 = Some (State.SessionFile stored)
              /\ State.status stored = State.failed
              /\ recs = oks ++ [bad]
              /\ List.map State.stepId oks
                 = List.map StepExecutor.id (firstn k (wf_steps workflow))
              /\ all_success oks
              /\ State.stepId bad = StepExecutor.id step
              /\ State.se_status bad = State.step_failed
              /\ State.se_error bad = Some msg
              /\ List.length rs = k
              /\ emitted env'
                 = emitted env
                     ++ [EvStarted sid (wf_id workflow)]
                     ++ step_events sid (firstn k (wf_steps workflow)) rs
                     ++ [EvStepStarted sid (StepExecutor.id step);
                         EvStepFailed sid (StepExecutor.id step) msg;
                         EvFailed sid ("Step " ++ StepExecutor.id step
                                         ++ " failed: " ++ msg)])).
Proof.
  intros Hq sid.
  unfold execute.
  (* initialize *)
  pose proof (initialize_no_fault stateDir (disk env) Hq) as Hinit.
  rewrite (bind_done _ _ _ _ _ (on_disk_ok _ _ _ _ Hinit)).
  match goal with |- context [bind _ _ ?e] => set (env0 := e) end.
  assert (Hq0 : quiet env0) by (intros n; apply Hq).
  (* createSession *)
  destruct (createSession_no_fault stateDir (wf_id workflow) inputs (disk env0) Hq0)
    as (d1 & t0 & t1 & Hcreate & Hfiles1 & Hfaults1).
  change (State.uuids (disk env0) (State.issued (disk env0))) with sid in Hcreate, Hfiles1.
  rewrite (bind_done _ _ _ _ _ (on_disk_ok _ _ _ _ Hcreate)).
  rewrite bind_emit. cbn [world disk emitted].
  set (st0 := State.mkSession sid (wf_id workflow) State.running inputs
                (initial_context inputs) [] [] 0 t0 t1 []) in *.
  match goal with |- context [try_catch _ _ ?e] => set (env1 := e) end.
  assert (Hq1 : quiet env1) by (intros n; cbn; rewrite Hfaults1; apply Hq).
  assert (Hf1 : State.files (disk env1) !! path_of sid State.running
                = Some (State.SessionFile st0))
    by (cbn; rewrite Hfiles1; apply lookup_insert_eq).
  (* loadSession *)
  destruct (loadSession_running_no_fault stateDir sid st0 (disk env1) Hq1 Hf1)
    as (d2 & Hload & Hfiles2 & Hfaults2).
  set (env2 := mkEnv (world env1) d2 (emitted env1)).
  assert (Hq2 : quiet env2) by (intros n; cbn; rewrite Hfaults2; apply Hq1).
  assert (Hf2 : State.files (disk env2) !! path_of (State.sessionId st0) State.running
                = Some (State.SessionFile st0))
    by (cbn; rewrite Hfiles2; exact Hf1).
  assert (Hev0 : emitted env2 = emitted env ++ [EvStarted sid (wf_id workflow)])
    by reflexivity.
  (* the steps *)
  destruct (run_steps_on_quiet_disk stateDir (wf_steps workflow) 0 st0 st0 env2
              Hq2 Hf2 eq_refl eq_refl eq_refl)
    as (env3 & dst & recs & Hq3 & Hf3 & Hprog & _ & Hres).
  change (State.sessionId st0) with sid in Hf3, Hres.
  destruct Hprog as (Psid & Pwf & Pst & Pin & Pctx & Pout & Pcr & Pmeta & Precs & Pidx).
  cbn in Psid, Pwf, Pst, Pin, Pctx, Pout, Precs, Pidx.
  assert (Hsteps : forall r,
            run_steps stateDir (wf_steps workflow) 0 st0 env2 = r ->
            executeSteps stateDir workflow st0 env2 = r) by (intros r <-; reflexivity).
  destruct Hres as [(st' & rs & Hrun & Hsame & Hidx & Hids & Hok & Hlen & Hev)
                   | (k & step & msg & oks & bad & rs & Hnth & Hrun & Hrecs
                      & Hids & Hok & Hbid & Hbst & Hberr & Hlen & Hev)].
  - (* every step succeeded *)
    destruct (updateSessionStatus_no_fault stateDir sid State.completed dst (disk env3)
                Hq3 Hf3 Psid Pst ltac:(discriminate))
      as (d4 & t & Hupd & Hnew & Hold & Hfaults4).
    destruct Hsame as (S1 & S2 & S3 & S4 & S5 & S6 & _).
    cbn in S1, S2, S3, S5, S6.
    eexists (mkEnv (world env3) d4 _), _, recs.
    split; [exact Hold |].
    repeat match goal with |- _ /\ _ => split end;
      [.. | left; exists (mapToWorkflowState st'), rs].
    8:{ split.
        - rewrite (try_catch_done _ _ env1 (mapToWorkflowState st')
                     (mkEnv (world env3) d4
                        (emitted env3 ++ [EvCompleted sid (State.outputs st')])));
            [reflexivity |].
          rewrite (bind_done _ _ _ _ _ (on_disk_ok _ _ _ _ Hload)).
          fold env2.
          rewrite (bind_done _ _ _ _ _ (Hsteps _ Hrun)).
          rewrite (bind_done _ _ _ _ _ (on_disk_ok _ _ _ _ Hupd)).
          reflexivity.
        - split; [exact Hnew |]. split; [reflexivity |].
          split; [exact Hids |]. split; [exact Hok |].
          cbn [mapToWorkflowState ws_sessionId ws_workflowId ws_status
                 ws_stepHistory ws_outputs ws_currentStepIndex].
          split; [exact S1 |]. split; [exact S2 |]. split; [exact S3 |].
          split; [exact S6 |]. split; [exact S5 |]. split; [exact Hidx |].
          split; [exact Hlen |].
          cbn [emitted]. rewrite Hev, Hev0, S5. rewrite <- !app_assoc. reflexivity. }
    all: cbn; try assumption; try reflexivity.
  - (* the step of index k failed *)
    destruct (updateSessionStatus_no_fault stateDir sid State.failed dst (disk env3)
                Hq3 Hf3 Psid Pst ltac:(discriminate))
      as (d4 & t & Hupd & Hnew & Hold & Hfaults4).
    eexists (mkEnv (world env3) d4 _), _, recs.
    split; [exact Hold |].
    repeat match goal with |- _ /\ _ => split end;
      [.. | right; exists k, step, msg, oks, bad, rs].
    8:{ split; [exact Hnth |]. split.
        - rewrite (try_catch_failed (A := WorkflowState) _ _ env1 (Raised (StepExecutionError ("Step " ++ StepExecutor.id step ++ " failed: " ++ msg) "unknown-workflow" (StepExecutor.id step))) env3).
          + rewrite (bind_done _ _ _ _ _ (on_disk_ok _ _ _ _ Hupd)).
            reflexivity.
          + rewrite (bind_done _ _ _ _ _ (on_disk_ok _ _ _ _ Hload)).
            fold env2.
            rewrite (bind_failed _ _ _ _ _ (Hsteps _ Hrun)). reflexivity.
        - split; [exact Hnew |]. split; [reflexivity |].
          split; [exact Hrecs |]. split; [exact Hids |]. split; [exact Hok |].
          split; [exact Hbid |]. split; [exact Hbst |]. split; [exact Hberr |].
          split; [exact Hlen |].
          cbn [emitted failure_message error_message]. rewrite Hev, Hev0.
          rewrite <- !app_assoc. reflexivity. }
    all: cbn; try assumption; try reflexivity.
Qed.

(** X26: a workflow whose steps all succeed is stored as completed, with one
    successful execution per step, in the order of the steps, and a step
    index that counts them; the state that [execute] returns is the
    session object of the loop, which still says [running] and has no
    step history. *)
Theorem execute_records_every_step (workflow : Workflow)
    (inputs : list (string * val)) (env env' : Env) (ws : WorkflowState) :
  quiet env ->
  execute stateDir workflow inputs env = (Done ws, env') ->
  let sid := State.uuids (disk env) (State.issued (disk env)) in
  exists stored,
    State.files (disk env') !! path_of sid State.completed
    = Some (State.SessionFile stored)
    /\ State.files (disk env') !! path_of sid State.running = None
    /\ State.sessionId stored = sid
    /\ State.workflowId stored = wf_id workflow
    /\ State.status stored = State.completed
    /\ State.inputs stored = inputs
    /\ State.context stored = initial_context inputs
    /\ List.map State.stepId (State.stepExecutions stored)
       = List.map StepExecutor.id (wf_steps workflow)
    /\ all_success (State.stepExecutions stored)
    /\ State.currentStepIndex stored = Z.of_nat (List.length (wf_steps workflow))
    /\ ws_sessionId ws = sid
    /\ ws_workflowId ws = wf_id workflow
    /\ ws_status ws = State.running
    /\ ws_stepHistory ws = []
    /\ ws_currentStepIndex ws = Z.of_nat (List.length (wf_steps workflow)).
Proof.
  intros Hq Hrun sid.
  destruct (execute_on_quiet_disk workflow inputs env Hq)
    as (env1 & stored & recs & Hold & Hsid & Hwf & Hin & Hctx & Hout & Hrecs & Hidx
        & Hres).
  fold sid in Hold, Hsid, Hres.
  destruct Hres as [(ws1 & rs & Hrun1 & Hnew & Hst & Hids & Hok & W1 & W2 & W3 & W4 & W5
                     & W6 & _)
                   | (k & step & msg & oks & bad & rs & _ & Hrun1 & _)];
    rewrite Hrun in Hrun1; [| discriminate].
  injection Hrun1 as -> ->.
  exists stored. rewrite Hrecs.
  repeat split; try assumption.
  rewrite Hidx. f_equal.
  rewrite <- (length_map State.stepId recs), Hids. apply length_map.
Qed.

(** X27: a workflow whose step of index [k] fails (after its retries) is
    stored as failed, with the successful executions of the steps
    before it followed by one failed execution that holds the message,
    and a step index of [k + 1]; [execute] throws a [WorkflowError]
    that names the step and wraps the message twice. *)
Theorem execute_failure_is_recorded (workflow : Workflow)
    (inputs : list (string * val)) (env env' : Env) (f : failure) :
  quiet env ->
  execute stateDir workflow inputs env = (Failed f, env') ->
  let sid := State.uuids (disk env) (State.issued (disk env)) in
  exists k step msg stored oks bad,
    nth_error (wf_steps workflow) k = Some step
    /\ f = WorkflowError
             ("Workflow execution failed: Step " ++ StepExecutor.id step
                ++ " failed: " ++ msg)
             (Some (wf_id workflow))
    /\ State.files (disk env') !! path_of sid State.failed
       = Some (State.SessionFile stored)
    /\ State.files (disk env') !! path_of sid State.running = None
    /\ State.sessionId stored = sid
    /\ State.status stored = State.failed
    /\ State.context stored = initial_context inputs
    /\ State.stepExecutions stored = oks ++ [bad]
    /\ List.map State.stepId oks
       = List.map StepExecutor.id (firstn k (wf_steps workflow))
    /\ all_success oks
    /\ State.stepId bad = StepExecutor.id step
    /\ State.se_status bad = State.step_failed
    /\ State.se_error bad = Some msg
    /\ State.currentStepIndex stored = Z.of_nat k + 1.
Proof.
  intros Hq Hrun sid.
  destruct (execute_on_quiet_disk workflow inputs env Hq)
    as (env1 & stored & recs & Hold & Hsid & Hwf & Hin & Hctx & Hout & Hrecs & Hidx
        & Hres).
  fold sid in Hold, Hsid, Hres.
  destruct Hres as [(ws1 & rs & Hrun1 & _)
                   | (k & step & msg & oks & bad & rs & Hnth & Hrun1 & Hnew & Hst
                      & Hsplit & Hids & Hok & Hbid & Hbst & Hberr & _)];
    rewrite Hrun in Hrun1; [discriminate |].
  injection Hrun1 as -> ->.
  exists k, step, msg, stored, oks, bad.
  repeat match goal with |- _ /\ _ => split end; try assumption; try reflexivity.
  - rewrite Hrecs. exact Hsplit.
  - rewrite Hidx, Hsplit, length_app. cbn [List.length].
    assert (Hk : List.length oks = k).
    { rewrite <- (length_map State.stepId oks), Hids, length_map.
      rewrite length_firstn. apply Nat.min_l.
      apply Nat.lt_le_incl. apply nth_error_Some. rewrite Hnth. discriminate. }
    rewrite Hk. lia.
Qed.


Lemma on_disk_throw {A} (m : @State.M number A) (env : Env) (e : error) d :
  m (disk env) = (Throw e, d) ->
  on_disk m env = (Failed (Raised e), mkEnv (world env) d (emitted env)).
Proof. intros H. unfold on_disk. rewrite H. reflexivity. Qed.


(** X30: [pause] moves a session that is stored as running to the paused
    sessions and reports the step it stopped at; a session stored with
    another status stays where it is, and [pause] throws. *)
Theorem pause_only_moves_running_sessions (sid : string) (s : State.WorkflowStatus)
    (st : Session) (env : Env) :
  quiet env ->
  State.stored_only_in stateDir (disk env) sid s st ->
  exists env',
    (s = State.running ->
     exists t,
       pause stateDir sid env = (Done tt, env')
       /\ State.files (disk env') !! path_of sid State.paused
          = Some (State.SessionFile
                    (State.mkSession (State.sessionId st) (State.workflowId st)
                       State.paused (State.inputs st) (State.context st)
                       (State.outputs st) (State.stepExecutions st)
                       (State.currentStepIndex st) (State.createdAt st) t
                       (State.metadata st)))
       /\ State.files (disk env') !! path_of sid State.running = None
       /\ emitted env' = emitted env ++ [EvPaused sid (step_label st)])
    /\ (s <> State.running ->
        pause stateDir sid env
        = (Failed (WorkflowError
                     ("Cannot pause session " ++ sid ++ " with status "
                        ++ State.status_name s) None), env')
        /\ State.files (disk env') = State.files (disk env)
        /\ emitted env' = emitted env).
Proof.
  intros Hq Hstored.
  destruct (loadSession_stored_only_in stateDir sid s st (disk env) Hstored)
    as (_ & Hload).
  destruct (Hload Hq) as (d1 & Hrun).
  destruct (loadSession_spec stateDir sid _ _ _ Hrun) as (Hf1 & cs & Hext & _).
  destruct Hstored as (Hfile & Hsid & Hst & Hothers).
  assert (Hbind : forall k : Session -> E unit,
            bind (try_catch (on_disk (State.loadSession stateDir sid None))
                    (fun _ => throw (WorkflowError ("Session " ++ sid ++ " not found") None)))
              k env
            = k st (mkEnv (world env) d1 (emitted env))).
  { intros k. apply bind_done. apply try_catch_done. apply on_disk_ok. exact Hrun. }
  unfold pause. rewrite Hbind. rewrite Hst.
  assert (Hdec : s = State.running \/ s <> State.running)
    by (destruct s; (left; reflexivity) || (right; discriminate)).
  destruct Hdec as [-> | Hne].
  - cbn [State.WorkflowStatus_eqb negb].
    set (env1 := mkEnv (world env) d1 (emitted env)).
    assert (Hq1 : quiet env1).
    { intros n. cbn. destruct Hext as (_ & -> & _). apply Hq. }
    assert (Hfile1 : State.files (disk env1) !! path_of sid State.running
                     = Some (State.SessionFile st))
      by (cbn; rewrite Hf1; exact Hfile).
    destruct (updateSessionStatus_no_fault stateDir sid State.paused st (disk env1)
                Hq1 Hfile1 Hsid Hst ltac:(discriminate))
      as (d2 & t & Hupd & Hnew & Hold & _).
    rewrite (bind_done _ _ _ _ _ (on_disk_ok _ _ _ _ Hupd)).
    eexists. split; [| intros Hne; contradiction].
    intros _. exists t. split; [reflexivity |].
    split; [exact Hnew |]. split; [exact Hold | reflexivity].
  - replace (negb (State.WorkflowStatus_eqb s State.running)) with true
      by (destruct s; try reflexivity; contradiction).
    eexists. split; [intros E; contradiction |].
    intros _. split; [reflexivity |]. split; [exact Hf1 | reflexivity].
Qed.

End EngineRuns.

(* ===================================================================== *)
(** * Worked runs *)
(* ===================================================================== *)

Section StateRuns.
Import State RefHost Samples.
Local Open Scope list_scope.



Lemma deleteSession_removes_first_copy_witness :
  exists d',
    deleteSession stateDir "session-0" (one_session no_faults) = (Ok tt, d')
    /\ (forall s', files d' !! getSessionFilePath stateDir "session-0" s' = None)
    /\ forall r d'',
         loadSession stateDir "session-0" None d' = (r, d'') ->
         r = Throw (StateError "Session session-0 not found in any directory"
                      (Some "session-0") (Some op_read)).
Proof.
  pose proof (@deleteSession_removes_first_copy rnum stateDir) as (_ & _ & Honce).
  apply (Honce "session-0" running
           (with_updatedAt
              (mkSession "session-0" "wf" running []
                 [("inputs", VObj []); ("variables", VObj []); ("outputs", VObj [])]
                 [] [] 0 1000 1000 []) 1001)
           (one_session no_faults)).
  - intros n. reflexivity.
  - split; [vm_compute; reflexivity |].
    split; [reflexivity |]. split; [reflexivity |].
    intros s' Hs'. destruct s'; [contradiction | | |]; vm_compute; reflexivity.
Defined.




End StateRuns.

Section ExecutorRuns.
Import StepExecutor RefHost Samples.
Local Open Scope list_scope.

Lemma steps_never_stop_their_siblings_witness :
  exists res w',
    executeStep (loop_around [passing_validation "check"]) baseContext
      "session-123" 0 quiet_world = (Ok res, w')
    /\ shouldContinue res = true /\ nextStepIndex res = None.
Proof.
  pose proof (@steps_never_stop_their_siblings ref_host) as (_ & Hwrapped & _).
  destruct (executeStep (loop_around [passing_validation "check"]) baseContext
              "session-123" 0 quiet_world) as [[res | e] w'] eqn:Hrun.
  - exists res, w'. split; [reflexivity |].
    exact (Hwrapped _ _ _ _ _ _ _ Hrun).
  - apply (f_equal (fun p => is_ok (fst p))) in Hrun.
    vm_compute in Hrun. discriminate Hrun.
Defined.

Lemma loop_step_records_every_item_witness :
  exists res w' (outs : list (list (string * value rnum))),
    executeStepByType (loop_around [passing_validation "check"]) baseContext
      quiet_world = (Ok res, w')
    /\ List.length outs = 2%nat
    /\ outputs res
       = [("iterations",
           VArr (List.map
                   (fun x : nat * value rnum * list (string * value rnum) =>
                      VObj [("index", VNum (RDec (Z.of_nat (fst (fst x))) 0));
                            ("item", snd (fst x));
                            ("outputs", VObj (snd x))])
                   (combine [(0%nat, VStr "a"); (1%nat, VStr "b")] outs)));
          ("total_count", VNum (RDec 2 0))].
Proof.
  pose proof (@loop_step_records_every_item ref_host) as (Hshape & _).
  destruct (executeStepByType (loop_around [passing_validation "check"]) baseContext
              quiet_world) as [[res | e] w'] eqn:Hrun.
  - destruct (Hshape (loop_around [passing_validation "check"]) baseContext
                quiet_world res w' eq_refl Hrun)
      as (path & elems & outs & Hitems & Hres & Hlen & Hout).
    injection Hitems as <-.
    assert (Helems : elems = [VStr "a"; VStr "b"]).
    { change (Expr.resolveValue "items" (variables baseContext))
        with (@VArr rnum [VStr "a"; VStr "b"]) in Hres.
      injection Hres as <-. reflexivity. }
    subst elems.
    exists res, w', outs. split; [reflexivity |]. split; [exact Hlen |]. exact Hout.
  - apply (f_equal (fun p => is_ok (fst p))) in Hrun.
    vm_compute in Hrun. discriminate Hrun.
Defined.

Lemma iteration_variables_shadow_witness :
  let vs := iteration_variables [("item", VStr "outer"); ("branch", VStr "main")]
              (VStr "inner") 0 2 in
  Expr.resolveValue "item" vs = VStr "inner"
  /\ Expr.resolveValue "branch" vs = VStr "main"
  /\ Template.resolvePath "branch" vs = VStr "main".
Proof.
  destruct (@iteration_variables_shadow ref_host
              [("item", VStr "outer"); ("branch", VStr "main")] (VStr "inner") 0 2)
    as (Hitem & _ & _ & _ & _ & Hother).
  split; [exact Hitem |].
  destruct (Hother "branch") as [Hcond Htempl].
  - vm_compute. intros H. repeat (destruct H as [H | H]; [discriminate H |]). exact H.
  - split; [rewrite Hcond; reflexivity |].
    rewrite Htempl; [reflexivity | discriminate].
Defined.

Lemma script_retries_until_success_witness :
  exists w',
    executeStep (build_step (Some (policy 3 (Some 10)))) baseContext "session-123" 0
      (flaky_world 2)
    = (Ok (mkStepResult
             [("stdout", VStr "done"); ("stderr", VStr "");
              ("exitCode", VNum (RDec 0 0)); ("command", VStr "make")] true None), w')
    /\ spawned w' = 3%nat
    /\ sleeps_of (log w') = [10; 20]
    /\ attempts_of (log w') = [("build", 0); ("build", 1); ("build", 2)].
Proof.
  apply (@script_retries_until_success ref_host
           (build_step (Some (policy 3 (Some 10)))) "make" "make" baseContext
           "session-123" 3 (Some 10) 2 (flaky_world 2) (Some 0) " done " "").
  - reflexivity.
  - reflexivity.
  - discriminate.
  - vm_compute. reflexivity.
  - reflexivity.
  - lia.
  - intros j Hj. destruct j as [| [| j]]; [reflexivity | reflexivity | lia].
  - reflexivity.
  - reflexivity.
Defined.

Lemma retryOn_limits_retries_witness :
  exists w1,
    executeStep
      (failing_validation (Some (mkRetryPolicy 3 None (Some [timeout; rate_limit]))))
      baseContext "session-123" 0 quiet_world
    = (Throw (ValidationError "Validation failed: false"), w1).
Proof.
  pose proof (@retryOn_limits_retries ref_host) as (_ & _ & _ & _ & Hrethrown).
  eexists.
  apply (Hrethrown
           (failing_validation (Some (mkRetryPolicy 3 None (Some [timeout; rate_limit]))))
           (mkRetryPolicy 3 None (Some [timeout; rate_limit]))
           [timeout; rate_limit] baseContext "session-123" quiet_world).
  - reflexivity.
  - reflexivity.
  - reflexivity.
  - reflexivity.
Defined.


Lemma misconfigured_steps_fail_every_attempt_witness :
  let s := mkStep "deploy" script None None None None None None
             (Some (policy 2 (Some 10))) None in
  exists w',
    executeStep s baseContext "session-123" 0 quiet_world
    = (Throw (StepExecutionError "Script step requires command configuration"
                unknown_workflow "deploy"), w')
    /\ spawned w' = 0%nat
    /\ attempts_of (log w') = [("deploy", 0); ("deploy", 1); ("deploy", 2)]
    /\ sleeps_of (log w') = [10; 20].
Proof.
  destruct (@misconfigured_steps_fail_every_attempt ref_host
              (mkStep "deploy" script None None None None None None
                 (Some (policy 2 (Some 10))) None)
              "Script step requires command configuration")
    as (_ & _ & Hretried).
  - right. left. repeat split.
  - apply (Hretried baseContext "session-123" 2 (Some 10) quiet_world);
      [reflexivity | lia].
Defined.

Lemma conditional_step_merges_its_children_witness :
  exists merged,
    executeStepByType
      (conditional_around [passing_validation "first"; passing_validation "second"])
      baseContext quiet_world
    = (Ok (mkStepResult
             [("condition", VStr "true"); ("executed", VBool true);
              ("outputs", VObj merged)] true None), quiet_world)
    /\ Js.assoc "validated" merged = Some (VBool true).
Proof.
  destruct (@conditional_step_merges_its_children ref_host
              (conditional_around
                 [passing_validation "first"; passing_validation "second"])
              "true"
              [passing_validation "first"; passing_validation "second"]
              baseContext "true" quiet_world)
    as (_ & Htrue); try first [reflexivity | discriminate].
  destruct (Htrue eq_refl) as (Hrun & _).
  destruct (Hrun [mkStepResult [("validated", VBool true); ("condition", VStr "true")]
                    true None;
                  mkStepResult [("validated", VBool true); ("condition", VStr "true")]
                    true None] quiet_world)
    as (merged & Hres & Hmerged).
  - econstructor; [reflexivity |]. econstructor; [reflexivity |]. constructor.
  - exists merged. split; [exact Hres |]. rewrite Hmerged. reflexivity.
Defined.

End ExecutorRuns.

Section ConditionRuns.
Import JsString Expr RefHost.
Local Open Scope list_scope.

Lemma negation_covers_the_rest_witness :
  safeExpressionEvaluator "!ready == true" [("ready", VBool false)]
  = match safeExpressionEvaluator "ready == true" [("ready", VBool false)] with
    | Ok b => Ok (negb b)
    | Throw err => Throw err
    end.
Proof.
  apply (@negation_covers_the_rest ref_host "ready == true" [("ready", VBool false)]).
  reflexivity.
Defined.

Lemma conjunction_splits_first_witness :
  safeExpressionEvaluator "true || false && false" []
  = match safeExpressionEvaluator "true || false " [] with
    | Ok true => safeExpressionEvaluator " false" []
    | other => other
    end.
Proof.
  apply (@conjunction_splits_first ref_host "true || false " " false" []).
  - reflexivity.
  - discriminate.
  - reflexivity.
Defined.

(** In JavaScript [true || false && false] is [true]; here it is the
    conjunction of [true || false] and [false]. *)
Example disjunction_binds_tighter :
  @safeExpressionEvaluator ref_host "true || false && false" [] = Ok false.
Proof. vm_compute. reflexivity. Qed.

Lemma disjunction_splits_second_witness :
  safeExpressionEvaluator "a == 1 || b == 2" [("a", VStr "1")]
  = match safeExpressionEvaluator "a == 1 " [("a", VStr "1")] with
    | Ok false => safeExpressionEvaluator " b == 2" [("a", VStr "1")]
    | other => other
    end.
Proof.
  apply (@disjunction_splits_second ref_host "a == 1 " " b == 2" [("a", VStr "1")]).
  - reflexivity.
  - discriminate.
  - reflexivity.
Defined.

End ConditionRuns.

Section TemplateRuns.
Import JsString Template RefHost.
Local Open Scope list_scope.

Lemma plain_text_renders_unchanged_witness :
  render "Costs $5 {net}" [("net", VStr "unused")] = Ok "Costs $5 {net}".
Proof.
  apply (@plain_text_renders_unchanged ref_host "Costs $5 {net}" [("net", VStr "unused")]).
  reflexivity.
Defined.

Lemma escaped_delimiter_is_literal_witness :
  render "Use \${name} here" [("name", VStr "World")] = Ok "Use ${name} here".
Proof.
  apply (@escaped_delimiter_is_literal ref_host "Use " "name} here"
           [("name", VStr "World")]); reflexivity.
Defined.

Lemma unclosed_expression_is_reported_witness :
  render "Hello ${name" [("name", VStr "World")]
  = Throw (TemplateError "Unclosed template expression at position 6")
  /\ validate "Hello ${name" = (false, ["Unclosed template expression at position 6"]).
Proof.
  apply (@unclosed_expression_is_reported ref_host "Hello " "name"
           [("name", VStr "World")]).
  - reflexivity.
  - discriminate.
  - reflexivity.
Defined.

Lemma variable_is_interpolated_witness :
  render "Hello ${name}!" [("name", VStr "World")] = Ok "Hello World!".
Proof.
  apply (@variable_is_interpolated ref_host "Hello " "name" "!" [("name", VStr "World")]).
  - reflexivity.
  - discriminate.
  - reflexivity.
  - discriminate.
  - discriminate.
  - reflexivity.
Defined.

Lemma conditional_prints_body_iff_truthy_witness :
  render "${if ok}yes${endif}" [("ok", VBool true)] = Ok "yes"
  /\ render "${if ok}A${else}B${endif}" [("ok", VBool true); ("else", VStr "-")]
     = Ok "A-B"
  /\ render "${if ok}A${else}B${endif}" [("ok", VBool false)] = Ok EmptyString.
Proof.
  pose proof (@conditional_prints_body_iff_truthy ref_host) as [Hplain Hvar].
  split; [| split].
  - apply (Hplain "ok" "yes" [("ok", VBool true)]);
      [reflexivity | discriminate | reflexivity | discriminate].
  - apply (Hvar "ok" "A" "else" "B" [("ok", VBool true); ("else", VStr "-")]);
      first [reflexivity | discriminate].
  - apply (Hvar "ok" "A" "else" "B" [("ok", VBool false)]);
      first [reflexivity | discriminate].
Defined.

Lemma foreach_prints_body_per_element_witness :
  render "${foreach item in items}- ${item};${endforeach}"
    [("items", VArr [VStr "a"; VNull; VStr "b"])]
  = Ok "- a;- ;- b;".
Proof.
  apply (@foreach_prints_body_per_element ref_host "item" "items" "- " ";"
           [("items", VArr [VStr "a"; VNull; VStr "b"])]);
    first [reflexivity | discriminate].
Defined.

Lemma unbalanced_blocks_are_reported_witness :
  render "x${endif}y" [] = Throw (TemplateError "Unexpected token IF_END at position 1")
  /\ validate "x${endif}y" = (false, ["Unexpected token IF_END at position 1"])
  /\ validate "${if ok}never closed" = (false, ["Unclosed conditional block"]).
Proof.
  pose proof (@unbalanced_blocks_are_reported ref_host) as (Hstray & Hopen & _).
  destruct (Hstray "x" "y" eq_refl ltac:(discriminate) eq_refl) as [[Hr Hv] _].
  destruct (Hopen "ok" "never closed" eq_refl ltac:(discriminate) eq_refl)
    as [[_ Hv'] _].
  split; [exact (Hr []) |]. split; [exact Hv | exact Hv'].
Defined.

Lemma filters_transform_the_printed_value_witness :
  render "Hi ${name | uppercase}!" [("name", VStr "World")] = Ok "Hi WORLD!"
  /\ render "Hi ${nick | default(nobody)}!" [("name", VStr "World")]
     = Ok "Hi nobody!".
Proof.
  destruct (@filters_transform_the_printed_value ref_host "Hi " "name" "!"
              [("name", VStr "World")])
    as (Hupper & _); try first [reflexivity | discriminate].
  destruct (@filters_transform_the_printed_value ref_host "Hi " "nick" "!"
              [("name", VStr "World")])
    as (_ & _ & _ & _ & Hdefault); try first [reflexivity | discriminate].
  split; [exact Hupper | exact (Hdefault "nobody" eq_refl)].
Defined.

End TemplateRuns.

Section EngineExamples.
Import Engine RefHost Samples.
Local Open Scope list_scope.

Lemma execute_records_every_step_witness :
  exists ws env' stored,
    execute stateDir two_checks [] (env_on (fresh_disk no_faults)) = (Done ws, env')
    /\ State.files (disk env')
         !! State.getSessionFilePath stateDir "session-0" State.completed
       = Some (State.SessionFile stored)
    /\ State.status stored = State.completed
    /\ List.map State.stepId (State.stepExecutions stored) = ["first"; "second"]
    /\ State.currentStepIndex stored = 2
    /\ State.context stored
       = [("inputs", VObj []); ("variables", VObj []); ("outputs", VObj [])]
    /\ ws_status ws = State.running
    /\ ws_stepHistory ws = [].
Proof.
  destruct (execute stateDir two_checks [] (env_on (fresh_disk no_faults)))
    as [[ws | f] env'] eqn:Hrun.
  - destruct (@execute_records_every_step ref_host stateDir two_checks []
                (env_on (fresh_disk no_faults)) env' ws (fun n => eq_refl) Hrun)
      as (stored & Hfile & _ & _ & _ & Hst & _ & Hctx & Hids & _ & Hidx & _ & _ & Hws
          & Hhist & _).
    exists ws, env', stored. split; [reflexivity |]. split; [exact Hfile |].
    split; [exact Hst |]. split; [exact Hids |]. split; [exact Hidx |].
    split; [exact Hctx |]. split; [exact Hws | exact Hhist].
  - apply (f_equal (fun p => match fst p with Done _ => true | Failed _ => false end))
      in Hrun.
    vm_compute in Hrun. discriminate Hrun.
Defined.

Lemma execute_failure_is_recorded_witness :
  exists f env' k step msg stored oks bad,
    execute stateDir broken_second [] (env_on (fresh_disk no_faults)) = (Failed f, env')
    /\ nth_error [passing_validation "first"; failing_validation None;
                  passing_validation "third"] k = Some step
    /\ f = WorkflowError
             ("Workflow execution failed: Step " ++ StepExecutor.id step
                ++ " failed: " ++ msg) (Some "wf")
    /\ State.files (disk env')
         !! State.getSessionFilePath stateDir "session-0" State.failed
       = Some (State.SessionFile stored)
    /\ State.status stored = State.failed
    /\ State.stepExecutions stored = oks ++ [bad]
    /\ State.se_status bad = State.step_failed
    /\ State.se_error bad = Some msg
    /\ State.currentStepIndex stored = Z.of_nat k + 1.
Proof.
  destruct (execute stateDir broken_second [] (env_on (fresh_disk no_faults)))
    as [[ws | f] env'] eqn:Hrun.
  - apply (f_equal (fun p => match fst p with Done _ => true | Failed _ => false end))
      in Hrun.
    vm_compute in Hrun. discriminate Hrun.
  - destruct (@execute_failure_is_recorded ref_host stateDir broken_second []
                (env_on (fresh_disk no_faults)) env' f (fun n => eq_refl) Hrun)
      as (k & step & msg & stored & oks & bad & Hnth & Hf & Hfile & _ & _ & Hst & _
          & Hrecs & _ & _ & _ & Hbst & Hberr & Hidx).
    exists f, env', k, step, msg, stored, oks, bad.
    split; [reflexivity |]. split; [exact Hnth |]. split; [exact Hf |].
    split; [exact Hfile |]. split; [exact Hst |]. split; [exact Hrecs |].
    split; [exact Hbst |]. split; [exact Hberr | exact Hidx].
Defined.

(** The failing run of the workflow above: the error that [execute]
    throws, and the events it has emitted by then. *)
Example broken_second_run :
  let run := execute stateDir broken_second [] (env_on (fresh_disk no_faults)) in
  failure_message (match fst run with Done _ => Raised (Error "") | Failed f => f end)
  = "Workflow execution failed: Step retry-step failed: Validation failed: false"
  /\ List.length (emitted (snd run)) = 6%nat.
Proof. vm_compute. split; reflexivity. Qed.


(** The events of the run above. *)
Example two_checks_events :
  List.map (fun ev => match ev with
                      | EvStarted _ _ => "started"
                      | EvStepStarted _ stepId => ("stepStarted " ++ stepId)%string
                      | EvStepCompleted _ stepId _ => ("stepCompleted " ++ stepId)%string
                      | EvStepFailed _ stepId _ => ("stepFailed " ++ stepId)%string
                      | EvPaused _ _ => "paused"
                      | EvResumed _ _ => "resumed"
                      | EvCompleted _ _ => "completed"
                      | EvFailed _ _ => "failed"
                      end)
    (emitted (snd (execute stateDir two_checks [] (env_on (fresh_disk no_faults)))))
  = ["started"; "stepStarted first"; "stepCompleted first";
     "stepStarted second"; "stepCompleted second"; "completed"].
Proof. vm_compute. reflexivity. Qed.

Lemma pause_only_moves_running_sessions_witness :
  exists env' t,
    pause stateDir "session-0" (env_on (one_session no_faults)) = (Done tt, env')
    /\ State.files (disk env') !! State.getSessionFilePath stateDir "session-0" State.paused
       = Some (State.SessionFile
                 (State.mkSession "session-0" "wf" State.paused []
                    [("inputs", VObj []); ("variables", VObj []); ("outputs", VObj [])]
                    [] [] 0 1000 t []))
    /\ State.files (disk env') !! State.getSessionFilePath stateDir "session-0" State.running
       = None
    /\ emitted env' = [EvPaused "session-0" "step-0"].
Proof.
  destruct (@pause_only_moves_running_sessions ref_host stateDir "session-0"
              State.running
              (State.with_updatedAt
                 (State.mkSession "session-0" "wf" State.running []
                    [("inputs", VObj []); ("variables", VObj []); ("outputs", VObj [])]
                    [] [] 0 1000 1000 []) 1001)
              (env_on (one_session no_faults)))
    as (env' & Hmoved & _).
  - intros n. reflexivity.
  - split; [vm_compute; reflexivity |].
    split; [reflexivity |]. split; [reflexivity |].
    intros s' Hs'. destruct s'; [contradiction | | |]; vm_compute; reflexivity.
  - destruct (Hmoved eq_refl) as (t & Hrun & Hfile & Hold & Hev).
    exists env', t. split; [exact Hrun |]. split; [exact Hfile |].
    split; [exact Hold | exact Hev].
Defined.

End EngineExamples.
